(* ===== verification/_CoqProject ===== *)
-Q . S2P
Prelude.v
Errors.v
Message.v
Platform.v
Cluster.v
Fifo.v
Pair.v
Steps.v
Progress.v
UmpQueue.v
UmpQueuepair.v
UmpRace.v
Ffq.v
FfqSteps.v
SeqRing.v
Shm.v
ShmSteps.v
Swmr.v
SwmrSteps.v
SwmrProgress.v
SwmrRace.v
Queuepair.v
Channel.v
Topology.v
Generator.v
Edge.v
Context.v
Process.v
Layers.v
Runtime.v
TreeNet.v
Broadcast.v
Collective.v
Reduction.v
Barrier.v
Calls.v
Peers.v
Dissem.v
Rounds.v
Networks.v
Direct.v
Experiments.v
Mcs.v
McsLock.v
FlagBarrier.v
BarrierRun.v
Placement.v
Machines.v
Sort.v
Bench.v
