(* ===== verification/Prelude.v ===== *)
(** * Smelt: a verification library for the message-passing runtime

    Smelt connects the threads of a program by point-to-point channels arranged in a
    tree, and builds broadcasts, reductions and barriers on the tree.  This library
    models the C code of the runtime bottom up and proves what each layer promises to
    the next.  Paths below are relative to the repository.

    ** Layers and files

    - [Prelude]: integers of machine width ([wrap], [u8] .. [u64]), outcomes of C code and
      the state monad, arrays, loops, tables, flags of polling loops, tactics.
    - [Errors] ([inc/smlt_error.h]): error codes with the numbering C gives them, the
      error stack packed into 64 bits.
    - [Message] ([inc/smlt_message.h], [src/message.c]): messages and their allocation.
    - [Platform] ([inc/smlt_platform.h], [src/platforms/linux/mem.c]): the aligned
      allocator over libnuma, and the source of buffers the layers above see.
    - [Cluster] ([src/platforms/linux/platform.c]): the NUMA clusters of the machine.
    - [Fifo], [Pair]: the contract of a backend - a bounded single-producer
      single-consumer FIFO ([SpscLaws]) - and connected pairs of endpoints.
    - [UmpQueue], [UmpQueuepair] ([inc/backends/ump], [src/backends/ump]): rings of
      messages with epochs, flow control by acknowledgements.
    - [Steps], [Progress]: two threads at the ends of a pair interleaved at every shared
      access; when their calls end.
    - [UmpRace]: sends that fall inside a receive of the UMP backend, between the
      acknowledgement of a slot and the copy of its payload.
    - [Ffq] ([inc/backends/ffq], [src/backends/ffq]): FastForward rings, whose first
      payload word is the full/empty flag; [FfqSteps]: the same one word at a time.
    - [SeqRing], [Shm], [Swmr] ([src/backends/shm/shm_qp.c], [swmr_queue.c],
      [src/qp_func_wrapper.c]): rings under 64-bit sequence numbers with one reader, and
      with one writer and many readers; [ShmSteps] and [SwmrSteps]: both one word
      at a time; [SwmrProgress]: when the calls of the second end; [SwmrRace]: a reader
      that moves while the writer reads the positions.
    - [Queuepair] ([inc/smlt_queuepair.h], [src/queuepair.c]): the table of operations
      over the backends, blocking loops, creation and destruction.
    - [Channel] ([inc/smlt_channel.h], [src/channel.c]): 1:1 channels over UMP pairs and
      1:n channels over a multiple-reader queue and one UMP pair per destination.
    - [Topology] ([inc/smlt_topology.h], [src/topology.c]): node arrays, the binary tree,
      the parser of the generator's matrix, related to ordered trees ([topo_repr]).
    - [Generator] ([src/generator.c], [contrib/sim.cpp], [contrib/sim_wrapper.cpp]): the
      request to the generator service and the decoding of its JSON answer, or of a file.
    - [Edge]: what a collective may assume of a channel ([ChanOps], [TreeEdge]), with the
      proof that [smlt_channel] provides it.
    - [Context] ([inc/smlt_context.h], [src/context.c]): one channel per edge of the tree.
    - [Process]: threads that communicate over a network of channels; simulation by
      abstract threads; termination under fair schedules.
    - [Layers]: calls one after another, with messages of several calls in the same queues;
      what a thread brings to a call may depend on what its earlier calls gave it.
    - [Runtime] ([src/smlt.c], [src/node.c], [inc/smlt_node.h]): start-up, the mesh of
      channels between all nodes, communication by node id, a node's thread.
    - [TreeNet]: a context as a network.
    - [Broadcast], [Collective], [Reduction], [Barrier] ([src/broadcast.c],
      [src/reduction.c], [smlt_barrier_wait] of [src/barrier.c]): the collectives.
    - [Calls]: sequences of the collectives of a context, as a client writes them.
    - [Dissem] ([smlt_dissem_barrier_*] of [src/barrier.c]): the dissemination barrier
      over a matrix of channels.
    - [Peers]: the ring partners of dissemination barriers; [Rounds]: the progress of
      threads through the rounds of such barriers, and arrays of arrays.
    - [Networks]: two networks of channels used by the same threads; [Direct]: messages
      from one node to another among the collectives of a context; [Experiments]
      ([bench/ab-bench.c]): the workers of the benchmark of the library, which use both.
    - [Mcs], [McsLock] ([bench/diss_bar/mcs.c], [mcs.h]): the dissemination barrier and the
      queue lock over shared memory that the benchmarks compare against.
    - [FlagBarrier] ([bench/diss_bar/barrier.h], [sharedmemory.h]): the dissemination
      barrier over growing tags by which the benchmarks synchronise; [BarrierRun]
      ([run_diss] of [bench/diss_bar/barrier.c], [threads.h]): the run that measures it.
    - [Placement] ([placement] of [bench/diss_bar/barrier.c] and [bench/ab-bench-scale.c]):
      the cores the benchmarks run on.
    - [Machines] ([bench/ab-bench-opt.c]): trees of cores written down for twelve machines.
    - [Sort], [Bench] ([src/bench.c], [inc/smlt_bench.h],
      [inc/platforms/measurement_framework.h]): the sorts and statistics of the measurement
      code and its rings of samples.

    ** How the code is modelled

    Sequential C code is a function in the monad [M S A]: a state and one of the outcomes
    [Ret], [Spin] (a blocking call that cannot go on in this state), [Panic] (an
    assertion, [panic] or [COND_PANIC]) and [Undef] (undefined behaviour: an access out
    of bounds, a NULL dereference).  A structure is a record with the C field names, a
    pointer into an array the index into it, a NULL pointer [None]; unsigned arithmetic is
    reduced by [u16], [u32], [u64] where the source's type wraps.  Memory two threads
    share is a component of the state of both ends of a pair.

    The collectives are programs ([prog]): trees of channel operations with loops.  A
    system ([sys]) has one program per node and the context; a step runs one channel
    operation of one thread, an operation that spins is tried again.  Operations are
    atomic: two threads interleave between channel operations, not inside them.
    This is justified for the FastForward and the shared-memory backend: [Steps] runs
    the calls of two threads as sequences of actions, each with at most one access to
    memory the other thread writes, and the calls take effect one at a time under every
    interleaving of the actions.  It fails for the UMP backend ([UmpRace]): there a
    receive is whole only if the sender does not come round the ring meanwhile.  It fails
    for the multiple-reader queue from two readers on, because [swmr_get_next_sync] reads a
    position twice ([swmr_min_race]), and would hold if it read it once
    ([swmr_interleaved]; threads as state machines, since the writer's loop over the
    readers may start again).  The parameter [reread] of these machines says whether the
    position is read again: [true] is the code, [false] the code with one read.

    ** What is proved

    - Backends: from creation on, each direction of a pair of each backend is a bounded
      FIFO, across ring wrap-arounds and wrap-arounds of the sequence numbers
      ([ump_pair_fifo], [ffq_pair_fifo], [shm_pair_fifo]), for the last two under every
      interleaving of single accesses ([ffq_interleaved], [shm_interleaved]), FastForward calls
      being wait-free ([ffq_wait_free]) and blocking shared-memory calls ending
      ([shm_completes]); the multiple-reader queue is a
      broadcast channel ([swmr_broadcast]); refused sends succeed again once the
      receivers have caught up ([ump_drain_unblocks]), and every fair schedule of single
      accesses to the multiple-reader queue delivers everything ([swmr_completes]).
    - Composition: the same through the table of operations ([qp_fifo]) and channels
      ([chan_fifo], [chan_broadcast_round], [chan_gather]).
    - Topologies and contexts: the binary tree and every parsed matrix represent exactly
      the intended tree ([binary_topology], [parse_encode]; cores outside the tree stand
      alone), also when the matrix comes from a JSON text ([generated_topology]); which of
      the matrices in the sources are trees ([machine_topologies]); the context has one empty
      channel per edge, found from both of its ends ([context_edges]).
    - Start-up: the mesh is a FIFO for every ordered pair of nodes ([mesh_fifo]).
    - Collectives: under every schedule a broadcast delivers ([broadcast_delivers]), all
      callers of a reduce-all agree ([reduce_all_agrees]) and no caller leaves a barrier
      before all have entered ([barrier_separates], [dissem_separates]); under fair
      schedules they end, with the channels empty again.  Calls may follow one another
      without waiting: in any sequence of collectives each behaves as if it were the only
      one ([calls_in_order]), because in each by itself an end that has returned has taken
      everything sent to it ([mach_ok], [seq_ok]); the arguments of a call are functions of
      the results of the calls before it.  The same holds for collectives and messages over
      other channels ([messages_in_order]), and so for whole client programs: the five
      experiments of the benchmark, whose workers are shown to make a script of such calls
      ([makes_worker]), end with the messages their names promise ([experiments_run]).  The
      proofs use the interface [TreeEdge] only.
    - Shared memory: the MCS barrier separates ([mcs_separates]) and the MCS lock excludes
      ([mcs_lock_excludes]) under every interleaving of single accesses, without
      deadlock; the run of the flag barrier, from the creation of its workers on, is
      separated into calls and ends ([flag_barrier_run]).
    - Placements: what is chosen ([placement_cores]), and when the choice ends
      ([batch_placement_ends]).
    - Measurements: both sorts equal merge sort ([sorts_agree]); the analysis reports the
      newest samples ([bench_analysis]).
    - Limits of the code, as theorems: what a reduction really computes
      ([reduce_result]), messages that are lost, cut or overrun their slot, queues that
      stop for ever, errors that are hidden, resources that leak ([ump_send_overrun],
      [ump_copy_torn], [swmr_min_race], [swmr_send_exhausted], [context_hides_failure],
      [generator_failures], ...), a barrier that stops separating ([tag_reset_passes]).

    ** Bounds and fuel

    Loops over a counter recurse on the number of iterations ([mfor], [mfor_ret]).  A
    blocking loop of the queue layer is one attempt that yields [Spin] when the loop would
    repeat in an unchanged state; [collect] has fuel for one pass over its flags, enough
    because a pass without progress leaves the state as it was.  The polling loops of the
    collectives have no fuel: they are loops of the program, and their termination is part
    of the theorems ([staged_terminates]): a schedule in rounds in which every thread runs
    more often than the longest polling round decreases the number of remaining stages.

    The flag barrier is run with 2 to 2^30 threads, so that the distances of the partners
    are [int]s, and with the 3000 calls of the benchmark, so that the tag does not reach
    [INT_MAX].  The first loop of the placement in batches has the number of its turns as
    fuel: nodes * (cores / nodes) turns are enough if any number is.

    ** Not modelled

    - Interleavings inside an operation of the UMP backend except those of [UmpRace];
      notifications word by word; weak memory: shared accesses are sequentially
      consistent.
    - Errors printed and debug output; error strings.
    - The sizes of allocations above [Platform]: blocks at distinct addresses are taken to be
      disjoint.  For a 1:n channel, the three allocations in [smlt_channel_create] of
      arrays the model has as lists (the code does not test their results), and the
      field [trg], which the code leaves as it is.
    - In [Generator]: the repetitions of the parser loop, whose counter is never incremented,
      are one [Spin]; failures of [setsockopt] and [send], which are assertions, count as the
      network failing.
    - The vendored JSON library, except the accessors the generator's decoder calls; its
      parser and writer, the network and the environment are parameters of [Generator].
    - The platform layer above the allocator and the NUMA clusters (threads, pinning, processor
      numbers: parameters of [Runtime]), floating point (a parameter of [Bench]; the number of
      rounds of the flag barrier is taken to be the logarithm rounded up).
    - Contexts over topologies in which some cores stand alone: [Context] and the collectives
      are about trees over all nodes.
    - The other benchmark programs: some of them have the workers of [Experiments] over other
      sets of cores or with other measurements around them.  Of [bench/diss_bar] the runs that
      measure the throughput of the flag barrier, the MCS barrier and the barriers of the
      library: they repeat [run_diss] with another call in the loop.
    - The cluster functions of [src/backends/shm/shm.c], whose bodies are compiled out. *)
From stdpp Require Export base tactics option list numbers gmap relations.
From Stdlib Require Export ZArith Lia.
#[global] Open Scope Z_scope.

Create Rewrite HintDb smelt.
Create Rewrite HintDb wrap.

(** ** Machine integers

    A C unsigned integer of width [w] is a [Z] in [0, 2^w); every arithmetic
    result is reduced explicitly. *)
Definition wrap (w z : Z) : Z := z mod 2 ^ w.
Abbreviation u8 := (wrap 8).
Abbreviation u16 := (wrap 16).
Abbreviation u32 := (wrap 32).
Abbreviation u64 := (wrap 64).

Section wrap_lemmas.
Context (w : Z) (Hw : 0 < w).

Lemma wrap_bound z : 0 <= wrap w z < 2 ^ w.
Proof using Hw. apply Z.mod_pos_bound, Z.pow_pos_nonneg; lia. Qed.

Lemma wrap_small z : 0 <= z < 2 ^ w -> wrap w z = z.
Proof. apply Z.mod_small. Qed.

Lemma wrap_wrap z : wrap w (wrap w z) = wrap w z.
Proof using Hw. unfold wrap. rewrite Z.mod_mod; [done|]. apply Z.pow_nonzero; lia. Qed.

Lemma wrap_add_l a b : wrap w (wrap w a + b) = wrap w (a + b).
Proof using Hw. unfold wrap. apply Zplus_mod_idemp_l. Qed.

Lemma wrap_add_r a b : wrap w (a + wrap w b) = wrap w (a + b).
Proof using Hw. unfold wrap. apply Zplus_mod_idemp_r. Qed.

Lemma wrap_sub a b : wrap w (wrap w a - wrap w b) = wrap w (a - b).
Proof using Hw. unfold wrap. symmetry. apply Zminus_mod. Qed.

(** Two integers less than one period apart have equal images only if equal. *)
Lemma wrap_inj a b : Z.abs (a - b) < 2 ^ w -> wrap w a = wrap w b -> a = b.
Proof using Hw.
  unfold wrap. intros Hd He.
  assert (Hp : 0 < 2 ^ w) by (apply Z.pow_pos_nonneg; lia).
  pose proof (Z.div_mod a (2 ^ w) ltac:(lia)).
  pose proof (Z.div_mod b (2 ^ w) ltac:(lia)).
  assert (a / 2 ^ w = b / 2 ^ w) by nia.
  nia.
Qed.
End wrap_lemmas.

(** A value below [2 ^ k] combined with a multiple of [2 ^ k]. *)
Lemma lor_shifted a b k : 0 <= k -> 0 <= b < 2 ^ k -> Z.lor (a * 2 ^ k) b = a * 2 ^ k + b.
Proof.
  intros Hk Hb.
  assert (Hl : Z.land (a * 2 ^ k) b = 0).
  { apply Z.bits_inj'. intros n Hn. rewrite Z.land_spec, Z.bits_0.
    destruct (decide (n < k)).
    - by rewrite Z.mul_pow2_bits_low by lia.
    - rewrite <- (Z.mod_small b (2 ^ k)), Z.mod_pow2_bits_high by lia.
      apply andb_false_r. }
  rewrite <- Z.lxor_lor by done. symmetry. by apply Z.add_nocarry_lxor.
Qed.

#[export] Hint Rewrite wrap_wrap wrap_add_l wrap_add_r wrap_sub using lia : wrap.

(** Reads the constants [2 ^ w] the wrap lemmas leave behind. *)
Ltac pow_consts :=
  change (2 ^ 8) with 256 in *; change (2 ^ 16) with 65536 in *;
  change (2 ^ 32) with 4294967296 in *;
  change (2 ^ 64) with 18446744073709551616 in *.
(** [lia] modulo divisions by constants. *)
Ltac div_lia := pow_consts; Z.div_mod_to_equations; lia.
Ltac wrap_lia := autorewrite with wrap in *; pow_consts; lia.

(** ** Outcomes of C code

    A call returns a value, spins in a busy-wait loop whose condition does not
    hold in the current shared state, aborts ([assert], [panic]), or performs
    an access the C standard leaves undefined (out of range, null). *)
Inductive outcome (A : Type) : Type :=
| Ret (a : A)
| Spin
| Panic
| Undef.
Arguments Ret {A} a.
Arguments Spin {A}.
Arguments Panic {A}.
Arguments Undef {A}.

#[export] Instance outcome_eq_dec {A} `{EqDecision A} : EqDecision (outcome A).
Proof. solve_decision. Defined.

(** The state monad over outcomes: the state reached is kept on every path. *)
Definition M (S A : Type) : Type := S -> outcome A * S.

#[export] Instance M_ret {S} : MRet (M S) := fun A a s => (Ret a, s).
#[export] Instance M_bind {S} : MBind (M S) := fun A B k m s =>
  match m s with
  | (Ret a, s') => k a s'
  | (Spin, s') => (Spin, s')
  | (Panic, s') => (Panic, s')
  | (Undef, s') => (Undef, s')
  end.
#[export] Instance M_fmap {S} : FMap (M S) := fun A B f m s =>
  match m s with
  | (Ret a, s') => (Ret (f a), s')
  | (Spin, s') => (Spin, s')
  | (Panic, s') => (Panic, s')
  | (Undef, s') => (Undef, s')
  end.

Definition get {S} : M S S := fun s => (Ret s, s).
Definition gets {S A} (f : S -> A) : M S A := fun s => (Ret (f s), s).
Definition modify {S} (f : S -> S) : M S unit := fun s => (Ret tt, f s).
Definition spin {S A} : M S A := fun s => (Spin, s).
Definition panic {S A} : M S A := fun s => (Panic, s).
Definition undef {S A} : M S A := fun s => (Undef, s).
(** [assert(b)] of a build with assertions. *)
Definition assert_ {S} (b : bool) : M S unit := if b then mret tt else panic.
(** An access that is undefined when it yields [None]. *)
Definition defined {S A} (o : option A) : M S A :=
  match o with Some a => mret a | None => undef end.
(** Runs [m] on a component of the state. *)
Definition zoom {S T A} (g : S -> T) (p : T -> S -> S) (m : M T A) : M S A :=
  fun s => let '(o, t) := m (g s) in (o, p t s).

Fixpoint mfor {S} (n : nat) (i : Z) (body : Z -> M S unit) : M S unit :=
  match n with
  | O => mret tt
  | S n' => _ ← body i; mfor n' (i + 1) body
  end.

(** [for (i = i0; i < i0 + n; i++) body] where [Some a] is an early [return a]. *)
Fixpoint mfor_ret {S A} (n : nat) (i : Z) (body : Z -> M S (option A)) : M S (option A) :=
  match n with
  | O => mret None
  | S n' => o ← body i; match o with Some a => mret (Some a) | None => mfor_ret n' (i + 1) body end
  end.

Lemma bind_ret {S A B} (m : M S A) (k : A -> M S B) s a s' :
  m s = (Ret a, s') -> (m ≫= k) s = k a s'.
Proof. intros H. unfold mbind, M_bind. by rewrite H. Qed.

(** A loop whose i-th iteration takes the i-th state to the next one. *)
Lemma mfor_run_from {S} (body : Z -> M S unit) (f : nat -> S) n j :
  (forall i, (j <= i < j + n)%nat -> body (Z.of_nat i) (f i) = (Ret tt, f (Datatypes.S i))) ->
  mfor n (Z.of_nat j) body (f j) = (Ret tt, f (j + n)%nat).
Proof.
  revert j. induction n as [|n IH]; intros j Hb; simpl; [by rewrite Nat.add_0_r|].
  rewrite (bind_ret (body (Z.of_nat j)) _ _ _ _ (Hb j ltac:(lia))).
  replace (Z.of_nat j + 1) with (Z.of_nat (Datatypes.S j)) by lia.
  rewrite IH by (intros; apply Hb; lia). by rewrite Nat.add_succ_r.
Qed.

Lemma mfor_run {S} (body : Z -> M S unit) (f : nat -> S) n s s' :
  s = f 0%nat -> s' = f n ->
  (forall i, (i < n)%nat -> body (Z.of_nat i) (f i) = (Ret tt, f (Datatypes.S i))) ->
  mfor n 0 body s = (Ret tt, s').
Proof.
  intros -> -> Hb. apply (mfor_run_from body f n 0). intros. apply Hb. lia.
Qed.

(** A loop whose body keeps an invariant indexed by the iteration. *)
Lemma mfor_inv_from {S} (body : Z -> M S unit) (I : nat -> S -> Prop) n : forall j s,
  I j s ->
  (forall i s, (j <= i < j + n)%nat -> I i s ->
     exists s', body (Z.of_nat i) s = (Ret tt, s') /\ I (Datatypes.S i) s') ->
  exists s', mfor n (Z.of_nat j) body s = (Ret tt, s') /\ I (j + n)%nat s'.
Proof.
  induction n as [|n IH]; intros j s HI Hb; simpl.
  - exists s. split; [done|]. by rewrite Nat.add_0_r.
  - destruct (Hb j s ltac:(lia) HI) as (s1 & E & HI1). rewrite (bind_ret _ _ _ _ _ E).
    replace (Z.of_nat j + 1) with (Z.of_nat (Datatypes.S j)) by lia.
    rewrite Nat.add_succ_r, <- Nat.add_succ_l. apply IH; [done|]. intros i s2 Hi. apply Hb. lia.
Qed.

Lemma mfor_inv {S} (body : Z -> M S unit) (I : nat -> S -> Prop) n s :
  I 0%nat s ->
  (forall i s, (i < n)%nat -> I i s -> exists s', body (Z.of_nat i) s = (Ret tt, s') /\ I (Datatypes.S i) s') ->
  exists s', mfor n 0 body s = (Ret tt, s') /\ I n s'.
Proof.
  intros H0 Hb. apply (mfor_inv_from body I n 0 s H0). intros i s1 Hi. apply Hb. lia.
Qed.

(** The same for a loop with early returns that runs to its end. *)
Lemma mfor_ret_run {S A} (body : Z -> M S (option A)) (I : nat -> S -> Prop) n : forall j s,
  I j s ->
  (forall i s, (j <= i < j + n)%nat -> I i s ->
     exists s', body (Z.of_nat i) s = (Ret None, s') /\ I (Datatypes.S i) s') ->
  exists s', mfor_ret n (Z.of_nat j) body s = (Ret None, s') /\ I (j + n)%nat s'.
Proof.
  induction n as [|n IH]; intros j s HI Hb; simpl.
  - exists s. split; [done|]. by rewrite Nat.add_0_r.
  - destruct (Hb j s ltac:(lia) HI) as (s1 & E & HI1). rewrite (bind_ret _ _ _ _ _ E).
    replace (Z.of_nat j + 1) with (Z.of_nat (Datatypes.S j)) by lia.
    rewrite Nat.add_succ_r, <- Nat.add_succ_l. apply IH; [done|]. intros i s2 Hi. apply Hb. lia.
Qed.

(** When a loop returns, each of its iterations did. *)
Lemma mfor_ext {S} (body body' : Z -> M S unit) n : forall j s,
  (forall i s, j <= i < j + Z.of_nat n -> body i s = body' i s) -> mfor n j body s = mfor n j body' s.
Proof.
  induction n as [|n IH]; intros j s H; cbn [mfor]; [done|]. unfold mbind, M_bind. rewrite H by lia.
  destruct (body' j s) as [[?| | |] s']; try done. apply IH. intros. apply H. lia.
Qed.

Lemma mfor_ret_inv {S} (body : Z -> M S unit) n j s s' :
  mfor n j body s = (Ret tt, s') ->
  forall i, j <= i < j + Z.of_nat n -> exists s1 s2, body i s1 = (Ret tt, s2).
Proof.
  revert j s. induction n as [|n IH]; intros j s; simpl; [intros _ i ?; lia|].
  unfold mbind, M_bind. destruct (body j s) as [[[]| | |] s1] eqn:E; try done.
  intros H i Hi. destruct (decide (i = j)) as [->|]; [by exists s, s1|].
  apply (IH _ _ H). lia.
Qed.

Lemma bind_ret_inv {S A B} (m : M S A) (k : A -> M S B) s b s' :
  (m ≫= k) s = (Ret b, s') -> exists a s1, m s = (Ret a, s1) /\ k a s1 = (Ret b, s').
Proof. unfold mbind, M_bind. destruct (m s) as [[a| | |] s1]; try done. intros H. by exists a, s1. Qed.

(** Runs the first call of a sequence by the lemma [lem]. *)
Ltac run lem :=
  etransitivity; [eapply bind_ret; eapply lem; first [done | reflexivity | simpl; lia | eauto]|].

Lemma assert_run {S} (s : S) : assert_ true s = (Ret tt, s).
Proof. done. Qed.

(** Splits on the outcome of every call of the program that is being run, keeping
    the paths on which it returns. *)
Ltac out_cases :=
  repeat (simpl; match goal with
    | |- context [(if ?b then _ else _) _] => destruct b
    | |- context [match ?x with (_, _) => _ end] =>
      lazymatch x with
      | context [match _ with (_, _) => _ end] => fail
      | _ => destruct x as [[?| | |] ?]
      end
  end; try done).

(** ** C arrays: [list] with a [Z] subscript *)
Section arrays.
Context {A : Type}.

Definition arr_get (l : list A) (i : Z) : option A :=
  if decide (0 <= i) then l !! Z.to_nat i else None.

Definition arr_set (l : list A) (i : Z) (x : A) : option (list A) :=
  if decide (0 <= i < Z.of_nat (length l)) then Some (<[Z.to_nat i := x]> l) else None.

Lemma arr_get_nat (l : list A) (n : nat) : arr_get l (Z.of_nat n) = l !! n.
Proof. unfold arr_get. rewrite decide_True by lia. by rewrite Nat2Z.id. Qed.

Lemma arr_set_nat (l : list A) (n : nat) x :
  (n < length l)%nat -> arr_set l (Z.of_nat n) x = Some (<[n := x]> l).
Proof. intros. unfold arr_set. rewrite decide_True by lia. by rewrite Nat2Z.id. Qed.

Lemma arr_get_Some (l : list A) i x :
  arr_get l i = Some x <-> 0 <= i < Z.of_nat (length l) /\ l !! Z.to_nat i = Some x.
Proof.
  unfold arr_get. split.
  - case_decide; [|done]. intros H0. split; [|done].
    apply lookup_lt_Some in H0. lia.
  - intros [? ?]. by rewrite decide_True by lia.
Qed.

Lemma arr_get_is_Some (l : list A) i :
  0 <= i < Z.of_nat (length l) -> is_Some (arr_get l i).
Proof.
  intros. unfold arr_get. rewrite decide_True by lia.
  apply lookup_lt_is_Some. lia.
Qed.

Lemma arr_get_None (l : list A) i :
  arr_get l i = None <-> ~ (0 <= i < Z.of_nat (length l)).
Proof.
  unfold arr_get. case_decide; [|split; [lia|done]].
  rewrite lookup_ge_None. lia.
Qed.
End arrays.

(** ** Ring indices *)
Section ring.
Context (N : nat) (HN : (0 < N)%nat).
#[local] Open Scope nat_scope.

Lemma ring_next s :
  (S s mod N = if decide (S (s mod N) = N) then 0 else S (s mod N)) /\
  (S s / N = if decide (S (s mod N) = N) then S (s / N) else s / N).
Proof using HN.
  pose proof (Nat.div_mod_eq s N) as E.
  pose proof (Nat.mod_upper_bound s N ltac:(lia)) as B.
  case_decide as D.
  - replace (S s) with (S (s / N) * N) by nia.
    rewrite Nat.Div0.mod_mul, Nat.div_mul by lia. done.
  - assert (Es : S s = N * (s / N) + S (s mod N)) by lia.
    assert (Bs : S (s mod N) < N) by lia. split.
    + symmetry. by apply (Nat.mod_unique _ _ (s / N)).
    + symmetry. by apply (Nat.div_unique _ _ _ (S (s mod N))).
Qed.

Lemma ring_lt s : s mod N < N.
Proof using HN. apply Nat.mod_upper_bound. lia. Qed.

(** Two indices less than one period apart occupy different slots. *)
Lemma ring_distinct i j : i < j -> j < i + N -> i mod N <> j mod N.
Proof using HN.
  intros. pose proof (Nat.div_mod_eq i N). pose proof (Nat.div_mod_eq j N).
  intros E. destruct (decide (i / N < j / N)) as [D|D]; nia.
Qed.

Lemma ring_inj i j s :
  s <= i + N -> s <= j + N -> i < s -> j < s -> i mod N = j mod N -> i = j.
Proof using HN.
  intros. destruct (decide (i = j)) as [|D]; [done|exfalso].
  destruct (decide (i < j)).
  - by apply (ring_distinct i j); lia.
  - by apply (ring_distinct j i); lia.
Qed.

Lemma ring_add_period i : (i + N) mod N = i mod N /\ (i + N) / N = S (i / N).
Proof using HN.
  replace (i + N) with (i + 1 * N) by lia.
  rewrite Nat.Div0.mod_add, Nat.div_add by lia. lia.
Qed.
End ring.

(** ** Lists *)
Lemma lookup_snoc_lt {A} (l : list A) x i :
  (i < length l)%nat -> (l ++ [x]) !! i = l !! i.
Proof. apply lookup_app_l. Qed.

Lemma lookup_snoc_eq {A} (l : list A) x : (l ++ [x]) !! length l = Some x.
Proof. by apply list_lookup_middle. Qed.

Lemma drop_lookup_cons {A} (l : list A) n x :
  l !! n = Some x -> drop n l = x :: drop (S n) l.
Proof. intros H. by apply drop_S. Qed.

Lemma some_pair_inj {A B} (a x : A) (b y : B) : Some (a, b) = Some (x, y) -> a = x /\ b = y.
Proof. by intros [= -> ->]. Qed.

(** The list [f 0, ..., f (n - 1)]. *)
Definition tab {A} (n : nat) (f : nat -> A) : list A := f <$> seq 0 n.

Section tab.
Context {A : Type}.
Implicit Types f g : nat -> A.

Lemma length_tab n f : length (tab n f) = n.
Proof. unfold tab. by rewrite length_fmap, length_seq. Qed.

Lemma lookup_tab n f i : (i < n)%nat -> tab n f !! i = Some (f i).
Proof. intros. unfold tab. rewrite list_lookup_fmap, lookup_seq_lt by done. done. Qed.

Lemma lookup_tab_Some n f i x : tab n f !! i = Some x <-> (i < n)%nat /\ x = f i.
Proof.
  split.
  - intros H. assert (i < n)%nat by (rewrite <- (length_tab n f); by eapply lookup_lt_Some).
    rewrite lookup_tab in H by done. naive_solver.
  - intros [? ->]. by apply lookup_tab.
Qed.

Lemma arr_get_tab n f i : (i < n)%nat -> arr_get (tab n f) (Z.of_nat i) = Some (f i).
Proof. intros. rewrite arr_get_nat. by apply lookup_tab. Qed.

Lemma tab_ext n f g : (forall i, (i < n)%nat -> f i = g i) -> tab n f = tab n g.
Proof.
  intros H. apply list_eq_same_length with n; rewrite ?length_tab; [done..|].
  intros i x y Hi. rewrite !lookup_tab by done. intros [= <-] [= <-]. by apply H.
Qed.

Lemma tab_insert n f i x :
  <[i := x]> (tab n f) = tab n (fun j => if decide (j = i) then x else f j).
Proof.
  apply list_eq_same_length with n; rewrite ?length_insert, ?length_tab; [done..|].
  intros j a b Hj. rewrite (lookup_tab n _ j Hj). intros Ha [= <-].
  case_decide as D.
  - subst. rewrite list_lookup_insert_eq in Ha by (by rewrite length_tab). by injection Ha.
  - rewrite list_lookup_insert_ne in Ha by congruence. rewrite lookup_tab in Ha by done. congruence.
Qed.

Lemma tab_const n (x : A) : tab n (fun _ => x) = replicate n x.
Proof.
  apply list_eq_same_length with n; rewrite ?length_tab, ?length_replicate; [done..|].
  intros i a b Hi. rewrite lookup_tab, lookup_replicate_2 by done. congruence.
Qed.
End tab.

Lemma concat_tab {A} n m (f : nat -> nat -> A) :
  (0 < m)%nat -> concat (tab n (fun x => tab m (f x))) = tab (n * m) (fun i => f (i / m) (i mod m))%nat.
Proof.
  intros Hm. induction n as [|n IH]; [done|]. replace (S n * m)%nat with (n * m + m)%nat by lia.
  unfold tab at 1 3. rewrite seq_S, seq_app, !fmap_app, concat_app. fold (tab n (fun x => tab m (f x))). rewrite IH. f_equal.
  simpl. rewrite app_nil_r. apply list_eq_same_length with m; [by rewrite length_fmap, length_seq|apply length_tab|].
  intros i x y Hi. rewrite lookup_tab, list_lookup_fmap, lookup_seq_lt by done. simpl. intros [= <-] [= <-].
  rewrite Nat.div_add_l, Nat.div_small, Nat.add_0_r, (Nat.add_comm (n * m)), Nat.Div0.mod_add, Nat.mod_small by lia. done.
Qed.

(** Finite sums. *)
Fixpoint sum_upto (n : nat) (f : nat -> nat) : nat :=
  match n with O => 0%nat | S n' => (sum_upto n' f + f n')%nat end.

Lemma sum_upto_ext n f g : (forall i, (i < n)%nat -> f i = g i) -> sum_upto n f = sum_upto n g.
Proof. induction n as [|n IH]; intros H; simpl; [done|]. rewrite IH, H by auto with lia. done. Qed.

Lemma sum_upto_le n f g : (forall i, (i < n)%nat -> (f i <= g i)%nat) -> (sum_upto n f <= sum_upto n g)%nat.
Proof.
  induction n as [|n IH]; intros H; simpl; [lia|].
  pose proof (H n ltac:(lia)). assert (sum_upto n f <= sum_upto n g)%nat by auto with lia. lia.
Qed.

(** Decreasing one summand decreases the sum. *)
Lemma sum_upto_lt n f g i :
  (i < n)%nat -> (f i < g i)%nat -> (forall j, (j < n)%nat -> j <> i -> f j = g j) ->
  (sum_upto n f < sum_upto n g)%nat.
Proof.
  induction n as [|n IH]; intros Hi Hlt H; simpl; [lia|].
  destruct (decide (i = n)) as [->|D].
  - rewrite (sum_upto_ext n f g) by (intros; apply H; lia). lia.
  - rewrite H by lia. assert (sum_upto n f < sum_upto n g)%nat by (apply IH; [lia|done|auto with lia]). lia.
Qed.

(** Every state reachable from a state satisfying an inductive invariant
    satisfies it. *)
Lemma rtc_invariant {A} (R : relation A) (I : A -> Prop) x y :
  (forall a b, I a -> R a b -> I b) -> rtc R x y -> I x -> I y.
Proof. intros HI. induction 1; eauto. Qed.

(** ** Word-copying loops

    [for (i = i0; i < i0 + n; i++) dst[i] = src[i];], undefined when an index is
    out of the range of either array. *)
Fixpoint copy_words (src : list Z) (n : nat) (i : Z) (dst : list Z) : option (list Z) :=
  match n with
  | O => Some dst
  | S n' =>
      match arr_get src i with
      | None => None
      | Some x =>
          match arr_set dst i x with
          | None => None
          | Some dst' => copy_words src n' (i + 1) dst'
          end
      end
  end.

Lemma copy_words_from src dst n i :
  (i + n <= length src)%nat -> (i + n <= length dst)%nat ->
  copy_words src n (Z.of_nat i) dst =
    Some (take i dst ++ take n (drop i src) ++ drop (i + n) dst).
Proof.
  revert i dst. induction n as [|n IH]; intros i dst Hs Hd; simpl.
  - by rewrite Nat.add_0_r, take_drop.
  - destruct (lookup_lt_is_Some_2 src i) as [x Hx]; [lia|].
    rewrite arr_get_nat, Hx, arr_set_nat by lia.
    replace (Z.of_nat i + 1) with (Z.of_nat (S i)) by lia.
    rewrite IH by (rewrite ?length_insert; lia). f_equal.
    rewrite (drop_S src x i Hx). simpl.
    rewrite (take_S_r _ _ x) by (apply list_lookup_insert_eq; lia).
    rewrite take_insert_ge by lia. rewrite drop_insert_lt by lia.
    rewrite <- app_assoc. simpl. do 3 f_equal. by rewrite Nat.add_succ_r.
Qed.

Lemma copy_words_spec src dst n :
  (n <= length src)%nat -> (n <= length dst)%nat ->
  copy_words src n 0 dst = Some (take n src ++ drop n dst).
Proof. intros. change 0 with (Z.of_nat 0). by rewrite copy_words_from. Qed.

Lemma copy_words_overrun src dst n i :
  (i <= length src)%nat -> (i <= length dst)%nat ->
  (length src < i + n \/ length dst < i + n)%nat ->
  copy_words src n (Z.of_nat i) dst = None.
Proof.
  revert i dst. induction n as [|n IH]; intros i dst Hs Hd Ho; simpl; [lia|].
  destruct (arr_get src (Z.of_nat i)) as [x|] eqn:Ex; [|done].
  apply arr_get_Some in Ex. destruct Ex as [? _].
  destruct (decide (i < length dst)%nat).
  - rewrite arr_set_nat by lia.
    replace (Z.of_nat i + 1) with (Z.of_nat (S i)) by lia.
    apply IH; rewrite ?length_insert; lia.
  - unfold arr_set. by rewrite decide_False by lia.
Qed.

(** The loop reads only the words it copies. *)
Lemma copy_words_take src dst n i :
  copy_words (take (i + n) src) n (Z.of_nat i) dst = copy_words src n (Z.of_nat i) dst.
Proof.
  revert i dst. induction n as [|n IH]; intros i dst; simpl; [done|].
  rewrite !arr_get_nat, lookup_take_lt by lia. destruct (src !! i) as [x|]; [|done].
  destruct (arr_set dst (Z.of_nat i) x); [|done].
  replace (Z.of_nat i + 1) with (Z.of_nat (S i)) by lia.
  rewrite <- IH. by rewrite Nat.add_succ_r.
Qed.

(** ** Flags

    How many of the flags of a polling loop are still down. *)
Definition unserved (recv : list bool) : nat := length (filter (fun b => b = false) recv).

Lemma unserved_take recv i :
  recv !! i = Some false -> (unserved recv = S (unserved (<[i := true]> recv)))%nat.
Proof.
  intros H. unfold unserved. pose proof (lookup_lt_Some _ _ _ H).
  rewrite <- (take_drop_middle _ _ _ H) at 1. rewrite insert_take_drop by done.
  rewrite !filter_app, !length_app, filter_cons_True, filter_cons_False by done. simpl. lia.
Qed.

Lemma unserved_none k : unserved (replicate k false) = k.
Proof. induction k as [|k IH]; [done|]. unfold unserved in *. simpl. by rewrite IH. Qed.

Lemma unserved_le recv : (unserved recv <= length recv)%nat.
Proof. unfold unserved. apply length_filter. Qed.

Lemma unserved_pos recv i : recv !! i = Some false -> (0 < unserved recv)%nat.
Proof. intros H. rewrite (unserved_take _ _ H). lia. Qed.

Lemma unserved_zero recv i b : unserved recv = 0%nat -> recv !! i = Some b -> b = true.
Proof. intros H0 Hi. destruct b; [done|]. apply unserved_pos in Hi. lia. Qed.

(** The first flag that is down. *)
Definition first_unserved (recv : list bool) : nat :=
  default 0%nat (fst <$> list_find (fun b => b = false) recv).

Lemma first_unserved_spec recv : (0 < unserved recv)%nat -> recv !! first_unserved recv = Some false.
Proof.
  intros H. unfold first_unserved. destruct (list_find (fun b => b = false) recv) as [[j b]|] eqn:E.
  - apply list_find_Some in E as (E & -> & _). done.
  - apply list_find_None in E. exfalso. unfold unserved in H.
    assert (filter (fun b => b = false) recv = []) as E0; [|rewrite E0 in H; simpl in H; lia].
    induction recv as [|b recv IH]; [done|]. apply Forall_cons in E as [Hb E].
    rewrite filter_cons_False in H |- * by done. by apply IH.
Qed.
