(* ===== verification/Errors.v ===== *)
(** Error values ([inc/smlt_error.h]): the enumeration of error codes with the
    numbering the C compiler gives it, and the error stack packed ten bits per
    code into a 64-bit [errval_t]. *)
From S2P Require Import Prelude.

Inductive smlt_err_code :=
| SMLT_SUCCESS | SMLT_ERR_NODE_INVALD | SMLT_ERR_INIT | SMLT_ERR_MALLOC_FAIL
| SMLT_ERR_INVAL | SMLT_ERR_BAD_ALIGNMENT | SMLT_ERR_PLATFORM_INIT
| SMLT_ERR_TOPOLOGY_INIT | SMLT_ERR_GENERATOR
| SMLT_ERR_NODE_START | SMLT_ERR_NODE_CREATE | SMLT_ERR_NODE_JOIN
| SMLT_ERR_ALLOC_UMP | SMLT_ERR_ALLOC_FFQ | SMLT_ERR_ALLOC_SHM
| SMLT_ERR_DESTROY_UMP | SMLT_ERR_DESTROY_FFQ | SMLT_ERR_DESTRYO_SHM
| SMLT_ERR_SHM_INIT
| SMLT_ERR_CHAN_CREATE | SMLT_ERR_CHAN_DESTROY | SMLT_ERR_CHAN_WOULD_BLOCK
| SMLT_ERR_QUEUE_RECV | SMLT_ERR_QUEUE_SEND | SMLT_ERR_QUEUE_STATE
| SMLT_ERR_QUEUE_EMPTY | SMLT_ERR_QUEUE_FULL | SMLT_ERR_QUEUE_PREPARE
| SMLT_ERR_QUEUE_INIT
| SMLT_ERR_SEND | SMLT_ERR_NOTIFY | SMLT_ERR.

#[export] Instance smlt_err_code_eq_dec : EqDecision smlt_err_code.
Proof. solve_decision. Defined.

(** Enumerators in declaration order, with the initialiser where one is
    written. *)
Definition enum_decl : list (smlt_err_code * option Z) :=
  [ (SMLT_SUCCESS, Some 0); (SMLT_ERR_NODE_INVALD, Some 1); (SMLT_ERR_INIT, Some 2);
    (SMLT_ERR_MALLOC_FAIL, Some 3); (SMLT_ERR_INVAL, Some 4);
    (SMLT_ERR_BAD_ALIGNMENT, None); (SMLT_ERR_PLATFORM_INIT, None);
    (SMLT_ERR_TOPOLOGY_INIT, None); (SMLT_ERR_GENERATOR, None);
    (SMLT_ERR_NODE_START, Some 5); (SMLT_ERR_NODE_CREATE, Some 6);
    (SMLT_ERR_NODE_JOIN, Some 7);
    (SMLT_ERR_ALLOC_UMP, None); (SMLT_ERR_ALLOC_FFQ, None); (SMLT_ERR_ALLOC_SHM, None);
    (SMLT_ERR_DESTROY_UMP, None); (SMLT_ERR_DESTROY_FFQ, None);
    (SMLT_ERR_DESTRYO_SHM, None);
    (SMLT_ERR_SHM_INIT, Some 8);
    (SMLT_ERR_CHAN_CREATE, None); (SMLT_ERR_CHAN_DESTROY, None);
    (SMLT_ERR_CHAN_WOULD_BLOCK, None);
    (SMLT_ERR_QUEUE_RECV, None); (SMLT_ERR_QUEUE_SEND, None);
    (SMLT_ERR_QUEUE_STATE, None); (SMLT_ERR_QUEUE_EMPTY, None);
    (SMLT_ERR_QUEUE_FULL, None); (SMLT_ERR_QUEUE_PREPARE, None);
    (SMLT_ERR_QUEUE_INIT, None);
    (SMLT_ERR_SEND, None); (SMLT_ERR_NOTIFY, None); (SMLT_ERR, None) ].

(** An enumerator without initialiser is one more than its predecessor. *)
Fixpoint enum_values (prev : Z) (l : list (smlt_err_code * option Z))
  : list (smlt_err_code * Z) :=
  match l with
  | [] => []
  | (c, o) :: l' => let v := default (prev + 1) o in (c, v) :: enum_values v l'
  end.

Fixpoint enum_lookup (c : smlt_err_code) (l : list (smlt_err_code * Z)) : Z :=
  match l with
  | [] => 0
  | (c', v) :: l' => if decide (c = c') then v else enum_lookup c l'
  end.

Definition err_value (c : smlt_err_code) : Z := enum_lookup c (enum_values (-1) enum_decl).

Definition smlt_err_no (errval : Z) : Z := Z.land errval (Z.shiftl 1 10 - 1).
Definition smlt_err_is_fail (errval : Z) : bool :=
  negb (smlt_err_no errval =? err_value SMLT_SUCCESS).
Definition smlt_err_is_ok (errval : Z) : bool :=
  smlt_err_no errval =? err_value SMLT_SUCCESS.
Definition smlt_err_push (errval : Z) (errcode : smlt_err_code) : Z :=
  Z.lor (u64 (Z.shiftl errval 10)) (Z.land 1023 (err_value errcode)).

(** The [k] most recent codes of the stack. *)
Fixpoint err_trace (k : nat) (errval : Z) : list Z :=
  match k with
  | O => []
  | S k' => smlt_err_no errval :: err_trace k' (Z.shiftr errval 10)
  end.

Lemma err_value_range c : 0 <= err_value c < 22.
Proof. destruct c; vm_compute; split; congruence. Qed.

Lemma err_no_mod e : smlt_err_no e = e mod 1024.
Proof. unfold smlt_err_no. change (Z.shiftl 1 10 - 1) with (Z.ones 10). by rewrite Z.land_ones. Qed.

(** Pushing shifts the stack by one digit of base 1024, in 64 bits. *)
Lemma err_push_arith e c :
  smlt_err_push e c = (e mod 2 ^ 54) * 1024 + err_value c.
Proof.
  unfold smlt_err_push. pose proof (err_value_range c).
  replace (Z.land 1023 (err_value c)) with (err_value c).
  2: { rewrite Z.land_comm. change 1023 with (Z.ones 10).
       rewrite Z.land_ones by lia. rewrite Z.mod_small; lia. }
  replace (u64 (Z.shiftl e 10)) with ((e mod 2 ^ 54) * 2 ^ 10).
  2: { rewrite Z.shiftl_mul_pow2 by lia. unfold wrap.
       change (2 ^ 64) with (2 ^ 54 * 2 ^ 10). by rewrite Z.mul_mod_distr_r. }
  rewrite lor_shifted by lia. lia.
Qed.

Lemma err_push_no e c : smlt_err_no (smlt_err_push e c) = err_value c.
Proof.
  rewrite err_no_mod, err_push_arith. pose proof (err_value_range c).
  rewrite Z.add_comm, Z.mod_add by lia. apply Z.mod_small. lia.
Qed.

Lemma err_trace_mod k e m :
  (k <= m)%nat -> err_trace k (e mod 2 ^ (10 * Z.of_nat m)) = err_trace k e.
Proof.
  revert e m. induction k as [|k IH]; intros e m Hm; [done|]. simpl. f_equal.
  - rewrite !err_no_mod. change 1024 with (2 ^ 10).
    replace (10 * Z.of_nat m) with (10 + 10 * (Z.of_nat m - 1)) by lia.
    rewrite Z.pow_add_r by lia. rewrite Z.rem_mul_r by lia.
    rewrite (Z.mul_comm (2 ^ 10)), Z.mod_add, Z.mod_mod by lia. done.
  - destruct m as [|m]; [lia|].
    rewrite <- (IH (Z.shiftr e 10) m) by lia. f_equal.
    rewrite !Z.shiftr_div_pow2 by lia.
    replace (10 * Z.of_nat (S m)) with (10 + 10 * Z.of_nat m) by lia.
    rewrite Z.pow_add_r by lia. rewrite Z.rem_mul_r by lia.
    rewrite (Z.mul_comm (2 ^ 10)), Z.div_add by lia.
    rewrite (Z.div_small (e mod 2 ^ 10)) by (apply Z.mod_pos_bound; lia). lia.
Qed.

(** The error value is a stack: after a push the latest code is the pushed
    one, and the up to five codes below it are the codes the value held before
    (a sixth and older code falls off the 64-bit value). *)
Lemma smlt_err_push_trace e c k :
  (k <= 5)%nat ->
  err_trace (S k) (smlt_err_push e c) = err_value c :: err_trace k e.
Proof.
  intros Hk. simpl. rewrite err_push_no. f_equal.
  rewrite err_push_arith, Z.shiftr_div_pow2 by lia. pose proof (err_value_range c).
  rewrite Z.add_comm, Z.div_add, Z.div_small, Z.add_0_l by lia.
  rewrite <- (err_trace_mod k e 5) by lia.
  rewrite <- (err_trace_mod k (e mod 2 ^ 54) 5) by lia.
  f_equal. change (2 ^ 54) with (2 ^ (10 * Z.of_nat 5) * 2 ^ 4).
  rewrite Z.rem_mul_r by lia.
  rewrite (Z.mul_comm (2 ^ (10 * Z.of_nat 5))), Z.mod_add, Z.mod_mod by lia. done.
Qed.


Lemma err_is_fail_ok e : smlt_err_is_fail e = negb (smlt_err_is_ok e).
Proof. done. Qed.

Lemma err_is_fail_value c : smlt_err_is_fail (err_value c) = bool_decide (c <> SMLT_SUCCESS).
Proof. by destruct c. Qed.

Lemma err_is_fail_push e c :
  smlt_err_is_fail (smlt_err_push e c) = bool_decide (c <> SMLT_SUCCESS).
Proof.
  unfold smlt_err_is_fail. rewrite err_push_no. by destruct c.
Qed.
#[export] Hint Rewrite err_is_fail_value err_is_fail_push : smelt.
