(* ===== verification/Message.v ===== *)
(** Messages ([inc/smlt_message.h], [src/message.c]): a length in words, the
    buffer size in bytes and the payload buffer.  The buffer is the list of the
    64-bit words that lie wholly inside the [bufsize] allocated bytes. *)
From S2P Require Import Prelude.

Definition SMELT_MESSAGE_MIN_SIZE : Z := 56.
Definition sizeof_uintptr_t : Z := 8.

Record smlt_msg := Msg {
  words : Z;         (** uint32_t *)
  bufsize : Z;       (** uint32_t *)
  msg_data : list Z; (** smlt_msg_payload_t * *)
}.

#[export] Instance smlt_msg_eq_dec : EqDecision smlt_msg.
Proof. solve_decision. Defined.

Section alloc.
(** Whether the allocator returns a buffer of so many bytes (not NULL). *)
Context (alloc : Z -> bool).

Definition sizeof_smlt_msg : Z := 16.

Definition smlt_message_alloc (size0 : Z) : outcome smlt_msg :=
  let size := if size0 <? SMELT_MESSAGE_MIN_SIZE then SMELT_MESSAGE_MIN_SIZE else size0 in
  if negb (alloc sizeof_smlt_msg) then Panic else
  let w := size / sizeof_uintptr_t in
  let w := if negb (size mod sizeof_uintptr_t =? 0) then u32 (w + 1) else w in
  if negb (alloc size) then Panic else
  Ret (Msg w size (replicate (Z.to_nat (size / 8)) 0)).

Definition smlt_message_alloc_no_buffer : outcome smlt_msg :=
  if negb (alloc sizeof_smlt_msg) then Panic else Ret (Msg 0 0 []).
End alloc.

(** Frees the buffer and the structure, given by address; the NULL buffer of a message
    allocated without one is handed to [smlt_platform_free] as well. *)
Definition smlt_message_free {S} (platform_free : option Z -> M S unit) (msg : option (Z * option Z))
  : M S unit :=
  match msg with
  | Some (p, data) => _ ← platform_free data; platform_free (Some p)
  | None => mret tt
  end.

Definition smlt_message_get_data (m : smlt_msg) : list Z := msg_data m.
Definition smlt_message_set_data (m : smlt_msg) (data : list Z) (w size : Z) : smlt_msg :=
  Msg w size data.
Definition smlt_msg_set_length (m : smlt_msg) (w : Z) : smlt_msg :=
  Msg w (bufsize m) (msg_data m).
Definition smlt_message_length_words (m : smlt_msg) : Z := words m.
Definition smlt_message_length_bytes (m : smlt_msg) : Z := u32 (words m * 8).

(** The words a transfer touches lie inside the buffer. *)
Definition msg_wf (m : smlt_msg) : Prop :=
  0 <= words m <= Z.of_nat (length (msg_data m)).

(** The messages the queue backends carry in one slot: exactly [w] words. *)
Definition msg_of (l : list Z) : smlt_msg :=
  Msg (Z.of_nat (length l)) (8 * Z.of_nat (length l)) l.
Definition msg_buf (w : nat) : smlt_msg :=
  Msg (Z.of_nat w) (8 * Z.of_nat w) (replicate w 0).

Lemma msg_of_wf l : msg_wf (msg_of l).
Proof. unfold msg_wf, msg_of; simpl; lia. Qed.

Lemma msg_buf_wf w : msg_wf (msg_buf w).
Proof. unfold msg_wf, msg_buf; simpl. rewrite length_replicate. lia. Qed.
#[export] Hint Resolve msg_of_wf msg_buf_wf : core.

(** An allocated message always has room for one full cache-line message
    (7 words); its word count covers the requested bytes, and every counted word
    lies inside the buffer exactly when the buffer is a whole number of words. *)
Lemma smlt_message_alloc_spec alloc size m :
  0 <= size < 2 ^ 32 ->
  smlt_message_alloc alloc size = Ret m ->
  (7 <= length (msg_data m))%nat /\
  size <= bufsize m <= 8 * words m /\
  (msg_wf m <-> size < SMELT_MESSAGE_MIN_SIZE \/ size mod 8 = 0).
Proof.
  intros Hs. unfold smlt_message_alloc.
  destruct (negb (alloc sizeof_smlt_msg)); [done|].
  set (n := if size <? SMELT_MESSAGE_MIN_SIZE then SMELT_MESSAGE_MIN_SIZE else size).
  destruct (negb (alloc n)); [done|]. intros [= <-].
  unfold msg_wf, sizeof_uintptr_t, SMELT_MESSAGE_MIN_SIZE in *. simpl.
  rewrite length_replicate.
  assert (Hn : n = if size <? 56 then 56 else size) by done.
  assert (Hb : 0 <= n / 8 + 1 < 2 ^ 32).
  { destruct (Z.ltb_spec size 56); subst n; div_lia. }
  rewrite (wrap_small 32 _ Hb). clearbody n.
  destruct (Z.ltb_spec size 56), (Z.eqb_spec (n mod 8) 0); simpl; subst; div_lia.
Qed.

