(* ===== verification/Platform.v ===== *)
(** Platform layer ([src/platforms/linux/mem.c], [inc/smlt_platform.h]): the
    aligned allocator built on libnuma, byte for byte, and the view of it the
    rest of the runtime has (a source of buffers that may answer NULL). *)
From S2P Require Import Prelude.

(** ** Byte memory *)
Definition memory := Z -> Z.

Definition write64 (a v : Z) (m : memory) : memory :=
  fun x => if decide (a <= x < a + 8) then Z.shiftr v (8 * (x - a)) mod 256 else m x.
Definition read64 (a : Z) (m : memory) : Z :=
  m a + m (a + 1) * 2 ^ 8 + m (a + 2) * 2 ^ 16 + m (a + 3) * 2 ^ 24 +
  m (a + 4) * 2 ^ 32 + m (a + 5) * 2 ^ 40 + m (a + 6) * 2 ^ 48 + m (a + 7) * 2 ^ 56.
Definition memset (a c n : Z) (m : memory) : memory :=
  fun x => if decide (a <= x < a + n) then c else m x.

Lemma read64_write64 a v m : 0 <= v < 2 ^ 64 -> read64 a (write64 a v m) = v.
Proof.
  intros Hv. unfold read64, write64.
  repeat (rewrite decide_True by lia).
  replace (8 * (a - a)) with 0 by lia. replace (8 * (a + 1 - a)) with 8 by lia.
  replace (8 * (a + 2 - a)) with 16 by lia. replace (8 * (a + 3 - a)) with 24 by lia.
  replace (8 * (a + 4 - a)) with 32 by lia. replace (8 * (a + 5 - a)) with 40 by lia.
  replace (8 * (a + 6 - a)) with 48 by lia. replace (8 * (a + 7 - a)) with 56 by lia.
  rewrite !Z.shiftr_div_pow2 by lia.
  change (2 ^ 0) with 1. change (2 ^ 8) with 256 in *. change (2 ^ 16) with 65536 in *.
  change (2 ^ 24) with 16777216 in *. change (2 ^ 32) with 4294967296 in *.
  change (2 ^ 40) with 1099511627776 in *. change (2 ^ 48) with 281474976710656 in *.
  change (2 ^ 56) with 72057594037927936 in *.
  change (2 ^ 64) with 18446744073709551616 in *.
  Z.div_mod_to_equations. lia.
Qed.

Lemma read64_ext a m m' : (forall x, a <= x < a + 8 -> m x = m' x) -> read64 a m = read64 a m'.
Proof. intros H. unfold read64. rewrite !H by lia. done. Qed.

Lemma read64_write64_ne a b v m :
  b + 8 <= a \/ a + 8 <= b -> read64 a (write64 b v m) = read64 a m.
Proof.
  intros. apply read64_ext. intros x Hx. unfold write64. by rewrite decide_False by lia.
Qed.

Lemma read64_memset_ne a b c n m :
  b + n <= a \/ a + 8 <= b -> read64 a (memset b c n m) = read64 a m.
Proof.
  intros. apply read64_ext. intros x Hx. unfold memset. by rewrite decide_False by lia.
Qed.

(** ** Alignment macros *)
Definition SMLT_MEM_IS_POWER_OF_TWO (x : Z) : bool :=
  (0 <? x) && (Z.land x (u64 (x - 1)) =? 0).

(** [(addr + (align - 1)) & -align] on [uintptr_t]. *)
Definition SMLT_MEM_ALIGN (addr align : Z) : Z :=
  Z.land (u64 (addr + u64 (align - 1))) (u64 (- align)).

(** ** The allocator *)
Definition sizeof_void_p : Z := 8.

(** What the allocator asked of and returned to libnuma. *)
Inductive numa_event :=
| NumaAlloc (buf size : Z)
| NumaFree (buf size : Z).

Record plat := Plat {
  pl_mem : memory;
  pl_numa : list numa_event;  (** calls to libnuma, latest first *)
}.

Section alloc.
(** libnuma: the address of a fresh block of [size] bytes, NULL as [None]. *)
Context (numa_alloc_local : Z -> option Z) (numa_alloc_onnode : Z -> Z -> option Z)
        (numa_max_node : Z).

Definition alloc_prepare (bytes align buf : Z) (do_clear : bool) : M plat Z :=
  let total := u64 (bytes + align + 2 * sizeof_void_p) in
  let ret := SMLT_MEM_ALIGN (u64 (buf + 2 * 8)) align in
  _ ← modify (fun s => Plat (pl_mem s) (NumaAlloc buf total :: pl_numa s));
  _ ← modify (fun s => Plat (write64 (ret - 8) buf (pl_mem s)) (pl_numa s));
  _ ← modify (fun s => Plat (write64 (ret - 16) total (pl_mem s)) (pl_numa s));
  _ ← modify (fun s =>
        Plat (if do_clear then memset ret 0 bytes (pl_mem s) else pl_mem s) (pl_numa s));
  mret ret.

Definition smlt_platform_alloc (bytes align0 : Z) (do_clear : bool) : M plat (option Z) :=
  let align := if align0 <? sizeof_void_p then sizeof_void_p else align0 in
  if negb (SMLT_MEM_IS_POWER_OF_TWO align) then mret None else
  match numa_alloc_local (u64 (bytes + align + 2 * sizeof_void_p)) with
  | None => panic (* assert (!"numa_alloc_local failed") *)
  | Some buf => Some <$> alloc_prepare bytes align buf do_clear
  end.

Definition smlt_platform_alloc_on_node (bytes align0 node : Z) (do_clear : bool)
  : M plat (option Z) :=
  let align := if align0 <? sizeof_void_p then sizeof_void_p else align0 in
  if numa_max_node <? node then mret None else
  if negb (SMLT_MEM_IS_POWER_OF_TWO align) then mret None else
  match numa_alloc_onnode (u64 (bytes + align + 2 * sizeof_void_p)) node with
  | None => mret None
  | Some buf => Some <$> alloc_prepare bytes align buf do_clear
  end.

Definition smlt_platform_free (buf : Z) : M plat unit :=
  modify (fun s =>
    Plat (pl_mem s)
      (NumaFree (read64 (buf - 8) (pl_mem s)) (read64 (buf - 16) (pl_mem s))
         :: pl_numa s)).
End alloc.

(** ** Correctness *)
Lemma is_power_of_two_spec x :
  0 <= x < 2 ^ 64 ->
  SMLT_MEM_IS_POWER_OF_TWO x = true <-> exists k, 0 <= k < 64 /\ x = 2 ^ k.
Proof.
  intros Hx. unfold SMLT_MEM_IS_POWER_OF_TWO. rewrite andb_true_iff, Z.ltb_lt, Z.eqb_eq.
  split.
  - intros [Hp Hl]. rewrite (wrap_small 64 (x - 1)) in Hl by lia.
    exists (Z.log2 x). pose proof (Z.log2_spec x Hp) as [L1 L2].
    assert (0 <= Z.log2 x < 64).
    { split; [apply Z.log2_nonneg|]. apply Z.log2_lt_pow2; lia. }
    split; [done|]. destruct (decide (x = 2 ^ Z.log2 x)) as [|Hne]; [done|exfalso].
    assert (Hl2 : Z.log2 (x - 1) = Z.log2 x).
    { apply Z.log2_unique; [lia|]. split; lia. }
    assert (Hb : Z.testbit (Z.land x (x - 1)) (Z.log2 x) = true).
    { rewrite Z.land_spec. rewrite Z.bit_log2 by lia. rewrite <- Hl2 at 1.
      rewrite Z.bit_log2 by lia. done. }
    rewrite Hl, Z.bits_0 in Hb. done.
  - intros (k & Hk & ->).
    pose proof (Z.pow_pos_nonneg 2 k ltac:(lia) ltac:(lia)).
    pose proof (Z.pow_lt_mono_r 2 k 64 ltac:(lia) ltac:(lia) ltac:(lia)).
    split; [done|]. rewrite (wrap_small 64) by lia.
    replace (2 ^ k - 1) with (Z.ones k) by (rewrite Z.ones_equiv; lia).
    rewrite Z.land_ones by lia. apply Z.mod_same. lia.
Qed.

Lemma land_neg_pow2 x k :
  0 <= x < 2 ^ 64 -> 0 <= k < 64 -> Z.land x (u64 (- 2 ^ k)) = x - x mod 2 ^ k.
Proof.
  intros Hx Hk.
  pose proof (Z.pow_pos_nonneg 2 k ltac:(lia) ltac:(lia)).
  pose proof (Z.pow_lt_mono_r 2 k 64 ltac:(lia) ltac:(lia) ltac:(lia)).
  assert (E : x - x mod 2 ^ k = Z.ldiff x (Z.ones k)).
  { rewrite Z.ldiff_ones_r by lia. rewrite Z.shiftr_div_pow2, Z.shiftl_mul_pow2 by lia.
    pose proof (Z.div_mod x (2 ^ k) ltac:(lia)). lia. }
  rewrite E. apply Z.bits_inj'. intros n Hn.
  rewrite Z.land_spec, Z.ldiff_spec.
  destruct (decide (n < 64)) as [Hn64|].
  - f_equal. unfold wrap. rewrite Z.mod_pow2_bits_low by lia.
    replace (- 2 ^ k) with (Z.lnot (Z.ones k)).
    + rewrite Z.lnot_spec by lia. done.
    + unfold Z.lnot. rewrite Z.ones_equiv. lia.
  - rewrite <- (Z.mod_small x (2 ^ 64)) by lia.
    rewrite Z.mod_pow2_bits_high by lia. done.
Qed.

Lemma mem_align_spec addr k :
  0 <= k < 64 -> 0 <= addr -> addr + 2 ^ k <= 2 ^ 64 ->
  let r := SMLT_MEM_ALIGN addr (2 ^ k) in
  r mod 2 ^ k = 0 /\ addr <= r < addr + 2 ^ k.
Proof.
  intros Hk Ha Hb r. subst r. unfold SMLT_MEM_ALIGN.
  pose proof (Z.pow_pos_nonneg 2 k ltac:(lia) ltac:(lia)) as Hp.
  rewrite (wrap_small 64 (2 ^ k - 1)), (wrap_small 64 (addr + _)) by lia.
  rewrite land_neg_pow2 by lia.
  pose proof (Z.div_mod (addr + (2 ^ k - 1)) (2 ^ k) ltac:(lia)) as D.
  pose proof (Z.mod_pos_bound (addr + (2 ^ k - 1)) (2 ^ k) Hp).
  split; [|lia].
  replace (_ - _) with ((addr + (2 ^ k - 1)) / 2 ^ k * 2 ^ k) by lia.
  apply Z.mod_mul. lia.
Qed.

(** What a successful allocation of [bytes] bytes at alignment [al] promises. *)
Record alloc_ok (bytes al buf : Z) (do_clear : bool) (s s' : plat) (ret : Z) : Prop := {
  ao_aligned : ret mod al = 0;
  ao_inside : buf + 16 <= ret /\ ret + bytes <= buf + (bytes + al + 16);
  ao_events : pl_numa s' = NumaAlloc buf (bytes + al + 16) :: pl_numa s;
  ao_base : read64 (ret - 8) (pl_mem s') = buf;
  ao_size : read64 (ret - 16) (pl_mem s') = bytes + al + 16;
  ao_clear : do_clear = true -> forall x, ret <= x < ret + bytes -> pl_mem s' x = 0;
  ao_frame : forall x, ~ (buf <= x < buf + (bytes + al + 16)) -> pl_mem s' x = pl_mem s x;
}.

Lemma alloc_prepare_ok bytes k buf do_clear s :
  3 <= k < 64 -> 0 <= bytes -> 0 <= buf -> buf + (bytes + 2 ^ k + 16) < 2 ^ 64 ->
  exists ret s', alloc_prepare bytes (2 ^ k) buf do_clear s = (Ret ret, s') /\
    alloc_ok bytes (2 ^ k) buf do_clear s s' ret.
Proof.
  intros Hk Hb Hbuf Hfit.
  pose proof (Z.pow_pos_nonneg 2 k ltac:(lia) ltac:(lia)) as Hp.
  unfold alloc_prepare, sizeof_void_p. change (2 * 8) with 16.
  rewrite !(wrap_small 64) by lia.
  destruct (mem_align_spec (buf + 16) k) as [Ha Hr]; [lia..|].
  set (ret := SMLT_MEM_ALIGN (buf + 16) (2 ^ k)) in *.
  eexists ret, _. split; [reflexivity|]. constructor; simpl.
  - done.
  - lia.
  - done.
  - destruct do_clear; rewrite ?read64_memset_ne, read64_write64_ne by lia;
      apply read64_write64; lia.
  - destruct do_clear; rewrite ?read64_memset_ne by lia; apply read64_write64; lia.
  - intros -> x Hx. unfold memset. by rewrite decide_True by lia.
  - intros x Hx. destruct do_clear; unfold memset, write64; by rewrite !decide_False by lia.
Qed.

(** [C36] Allocation and release on Linux: with an alignment request that is 0 or a
    power of two the allocator returns an aligned buffer that lies, with its
    two-word header, inside the block libnuma handed out, cleared when asked,
    and touches nothing outside that block; whatever the client then writes into
    its buffer, freeing it hands libnuma exactly the block that was allocated. *)
Theorem smlt_platform_alloc_free numa_local bytes k align0 buf do_clear s :
  3 <= k < 64 -> 0 <= bytes -> 0 <= buf -> buf + (bytes + 2 ^ k + 16) < 2 ^ 64 ->
  (if align0 <? sizeof_void_p then sizeof_void_p else align0) = 2 ^ k ->
  numa_local (bytes + 2 ^ k + 16) = Some buf ->
  exists ret s',
    smlt_platform_alloc numa_local bytes align0 do_clear s = (Ret (Some ret), s') /\
    alloc_ok bytes (2 ^ k) buf do_clear s s' ret /\
    forall s'', (forall x, ~ (ret <= x < ret + bytes) -> pl_mem s'' x = pl_mem s' x) ->
      exists s3, smlt_platform_free ret s'' = (Ret tt, s3) /\
        pl_numa s3 = NumaFree buf (bytes + 2 ^ k + 16) :: pl_numa s''.
Proof.
  intros Hk Hb Hbuf Hfit Hal Hn. unfold smlt_platform_alloc. rewrite Hal.
  pose proof (Z.pow_pos_nonneg 2 k ltac:(lia) ltac:(lia)) as Hp.
  rewrite (proj2 (is_power_of_two_spec (2 ^ k) ltac:(lia))) by (exists k; lia). simpl.
  unfold sizeof_void_p. change (2 * 8) with 16.
  rewrite (wrap_small 64) by lia. rewrite Hn.
  destruct (alloc_prepare_ok bytes k buf do_clear s) as (ret & s' & E & Hok); [lia..|].
  exists ret, s'. unfold fmap, M_fmap. rewrite E. split; [done|]. split; [done|].
  intros s'' Hs. eexists. split; [reflexivity|]. simpl.
  destruct Hok as [_ ? _ Hbase Hsize _ _].
  rewrite (read64_ext _ (pl_mem s'') (pl_mem s')) by (intros; apply Hs; lia).
  rewrite (read64_ext _ (pl_mem s'') (pl_mem s')) by (intros; apply Hs; lia).
  by rewrite Hbase, Hsize.
Qed.

Lemma smlt_platform_alloc_free_witness :
  exists ret s',
    smlt_platform_alloc (fun _ => Some 4096) 100 64 true (Plat (fun _ => 7) []) =
      (Ret (Some ret), s') /\
    alloc_ok 100 (2 ^ 6) 4096 true (Plat (fun _ => 7) []) s' ret /\
    forall s'', (forall x, ~ (ret <= x < ret + 100) -> pl_mem s'' x = pl_mem s' x) ->
      exists s3, smlt_platform_free ret s'' = (Ret tt, s3) /\
        pl_numa s3 = NumaFree 4096 (100 + 2 ^ 6 + 16) :: pl_numa s''.
Proof.
  apply (smlt_platform_alloc_free (fun _ => Some 4096) 100 6 64 4096 true
           (Plat (fun _ => 7) [])); try reflexivity; try lia.
Defined.

(** The alignment test accepts exactly the powers of two, so every other
    alignment of at least a word is answered with NULL and nothing is touched. *)
Lemma smlt_platform_alloc_bad_align numa_local bytes align0 do_clear s :
  sizeof_void_p <= align0 < 2 ^ 64 ->
  ~ (exists k, 0 <= k < 64 /\ align0 = 2 ^ k) ->
  smlt_platform_alloc numa_local bytes align0 do_clear s = (Ret None, s).
Proof.
  intros Ha Hn. unfold smlt_platform_alloc, sizeof_void_p in *.
  destruct (Z.ltb_spec align0 8); [lia|].
  destruct (SMLT_MEM_IS_POWER_OF_TWO align0) eqn:E; [|done].
  apply is_power_of_two_spec in E; [done|lia].
Qed.

(** ** The allocator as its clients see it

    A script of answers (NULL or a buffer address) for the coming calls and the
    buffers currently live. *)
Record alloc_st := AllocSt {
  al_answers : list (option Z);
  al_live : list Z;
}.

Definition al_alloc : M alloc_st (option Z) := fun s =>
  match al_answers s with
  | Some p :: l => (Ret (Some p), AllocSt l (p :: al_live s))
  | None :: l => (Ret None, AllocSt l (al_live s))
  | [] => (Ret None, s)
  end.

Fixpoint remove_one (p : Z) (l : list Z) : list Z :=
  match l with
  | [] => []
  | x :: l' => if x =? p then l' else x :: remove_one p l'
  end.

(** Freeing a buffer that is not live is undefined. *)
Definition al_free (p : Z) : M alloc_st unit := fun s =>
  if bool_decide (p ∈ al_live s)
  then (Ret tt, AllocSt (al_answers s) (remove_one p (al_live s)))
  else (Undef, s).

Lemma remove_one_head p l : remove_one p (p :: l) = l.
Proof. simpl. by rewrite Z.eqb_refl. Qed.

Lemma al_free_head p a l : al_free p (AllocSt a (p :: l)) = (Ret tt, AllocSt a l).
Proof.
  unfold al_free. simpl. rewrite bool_decide_true by set_solver. by rewrite Z.eqb_refl.
Qed.

(** The order in which two buffers are freed does not matter. *)
Lemma al_free_second a b an l :
  al_free a (AllocSt an (b :: a :: l)) = (Ret tt, AllocSt an (b :: l)).
Proof.
  unfold al_free. simpl. rewrite bool_decide_true by set_solver.
  destruct (Z.eqb_spec b a) as [->|]; [done|]. by rewrite Z.eqb_refl.
Qed.
#[global] Arguments al_free : simpl never.
