(* ===== verification/Cluster.v ===== *)
(** NUMA clusters ([src/platforms/linux/platform.c]): libnuma's answers are parameters; the
    list of a cluster's cores is collected into an array sized for the average cluster. *)
From S2P Require Import Prelude Errors.

Section cluster.
(** [numa_num_configured_nodes], [numa_num_configured_cpus]; the mask that
    [numa_node_to_cpus] fills in ([None]: it fails); [numa_node_of_cpu]. *)
Context (num_nodes num_cpus : Z) (node_to_cpus : Z -> option (Z -> bool)) (node_of_cpu : Z -> Z).

Definition smlt_platform_num_clusters : Z := u32 num_nodes.
Definition smlt_platform_num_cores : Z := u32 num_cpus.
Definition smlt_platform_cluster_of_core (core_id : Z) : Z := u8 (node_of_cpu core_id).

(** [for (i = 0; i < num_cores; i++) if (isbitset(node, i)) { result[j] = i; j++; }], from [i]
    on; [None]: an index outside [result]. *)
Fixpoint collect_cores (n : nat) (i : Z) (isbitset : Z -> bool) (j : Z) (result : list (option Z)) : option (list (option Z)) :=
  match n with
  | O => Some result
  | S n' =>
      if isbitset i then result' ← arr_set result j (Some i); collect_cores n' (i + 1) isbitset (j + 1) result'
      else collect_cores n' (i + 1) isbitset j result
  end.
(** The error, [*cores] and [*size]. *)
Definition smlt_platform_cores_of_cluster (malloc_ok : bool) (cluster_id : Z) : outcome (Z * option (list (option Z)) * Z) :=
  if num_nodes =? 0 then Undef else
  let node_size := Z.quot num_cpus num_nodes in
  if negb malloc_ok then Panic else
  match node_to_cpus (u8 cluster_id) with
  | Some node =>
      match collect_cores (Z.to_nat num_cpus) 0 node 0 (replicate (Z.to_nat node_size) None) with
      | Some result => Ret (err_value SMLT_SUCCESS, Some result, node_size)
      | None => Undef
      end
  | None => Ret (err_value SMLT_ERR_TOPOLOGY_INIT, None, 0)
  end.
(** [numa_bitmask_weight] counts the bits of the mask. *)
Definition smlt_platform_num_cores_of_cluster (cluster_id : Z) : Z :=
  match node_to_cpus (u8 cluster_id) with
  | Some node => u32 (Z.of_nat (length (filter (fun i => node i = true) (Z.of_nat <$> seq 0 (Z.to_nat num_cpus)))))
  | None => 0
  end.
End cluster.

(** The cores of a mask, in order. *)
Definition mask_cores (n : nat) (isbitset : Z -> bool) : list Z := filter (fun i => isbitset i = true) (Z.of_nat <$> seq 0 n).

Lemma collect_cores_run isbitset n : forall i w k,
  let cs := filter (fun i => isbitset i = true) (Z.of_nat <$> seq i n) in
  collect_cores n (Z.of_nat i) isbitset (Z.of_nat (length w)) ((Some <$> w) ++ replicate k None) =
    if decide (length cs <= k)%nat then Some ((Some <$> (w ++ cs)) ++ replicate (k - length cs) None) else None.
Proof.
  induction n as [|n IH]; intros i w k; cbn [collect_cores seq fmap list_fmap].
  - simpl. by rewrite app_nil_r, Nat.sub_0_r.
  - replace (Z.of_nat i + 1) with (Z.of_nat (S i)) by lia. cbv zeta.
    destruct (isbitset (Z.of_nat i)) eqn:E; [rewrite filter_cons_True by done|rewrite filter_cons_False by congruence; apply IH].
    cbn [length]. destruct k as [|k].
    + unfold arr_set. rewrite decide_False; [by rewrite decide_False by lia|]. rewrite length_app, length_fmap. simpl. lia.
    + rewrite arr_set_nat by (rewrite length_app, length_fmap; simpl; lia).
      rewrite insert_app_r_alt by (by rewrite length_fmap). rewrite length_fmap, Nat.sub_diag. cbn [mbind option_bind replicate].
      replace (Z.of_nat (length w) + 1) with (Z.of_nat (length (w ++ [Z.of_nat i]))) by (rewrite length_app; simpl; lia).
      change (<[0%nat:=Some (Z.of_nat i)]> (None :: replicate k None)) with ([Some (Z.of_nat i)] ++ replicate k (@None Z)).
      rewrite app_assoc. change [Some (Z.of_nat i)] with (Some <$> [Z.of_nat i]). rewrite <- fmap_app.
      rewrite (IH (S i) (w ++ [Z.of_nat i]) k). cbv zeta. rewrite <- app_assoc.
      do 2 case_decide; try lia; [|done]. do 2 f_equal.
Qed.

(** The cores of a cluster, in increasing order; a cluster with more cores than the average
    runs over the array, one with fewer leaves words of it unwritten. *)
Lemma cores_of_cluster_spec num_nodes num_cpus node_to_cpus cluster_id node :
  0 < num_nodes -> 0 <= num_cpus -> node_to_cpus (u8 cluster_id) = Some node ->
  let size := (Z.to_nat (num_cpus / num_nodes)) in let cs := mask_cores (Z.to_nat num_cpus) node in
  smlt_platform_cores_of_cluster num_nodes num_cpus node_to_cpus true cluster_id =
    if decide (length cs <= size)%nat
    then Ret (err_value SMLT_SUCCESS, Some ((Some <$> cs) ++ replicate (size - length cs) None), Z.of_nat size) else Undef.
Proof.
  intros Hn Hc Hm size cs. unfold smlt_platform_cores_of_cluster. rewrite (proj2 (Z.eqb_neq _ _)) by lia. rewrite Hm.
  rewrite Z.quot_div_nonneg by lia. fold size. pose proof (collect_cores_run node (Z.to_nat num_cpus) 0 [] size) as H.
  cbn [length app fmap list_fmap] in H. change (Z.of_nat 0) with 0 in H. cbv zeta in H. cbn [negb].
  rewrite H. fold (mask_cores (Z.to_nat num_cpus) node). fold cs. destruct (decide (length cs <= size)%nat); [|reflexivity].
  unfold size. rewrite Z2Nat.id by (apply Z.div_pos; lia). done.
Qed.
(** On a machine whose clusters are equally large the list is complete. *)
Lemma cores_of_cluster_uniform num_nodes num_cpus node_to_cpus cluster_id node :
  0 < num_nodes -> 0 <= num_cpus -> num_cpus / num_nodes < 2 ^ 32 -> node_to_cpus (u8 cluster_id) = Some node ->
  Z.of_nat (length (mask_cores (Z.to_nat num_cpus) node)) = num_cpus / num_nodes ->
  exists cs, smlt_platform_cores_of_cluster num_nodes num_cpus node_to_cpus true cluster_id =
      Ret (err_value SMLT_SUCCESS, Some (Some <$> cs), Z.of_nat (length cs)) /\
    Z.of_nat (length cs) = smlt_platform_num_cores_of_cluster num_cpus node_to_cpus cluster_id /\
    NoDup cs /\ forall i, i ∈ cs <-> 0 <= i < num_cpus /\ node i = true.
Proof.
  intros Hn Hc Hb Hm Hl. exists (mask_cores (Z.to_nat num_cpus) node). rewrite (cores_of_cluster_spec _ _ _ _ node) by done.
  cbv zeta. rewrite decide_True by lia. rewrite <- Hl, Nat2Z.id, Nat.sub_diag. cbn [replicate]. rewrite app_nil_r.
  split; [done|]. split; [|split].
  - unfold smlt_platform_num_cores_of_cluster. rewrite Hm. fold (mask_cores (Z.to_nat num_cpus) node).
    rewrite wrap_small; [done|]. pow_consts. change (2 ^ 32) with 4294967296 in Hb. lia.
  - unfold mask_cores. apply NoDup_filter, (NoDup_fmap_2 _), NoDup_seq.
  - intros i. unfold mask_cores. rewrite list_elem_of_filter, list_elem_of_fmap. split.
    + intros (H1 & x & -> & H2). apply elem_of_seq in H2. split; [lia|done].
    + intros [H1 H2]. split; [done|]. exists (Z.to_nat i). split; [lia|]. apply elem_of_seq. lia.
Qed.
