(* ===== verification/Fifo.v ===== *)
(** The contract every single-producer single-consumer backend promises: a
    bounded FIFO.  The class [SpscLaws] is the interface between the backends
    (UMP, FastForward, shared memory) and their clients; the theorems of this
    file are proved from the interface only. *)
From S2P Require Import Prelude.

Section fifo.
Context {Msg : Type}.

(** What a client observes of one call. *)
Inductive event :=
| ESent (m : Msg)    (** the message was accepted *)
| EFull              (** the queue refused the message *)
| ERecv (m : Msg)    (** a message was delivered *)
| EEmpty.            (** there was nothing to deliver *)

(** The specification: a queue of at most [cap] messages.  A send may be
    refused before the queue is full, but never when it is empty. *)
Inductive fifo_step (cap : nat) : list Msg -> event -> list Msg -> Prop :=
| fifo_sent q m : (length q < cap)%nat -> fifo_step cap q (ESent m) (q ++ [m])
| fifo_full q : q <> [] -> fifo_step cap q EFull q
| fifo_recv q m : fifo_step cap (m :: q) (ERecv m) q
| fifo_empty : fifo_step cap [] EEmpty [].

Inductive fifo_run (cap : nat) : list Msg -> list event -> list Msg -> Prop :=
| fifo_run_nil q : fifo_run cap q [] q
| fifo_run_cons q e q' tr q'' :
    fifo_step cap q e q' -> fifo_run cap q' tr q'' -> fifo_run cap q (e :: tr) q''.

Definition event_sent (e : event) : list Msg :=
  match e with ESent m => [m] | _ => [] end.
Definition event_recv (e : event) : list Msg :=
  match e with ERecv m => [m] | _ => [] end.
Definition sent_of (tr : list event) : list Msg := concat (event_sent <$> tr).
Definition recv_of (tr : list event) : list Msg := concat (event_recv <$> tr).

Lemma fifo_step_order cap q e q' :
  fifo_step cap q e q' -> q ++ event_sent e = event_recv e ++ q'.
Proof. destruct 1; simpl; by rewrite ?app_nil_r. Qed.

Lemma fifo_step_cap cap q e q' :
  fifo_step cap q e q' -> (length q <= cap)%nat -> (length q' <= cap)%nat.
Proof. destruct 1; simpl; rewrite ?length_app; simpl; lia. Qed.

(** Nothing is lost, duplicated, reordered or invented. *)
Lemma fifo_run_order cap q tr q' :
  fifo_run cap q tr q' -> q ++ sent_of tr = recv_of tr ++ q'.
Proof.
  induction 1 as [q|q e q' tr q'' Hs _ IH].
  - by rewrite app_nil_r.
  - change (sent_of (e :: tr)) with (event_sent e ++ sent_of tr).
    change (recv_of (e :: tr)) with (event_recv e ++ recv_of tr).
    by rewrite app_assoc, (fifo_step_order _ _ _ _ Hs), <- app_assoc, IH, app_assoc.
Qed.

Lemma fifo_run_cap cap q tr q' :
  fifo_run cap q tr q' -> (length q <= cap)%nat -> (length q' <= cap)%nat.
Proof. induction 1; eauto using fifo_step_cap. Qed.

Lemma fifo_run_snoc cap q tr q' e q'' :
  fifo_run cap q tr q' -> fifo_step cap q' e q'' -> fifo_run cap q (tr ++ [e]) q''.
Proof. induction 1; simpl; eauto using fifo_run. Qed.
End fifo.
Arguments event : clear implicits.

(** ** The interface *)
Class SpscQueue (St Msg : Type) := {
  q_send : Msg -> M St bool;         (** non-blocking send: accepted? *)
  q_recv : M St (option Msg);        (** non-blocking receive *)
}.

Class SpscLaws (St Msg : Type) `{!SpscQueue St Msg} (cap : nat)
    (valid : Msg -> Prop) (repr : St -> list Msg -> Prop) := {
  q_send_law s q m :
    repr s q -> valid m ->
    exists b s', q_send m s = (Ret b, s') /\
      if b then (length q < cap)%nat /\ repr s' (q ++ [m]) else q <> [] /\ repr s' q;
  q_recv_law s q :
    repr s q ->
    exists o s', q_recv s = (Ret o, s') /\
      match o with
      | Some m => exists q', q = m :: q' /\ repr s' q'
      | None => q = [] /\ repr s' q
      end;
}.

(** A client program: any interleaving of the producer's sends with the
    consumer's receives. *)
Inductive cmd (Msg : Type) := CSend (m : Msg) | CRecv.
Arguments CSend {Msg} m.
Arguments CRecv {Msg}.

Section client.
Context {St Msg : Type} `{!SpscQueue St Msg}.

Definition exec_cmd (c : cmd Msg) : M St (event Msg) :=
  match c with
  | CSend m => b ← q_send m; mret (if b : bool then ESent m else EFull)
  | CRecv => o ← q_recv; mret (match o with Some m => ERecv m | None => EEmpty end)
  end.

Fixpoint exec (cs : list (cmd Msg)) : M St (list (event Msg)) :=
  match cs with
  | [] => mret []
  | c :: cs' => e ← exec_cmd c; tr ← exec cs'; mret (e :: tr)
  end.

Context {cap : nat} {valid : Msg -> Prop} {repr : St -> list Msg -> Prop}
        `{!SpscLaws St Msg cap valid repr}.

Definition valid_cmd (c : cmd Msg) : Prop :=
  match c with CSend m => valid m | CRecv => True end.

Lemma exec_cmd_refines s q c :
  repr s q -> valid_cmd c ->
  exists e s' q', exec_cmd c s = (Ret e, s') /\ fifo_step cap q e q' /\ repr s' q'.
Proof.
  destruct c as [m|]; simpl; intros Hr Hv.
  - destruct (q_send_law s q m Hr Hv) as (b & s' & E & H).
    rewrite (bind_ret _ _ _ _ _ E). destruct b; destruct H.
    + exists (ESent m), s', (q ++ [m]). eauto using fifo_step.
    + exists EFull, s', q. eauto using fifo_step.
  - destruct (q_recv_law s q Hr) as (o & s' & E & H).
    rewrite (bind_ret _ _ _ _ _ E). destruct o as [m|].
    + destruct H as (q' & -> & ?). exists (ERecv m), s', q'. eauto using fifo_step.
    + destruct H as [-> ?]. exists EEmpty, s', []. eauto using fifo_step.
Qed.

(** Forward simulation: every run of a client on the implementation is a run
    of the specification. *)
Lemma exec_refines cs s q :
  repr s q -> Forall valid_cmd cs ->
  exists tr s' q', exec cs s = (Ret tr, s') /\ fifo_run cap q tr q' /\ repr s' q'.
Proof.
  revert s q. induction cs as [|c cs IH]; intros s q Hr Hv.
  - exists [], s, q. eauto using fifo_run.
  - apply Forall_cons in Hv as [Hc Hcs].
    destruct (exec_cmd_refines s q c Hr Hc) as (e & s1 & q1 & E1 & S1 & R1).
    destruct (IH s1 q1 R1 Hcs) as (tr & s2 & q2 & E2 & S2 & R2).
    exists (e :: tr), s2, q2. simpl.
    rewrite (bind_ret _ _ _ _ _ E1), (bind_ret _ _ _ _ _ E2).
    eauto using fifo_run.
Qed.

(** Draining: after as many receives as there are messages in flight, the
    consumer has received exactly those, and the next send is accepted. *)
Lemma exec_drain s q :
  repr s q ->
  exists s', exec (replicate (length q) CRecv) s = (Ret (ERecv <$> q), s') /\ repr s' [].
Proof.
  revert s. induction q as [|m q IH]; intros s Hr; simpl.
  - exists s. done.
  - destruct (q_recv_law s (m :: q) Hr) as (o & s1 & E & H).
    destruct o as [m'|]; [|by destruct H].
    destruct H as (q' & Hq & R1). simplify_eq/=.
    destruct (IH s1 R1) as (s2 & E2 & R2). exists s2. split; [|done].
    rewrite (bind_ret _ _ _ (ERecv m') s1) by (by rewrite (bind_ret _ _ _ _ _ E)).
    by rewrite (bind_ret _ _ _ _ _ E2).
Qed.

Lemma send_accepted_when_empty s m :
  repr s [] -> valid m -> exists s', q_send m s = (Ret true, s') /\ repr s' [m].
Proof.
  intros Hr Hv. destruct (q_send_law s [] m Hr Hv) as (b & s' & E & H).
  destruct b; [|by destruct H]. destruct H. eauto.
Qed.
End client.
