(* ===== verification/Pair.v ===== *)
(** A connected pair of endpoints: two queue-pair structures and the two shared
    rings between them, seen from either side; and the lifting of the laws of one
    direction, stated for one end, to the FIFO interface of the pair. *)
From S2P Require Import Prelude Fifo.

Section pair.
Context {QP R : Type}.

(** One end: its queue pair, the ring it sends on, the ring it receives on. *)
Record endp := Endp { e_qp : QP; e_tx : R; e_rx : R }.

Record pair := Pair {
  p_src : QP;
  p_dst : QP;
  p_fwd : R;   (** ring of messages from [src] to [dst] *)
  p_bwd : R;
}.

Definition set_qp (f : QP -> QP) (s : endp) : endp := Endp (f (e_qp s)) (e_tx s) (e_rx s).
End pair.
Arguments endp : clear implicits.
Arguments pair : clear implicits.

Inductive side := Src | Dst.
Definition peer (d : side) : side := match d with Src => Dst | Dst => Src end.

#[export] Instance side_eq_dec : EqDecision side.
Proof. solve_decision. Defined.

Section sides.
Context {QP R : Type}.

Definition end_of (d : side) (s : pair QP R) : endp QP R :=
  match d with
  | Src => Endp (p_src s) (p_fwd s) (p_bwd s)
  | Dst => Endp (p_dst s) (p_bwd s) (p_fwd s)
  end.
Definition set_end (d : side) (t : endp QP R) (s : pair QP R) : pair QP R :=
  match d with
  | Src => Pair (e_qp t) (p_dst s) (e_tx t) (e_rx t)
  | Dst => Pair (p_src s) (e_qp t) (e_rx t) (e_tx t)
  end.
Definition at_side {A} (d : side) (m : M (endp QP R) A) : M (pair QP R) A :=
  zoom (end_of d) (set_end d) m.

Lemma end_set_same d t s : end_of d (set_end d t s) = t.
Proof. by destruct d, t. Qed.
Lemma end_set_peer d t s :
  end_of (peer d) (set_end d t s) = Endp (e_qp (end_of (peer d) s)) (e_rx t) (e_tx t).
Proof. by destruct d. Qed.
Lemma end_set_peer' d t s :
  end_of d (set_end (peer d) t s) = Endp (e_qp (end_of d s)) (e_rx t) (e_tx t).
Proof. by destruct d. Qed.
Lemma end_rings d s :
  e_rx (end_of (peer d) s) = e_tx (end_of d s) /\ e_tx (end_of (peer d) s) = e_rx (end_of d s).
Proof. by destruct d. Qed.
Lemma set_end_id d s t : end_of d s = t -> set_end d t s = s.
Proof. intros <-. by destruct d, s. Qed.
End sides.

Lemma peer_peer d : peer (peer d) = d.
Proof. by destruct d. Qed.

(** ** From the laws of one end to the laws of the pair

    [dinv txq ring rxq q]: the sender's queue pair [txq], the ring and the
    receiver's queue pair [rxq] hold the messages [q].  A backend proves that an
    end's send and receive act on one direction as a FIFO and leave alone what
    the other direction needs. *)
Section link.
Context {QP R Msg : Type} (dinv : QP -> R -> QP -> list Msg -> Prop)
  (cap : nat) (valid : Msg -> Prop)
  (snd : Msg -> M (endp QP R) bool) (rcv : M (endp QP R) (option Msg)).

Definition end_send_law : Prop := forall e rxq q m,
  dinv (e_qp e) (e_tx e) rxq q -> valid m ->
  exists b e', snd m e = (Ret b, e') /\ e_rx e' = e_rx e /\
    (forall txq ring q', dinv txq ring (e_qp e) q' -> dinv txq ring (e_qp e') q') /\
    if b then (length q < cap)%nat /\ dinv (e_qp e') (e_tx e') rxq (q ++ [m])
    else q <> [] /\ dinv (e_qp e') (e_tx e') rxq q.

Definition end_recv_law : Prop := forall e txq q,
  dinv txq (e_rx e) (e_qp e) q ->
  exists o e', rcv e = (Ret o, e') /\ e_tx e' = e_tx e /\
    (forall ring rxq q', dinv (e_qp e) ring rxq q' -> dinv (e_qp e') ring rxq q') /\
    match o with
    | Some m => exists q', q = m :: q' /\ dinv txq (e_rx e') (e_qp e') q'
    | None => q = [] /\ dinv txq (e_rx e') (e_qp e') q
    end.

Definition link_dir (d : side) (s : pair QP R) (q : list Msg) : Prop :=
  dinv (e_qp (end_of d s)) (e_tx (end_of d s)) (e_qp (end_of (peer d) s)) q.
(** Direction [d] holds [q], the opposite one [qo]. *)
Definition link_inv (d : side) (qo : list Msg) (s : pair QP R) (q : list Msg) : Prop :=
  link_dir d s q /\ link_dir (peer d) s qo.

Definition link_spsc (d : side) : SpscQueue (pair QP R) Msg :=
  {| q_send m := at_side d (snd m); q_recv := at_side (peer d) rcv |}.

Lemma link_laws d qo :
  end_send_law -> end_recv_law ->
  @SpscLaws (pair QP R) Msg (link_spsc d) cap valid (link_inv d qo).
Proof.
  intros HS HR. unfold link_inv, link_dir. split; simpl; unfold at_side, zoom.
  - intros s q m [Hi Ho] Hv. destruct (end_rings d s) as [R1 R2].
    destruct (HS (end_of d s) _ q m Hi Hv) as (b & e' & -> & Hrx & Hfr & Hb).
    eexists _, _. split; [reflexivity|].
    rewrite end_set_same, end_set_peer, peer_peer, end_set_same in *. simpl.
    rewrite Hrx. rewrite R2 in Ho. destruct b; destruct Hb; eauto.
  - intros s q [Hi Ho]. destruct (end_rings d s) as [R1 R2]. rewrite <- R1 in Hi.
    destruct (HR (end_of (peer d) s) _ q Hi) as (o & e' & -> & Htx & Hfr & Hb).
    eexists _, _. split; [reflexivity|].
    rewrite end_set_same, end_set_peer', peer_peer, end_set_peer' in *. simpl.
    rewrite Htx. destruct o as [m|].
    + destruct Hb as (q' & -> & ?). eauto.
    + destruct Hb; eauto.
Qed.
End link.
