(* ===== verification/Steps.v ===== *)
(** Two threads at the two ends of a pair, interleaved at every access to shared memory.
    A call of the queue layer is a fragment program ([frag]): a sequence of atomic
    actions.  A backend that keeps one direction an invariant under the actions of either
    end ([step_send_law], [step_recv_law]) is a FIFO under every interleaving
    ([steps_refine]): each call takes effect in one of its actions. *)
From S2P Require Import Prelude Fifo Pair.

(** ** Fragment programs *)
Inductive frag (S A : Type) :=
  | FDone (a : A)
  | FAct (m : M S (frag S A)).
Arguments FDone {S A} a.
Arguments FAct {S A} m.

Definition act {S A} (m : M S A) : frag S A := FAct (FDone <$> m).
Fixpoint frag_bind {S A B} (f : frag S A) (k : A -> frag S B) : frag S B :=
  match f with
  | FDone a => k a
  | FAct m => FAct (fun s =>
      match m s with
      | (Ret f', s') => (Ret (frag_bind f' k), s')
      | (Spin, s') => (Spin, s')
      | (Panic, s') => (Panic, s')
      | (Undef, s') => (Undef, s')
      end)
  end.
(** On a part of the state. *)
Fixpoint frag_zoom {S T A} (g : S -> T) (p : T -> S -> S) (f : frag T A) : frag S A :=
  match f with
  | FDone a => FDone a
  | FAct m => FAct (fun s =>
      match m (g s) with
      | (Ret f', t) => (Ret (frag_zoom g p f'), p t s)
      | (Spin, t) => (Spin, p t s)
      | (Panic, t) => (Panic, p t s)
      | (Undef, t) => (Undef, p t s)
      end)
  end.
(** Without interruption. *)
Fixpoint frag_run {S A} (f : frag S A) : M S A :=
  match f with
  | FDone a => mret a
  | FAct m => fun s =>
      match m s with
      | (Ret f', s') => frag_run f' s'
      | (Spin, s') => (Spin, s')
      | (Panic, s') => (Panic, s')
      | (Undef, s') => (Undef, s')
      end
  end.

Lemma frag_induction {S A} (P : frag S A -> Prop) :
  (forall a, P (FDone a)) -> (forall m, (forall s f s', m s = (Ret f, s') -> P f) -> P (FAct m)) -> forall f, P f.
Proof.
  intros Hd Ha. fix IH 1. intros [a|m]; [apply Hd|apply Ha]. intros s f s' E.
  destruct (m s) as [[f0| | |] s0]; [|discriminate E..]. injection E as <- <-. apply IH.
Qed.
Lemma frag_run_bind {S A B} (f : frag S A) (k : A -> frag S B) s :
  frag_run (frag_bind f k) s = (frag_run f ≫= (fun a => frag_run (k a))) s.
Proof.
  revert s. induction f as [a|m IH] using frag_induction; intros s; [done|]. simpl. unfold mbind, M_bind.
  destruct (m s) as [[f'| | |] s'] eqn:E; try done. rewrite (IH s f' s' E). done.
Qed.
Lemma frag_run_zoom {S T A} (g : S -> T) (p : T -> S -> S) (f : frag T A) s :
  (forall s, p (g s) s = s) -> (forall t s, g (p t s) = t) -> (forall t t' s, p t (p t' s) = p t s) ->
  frag_run (frag_zoom g p f) s = zoom g p (frag_run f) s.
Proof.
  intros H1 H2 H3. revert s. induction f as [a|m IH] using frag_induction; intros s.
  - unfold zoom. simpl. by rewrite H1.
  - unfold zoom. simpl. destruct (m (g s)) as [[f'| | |] t] eqn:E; try done.
    rewrite (IH _ _ _ E). unfold zoom. rewrite H2. destruct (frag_run f' t) as [o t']. by rewrite H3.
Qed.
Lemma frag_run_act {S A} (m : M S A) s : frag_run (act m) s = m s.
Proof. unfold act. simpl. unfold fmap, M_fmap. by destruct (m s) as [[]]. Qed.

(** ** Calls that end by themselves *)

(** Whatever the other thread does in between, [f] returns after at most [n] of its own
    actions, not counting those that block, if they may ([b]). *)
Fixpoint frag_ends (b : Prop) {S A} (n : nat) (f : frag S A) : Prop :=
  match f with
  | FDone _ => True
  | FAct m =>
      match n with
      | O => False
      | Datatypes.S n' => forall s, match m s with (Ret f', _) => frag_ends b n' f' | (Spin, _) => b | _ => True end
      end
  end.

#[global] Arguments frag_ends : simpl never.

Lemma frag_ends_le b {S A} (f : frag S A) : forall k j, frag_ends b k f -> (k <= j)%nat -> frag_ends b j f.
Proof.
  induction f as [a|m IH] using frag_induction; intros k j H Hj; [by destruct j|].
  destruct k as [|k]; [done|]. destruct j as [|j]; [lia|]. intros s. specialize (H s).
  destruct (m s) as [[f| | |] s'] eqn:E; try done. apply (IH s f s' E k); [done|lia].
Qed.
Lemma frag_ends_bind b {S A B} n (f : frag S A) k (g : A -> frag S B) :
  frag_ends b n f -> (forall a, frag_ends b k (g a)) -> frag_ends b (n + k) (frag_bind f g).
Proof.
  intros H Hg. revert n H. induction f as [a|m IH] using frag_induction; intros n H.
  - apply (frag_ends_le _ _ k); [apply Hg|lia].
  - destruct n as [|n]; [done|]. intros s. specialize (H s).
    destruct (m s) as [[f| | |] s'] eqn:E; try done. by apply (IH s f s' E).
Qed.
Lemma frag_ends_zoom b {S T A} (g : S -> T) (p : T -> S -> S) (f : frag T A) : forall n,
  frag_ends b n f -> frag_ends b n (frag_zoom g p f).
Proof.
  induction f as [a|m IH] using frag_induction; intros n H; [by destruct n|].
  destruct n as [|n]; [done|]. intros s. specialize (H (g s)).
  destruct (m (g s)) as [[f| | |] t] eqn:E; try done. by apply (IH _ f t E).
Qed.

(** ** Two threads *)
Section system.
Context {QP R Msg : Type} (code : cmd Msg -> frag (endp QP R) (event Msg)).
Abbreviation call := (frag (endp QP R) (event Msg)).

(** The call a thread is in, its remaining calls, and what the calls returned so far. *)
Record steps_sys := StepsSys {
  ss_pair : pair QP R;
  ss_cur : side -> option (cmd Msg * call);
  ss_todo : side -> list (cmd Msg);
  ss_trace : list (side * event Msg);
}.
Definition upd {A} (d : side) (x : A) (f : side -> A) : side -> A := fun d' => if decide (d' = d) then x else f d'.

(** One action of the thread at end [d]; a blocked action is tried again. *)
Definition steps_step (s : steps_sys) (d : side) : option steps_sys :=
  match ss_cur s d with
  | None =>
      match ss_todo s d with
      | [] => Some s
      | c :: l => Some (StepsSys (ss_pair s) (upd d (Some (c, code c)) (ss_cur s)) (upd d l (ss_todo s)) (ss_trace s))
      end
  | Some (c, FDone e) => Some (StepsSys (ss_pair s) (upd d None (ss_cur s)) (ss_todo s) (ss_trace s ++ [(d, e)]))
  | Some (c, FAct m) =>
      match at_side d m (ss_pair s) with
      | (Ret (FDone e), p) => Some (StepsSys p (upd d None (ss_cur s)) (ss_todo s) (ss_trace s ++ [(d, e)]))
      | (Ret f, p) => Some (StepsSys p (upd d (Some (c, f)) (ss_cur s)) (ss_todo s) (ss_trace s))
      | (Spin, p) => Some (StepsSys p (ss_cur s) (ss_todo s) (ss_trace s))
      | _ => None
      end
  end.
Fixpoint steps_run (s : steps_sys) (sched : list side) : option steps_sys :=
  match sched with
  | [] => Some s
  | d :: l => s' ← steps_step s d; steps_run s' l
  end.
Definition steps_start (p : pair QP R) (todo : side -> list (cmd Msg)) : steps_sys :=
  StepsSys p (fun _ => None) todo [].

(** The events of the direction from [d]: the sends of [d], the receives of its peer. *)
Definition dir_event (d : side) (x : side * event Msg) : list (event Msg) :=
  match x.2 with
  | ESent _ | EFull => if decide (x.1 = d) then [x.2] else []
  | ERecv _ | EEmpty => if decide (x.1 = peer d) then [x.2] else []
  end.
Definition dir_trace (d : side) (tr : list (side * event Msg)) : list (event Msg) := concat (dir_event d <$> tr).
Definition is_send (e : event Msg) : Prop := match e with ESent _ | EFull => True | _ => False end.

(** ** What a backend has to show

    [dinv txq ring rxq sp rp q]: one direction holds [q], its sender is at [sp] in the send
    of a message (if in one), its receiver at [rp] in a receive. *)
Context (dinv : QP -> R -> QP -> option (Msg * call) -> option call -> list Msg -> Prop)
  (cap : nat) (valid : Msg -> Prop).

Definition step_send_law : Prop := forall e rxq m f rp q,
  dinv (e_qp e) (e_tx e) rxq (Some (m, f)) rp q -> exists a o e', f = FAct a /\ a e = (o, e') /\
    e_rx e' = e_rx e /\
    (forall txq ring sp q', dinv txq ring (e_qp e) sp None q' -> dinv txq ring (e_qp e') sp None q') /\
    match o with
    | Ret (FDone ev) => is_send ev /\ exists q', fifo_step cap q ev q' /\ dinv (e_qp e') (e_tx e') rxq None rp q'
    | Ret f' => dinv (e_qp e') (e_tx e') rxq (Some (m, f')) rp q
    | Spin => dinv (e_qp e') (e_tx e') rxq (Some (m, f)) rp q
    | _ => False
    end.
Definition step_recv_law : Prop := forall e txq f sp q,
  dinv txq (e_rx e) (e_qp e) sp (Some f) q -> exists a o e', f = FAct a /\ a e = (o, e') /\
    e_tx e' = e_tx e /\
    (forall ring rxq rp q', dinv (e_qp e) ring rxq None rp q' -> dinv (e_qp e') ring rxq None rp q') /\
    match o with
    | Ret (FDone ev) => ~ is_send ev /\ exists q', fifo_step cap q ev q' /\ dinv txq (e_rx e') (e_qp e') sp None q'
    | Ret f' => dinv txq (e_rx e') (e_qp e') sp (Some f') q
    | Spin => dinv txq (e_rx e') (e_qp e') sp (Some f) q
    | _ => False
    end.
Definition start_send_law : Prop := forall txq ring rxq rp q m,
  dinv txq ring rxq None rp q -> valid m -> dinv txq ring rxq (Some (m, code (CSend m))) rp q.
Definition start_recv_law : Prop := forall txq ring rxq sp q,
  dinv txq ring rxq sp None q -> dinv txq ring rxq sp (Some (code CRecv)) q.

Context (HS : step_send_law) (HR : step_recv_law) (HS0 : start_send_law) (HR0 : start_recv_law).

Definition sending (c : option (cmd Msg * call)) : option (Msg * call) :=
  match c with Some (CSend m, f) => Some (m, f) | _ => None end.
Definition receiving (c : option (cmd Msg * call)) : option call :=
  match c with Some (CRecv, f) => Some f | _ => None end.
Definition dir_inv (d : side) (s : steps_sys) (q : list Msg) : Prop :=
  dinv (e_qp (end_of d (ss_pair s))) (e_tx (end_of d (ss_pair s))) (e_qp (end_of (peer d) (ss_pair s)))
    (sending (ss_cur s d)) (receiving (ss_cur s (peer d))) q.
Definition todo_ok (s : steps_sys) : Prop := forall d, Forall (valid_cmd (valid := valid)) (ss_todo s d).

Lemma upd_same {A} d (x : A) f : upd d x f d = x.
Proof using Type. unfold upd. by rewrite decide_True. Qed.
Lemma upd_peer {A} d (x : A) f : upd d x f (peer d) = f (peer d).
Proof using Type. unfold upd. by destruct d. Qed.
Lemma upd_peer' {A} d (x : A) f : upd (peer d) x f d = f d.
Proof using Type. unfold upd. by destruct d. Qed.

Lemma dir_trace_snoc d tr x : dir_trace d (tr ++ [x]) = dir_trace d tr ++ dir_event d x.
Proof using Type. unfold dir_trace. rewrite fmap_app, concat_app. simpl. by rewrite app_nil_r. Qed.

(** *** One action keeps both directions *)
Lemma send_action s d e' c' q' cur' todo tr (Qs : side -> list Msg) :
  (forall x, dir_inv x s (Qs x)) -> receiving (ss_cur s d) = None -> receiving c' = None ->
  cur' d = c' -> cur' (peer d) = ss_cur s (peer d) ->
  e_rx e' = e_rx (end_of d (ss_pair s)) ->
  (forall txq ring sp q, dinv txq ring (e_qp (end_of d (ss_pair s))) sp None q -> dinv txq ring (e_qp e') sp None q) ->
  dinv (e_qp e') (e_tx e') (e_qp (end_of (peer d) (ss_pair s))) (sending c') (receiving (ss_cur s (peer d))) q' ->
  forall x, dir_inv x (StepsSys (set_end d e' (ss_pair s)) cur' todo tr) (upd d q' Qs x).
Proof using Type.
  intros HI Hc Hc' Ed Ep Hrx Hfr Hd x. unfold dir_inv. cbn [ss_pair ss_cur].
  destruct (decide (x = d)) as [->|Hne].
  - by rewrite upd_same, end_set_same, end_set_peer, Ed, Ep.
  - assert (x = peer d) as -> by (by destruct x, d). rewrite upd_peer, peer_peer, end_set_same, end_set_peer, Ed, Ep, Hc'.
    cbn [e_qp e_tx]. apply Hfr. specialize (HI (peer d)). unfold dir_inv in HI. rewrite peer_peer, Hc in HI.
    rewrite Hrx. by destruct (end_rings d (ss_pair s)) as [_ <-].
Qed.
Lemma recv_action s d e' c' q' cur' todo tr (Qs : side -> list Msg) :
  (forall x, dir_inv x s (Qs x)) -> sending (ss_cur s d) = None -> sending c' = None ->
  cur' d = c' -> cur' (peer d) = ss_cur s (peer d) ->
  e_tx e' = e_tx (end_of d (ss_pair s)) ->
  (forall ring rxq rp q, dinv (e_qp (end_of d (ss_pair s))) ring rxq None rp q -> dinv (e_qp e') ring rxq None rp q) ->
  dinv (e_qp (end_of (peer d) (ss_pair s))) (e_rx e') (e_qp e') (sending (ss_cur s (peer d))) (receiving c') q' ->
  forall x, dir_inv x (StepsSys (set_end d e' (ss_pair s)) cur' todo tr) (upd (peer d) q' Qs x).
Proof using Type.
  intros HI Hc Hc' Ed Ep Htx Hfr Hd x. unfold dir_inv. cbn [ss_pair ss_cur].
  destruct (decide (x = d)) as [->|Hne].
  - rewrite upd_peer', end_set_same, end_set_peer, Ed, Ep, Hc'. cbn [e_qp]. apply Hfr.
    specialize (HI d). unfold dir_inv in HI. rewrite Hc in HI. by rewrite Htx.
  - assert (x = peer d) as -> by (by destruct x, d).
    by rewrite upd_same, peer_peer, end_set_same, end_set_peer, Ed, Ep.
Qed.

Definition steps_ok (s : steps_sys) (Qs : side -> list Msg) : Prop :=
  (forall x, dir_inv x s (Qs x)) /\ todo_ok s.
Definition traces (new : list (side * event Msg)) (Qs Qs' : side -> list Msg) : Prop :=
  forall x, fifo_run cap (Qs x) (dir_trace x new) (Qs' x).

Lemma traces_nil Qs : traces [] Qs Qs.
Proof using Type. intros x. apply fifo_run_nil. Qed.
Lemma traces_send d ev q' Qs : is_send ev -> fifo_step cap (Qs d) ev q' -> traces [(d, ev)] Qs (upd d q' Qs).
Proof using Type.
  intros He Hs x. unfold dir_trace, dir_event. simpl. destruct (decide (x = d)) as [->|Hne].
  - rewrite upd_same. destruct ev; try done; simpl; rewrite decide_True by done; simpl; eauto using fifo_run.
  - assert (x = peer d) as -> by (by destruct x, d). rewrite upd_peer.
    destruct ev; try done; simpl; rewrite decide_False by (by destruct d); apply fifo_run_nil.
Qed.
Lemma traces_recv d ev q' Qs :
  ~ is_send ev -> fifo_step cap (Qs (peer d)) ev q' -> traces [(d, ev)] Qs (upd (peer d) q' Qs).
Proof using Type.
  intros He Hs x. unfold dir_trace, dir_event. simpl. destruct (decide (x = d)) as [->|Hne].
  - rewrite upd_peer'. destruct ev; try (by destruct He); simpl; rewrite decide_False by (by destruct d); apply fifo_run_nil.
  - assert (x = peer d) as -> by (by destruct x, d). rewrite upd_same, peer_peer.
    destruct ev; try (by destruct He); simpl; rewrite decide_True by done; simpl; eauto using fifo_run.
Qed.

Lemma traces_stay d Qs : traces [] Qs (upd d (Qs d) Qs).
Proof using Type. intros x. unfold upd. case_decide; subst; apply fifo_run_nil. Qed.

Definition steps_next (s : steps_sys) (d : side) (Qs : side -> list Msg) : Prop :=
  exists s' Qs' new, steps_step s d = Some s' /\ steps_ok s' Qs' /\
    ss_trace s' = ss_trace s ++ new /\ traces new Qs Qs'.

Lemma send_next s d Qs m f : steps_ok s Qs -> ss_cur s d = Some (CSend m, f) -> steps_next s d Qs.
Proof using HS.
  intros [HI Ht] Ec. pose proof (HI d) as Hd. unfold dir_inv in Hd. rewrite Ec in Hd.
  destruct (HS _ _ _ _ _ _ Hd) as (a & o & e' & -> & Ea & Hrx & Hfr & Ho).
  unfold steps_next, steps_step, at_side, zoom. rewrite Ec, Ea.
  assert (HA := fun c' q' cur' todo tr => send_action s d e' c' q' cur' todo tr Qs HI ltac:(by rewrite Ec)).
  destruct o as [[ev|a']| | |]; try done.
  - destruct Ho as (Hs & q' & Hst & Ho). eexists _, (upd d q' Qs), [(d, ev)]. split; [reflexivity|].
    split; [split; [|done]|split; [done|by apply traces_send]].
    apply (HA None); [done|apply upd_same|apply upd_peer|done|done|done].
  - eexists _, (upd d (Qs d) Qs), []. split; [reflexivity|]. rewrite app_nil_r.
    split; [split; [|done]|split; [done|apply traces_stay]].
    apply (HA (Some (CSend m, FAct a'))); [done|apply upd_same|apply upd_peer|done|done|done].
  - eexists _, (upd d (Qs d) Qs), []. split; [reflexivity|]. rewrite app_nil_r.
    split; [split; [|done]|split; [done|apply traces_stay]]. by apply (HA (Some (CSend m, FAct a))).
Qed.
Lemma recv_next s d Qs f : steps_ok s Qs -> ss_cur s d = Some (CRecv, f) -> steps_next s d Qs.
Proof using HR.
  intros [HI Ht] Ec. pose proof (HI (peer d)) as Hp. unfold dir_inv in Hp. rewrite peer_peer, Ec in Hp.
  destruct (end_rings d (ss_pair s)) as [R1 R2]. rewrite R2 in Hp.
  destruct (HR _ _ _ _ _ Hp) as (a & o & e' & -> & Ea & Htx & Hfr & Ho).
  unfold steps_next, steps_step, at_side, zoom. rewrite Ec, Ea.
  assert (HA := fun c' q' cur' todo tr => recv_action s d e' c' q' cur' todo tr Qs HI ltac:(by rewrite Ec)).
  destruct o as [[ev|a']| | |]; try done.
  - destruct Ho as (Hs & q' & Hst & Ho). eexists _, (upd (peer d) q' Qs), [(d, ev)]. split; [reflexivity|].
    split; [split; [|done]|split; [done|by apply traces_recv]].
    apply (HA None); [done|apply upd_same|apply upd_peer|done|done|done].
  - eexists _, (upd (peer d) (Qs (peer d)) Qs), []. split; [reflexivity|]. rewrite app_nil_r.
    split; [split; [|done]|split; [done|apply traces_stay]].
    apply (HA (Some (CRecv, FAct a'))); [done|apply upd_same|apply upd_peer|done|done|done].
  - eexists _, (upd (peer d) (Qs (peer d)) Qs), []. split; [reflexivity|]. rewrite app_nil_r.
    split; [split; [|done]|split; [done|apply traces_stay]]. by apply (HA (Some (CRecv, FAct a))).
Qed.
Lemma start_next s d Qs : steps_ok s Qs -> ss_cur s d = None -> steps_next s d Qs.
Proof using HS0 HR0.
  intros [HI Ht] Ec. unfold steps_next, steps_step. rewrite Ec. destruct (ss_todo s d) as [|c l] eqn:Et.
  { exists s, Qs, []. rewrite app_nil_r. split; [done|]. split; [done|]. split; [done|apply traces_nil]. }
  pose proof (Ht d) as Hc. rewrite Et in Hc. apply Forall_cons in Hc as [Hc Hl].
  pose proof (HI d) as Hd. pose proof (HI (peer d)) as Hp. unfold dir_inv in Hd, Hp. rewrite peer_peer in Hp.
  rewrite Ec in Hd, Hp.
  eexists _, Qs, []. split; [reflexivity|]. rewrite app_nil_r. split; [split|split; [done|apply traces_nil]].
  - intros x. unfold dir_inv. cbn [ss_pair ss_cur]. destruct (decide (x = d)) as [->|Hne].
    + rewrite upd_same, upd_peer. destruct c as [m|]; [by apply HS0|done].
    + assert (x = peer d) as -> by (by destruct x, d). rewrite upd_peer, peer_peer, upd_same.
      destruct c as [m|]; [done|]. by apply HR0.
  - intros x. cbn [ss_todo]. destruct (decide (x = d)) as [->|Hne]; [by rewrite upd_same|].
    assert (x = peer d) as -> by (by destruct x, d). rewrite upd_peer. apply Ht.
Qed.
Lemma steps_step_ok s d Qs : steps_ok s Qs -> steps_next s d Qs.
Proof using Type*.
  intros H. destruct (ss_cur s d) as [[[m|] f]|] eqn:Ec.
  - by apply (send_next s d Qs m f).
  - by apply (recv_next s d Qs f).
  - by apply start_next.
Qed.

Lemma traces_app n1 n2 Q1 Q2 Q3 : traces n1 Q1 Q2 -> traces n2 Q2 Q3 -> traces (n1 ++ n2) Q1 Q3.
Proof using Type.
  intros H1 H2 x. specialize (H1 x). specialize (H2 x). unfold dir_trace in *. rewrite fmap_app, concat_app.
  induction H1; simpl; eauto using fifo_run.
Qed.

(** Under every interleaving each direction is a FIFO. *)
Lemma steps_refine sched : forall s Qs,
  steps_ok s Qs -> exists s' Qs' new, steps_run s sched = Some s' /\ steps_ok s' Qs' /\
    ss_trace s' = ss_trace s ++ new /\ traces new Qs Qs'.
Proof using Type*.
  induction sched as [|d l IH]; intros s Qs H.
  - exists s, Qs, []. rewrite app_nil_r. split; [done|]. split; [done|]. split; [done|apply traces_nil].
  - destruct (steps_step_ok s d Qs H) as (s1 & Q1 & n1 & E1 & H1 & T1 & R1).
    destruct (IH s1 Q1 H1) as (s2 & Q2 & n2 & E2 & H2 & T2 & R2).
    exists s2, Q2, (n1 ++ n2). cbn [steps_run]. rewrite E1. split; [done|]. split; [done|].
    split; [by rewrite T2, T1, app_assoc|by apply (traces_app _ _ _ Q1)].
Qed.
End system.

(** ** Wait-freedom *)
Section wait_free.
Context {QP R Msg : Type} (code : cmd Msg -> frag (endp QP R) (event Msg)) (K : nat).
Context (blocks : Prop) (Hends : forall c, frag_ends blocks K (code c)).

(** How many actions thread [d] may still need. *)
Definition actions_left (d : side) (s : steps_sys (QP:=QP) (R:=R) (Msg:=Msg)) (n : nat) : Prop :=
  exists j, match ss_cur s d with None => j = 0%nat | Some (_, f) => exists i, j = Datatypes.S i /\ frag_ends blocks i f end /\
    (j + (K + 2) * length (ss_todo s d) <= n)%nat.

Lemma left_other d e s s' n : e <> d -> steps_step code s e = Some s' -> actions_left d s n -> actions_left d s' n.
Proof using Type.
  clear Hends. intros Hne E (j & Hj & Hn). exists j. unfold steps_step in E.
  assert (forall X (x : X) (f : side -> X), upd e x f d = f d) as Hu by (intros; unfold upd; by rewrite decide_False).
  destruct (ss_cur s e) as [[c [ev|m]]|].
  - injection E as <-. cbn [ss_cur ss_todo]. by rewrite Hu.
  - destruct (at_side e m (ss_pair s)) as [[[ev|f]| | |] p]; try done; injection E as <-; cbn [ss_cur ss_todo]; by rewrite ?Hu.
  - destruct (ss_todo s e); injection E as <-; cbn [ss_cur ss_todo]; by rewrite ?Hu.
Qed.
(** The next action of [d] blocks. *)
Definition spun (d : side) (s : steps_sys (QP:=QP) (R:=R) (Msg:=Msg)) : Prop :=
  exists c m, ss_cur s d = Some (c, FAct m) /\ (m (end_of d (ss_pair s))).1 = Spin.
Lemma left_self d s s' n :
  steps_step code s d = Some s' -> actions_left d s n ->
  actions_left d s' (n - 1) \/
  (blocks /\ spun d s /\ ss_cur s' = ss_cur s /\ ss_todo s' = ss_todo s /\ ss_trace s' = ss_trace s).
Proof using Hends.
  intros E (j & Hj & Hn). unfold steps_step in E.
  assert (forall X (x : X) (f : side -> X), upd d x f d = x) as Hu by (intros; unfold upd; by rewrite decide_True).
  destruct (ss_cur s d) as [[c [ev|m]]|] eqn:Ec.
  - injection E as <-. destruct Hj as (i & -> & _). left. exists 0%nat. cbn [ss_cur ss_todo]. rewrite Hu. split; [done|lia].
  - destruct Hj as (i & -> & Hi). destruct i as [|i']; [done|]. unfold at_side, zoom in E. rename Hi into Hm.
    specialize (Hm (end_of d (ss_pair s))).
    destruct (m (end_of d (ss_pair s))) as [[[ev|f]| | |] e'] eqn:Em; try done; injection E as <-.
    + left. exists 0%nat. cbn [ss_cur ss_todo]. rewrite Hu. split; [done|lia].
    + left. exists (Datatypes.S i'). cbn [ss_cur ss_todo]. rewrite Hu. split; [by exists i'|lia].
    + right. split; [done|]. split; [|done]. exists c, m. by rewrite Ec, Em.
  - left. destruct (ss_todo s d) as [|c l] eqn:Et; injection E as <-.
    + exists 0%nat. rewrite Ec, Et. split; [done|simpl in *; lia].
    + exists (Datatypes.S K). cbn [ss_cur ss_todo]. rewrite !Hu. split; [by exists K|simpl in *; lia].
Qed.
Lemma left_run d sched : (blocks -> False) -> forall s s' n,
  steps_run code s sched = Some s' -> actions_left d s n -> actions_left d s' (n - length (filter (eq d) sched)).
Proof using Hends.
  intros Hb. induction sched as [|e sched IH]; intros s s' n E H; simpl in E.
  - injection E as <-. simpl. by rewrite Nat.sub_0_r.
  - apply bind_Some in E as (s1 & E1 & E). rewrite filter_cons. case_decide as D.
    + subst e. simpl. replace (n - S _)%nat with (n - 1 - length (filter (eq d) sched))%nat by lia.
      apply (IH s1); [done|]. by destruct (left_self d s s1 n E1 H) as [?|[? _]].
    + apply (IH s1); [done|]. by apply (left_other d e s).
Qed.

(** The calls of a thread: returned, running, to come. *)
Definition calls (d : side) (s : steps_sys (QP:=QP) (R:=R) (Msg:=Msg)) : nat :=
  (length (filter (fun x => x.1 = d) (ss_trace s)) + (if ss_cur s d then 1 else 0) + length (ss_todo s d))%nat.
Lemma calls_step d e s s' : steps_step code s e = Some s' -> calls d s' = calls d s.
Proof using Type.
  clear Hends. intros E. unfold steps_step in E. unfold calls.
  assert (forall X (x : X) (f : side -> X), upd e x f d = if decide (d = e) then x else f d) as Hu by done.
  destruct (ss_cur s e) as [[c [ev|m]]|] eqn:Ec.
  - injection E as <-. cbn [ss_cur ss_todo ss_trace]. rewrite Hu, filter_app, length_app, filter_cons. cbn [fst].
    case_decide as D; [subst; rewrite decide_True by done; rewrite Ec; simpl; lia|].
    rewrite decide_False by done. simpl. lia.
  - destruct (at_side e m (ss_pair s)) as [[[ev|f]| | |] p]; try done; injection E as <-; cbn [ss_cur ss_todo ss_trace]; rewrite ?Hu.
    + rewrite filter_app, length_app, filter_cons. cbn [fst].
      case_decide as D; [subst; rewrite decide_True by done; rewrite Ec; simpl; lia|].
      rewrite decide_False by done. simpl. lia.
    + case_decide; [subst; by rewrite Ec|done].
    + done.
  - destruct (ss_todo s e) as [|c l] eqn:Et; injection E as <-; [done|]. cbn [ss_cur ss_todo ss_trace]. rewrite !Hu.
    case_decide; [subst; rewrite Ec, Et; simpl; lia|done].
Qed.
Lemma calls_run d sched : forall s s', steps_run code s sched = Some s' -> calls d s' = calls d s.
Proof using Type.
  clear Hends. induction sched as [|e sched IH]; intros s s' E; simpl in E; [by injection E as ->|].
  apply bind_Some in E as (s1 & E1 & E). by rewrite (IH _ _ E), (calls_step d e s s1).
Qed.

(** A thread that has been scheduled [K + 2] times per call has finished. *)
Lemma wait_free d p todo sched s' : (blocks -> False) ->
  steps_run code (steps_start p todo) sched = Some s' ->
  ((K + 2) * length (todo d) <= length (filter (eq d) sched))%nat ->
  ss_cur s' d = None /\ ss_todo s' d = [] /\ length (filter (fun x => x.1 = d) (ss_trace s')) = length (todo d).
Proof using Hends.
  intros Hb E Hn. destruct (left_run d sched Hb _ _ ((K + 2) * length (todo d)) E) as (j & Hj & Hle).
  { exists 0%nat. split; [done|]. simpl. lia. }
  assert (E1 : ss_cur s' d = None) by (destruct (ss_cur s' d) as [[c f]|]; [destruct Hj as (i & -> & _); lia|done]).
  assert (E2 : ss_todo s' d = []) by (destruct (ss_todo s' d); [done|simpl in Hle; lia]).
  split; [done|]. split; [done|]. pose proof (calls_run d sched _ _ E) as C. unfold calls in C. rewrite E1, E2 in C.
  simpl in C. lia.
Qed.
End wait_free.
