(* ===== verification/Progress.v ===== *)
(** Blocking calls over single accesses ([Steps]): when one thread only sends and the other
    only receives as many messages, every schedule in which both keep running brings all
    calls to an end - no thread is left waiting for a change it has missed. *)
From S2P Require Import Prelude Fifo Pair Steps.

Section progress.
Context {QP R Msg : Type} (code : cmd Msg -> frag (endp QP R) (event Msg)).
Abbreviation call := (frag (endp QP R) (event Msg)).
Context (dinv : QP -> R -> QP -> option (Msg * call) -> option call -> list Msg -> Prop) (cap : nat) (valid : Msg -> Prop).
Context (HS : step_send_law dinv cap) (HR : step_recv_law dinv cap)
  (HS0 : start_send_law code dinv valid) (HR0 : start_recv_law code dinv).

(** What a backend has to show: a send that blocks has something to wait for, a receive
    that blocks has nothing to receive, and no call gives up. *)
Definition send_blocks_law : Prop := forall e rxq m f rp q a,
  dinv (e_qp e) (e_tx e) rxq (Some (m, f)) rp q -> f = FAct a ->
  match (a e).1 with Ret (FDone ev) => ev = ESent m | Spin => q <> [] | _ => True end.
Definition recv_blocks_law : Prop := forall e txq f sp q a,
  dinv txq (e_rx e) (e_qp e) sp (Some f) q -> f = FAct a ->
  match (a e).1 with Ret (FDone ev) => ev <> EEmpty | Spin => q = [] | _ => True end.
Context (HSb : send_blocks_law) (HRb : recv_blocks_law) (K : nat) (Hends : forall c, frag_ends True K (code c)).

Abbreviation sys := (@steps_sys QP R Msg).
Definition pending (d : side) (s : sys) : nat := ((if ss_cur s d then 1 else 0) + length (ss_todo s d))%nat.
(** [Src] sends and [Dst] receives. *)
Definition role (d : side) (c : cmd Msg) : Prop := match d, c with Src, CSend _ | Dst, CRecv => True | _, _ => False end.
(** The messages of the sender: sent, being sent, to send. *)
Definition command_msg (c : cmd Msg) : list Msg := match c with CSend m => [m] | CRecv => [] end.
Definition all_sends (s : sys) : list Msg :=
  sent_of (dir_trace Src (ss_trace s)) ++ (match ss_cur s Src with Some (c, _) => command_msg c | None => [] end) ++
  concat (command_msg <$> ss_todo s Src).
Record one_way (s : sys) (q : list Msg) : Prop := {
  ow_ok : exists Qs, steps_ok dinv valid s Qs /\ Qs Src = q;
  ow_cur d c f : ss_cur s d = Some (c, f) -> role d c;
  ow_todo d : Forall (role d) (ss_todo s d);
  ow_pending : pending Dst s = (pending Src s + length q)%nat;
  ow_fifo : sent_of (dir_trace Src (ss_trace s)) = recv_of (dir_trace Src (ss_trace s)) ++ q;
}.
Definition work (s : sys) (n : nat) : Prop :=
  exists n1 n2, actions_left K True Src s n1 /\ actions_left K True Dst s n2 /\ (n1 + n2 <= n)%nat.
Definition finished (s : sys) : Prop := forall d, ss_cur s d = None /\ ss_todo s d = [].

Lemma work_zero s : work s 0 -> finished s.
Proof using Type.
  clear. intros (n1 & n2 & (j1 & H1 & L1) & (j2 & H2 & L2) & Hn) d.
  assert (G : forall d j, match ss_cur s d with None => j = 0%nat | Some (_, f) => exists i, j = Datatypes.S i /\ frag_ends True i f end ->
    (j + (K + 2) * length (ss_todo s d) <= 0)%nat -> ss_cur s d = None /\ ss_todo s d = []).
  { intros e j Hj Hl. destruct (ss_cur s e) as [[c f]|]; [destruct Hj as (i & -> & _); lia|].
    split; [done|]. destruct (ss_todo s e); [done|simpl in Hl; lia]. }
  destruct d; [eapply G; [exact H1|lia]|eapply G; [exact H2|lia]].
Qed.

Lemma app_nil_inv {A} (l k : list A) : l = l ++ k -> k = [].
Proof using Type. clear. intros H. apply (app_inv_head l). by rewrite app_nil_r. Qed.

(** One step: an event of the direction, or none. *)
Lemma quiet_step s s' q :
  one_way s q -> (exists Qs, steps_ok dinv valid s' Qs /\ Qs Src = q) ->
  (forall d c f, ss_cur s' d = Some (c, f) -> role d c) -> (forall d, Forall (role d) (ss_todo s' d)) ->
  (forall d, pending d s' = pending d s) -> ss_trace s' = ss_trace s -> one_way s' q.
Proof using Type. clear. intros [] H1 H2 H3 H4 H5. split; [done..| |]; [by rewrite !H4|by rewrite H5]. Qed.

Lemma quiet_new Qs Qs' : traces cap (@nil (side * event Msg)) Qs Qs' -> Qs' Src = Qs Src.
Proof using Type. clear. intros H. specialize (H Src). by inversion H. Qed.

Lemma order_app (tr new : list (side * event Msg)) q q' :
  sent_of (dir_trace Src tr) = recv_of (dir_trace Src tr) ++ q -> fifo_run cap q (dir_trace Src new) q' ->
  sent_of (dir_trace Src (tr ++ new)) = recv_of (dir_trace Src (tr ++ new)) ++ q'.
Proof using Type.
  clear. intros H Hr. apply fifo_run_order in Hr. unfold dir_trace in *. rewrite fmap_app, concat_app.
  unfold sent_of, recv_of in *. rewrite !fmap_app, !concat_app, H, <- !app_assoc. by rewrite Hr.
Qed.

Definition stalls (d : side) (s : sys) (q : list Msg) : Prop :=
  pending d s = 0%nat \/ match d with Src => q <> [] | Dst => q = [] end.

Lemma spun_stalls s q d : one_way s q -> spun d s -> stalls d s q.
Proof using HSb HRb.
  clear Hends. intros [(Qs & [Hok _] & Hq) Hc _ _ _] (c & m & Ec & Hm). right. specialize (Hc d c _ Ec). destruct d, c as [x|]; try done.
  - specialize (Hok Src). unfold dir_inv in Hok. rewrite Ec in Hok. cbn [sending] in Hok.
    pose proof (HSb _ _ _ _ _ _ m Hok eq_refl) as H. rewrite Hm in H. by rewrite <- Hq.
  - specialize (Hok Src). unfold dir_inv in Hok. change (peer Src) with Dst in Hok. rewrite Ec in Hok. cbn [receiving] in Hok.
    pose proof (HRb (end_of Dst (ss_pair s)) (e_qp (end_of Src (ss_pair s))) (FAct m) (sending (ss_cur s Src)) (Qs Src) m) as H.
    destruct (end_rings Src (ss_pair s)) as [E1 E2]. change (peer Src) with Dst in E1, E2. rewrite <- E1 in Hok.
    specialize (H Hok eq_refl). rewrite Hm in H. by rewrite <- Hq.
Qed.

Lemma send_event s q c m e' ev :
  one_way s q -> ss_cur s Src = Some (c, FAct m) -> m (end_of Src (ss_pair s)) = (Ret (FDone ev), e') ->
  exists x, c = CSend x /\ ev = ESent x.
Proof using HSb.
  clear Hends HRb. intros [(Qs & [Hok _] & Hq) Hc _ _ _] Ec Em. specialize (Hc Src c _ Ec). destruct c as [x|]; [|done].
  specialize (Hok Src). unfold dir_inv in Hok. rewrite Ec in Hok. pose proof (HSb _ _ _ _ _ _ m Hok eq_refl) as H.
  rewrite Em in H. by exists x.
Qed.
Lemma recv_event s q c m e' ev :
  one_way s q -> ss_cur s Dst = Some (c, FAct m) -> m (end_of Dst (ss_pair s)) = (Ret (FDone ev), e') ->
  exists x, ev = ERecv x.
Proof using HR HRb.
  clear Hends HSb. intros [(Qs & [Hok _] & Hq) Hc _ _ _] Ec Em. specialize (Hc Dst c _ Ec). destruct c as [x|]; [done|].
  specialize (Hok Src). unfold dir_inv in Hok. change (peer Src) with Dst in Hok. rewrite Ec in Hok. cbn [receiving] in Hok.
  destruct (end_rings Src (ss_pair s)) as [E1 _]. change (peer Src) with Dst in E1. rewrite <- E1 in Hok.
  pose proof (HRb (end_of Dst (ss_pair s)) _ _ _ _ m Hok eq_refl) as H. rewrite Em in H. cbn [fst] in H.
  destruct (HR (end_of Dst (ss_pair s)) _ _ _ _ Hok) as (a & o & e1 & Ea & Eo & _ & _ & Ho). injection Ea as <-.
  rewrite Em in Eo. injection Eo as <- <-. destruct Ho as [Hns _]. destruct ev as [x| |x|]; [by destruct Hns|by destruct Hns|by exists x|done].
Qed.
Lemma not_done s q d c ev : one_way s q -> ss_cur s d = Some (c, FDone ev) -> False.
Proof using HS HR.
  clear Hends HSb HRb. intros [(Qs & [Hok _] & Hq) Hc _ _ _] Ec. specialize (Hc d c _ Ec). specialize (Hok Src). unfold dir_inv in Hok.
  change (peer Src) with Dst in Hok. destruct d, c as [x|]; try done; rewrite Ec in Hok; cbn [sending receiving] in Hok.
  - destruct (HS _ _ _ _ _ _ Hok) as (a & o & e1 & Ea & _). done.
  - destruct (end_rings Src (ss_pair s)) as [E1 _]. change (peer Src) with Dst in E1. rewrite <- E1 in Hok.
    destruct (HR (end_of Dst (ss_pair s)) _ _ _ _ Hok) as (a & o & e1 & Ea & _). done.
Qed.

Lemma one_way_step s q d s' :
  one_way s q -> steps_step code s d = Some s' ->
  exists q', one_way s' q' /\ all_sends s' = all_sends s /\
    (ss_trace s' = ss_trace s -> q' = q /\ forall e, pending e s' = pending e s).
Proof using Type*.
  intros I E. pose proof I as [(Qs & Hok & Hq) Hc Ht Hp Hf].
  destruct (steps_step_ok code dinv cap valid HS HR HS0 HR0 s d Qs Hok) as (s1 & Qs' & new & E1 & Hok' & T & Rn).
  rewrite E in E1. injection E1 as <-. unfold steps_step in E.
  destruct (ss_cur s d) as [[c [ev|m]]|] eqn:Ec.
  - by destruct (not_done s q d c ev I Ec).
  - unfold at_side, zoom in E. destruct (m (end_of d (ss_pair s))) as [[[ev|f]| | |] e'] eqn:Em; try done; injection E as <-.
    + (* the call returns *)
      assert (Hf' : forall tr, tr = ss_trace s ++ new -> sent_of (dir_trace Src tr) = recv_of (dir_trace Src tr) ++ Qs' Src)
        by (intros tr ->; rewrite <- Hq in Hf; by apply (order_app _ _ _ _ Hf)).
      cbn [ss_trace] in T. apply app_inv_head in T as <-. specialize (Rn Src). unfold dir_trace, dir_event in Rn. simpl in Rn.
      exists (Qs' Src). destruct d.
      * destruct (send_event s q c m e' ev I Ec Em) as (x & -> & ->). simpl in Rn.
        apply fifo_run_order in Rn. cbn in Rn.
        split; [|split].
        -- split; [by exists Qs'| | | |by apply Hf'].
           ++ intros e c' f' He. cbn [ss_cur] in He. destruct e; [done|]. by apply (Hc Dst c' f').
           ++ done.
           ++ unfold pending in *. cbn [ss_cur ss_todo]. change (upd Src None (ss_cur s) Src) with (@None (cmd Msg * call)).
              change (upd Src None (ss_cur s) Dst) with (ss_cur s Dst). rewrite Ec in Hp. simpl in *.
              rewrite <- Rn, Hq, length_app. simpl. lia.
        -- unfold all_sends. cbn [ss_trace ss_cur ss_todo]. rewrite Ec, dir_trace_snoc. change (upd Src None (ss_cur s) Src) with (@None (cmd Msg * call)).
           unfold sent_of. rewrite fmap_app, concat_app. simpl. by rewrite <- app_assoc.
        -- intros H. cbn [ss_trace] in H. apply (f_equal length) in H. rewrite length_app in H. simpl in H. lia.
      * destruct (recv_event s q c m e' ev I Ec Em) as (x & ->). simpl in Rn.
        apply fifo_run_order in Rn. cbn in Rn. rewrite app_nil_r in Rn.
        split; [|split].
        -- split; [by exists Qs'| | | |by apply Hf'].
           ++ intros e c' f' He. cbn [ss_cur] in He. destruct e; [by apply (Hc Src c' f')|done].
           ++ done.
           ++ unfold pending in *. cbn [ss_cur ss_todo]. change (upd Dst None (ss_cur s) Dst) with (@None (cmd Msg * call)).
              change (upd Dst None (ss_cur s) Src) with (ss_cur s Src). rewrite Ec in Hp.
              rewrite <- Hq, Rn in Hp. simpl in *. lia.
        -- unfold all_sends. cbn [ss_trace ss_cur ss_todo]. rewrite dir_trace_snoc. change (upd Dst None (ss_cur s) Src) with (ss_cur s Src).
           unfold sent_of. rewrite fmap_app, concat_app. simpl. by rewrite app_nil_r.
        -- intros H. cbn [ss_trace] in H. apply (f_equal length) in H. rewrite length_app in H. simpl in H. lia.
    + apply app_nil_inv in T. subst new. exists q.
      assert (Hpd : forall e, pending e (StepsSys (set_end d e' (ss_pair s)) (upd d (Some (c, FAct f)) (ss_cur s)) (ss_todo s) (ss_trace s)) = pending e s).
      { intros e. unfold pending. cbn [ss_cur ss_todo]. unfold upd. case_decide; [subst; by rewrite Ec|done]. }
      split; [|split; [|done]].
      * apply (quiet_step s); [done|exists Qs'; split; [done|by rewrite (quiet_new _ _ Rn)]| |done|done|done].
        intros x c' f' He. cbn [ss_cur] in He. unfold upd in He. case_decide; [subst; simplify_eq; by apply (Hc d c' (FAct m))|by apply (Hc x c' f')].
      * unfold all_sends. cbn [ss_trace ss_cur ss_todo]. unfold upd. case_decide; [subst; by rewrite Ec|done].
    + apply app_nil_inv in T. subst new. exists q. split; [|split; done].
      apply (quiet_step s); [done|exists Qs'; split; [done|by rewrite (quiet_new _ _ Rn)]|done..].
  - destruct (ss_todo s d) as [|c l] eqn:Et; injection E as <-.
    + exists q. done.
    + apply app_nil_inv in T. subst new. pose proof (Ht d) as Hd. rewrite Et in Hd. apply Forall_cons in Hd as [Hr Hl].
      exists q. split; [|split; [|intros _; split; [done|]]].
      * apply (quiet_step s); [done|exists Qs'; split; [done|by rewrite (quiet_new _ _ Rn)]| | | |done].
        -- intros e c' f' He. cbn [ss_cur] in He. unfold upd in He. case_decide; [by subst; simplify_eq|by apply (Hc e c' f')].
        -- intros e. cbn [ss_todo]. unfold upd. case_decide; [by subst|apply Ht].
        -- intros e. unfold pending. cbn [ss_cur ss_todo]. unfold upd. case_decide; [subst; by rewrite Ec, Et|done].
      * unfold all_sends. cbn [ss_trace ss_cur ss_todo]. unfold upd. case_decide; [subst; by rewrite Ec, Et|done].
      * intros e. unfold pending. cbn [ss_cur ss_todo]. unfold upd. case_decide; [subst; by rewrite Ec, Et|done].
Qed.

(** *** The work that is left *)
Lemma left_mono d (s : sys) n n' : actions_left K True d s n -> (n <= n')%nat -> actions_left K True d s n'.
Proof using Type. clear. intros (j & Hj & Hl) Hn. exists j. split; [done|lia]. Qed.
Lemma work_mono s n n' : work s n -> (n <= n')%nat -> work s n'.
Proof using Type. clear. intros (n1 & n2 & H1 & H2 & Hn) Hle. exists n1, n2. split; [done|]. split; [done|lia]. Qed.
Lemma left_zero d (s : sys) : actions_left K True d s 0 -> pending d s = 0%nat.
Proof using Type.
  clear. intros (j & Hj & Hl). unfold pending. destruct (ss_cur s d) as [[c f]|]; [destruct Hj as (i & -> & _); lia|].
  destruct (ss_todo s d); [done|simpl in Hl; lia].
Qed.
Lemma work_side (s : sys) n d : work s n -> exists n1 n2, actions_left K True d s n1 /\ actions_left K True (peer d) s n2 /\ (n1 + n2 <= n)%nat.
Proof using Type.
  clear. intros (n1 & n2 & H1 & H2 & Hn). destruct d; [by exists n1, n2|]. exists n2, n1. split; [done|]. split; [done|lia].
Qed.
Lemma side_work (s : sys) n d n1 n2 :
  actions_left K True d s n1 -> actions_left K True (peer d) s n2 -> (n1 + n2 <= n)%nat -> work s n.
Proof using Type. clear. intros H1 H2 Hn. destruct d; [by exists n1, n2|]. exists n2, n1. split; [done|]. split; [done|lia]. Qed.

Lemma work_step s q d s' n :
  one_way s q -> steps_step code s d = Some s' -> work s n ->
  work s' (n - 1) \/ (work s' n /\ stalls d s q /\ ss_trace s' = ss_trace s).
Proof using HSb HRb Hends.
  intros I E Hw. destruct (work_side s n d Hw) as (n1 & n2 & H1 & H2 & Hn).
  assert (H2' : actions_left K True (peer d) s' n2) by (apply (left_other code K True (peer d) d s s' n2); [by destruct d|done..]).
  destruct (left_self code K True Hends d s s' n1 E H1) as [H1'|(_ & Hsp & Ecur & Etodo & Etr)].
  - destruct n1 as [|n1].
    + pose proof (left_zero d s H1) as Hz. right. split; [by apply (side_work s' n d 0 n2); [|done|lia]|].
      split; [by left|]. unfold pending in Hz. unfold steps_step in E. destruct (ss_cur s d); [done|].
      destruct (ss_todo s d); [by injection E as ->|done].
    + left. apply (side_work s' _ d n1 n2); [by replace n1 with (S n1 - 1)%nat by lia|done|lia].
  - right. split; [|split; [by apply spun_stalls|done]]. apply (side_work s' n d n1 n2); [|done|done].
    destruct H1 as (j & Hj & Hl). exists j. by rewrite Ecur, Etodo.
Qed.

(** A stretch of the schedule gets something done, or finds the threads it runs stalled. *)
Lemma one_way_run sched : forall s q n s',
  one_way s q -> steps_run code s sched = Some s' -> work s n ->
  exists q', one_way s' q' /\ all_sends s' = all_sends s /\
    (work s' (n - 1) \/
     (work s' n /\ q' = q /\ (forall e, pending e s' = pending e s) /\ forall d, d ∈ sched -> stalls d s q)).
Proof using Type*.
  induction sched as [|d sched IH]; intros s q n s' I E Hw; simpl in E.
  - injection E as <-. exists q. split; [done|]. split; [done|]. right. split; [done|]. split; [done|]. split; [done|].
    intros d Hd. by apply elem_of_nil in Hd.
  - apply bind_Some in E as (s1 & E1 & E). destruct (one_way_step s q d s1 I E1) as (q1 & I1 & A1 & Hq).
    destruct (work_step s q d s1 n I E1 Hw) as [W1|(W1 & St & Tr)].
    + destruct (IH s1 q1 _ s' I1 E W1) as (q' & I' & A' & W'). exists q'. split; [done|]. split; [by rewrite A'|]. left.
      destruct W' as [W'|[W' _]]; [|done]. by eapply work_mono; [exact W'|lia].
    + destruct (Hq Tr) as [-> Hp]. destruct (IH s1 q n s' I1 E W1) as (q' & I' & A' & W'). exists q'.
      split; [done|]. split; [by rewrite A'|]. destruct W' as [W'|(W' & -> & Hp' & Hs)]; [by left|]. right.
      split; [done|]. split; [done|]. split; [intros e; by rewrite Hp'|]. intros e [->|He]%elem_of_cons; [done|].
      specialize (Hs e He). unfold stalls in *. by rewrite <- (Hp e).
Qed.

Lemma stalled_finished s q : one_way s q -> stalls Src s q -> stalls Dst s q -> pending Src s = 0%nat /\ pending Dst s = 0%nat.
Proof using Type.
  clear. intros [_ _ _ Hp _] [H1|H1] [H2|H2].
  - done.
  - subst q. simpl in Hp. lia.
  - destruct q; [done|]. simpl in Hp. lia.
  - done.
Qed.
Lemma pending_work s : pending Src s = 0%nat -> pending Dst s = 0%nat -> work s 0.
Proof using Type.
  clear. intros H1 H2. unfold pending in *.
  assert (G : forall d, ((if ss_cur s d then 1 else 0) + length (ss_todo s d) = 0)%nat -> actions_left K True d s 0).
  { intros d Hd. exists 0%nat. destruct (ss_cur s d); [simpl in Hd; lia|]. split; [done|]. simpl in Hd. lia. }
  exists 0%nat, 0%nat. split; [by apply G|]. split; [by apply G|lia].
Qed.

Lemma rounds_finish scheds : forall s q n s',
  Forall (fun l => Src ∈ l /\ Dst ∈ l) scheds -> one_way s q -> steps_run code s (concat scheds) = Some s' -> work s n ->
  (n <= length scheds)%nat -> exists q', one_way s' q' /\ all_sends s' = all_sends s /\ finished s'.
Proof using Type*.
  assert (Happ : forall l1 l2 s, steps_run code s (l1 ++ l2) = (s1 ← steps_run code s l1; steps_run code s1 l2)).
  { induction l1 as [|d l1 IH]; intros l2 s; [done|]. simpl. destruct (steps_step code s d); simpl; [apply IH|done]. }
  induction scheds as [|l scheds IH]; intros s q n s' Hv I E Hw Hn; simpl in E.
  - injection E as <-. exists q. split; [done|]. split; [done|]. apply work_zero. by replace 0%nat with n by (simpl in Hn; lia).
  - apply Forall_cons in Hv as [[Hs Hd] Hv]. rewrite Happ in E. apply bind_Some in E as (s1 & E1 & E).
    destruct (one_way_run l s q n s1 I E1 Hw) as (q1 & I1 & A1 & W1).
    assert (W : work s1 (n - 1)).
    { destruct W1 as [W1|(W1 & -> & Hp & Hst)]; [done|]. destruct (stalled_finished s q I (Hst Src Hs) (Hst Dst Hd)).
      eapply work_mono; [apply pending_work; by rewrite Hp|lia]. }
    destruct (IH s1 q1 _ s' Hv I1 E W) as (q' & I' & A' & F); [simpl in Hn; lia|]. exists q'. by rewrite A'.
Qed.

(** All calls end, and the receiver has received exactly the messages of the sender. *)
Lemma one_way_completes p ms scheds s' Qs :
  let todo d := match d with Src => CSend <$> ms | Dst => (fun _ => CRecv) <$> ms end in
  steps_ok dinv valid (steps_start p todo) Qs -> Qs Src = [] ->
  Forall (fun l => Src ∈ l /\ Dst ∈ l) scheds -> (2 * (K + 2) * length ms <= length scheds)%nat ->
  steps_run code (steps_start p todo) (concat scheds) = Some s' ->
  finished s' /\ sent_of (dir_trace Src (ss_trace s')) = ms /\ recv_of (dir_trace Src (ss_trace s')) = ms.
Proof using Type*.
  intros todo Hok Hq Hv Hn E.
  assert (I : one_way (steps_start p todo) []).
  { split; [by exists Qs|done| | |done].
    - intros d. destruct d; apply Forall_fmap, Forall_true; done.
    - unfold pending. simpl. rewrite !length_fmap. lia. }
  assert (W : work (steps_start p todo) (2 * (K + 2) * length ms)).
  { exists ((K + 2) * length ms)%nat, ((K + 2) * length ms)%nat. split; [|split; [|lia]].
    all: exists 0%nat; (split; [done|]); simpl; rewrite length_fmap; lia. }
  destruct (rounds_finish scheds _ _ _ s' Hv I E W Hn) as (q' & I' & A & F). split; [done|].
  assert (Hs : sent_of (dir_trace Src (ss_trace s')) = ms).
  { unfold all_sends in A. destruct (F Src) as [F1 F2]. rewrite F1, F2 in A. simpl in A. rewrite app_nil_r in A. rewrite A.
    clear. induction ms as [|m ms IH]; [done|]. simpl. by f_equal. }
  split; [done|]. pose proof (ow_fifo _ _ I') as Hf. pose proof (ow_pending _ _ I') as Hp. unfold pending in Hp.
  destruct (F Src) as [F1 F2], (F Dst) as [F3 F4]. rewrite F1, F2, F3, F4 in Hp. simpl in Hp. destruct q'; [|done].
  rewrite app_nil_r in Hf. congruence.
Qed.
End progress.
