(* ===== verification/UmpQueue.v ===== *)
(** UMP backend, queue level ([inc/backends/ump/smlt_ump_queue.h],
    [src/backends/ump/smlt_ump_queue.c]): a ring of cache-line messages whose
    control word carries an epoch and a sequence number, and one word of
    acknowledgement written by the receiver. *)
From S2P Require Import Prelude Errors.

(** ** Data *)
Definition SMLT_UMP_MSG_BYTES : Z := 64.
Definition BASE_PAGE_SIZE : Z := 4096.
Definition SMLT_UMP_DEFAULT_SLOTS : Z := BASE_PAGE_SIZE / SMLT_UMP_MSG_BYTES.
Definition SMLT_UMP_PAYLOAD_WORDS : nat := 7.

(** [union smlt_ump_ctrl]: two 16-bit halves of the 32-bit control word. *)
Record ump_ctrl := Ctrl { c_epoch : Z; c_last_ack : Z }.
(** [struct smlt_ump_message] *)
Record ump_message := UMsg { m_ctrl : ump_ctrl; m_data : list Z }.

Inductive smlt_ump_direction_t := SMLT_UMP_DIRECTION_RECV | SMLT_UMP_DIRECTION_SEND.

(** [struct smlt_ump_queue]; [uq_buf] and [uq_last_ack] are addresses. *)
Record smlt_ump_queue := UQ {
  uq_buf : Z;
  uq_last_ack : Z;
  uq_pos : Z;
  uq_num_msg : Z;
  uq_epoch : bool;
  uq_direction : smlt_ump_direction_t;
}.

(** The memory both ends share: the acknowledgement cell and the slots. *)
Record ump_ring := Ring { ring_ack : Z; ring_buf : list ump_message }.

#[export] Instance ump_ctrl_eq_dec : EqDecision ump_ctrl.
Proof. solve_decision. Defined.
#[export] Instance ump_message_eq_dec : EqDecision ump_message.
Proof. solve_decision. Defined.
#[export] Instance ump_ring_eq_dec : EqDecision ump_ring.
Proof. solve_decision. Defined.

(** A queue descriptor together with the ring it points to. *)
Definition uq_state : Type := smlt_ump_queue * ump_ring.

Definition zero_message : ump_message := UMsg (Ctrl 0 0) (replicate SMLT_UMP_PAYLOAD_WORDS 0).

(** ** Initialisation *)
Definition check_alignment (buf size : Z) : Z :=
  if (size =? 0) || (65535 <? size) then err_value SMLT_ERR_BAD_ALIGNMENT
  else if (buf =? 0) || negb (buf mod SMLT_UMP_MSG_BYTES =? 0)
  then err_value SMLT_ERR_BAD_ALIGNMENT
  else err_value SMLT_SUCCESS.

(** Heap of rings by base address; [memset(buf, 0, slots * 64)] clears the
    acknowledgement slot and the [slots - 1] message slots. *)
Abbreviation rings := (gmap Z ump_ring).

Definition smlt_ump_queue_init_common (q : smlt_ump_queue) (buf slots : Z)
  : M rings (Z * smlt_ump_queue) :=
  let err := check_alignment buf slots in
  if smlt_err_is_fail err then mret (err, q) else
  let q' := UQ (u64 (buf + SMLT_UMP_MSG_BYTES)) buf 0 (u16 (slots - 1)) true (uq_direction q) in
  _ ← assert_ (Z.land (uq_buf q') (SMLT_UMP_MSG_BYTES - 1) =? 0);
  mret (err_value SMLT_SUCCESS, q').

Definition uq_set_direction (d : smlt_ump_direction_t) (q : smlt_ump_queue) : smlt_ump_queue :=
  UQ (uq_buf q) (uq_last_ack q) (uq_pos q) (uq_num_msg q) (uq_epoch q) d.

Definition smlt_ump_queue_init_tx (q : smlt_ump_queue) (buf slots : Z)
  : M rings (Z * smlt_ump_queue) :=
  r ← smlt_ump_queue_init_common q buf slots;
  if smlt_err_is_fail r.1 then mret r else
  let q' := uq_set_direction SMLT_UMP_DIRECTION_SEND r.2 in
  _ ← modify <[buf := Ring 0 (replicate (Z.to_nat (slots - 1)) zero_message)]>;
  mret (err_value SMLT_SUCCESS, q').

Definition smlt_ump_queue_init_rx (q : smlt_ump_queue) (buf slots : Z)
  : M rings (Z * smlt_ump_queue) :=
  r ← smlt_ump_queue_init_common q buf slots;
  if smlt_err_is_fail r.1 then mret r else
  mret (err_value SMLT_SUCCESS, uq_set_direction SMLT_UMP_DIRECTION_RECV r.2).

(** ** Send *)
Definition smlt_ump_queue_last_ack : M uq_state Z := gets (fun s => ring_ack s.2).

Definition smlt_ump_queue_get_next : M uq_state Z := gets (fun s => uq_pos s.1).

(** [++pos == num_msg ? (pos = 0, epoch = !epoch) : ()] on a [uint16_t]. *)
Definition uq_advance (q : smlt_ump_queue) : smlt_ump_queue :=
  let p := u16 (uq_pos q + 1) in
  if p =? uq_num_msg q
  then UQ (uq_buf q) (uq_last_ack q) 0 (uq_num_msg q) (negb (uq_epoch q)) (uq_direction q)
  else UQ (uq_buf q) (uq_last_ack q) p (uq_num_msg q) (uq_epoch q) (uq_direction q).

(** The slot at index [i] of the ring, undefined outside it. *)
Definition ring_slot (i : Z) : M uq_state ump_message :=
  fun s => defined (arr_get (ring_buf s.2) i) s.

Definition set_slot (i : Z) (m : ump_message) : M uq_state unit := fun s =>
  match arr_set (ring_buf s.2) i m with
  | Some l => (Ret tt, (s.1, Ring (ring_ack s.2) l))
  | None => (Undef, s)
  end.

Definition smlt_ump_queue_send (msg : Z) (ctrl : ump_ctrl) : M uq_state unit :=
  q ← gets fst;
  m ← ring_slot msg;
  _ ← set_slot msg (UMsg (Ctrl (Z.b2z (uq_epoch q)) (c_last_ack ctrl)) (m_data m));
  modify (fun s => (uq_advance s.1, s.2)).

Definition smlt_ump_queue_notify (ctrl : ump_ctrl) : M uq_state unit :=
  q ← gets fst;
  m ← ring_slot (uq_pos q);
  _ ← set_slot (uq_pos q) (UMsg (Ctrl (Z.b2z (uq_epoch q)) (c_last_ack ctrl)) (m_data m));
  modify (fun s => (uq_advance s.1, s.2)).

(** ** Receive *)
Definition smlt_ump_queue_can_recv : M uq_state bool :=
  q ← gets fst;
  m ← ring_slot (uq_pos q);
  mret (c_epoch (m_ctrl m) =? Z.b2z (uq_epoch q)).

Definition set_ring_ack (v : Z) : M uq_state unit :=
  modify (fun s => (s.1, Ring v (ring_buf s.2))).

(** Returns the error value and the slot received; acknowledges in the middle
    and at the end of the ring. *)
Definition smlt_ump_queue_recv_raw : M uq_state (Z * Z) :=
  q ← gets fst;
  m ← ring_slot (uq_pos q);
  let ctrl := m_ctrl m in
  if negb (c_epoch ctrl =? Z.b2z (uq_epoch q))
  then mret (err_value SMLT_ERR_QUEUE_EMPTY, 0) else
  _ ← (if uq_pos q =? Z.shiftr (uq_num_msg q) 1
       then set_ring_ack (c_last_ack ctrl) else mret tt);
  _ ← modify (fun s => (uq_advance s.1, s.2));
  _ ← (if u16 (uq_pos q + 1) =? uq_num_msg q
       then set_ring_ack (c_last_ack ctrl) else mret tt);
  mret (err_value SMLT_SUCCESS, uq_pos q).
