(* ===== verification/UmpQueuepair.v ===== *)
(** UMP backend, queue-pair level ([inc/backends/ump/smlt_ump_queuepair.h],
    [src/backends/ump/smlt_ump_queuepair.c]): sequence numbers, flow control by
    acknowledgements, the send and receive operations of a [smlt_qp]; the proof
    that each direction of a pair is a bounded FIFO. *)
From S2P Require Import Prelude Errors Message Platform Fifo Pair UmpQueue.

Record smlt_ump_queuepair := UQP {
  uqp_tx : smlt_ump_queue;
  uqp_rx : smlt_ump_queue;
  uqp_other : Z;      (** address of the other end *)
  uqp_seq_id : Z;
  uqp_last_ack : Z;
}.

(** One end of a pair with the two rings its queues point to. *)
Abbreviation ump_st := (endp smlt_ump_queuepair ump_ring).
Abbreviation ump_pair := (pair smlt_ump_queuepair ump_ring).

Definition uqp_set_tx (q : smlt_ump_queue) (p : smlt_ump_queuepair) : smlt_ump_queuepair :=
  UQP q (uqp_rx p) (uqp_other p) (uqp_seq_id p) (uqp_last_ack p).
Definition uqp_set_rx (q : smlt_ump_queue) (p : smlt_ump_queuepair) : smlt_ump_queuepair :=
  UQP (uqp_tx p) q (uqp_other p) (uqp_seq_id p) (uqp_last_ack p).
Definition uqp_set_seq_id (v : Z) (p : smlt_ump_queuepair) : smlt_ump_queuepair :=
  UQP (uqp_tx p) (uqp_rx p) (uqp_other p) v (uqp_last_ack p).
Definition uqp_set_last_ack (v : Z) (p : smlt_ump_queuepair) : smlt_ump_queuepair :=
  UQP (uqp_tx p) (uqp_rx p) (uqp_other p) (uqp_seq_id p) v.
Definition on_tx {A} : M uq_state A -> M ump_st A :=
  zoom (fun s => (uqp_tx (e_qp s), e_tx s))
       (fun t s => Endp (uqp_set_tx t.1 (e_qp s)) t.2 (e_rx s)).
Definition on_rx {A} : M uq_state A -> M ump_st A :=
  zoom (fun s => (uqp_rx (e_qp s), e_rx s))
       (fun t s => Endp (uqp_set_rx t.1 (e_qp s)) (e_tx s) t.2).

(** ** Send *)
Definition window_open (p : smlt_ump_queuepair) : bool :=
  u16 (uqp_seq_id p - uqp_last_ack p) <=? uq_num_msg (uqp_tx p).

Definition smlt_ump_queuepair_can_send_raw : M ump_st bool :=
  p ← gets e_qp;
  if window_open p then mret true else
  a ← on_tx smlt_ump_queue_last_ack;
  _ ← modify (set_qp (uqp_set_last_ack a));
  gets (fun s => window_open (e_qp s)).

Definition smlt_ump_queuepair_prepare_send : M ump_st (Z * Z) :=
  b ← smlt_ump_queuepair_can_send_raw;
  if negb b then mret (err_value SMLT_ERR_CHAN_WOULD_BLOCK, 0) else
  m ← on_tx smlt_ump_queue_get_next;
  mret (err_value SMLT_SUCCESS, m).

Definition smlt_ump_queuepair_notify_raw : M ump_st Z :=
  p ← gets e_qp;
  let ctrl := Ctrl 0 (uqp_seq_id p) in
  _ ← modify (set_qp (uqp_set_seq_id (u16 (uqp_seq_id p + 1))));
  _ ← on_tx (smlt_ump_queue_notify ctrl);
  mret (err_value SMLT_SUCCESS).

Definition smlt_ump_queuepair_send_raw (msg : Z) : M ump_st Z :=
  p ← gets e_qp;
  let ctrl := Ctrl 0 (uqp_seq_id p) in
  _ ← modify (set_qp (uqp_set_seq_id (u16 (uqp_seq_id p + 1))));
  _ ← on_tx (smlt_ump_queue_send msg ctrl);
  mret (err_value SMLT_SUCCESS).

(** [for (i = 0; i < msg->words; ++i) m->data[i] = msg->data[i];] *)
Definition fill_slot (m : Z) (msg : smlt_msg) : M uq_state unit :=
  slot ← ring_slot m;
  d ← defined (copy_words (msg_data msg) (Z.to_nat (words msg)) 0 (m_data slot));
  set_slot m (UMsg (m_ctrl slot) d).

Definition smlt_ump_queuepair_try_send (msg : smlt_msg) : M ump_st Z :=
  r ← smlt_ump_queuepair_prepare_send;
  if smlt_err_is_fail r.1 then mret (err_value SMLT_ERR_QUEUE_FULL) else
  _ ← on_tx (fill_slot r.2 msg);
  smlt_ump_queuepair_send_raw r.2.

(** [do { err = try_send } while (err == SMLT_ERR_QUEUE_FULL)] *)
Definition smlt_ump_queuepair_send (msg : smlt_msg) : M ump_st Z :=
  err ← smlt_ump_queuepair_try_send msg;
  if err =? err_value SMLT_ERR_QUEUE_FULL then spin else mret err.

Definition smlt_ump_queuepair_notify : M ump_st Z :=
  b ← smlt_ump_queuepair_can_send_raw;
  if negb b then spin else smlt_ump_queuepair_notify_raw.

Definition smlt_ump_queuepair_can_send : M ump_st bool := smlt_ump_queuepair_can_send_raw.

(** ** Receive *)
Definition smlt_ump_queuepair_can_recv_raw : M ump_st bool := on_rx smlt_ump_queue_can_recv.

Definition smlt_ump_queuepair_recv_raw : M ump_st (Z * Z) :=
  b ← smlt_ump_queuepair_can_recv_raw;
  if negb b then mret (err_value SMLT_ERR_QUEUE_EMPTY, 0) else
  on_rx smlt_ump_queue_recv_raw.

(** [for (i = 0; i < msg->words; ++i) msg->data[i] = m->data[i];] *)
Definition read_slot (m : Z) (msg : smlt_msg) : M uq_state smlt_msg :=
  slot ← ring_slot m;
  d ← defined (copy_words (m_data slot) (Z.to_nat (words msg)) 0 (msg_data msg));
  mret (Msg (words msg) (bufsize msg) d).

Definition smlt_ump_queuepair_try_recv (msg : smlt_msg) : M ump_st (Z * smlt_msg) :=
  r ← smlt_ump_queuepair_recv_raw;
  if smlt_err_is_fail r.1 then mret (r.1, msg) else
  msg' ← on_rx (read_slot r.2 msg);
  mret (err_value SMLT_SUCCESS, msg').

Definition smlt_ump_queuepair_recv (msg : smlt_msg) : M ump_st (Z * smlt_msg) :=
  r ← smlt_ump_queuepair_try_recv msg;
  if r.1 =? err_value SMLT_ERR_QUEUE_EMPTY then spin else mret r.

Definition smlt_ump_queuepair_recv_notify : M ump_st Z :=
  b ← smlt_ump_queuepair_can_recv_raw;
  if negb b then spin else
  r ← smlt_ump_queuepair_recv_raw;
  mret r.1.

Definition smlt_ump_queuepair_can_recv : M ump_st bool := smlt_ump_queuepair_can_recv_raw.

(** ** Creation *)
Record ump_init_st := UIS { ui_alloc : alloc_st; ui_rings : rings }.
Definition ui_on_alloc {A} : M alloc_st A -> M ump_init_st A :=
  zoom ui_alloc (fun a s => UIS a (ui_rings s)).
Definition ui_on_rings {A} : M rings A -> M ump_init_st A :=
  zoom ui_rings (fun r s => UIS (ui_alloc s) r).

Definition zero_queue : smlt_ump_queue := UQ 0 0 0 0 false SMLT_UMP_DIRECTION_RECV.
Definition zero_queuepair : smlt_ump_queuepair := UQP zero_queue zero_queue 0 0 0.

Section init.
(** The addresses of the two queue-pair structures. *)
Context (src_addr dst_addr : Z).

Definition pair_result : Type := Z * (smlt_ump_queuepair * smlt_ump_queuepair).

(** Failure of a queue initialisation: free [bufs], push the error. *)
Fixpoint init_fail (bufs : list Z) (err : Z) (sd : smlt_ump_queuepair * smlt_ump_queuepair)
  : M ump_init_st pair_result :=
  match bufs with
  | [] => mret (smlt_err_push err SMLT_ERR_QUEUE_INIT, sd)
  | b :: bufs' => _ ← ui_on_alloc (al_free b); init_fail bufs' err sd
  end.

Definition smlt_ump_queuepair_init (num_slots : Z)
    (src0 dst0 : smlt_ump_queuepair) : M ump_init_st pair_result :=
  if num_slots <? 2 then mret (err_value SMLT_ERR_INVAL, (src0, dst0)) else
  let src := zero_queuepair in
  let dst := zero_queuepair in
  (* initialize queue SRC->DST *)
  shm_src ← ui_on_alloc al_alloc;
  match shm_src with
  | None => mret (err_value SMLT_ERR_MALLOC_FAIL, (src, dst))
  | Some shm_src =>
    r ← ui_on_rings (smlt_ump_queue_init_tx (uqp_tx src) shm_src num_slots);
    let src := uqp_set_tx r.2 src in
    if smlt_err_is_fail r.1 then init_fail [shm_src] r.1 (src, dst) else
    r ← ui_on_rings (smlt_ump_queue_init_rx (uqp_rx dst) shm_src num_slots);
    let dst := uqp_set_rx r.2 dst in
    if smlt_err_is_fail r.1 then init_fail [shm_src] r.1 (src, dst) else
    (* initialize queue DST->SRC *)
    shm_dst ← ui_on_alloc al_alloc;
    match shm_dst with
    | None =>
      _ ← ui_on_alloc (al_free shm_src);
      mret (err_value SMLT_ERR_MALLOC_FAIL, (src, dst))
    | Some shm_dst =>
      r ← ui_on_rings (smlt_ump_queue_init_rx (uqp_rx src) shm_dst num_slots);
      let src := uqp_set_rx r.2 src in
      if smlt_err_is_fail r.1 then init_fail [shm_src; shm_dst] r.1 (src, dst) else
      r ← ui_on_rings (smlt_ump_queue_init_tx (uqp_tx dst) shm_dst num_slots);
      let dst := uqp_set_tx r.2 dst in
      if smlt_err_is_fail r.1 then init_fail [shm_src; shm_dst] r.1 (src, dst) else
      let src := UQP (uqp_tx src) (uqp_rx src) dst_addr 1 (uqp_last_ack src) in
      let dst := UQP (uqp_tx dst) (uqp_rx dst) src_addr 1 (uqp_last_ack dst) in
      mret (err_value SMLT_SUCCESS, (src, dst))
    end
  end.

Definition smlt_ump_queuepair_destroy (qp : smlt_ump_queuepair) : Z :=
  err_value SMLT_SUCCESS.
End init.

(** ** The invariant of one direction

    [sent] is every message ever accepted, [r] how many the receiver has taken,
    [a] the number it has acknowledged and [l <= a] the sender's cached copy. *)
Section invariant.
Context (N : nat) (HN : (0 < N)%nat) (HN16 : Z.of_nat N <= 65534).

Definition uq_at (q : smlt_ump_queue) (s : nat) : Prop :=
  uq_num_msg q = Z.of_nat N /\ uq_pos q = Z.of_nat (s mod N) /\
  uq_epoch q = Nat.even (s / N).

Definition ctrl_of (j : nat) : ump_ctrl :=
  Ctrl (Z.b2z (Nat.even (j / N))) (u16 (Z.of_nat (S j))).

Definition slot_holds (buf : list ump_message) (j : nat) (m : list Z) : Prop :=
  exists d, buf !! (j mod N)%nat = Some (UMsg (ctrl_of j) d) /\
    length d = SMLT_UMP_PAYLOAD_WORDS /\ take (length m) d = m.

Definition slot_fresh (buf : list ump_message) (j : nat) : Prop :=
  exists d la, buf !! j = Some (UMsg (Ctrl 0 la) d) /\ length d = SMLT_UMP_PAYLOAD_WORDS.

Record ump_inv (tx : smlt_ump_queue) (seq la : Z) (rx : smlt_ump_queue)
    (ring : ump_ring) (sent : list (list Z)) (r a l : nat) : Prop := {
  inv_len : length (ring_buf ring) = N;
  inv_tx : uq_at tx (length sent);
  inv_rx : uq_at rx r;
  inv_seq : seq = u16 (Z.of_nat (S (length sent)));
  inv_la : la = u16 (Z.of_nat l);
  inv_ack : ring_ack ring = u16 (Z.of_nat a);
  inv_order : (l <= a)%nat /\ (a <= r)%nat /\ (r <= length sent)%nat /\
              (length sent <= l + N)%nat;
  inv_acked : (N * (r / N) <= a)%nat;
  inv_slots j m : sent !! j = Some m -> (length sent <= j + N)%nat ->
                  slot_holds (ring_buf ring) j m;
  inv_fresh j : (length sent <= j)%nat -> (j < N)%nat -> slot_fresh (ring_buf ring) j;
}.

Lemma uq_advance_at q s : uq_at q s -> uq_at (uq_advance q) (S s).
Proof using Type*.
  intros (Hn & Hp & He). unfold uq_advance, uq_at. rewrite Hp, Hn.
  destruct (ring_next N HN s) as [E1 E2]. pose proof (ring_lt N HN s).
  rewrite wrap_small by (pow_consts; lia).
  destruct (Z.eqb_spec (Z.of_nat (s mod N) + 1) (Z.of_nat N)); simpl;
    rewrite E1, E2; case_decide; try lia; rewrite ?Nat.even_succ; repeat split; try done; try lia.
  rewrite He. by rewrite <- Nat.negb_even.
Qed.

Lemma window_open_spec p s l :
  uqp_seq_id p = u16 (Z.of_nat (S s)) -> uqp_last_ack p = u16 (Z.of_nat l) ->
  uq_num_msg (uqp_tx p) = Z.of_nat N -> (l <= s)%nat -> (s <= l + N)%nat ->
  window_open p = bool_decide (s < l + N)%nat.
Proof using Type*.
  unfold window_open. intros -> -> -> H1 H2.
  rewrite wrap_sub, wrap_small by (pow_consts; lia).
  destruct (Z.leb_spec (Z.of_nat (S s) - Z.of_nat l) (Z.of_nat N));
    [rewrite bool_decide_true by lia|rewrite bool_decide_false by lia]; done.
Qed.

(** The flow-control check refreshes the cached acknowledgement only when it
    has to, and refuses only when a whole ring is unacknowledged. *)
Lemma can_send_spec p ring rxring rx sent r a l :
  ump_inv (uqp_tx p) (uqp_seq_id p) (uqp_last_ack p) rx ring sent r a l ->
  exists b l', smlt_ump_queuepair_can_send_raw (Endp p ring rxring) =
      (Ret b, Endp (uqp_set_last_ack (u16 (Z.of_nat l')) p) ring rxring) /\
    (l' <= a)%nat /\ (length sent <= l' + N)%nat /\
    (if b then (length sent < l' + N)%nat else (length sent = a + N)%nat).
Proof using Type*.
  intros I. pose proof (inv_order _ _ _ _ _ _ _ _ _ I) as (O1 & O2 & O3 & O4).
  pose proof (inv_tx _ _ _ _ _ _ _ _ _ I) as [Hnum _].
  unfold smlt_ump_queuepair_can_send_raw, mbind, M_bind, gets. simpl.
  pose proof (inv_la _ _ _ _ _ _ _ _ _ I) as Hla.
  pose proof (inv_seq _ _ _ _ _ _ _ _ _ I) as Hseq.
  rewrite (window_open_spec p (length sent) l) by (done || lia).
  case_bool_decide as D.
  - exists true, l. rewrite <- Hla. split; [|lia]. by destruct p.
  - unfold on_tx, zoom, smlt_ump_queue_last_ack, gets, modify, set_qp. simpl.
    rewrite (inv_ack _ _ _ _ _ _ _ _ _ I).
    rewrite (window_open_spec _ (length sent) a) by (simpl; done || lia).
    eexists _, a. split; [by destruct p|]. case_bool_decide; lia.
Qed.

Lemma inv_slot_data tx seq la rx ring sent r a l i x :
  ump_inv tx seq la rx ring sent r a l ->
  ring_buf ring !! i = Some x -> length (m_data x) = SMLT_UMP_PAYLOAD_WORDS.
Proof using Type*.
  intros I Hx. pose proof (lookup_lt_Some _ _ _ Hx) as Hi.
  rewrite (inv_len _ _ _ _ _ _ _ _ _ I) in Hi.
  set (s := length sent). destruct (decide (s <= i)%nat) as [Hf|Hf].
  { destruct (inv_fresh _ _ _ _ _ _ _ _ _ I i Hf Hi) as (d & ? & E & ?).
    by rewrite Hx in E; simplify_eq. }
  (* the last message written to slot [i] *)
  pose proof (Nat.div_mod_eq (s - 1 - i) N) as D.
  pose proof (ring_lt N HN (s - 1 - i)) as L.
  set (j := (i + N * ((s - 1 - i) / N))%nat).
  assert (Hj : (j < s)%nat /\ (s <= j + N)%nat) by (unfold j; lia).
  assert (Hjm : (j mod N = i)%nat).
  { unfold j. rewrite Nat.mul_comm, Nat.Div0.mod_add. by apply Nat.mod_small. }
  destruct (lookup_lt_is_Some_2 sent j) as [m Hm]; [lia|].
  destruct (inv_slots _ _ _ _ _ _ _ _ _ I j m Hm) as (d & E & ? & _); [lia|].
  rewrite Hjm, Hx in E. by simplify_eq.
Qed.

Lemma inv_send tx seq la rx ring sent r a l m d :
  ump_inv tx seq la rx ring sent r a l ->
  (length sent < l + N)%nat -> length d = SMLT_UMP_PAYLOAD_WORDS -> take (length m) d = m ->
  ump_inv (uq_advance tx) (u16 (seq + 1)) la rx
    (Ring (ring_ack ring)
       (<[(length sent mod N)%nat := UMsg (Ctrl (Z.b2z (uq_epoch tx)) seq) d]> (ring_buf ring)))
    (sent ++ [m]) r a l.
Proof using Type*.
  intros I Hw Hd Hm. destruct I as [Il It Ir Is Ia Ik Io Iw Isl If].
  pose proof (ring_lt N HN (length sent)) as Hlt.
  constructor; rewrite ?length_app; simpl; rewrite ?Nat.add_1_r; try done; try lia.
  - by rewrite length_insert.
  - by apply uq_advance_at.
  - subst seq. rewrite wrap_add_l by lia. f_equal. lia.
  - intros j m' Hj Hs. destruct (decide (j = length sent)) as [->|Hne].
    + rewrite lookup_snoc_eq in Hj. simplify_eq.
      exists d. rewrite list_lookup_insert_eq by lia. split; [|done].
      by destruct It as (_ & _ & ->).
    + pose proof (lookup_lt_Some _ _ _ Hj) as Hjl.
      rewrite length_app in Hjl. simpl in Hjl.
      rewrite lookup_snoc_lt in Hj by lia.
      destruct (Isl j m' Hj) as (d' & E & ? & ?); [lia|].
      exists d'. rewrite list_lookup_insert_ne; [done|].
      intros E'. apply Hne. symmetry.
      apply (ring_inj N HN (length sent) j (S (length sent))); lia.
  - intros j H1 H2. destruct (If j) as (d' & la' & E & ?); [lia..|].
    exists d', la'. rewrite list_lookup_insert_ne; [done|].
    rewrite Nat.mod_small by lia. lia.
Qed.

(** The acknowledged count after taking message [r]. *)
Definition ack_after (r a : nat) : nat :=
  if decide (r mod N = N / 2 \/ S (r mod N) = N)%nat then S r else a.

Lemma inv_recv tx seq la rx ring sent r a l :
  ump_inv tx seq la rx ring sent r a l -> (r < length sent)%nat ->
  ump_inv tx seq la (uq_advance rx)
    (Ring (u16 (Z.of_nat (ack_after r a))) (ring_buf ring)) sent (S r) (ack_after r a) l.
Proof using Type*.
  intros I Hr. destruct I as [Il It Ir Is Ia Ik Io Iw Isl If].
  assert (a <= ack_after r a <= S r)%nat by (unfold ack_after; case_decide; lia).
  constructor; simpl; try done; try lia.
  - by apply uq_advance_at.
  - destruct (ring_next N HN r) as [E1 E2].
    pose proof (Nat.div_mod_eq (S r) N). unfold ack_after.
    destruct (decide (S (r mod N) = N)).
    + rewrite decide_True by lia. lia.
    + rewrite E2. case_decide; lia.
Qed.

(** The epoch bit tells a pending message from a stale or unused slot. *)
Lemma pending_epoch tx seq la rx ring sent r a l :
  ump_inv tx seq la rx ring sent r a l ->
  exists x, ring_buf ring !! (r mod N)%nat = Some x /\ 
    (c_epoch (m_ctrl x) =? Z.b2z (uq_epoch rx)) = bool_decide (r < length sent)%nat.
Proof using Type*.
  intros I. destruct I as [Il It Ir Is Ia Ik Io Iw Isl If].
  destruct Ir as (_ & _ & ->). case_bool_decide as D.
  - destruct (lookup_lt_is_Some_2 sent r D) as [m Hm].
    destruct (Isl r m Hm) as (d & E & _); [lia|].
    eexists. split; [exact E|]. simpl. apply Z.eqb_refl.
  - assert (r = length sent) as -> by lia.
    destruct (decide (N <= length sent)%nat) as [Hn|Hn].
    + destruct (lookup_lt_is_Some_2 sent (length sent - N)) as [m Hm]; [lia|].
      destruct (Isl _ m Hm) as (d & E & _); [lia|].
      destruct (ring_add_period N HN (length sent - N)) as [E1 E2].
      replace (length sent - N + N)%nat with (length sent) in * by lia.
      rewrite <- E1 in E. eexists. split; [exact E|]. simpl. rewrite E2, Nat.even_succ.
      rewrite <- Nat.negb_even. by destruct (Nat.even _).
    + destruct (If (length sent)) as (d & la' & E & _); [lia..|].
      rewrite Nat.mod_small, Nat.div_small by lia. eexists. split; [exact E|]. done.
Qed.

Lemma inv_refresh tx seq la rx ring sent r a l l' :
  ump_inv tx seq la rx ring sent r a l -> (l' <= a)%nat -> (length sent <= l' + N)%nat ->
  ump_inv tx seq (u16 (Z.of_nat l')) rx ring sent r a l'.
Proof using Type*.
  intros [Il It Ir Is Ia Ik Io Iw Isl If] ? ?. constructor; try done; lia.
Qed.

Lemma tx_slot tx seq la rx ring sent r a l :
  ump_inv tx seq la rx ring sent r a l ->
  exists x, arr_get (ring_buf ring) (uq_pos tx) = Some x /\
    length (m_data x) = SMLT_UMP_PAYLOAD_WORDS /\
    (forall y, arr_set (ring_buf ring) (uq_pos tx) y =
       Some (<[(length sent mod N)%nat := y]> (ring_buf ring))).
Proof using Type*.
  intros I. destruct (inv_tx _ _ _ _ _ _ _ _ _ I) as (_ & Hp & _).
  pose proof (ring_lt N HN (length sent)) as L.
  pose proof (inv_len _ _ _ _ _ _ _ _ _ I) as Hl.
  destruct (lookup_lt_is_Some_2 (ring_buf ring) (length sent mod N)) as [x Hx]; [lia|].
  exists x. rewrite Hp. split; [by rewrite arr_get_nat|].
  split; [by eapply inv_slot_data|]. intros y. apply arr_set_nat. lia.
Qed.

Definition sendable (msg : smlt_msg) : Prop :=
  msg_wf msg /\ words msg <= Z.of_nat SMLT_UMP_PAYLOAD_WORDS.
Definition payload (msg : smlt_msg) : list Z := take (Z.to_nat (words msg)) (msg_data msg).

Lemma try_send_spec p ring rxring rx sent r a l msg :
  ump_inv (uqp_tx p) (uqp_seq_id p) (uqp_last_ack p) rx ring sent r a l -> sendable msg ->
  exists err p' ring' l',
    smlt_ump_queuepair_try_send msg (Endp p ring rxring) = (Ret err, Endp p' ring' rxring) /\
    uqp_rx p' = uqp_rx p /\
    ((err = err_value SMLT_SUCCESS /\ (length sent < l' + N)%nat /\
      ump_inv (uqp_tx p') (uqp_seq_id p') (uqp_last_ack p') rx ring'
        (sent ++ [payload msg]) r a l') \/
     (err = err_value SMLT_ERR_QUEUE_FULL /\ (length sent = a + N)%nat /\
      ump_inv (uqp_tx p') (uqp_seq_id p') (uqp_last_ack p') rx ring' sent r a l')).
Proof using Type*.
  intros I [Hwf Hw]. unfold msg_wf, SMLT_UMP_PAYLOAD_WORDS in *.
  destruct (can_send_spec p ring rxring rx sent r a l I) as (b & l' & E & L1 & L2 & Hb).
  pose proof (inv_refresh _ _ _ _ _ _ _ _ _ _ I L1 L2) as I'.
  destruct (tx_slot _ _ _ _ _ _ _ _ _ I) as (x & Hx & Hxd & Hset).
  unfold smlt_ump_queuepair_try_send, smlt_ump_queuepair_prepare_send, mbind, M_bind.
  rewrite E. destruct b; simpl.
  - unfold fill_slot, ring_slot, set_slot, on_tx, zoom, gets, mbind, M_bind. simpl.
    rewrite Hx. simpl. unfold SMLT_UMP_PAYLOAD_WORDS in Hxd.
    rewrite copy_words_spec by lia. simpl. rewrite Hset. unfold smlt_ump_queuepair_send_raw, mbind, M_bind, gets. simpl.
    unfold on_tx, zoom, smlt_ump_queue_send, ring_slot, set_slot, mbind, M_bind, gets. simpl.
    pose proof (ring_lt N HN (length sent)). pose proof (inv_len _ _ _ _ _ _ _ _ _ I).
    destruct (inv_tx _ _ _ _ _ _ _ _ _ I) as (_ & Hp & _).
    rewrite Hp, arr_get_nat, list_lookup_insert_eq by lia. simpl.
    rewrite arr_set_nat by (rewrite length_insert; lia). simpl.
    rewrite list_insert_insert_eq.
    eexists _, _, _, l'. split; [reflexivity|]. simpl. split; [done|]. left.
    split; [done|]. split; [done|].
    apply (inv_send _ _ _ _ _ _ _ _ _ _ _ I' Hb).
    + rewrite length_app, length_take, length_drop. unfold SMLT_UMP_PAYLOAD_WORDS in *. lia.
    + unfold payload. rewrite length_take. rewrite take_app_le by (rewrite length_take; lia).
      rewrite take_ge; [done|]. rewrite length_take. lia.
  - eexists _, _, _, l'. split; [reflexivity|]. simpl. split; [done|]. right.
    split; [done|]. split; [done|]. apply I'.
Qed.

(** A notification is an empty message; the blocking loop spins exactly while a
    whole ring is unacknowledged. *)
Lemma notify_spec p ring rxring rx sent r a l :
  ump_inv (uqp_tx p) (uqp_seq_id p) (uqp_last_ack p) rx ring sent r a l ->
  exists o p' ring' l',
    smlt_ump_queuepair_notify (Endp p ring rxring) = (o, Endp p' ring' rxring) /\
    uqp_rx p' = uqp_rx p /\
    ((o = Ret (err_value SMLT_SUCCESS) /\ (length sent < l' + N)%nat /\
      ump_inv (uqp_tx p') (uqp_seq_id p') (uqp_last_ack p') rx ring'
        (sent ++ [[]]) r a l') \/
     (o = Spin /\ (length sent = a + N)%nat /\
      ump_inv (uqp_tx p') (uqp_seq_id p') (uqp_last_ack p') rx ring' sent r a l')).
Proof using Type*.
  intros I.
  destruct (can_send_spec p ring rxring rx sent r a l I) as (b & l' & E & L1 & L2 & Hb).
  pose proof (inv_refresh _ _ _ _ _ _ _ _ _ _ I L1 L2) as I'.
  destruct (tx_slot _ _ _ _ _ _ _ _ _ I) as (x & Hx & Hxd & Hset).
  unfold smlt_ump_queuepair_notify, mbind, M_bind. rewrite E. destruct b; simpl.
  - unfold smlt_ump_queuepair_notify_raw, mbind, M_bind, gets. simpl.
    unfold on_tx, zoom, smlt_ump_queue_notify, ring_slot, set_slot, mbind, M_bind, gets.
    simpl. rewrite Hx. simpl. rewrite Hset. simpl.
    eexists _, _, _, l'. split; [reflexivity|]. simpl. split; [done|]. left.
    split; [done|]. split; [done|].
    by apply (inv_send _ _ _ _ _ _ _ _ _ _ _ I' Hb).
  - eexists _, _, _, l'. split; [reflexivity|]. simpl. split; [done|]. right.
    split; [done|]. split; [done|]. apply I'.
Qed.

Lemma can_recv_spec p tx seq la txring ring sent r a l :
  ump_inv tx seq la (uqp_rx p) ring sent r a l ->
  smlt_ump_queuepair_can_recv_raw (Endp p txring ring) =
    (Ret (bool_decide (r < length sent)%nat), Endp p txring ring).
Proof using Type*.
  intros I. destruct (pending_epoch _ _ _ _ _ _ _ _ _ I) as (x & Hx & He).
  destruct (inv_rx _ _ _ _ _ _ _ _ _ I) as (_ & Hp & _).
  unfold smlt_ump_queuepair_can_recv_raw, on_rx, zoom, smlt_ump_queue_can_recv,
    ring_slot, gets, mbind, M_bind. simpl.
  rewrite Hp, arr_get_nat, Hx. simpl. rewrite He. by destruct p, ring.
Qed.

Definition recv_state (p : smlt_ump_queuepair) (txring ring : ump_ring) (r a : nat) : ump_st :=
  Endp (uqp_set_rx (uq_advance (uqp_rx p)) p) txring
      (Ring (u16 (Z.of_nat (ack_after r a))) (ring_buf ring)).

Lemma recv_raw_spec p tx seq la txring ring sent r a l :
  ump_inv tx seq la (uqp_rx p) ring sent r a l ->
  smlt_ump_queuepair_recv_raw (Endp p txring ring) =
    if decide (r < length sent)%nat
    then (Ret (err_value SMLT_SUCCESS, Z.of_nat (r mod N)), recv_state p txring ring r a)
    else (Ret (err_value SMLT_ERR_QUEUE_EMPTY, 0), Endp p txring ring).
Proof using Type*.
  intros I. destruct (pending_epoch _ _ _ _ _ _ _ _ _ I) as (x & Hx & He).
  destruct (inv_rx _ _ _ _ _ _ _ _ _ I) as (Hn & Hp & _).
  pose proof (ring_lt N HN r) as L.
  unfold smlt_ump_queuepair_recv_raw, mbind, M_bind.
  rewrite (can_recv_spec _ _ _ _ _ _ _ _ _ _ I).
  case_bool_decide as D; [rewrite decide_True by done|by rewrite decide_False by done].
  simpl. unfold on_rx, zoom, smlt_ump_queue_recv_raw, ring_slot, gets, mbind, M_bind. simpl.
  rewrite Hp, arr_get_nat, Hx. simpl. rewrite He, Hn. simpl.
  destruct (lookup_lt_is_Some_2 sent r D) as [m Hm].
  pose proof (inv_order _ _ _ _ _ _ _ _ _ I).
  destruct (inv_slots _ _ _ _ _ _ _ _ _ I r m Hm) as (d & E & _); [lia|].
  rewrite Hx in E. simplify_eq. simpl. rewrite (wrap_small 16 (_ + 1)) by (pow_consts; lia).
  rewrite Z.shiftr_div_pow2 by lia. change (2 ^ 1) with 2.
  unfold recv_state, ack_after, set_ring_ack, modify, mret, M_ret.
  replace (Z.of_nat N / 2) with (Z.of_nat (N / 2)) by (by rewrite Nat2Z.inj_div).
  destruct (Z.eqb_spec (Z.of_nat (r mod N)) (Z.of_nat (N / 2))) as [E1|E1]; simpl;
    destruct (Z.eqb_spec (Z.of_nat (r mod N) + 1) (Z.of_nat N)) as [E2|E2]; simpl.
  - by rewrite decide_True by (right; lia).
  - by rewrite decide_True by (left; by apply Nat2Z.inj).
  - by rewrite decide_True by (right; lia).
  - rewrite decide_False.
    + pose proof (inv_ack _ _ _ _ _ _ _ _ _ I) as <-. by destruct ring.
    + intros [E3|E3]; [apply E1; by rewrite E3|lia].
Qed.
End invariant.

(** ** A connected pair *)

(** One end's non-blocking calls on messages of [w] words. *)
Definition ump_send (m : list Z) : M ump_st bool :=
  smlt_err_is_ok <$> smlt_ump_queuepair_try_send (msg_of m).
Definition ump_recv (w : nat) : M ump_st (option (list Z)) :=
  r ← smlt_ump_queuepair_try_recv (msg_buf w);
  mret (if smlt_err_is_ok r.1 then Some (msg_data r.2) else None).

Section pair.
Context (N : nat) (HN : (0 < N)%nat) (HN16 : Z.of_nat N <= 65534).

(** The sender [txq], the ring and the receiver [rxq] hold the messages [q]. *)
Definition ump_dir (txq : smlt_ump_queuepair) (ring : ump_ring) (rxq : smlt_ump_queuepair)
    (q : list (list Z)) : Prop :=
  exists sent r a l,
    ump_inv N (uqp_tx txq) (uqp_seq_id txq) (uqp_last_ack txq) (uqp_rx rxq) ring sent r a l /\
    q = drop r sent.

Lemma in_flight sent r l tx seq la rx ring a :
  ump_inv N tx seq la rx ring sent r a l ->
  length (drop r sent) = (length sent - r)%nat /\ (length sent <= r + N)%nat /\
  (r - a < N)%nat /\ (r <= length sent)%nat.
Proof using Type*.
  intros I. pose proof (inv_order _ _ _ _ _ _ _ _ _ _ I).
  pose proof (inv_acked _ _ _ _ _ _ _ _ _ _ I).
  pose proof (Nat.div_mod_eq r N). pose proof (ring_lt N HN r).
  rewrite length_drop. lia.
Qed.

(** What the direction of the other end needs from this one. *)
Definition tx_frame (e e' : ump_st) : Prop :=
  e_rx e' = e_rx e /\
  forall txq ring q, ump_dir txq ring (e_qp e) q -> ump_dir txq ring (e_qp e') q.
Definition rx_frame (e e' : ump_st) : Prop :=
  e_tx e' = e_tx e /\
  forall ring rxq q, ump_dir (e_qp e) ring rxq q -> ump_dir (e_qp e') ring rxq q.

(** One end's calls on its two directions, for messages of any length up to a slot. *)
Lemma ump_dir_send e rxq q msg :
  ump_dir (e_qp e) (e_tx e) rxq q -> sendable msg ->
  exists err e', smlt_ump_queuepair_try_send msg e = (Ret err, e') /\ tx_frame e e' /\
    ((err = err_value SMLT_SUCCESS /\ (length q < N)%nat /\
      ump_dir (e_qp e') (e_tx e') rxq (q ++ [payload msg])) \/
     (err = err_value SMLT_ERR_QUEUE_FULL /\ q <> [] /\ ump_dir (e_qp e') (e_tx e') rxq q)).
Proof using Type*.
  destruct e as [p ring rxring]. intros (sent & r & a & l & I & ->) Hs. simpl in *.
  destruct (in_flight _ _ _ _ _ _ _ _ _ I) as (Hlen & Hcap & Hlag & Hr).
  destruct (try_send_spec N HN HN16 p ring rxring _ _ _ _ _ _ I Hs)
    as (err & p' & ring' & l' & E & Hrx & Hc).
  exists err, (Endp p' ring' rxring). split; [done|]. split.
  { split; [done|]. unfold ump_dir. simpl. by rewrite Hrx. }
  destruct Hc as [(-> & Hl & I')|(-> & Hl & I')]; [left|right]; (split; [done|]).
  - pose proof (inv_order _ _ _ _ _ _ _ _ _ _ I') as Ho'. rewrite length_app in Ho'. simpl in Ho'.
    split; [lia|]. exists (sent ++ [payload msg]), r, a, l'. by rewrite drop_app_le by lia.
  - split; [intros E0; apply (f_equal length) in E0; rewrite Hlen in E0; simpl in E0; lia|].
    by exists sent, r, a, l'.
Qed.

Lemma ump_dir_notify e rxq q :
  ump_dir (e_qp e) (e_tx e) rxq q ->
  exists o e', smlt_ump_queuepair_notify e = (o, e') /\ tx_frame e e' /\
    ((o = Ret (err_value SMLT_SUCCESS) /\ (length q < N)%nat /\
      ump_dir (e_qp e') (e_tx e') rxq (q ++ [[]])) \/
     (o = Spin /\ q <> [] /\ ump_dir (e_qp e') (e_tx e') rxq q)).
Proof using Type*.
  destruct e as [p ring rxring]. intros (sent & r & a & l & I & ->). simpl in *.
  destruct (in_flight _ _ _ _ _ _ _ _ _ I) as (Hlen & Hcap & Hlag & Hr).
  destruct (notify_spec N HN HN16 p ring rxring _ _ _ _ _ I)
    as (o & p' & ring' & l' & E & Hrx & Hc).
  exists o, (Endp p' ring' rxring). split; [done|]. split.
  { split; [done|]. unfold ump_dir. simpl. by rewrite Hrx. }
  destruct Hc as [(-> & Hl & I')|(-> & Hl & I')]; [left|right]; (split; [done|]).
  - pose proof (inv_order _ _ _ _ _ _ _ _ _ _ I') as Ho'. rewrite length_app in Ho'. simpl in Ho'.
    split; [lia|]. exists (sent ++ [[]]), r, a, l'. by rewrite drop_app_le by lia.
  - split; [intros E0; apply (f_equal length) in E0; rewrite Hlen in E0; simpl in E0; lia|].
    by exists sent, r, a, l'.
Qed.

(** Polling changes nothing and is exact. *)
Lemma ump_dir_can_recv e txq q :
  ump_dir txq (e_rx e) (e_qp e) q ->
  smlt_ump_queuepair_can_recv e = (Ret (negb (bool_decide (q = []))), e).
Proof using Type*.
  destruct e as [p txring ring]. intros (sent & r & a & l & I & ->). simpl in *.
  destruct (in_flight _ _ _ _ _ _ _ _ _ I) as (Hlen & _).
  unfold smlt_ump_queuepair_can_recv. rewrite (can_recv_spec N HN HN16 _ _ _ _ _ _ _ _ _ _ I).
  do 2 f_equal. case_bool_decide as D; case_bool_decide as E; try done.
  - apply (f_equal length) in E. rewrite Hlen in E. simpl in E. lia.
  - exfalso. apply E, length_zero_iff_nil. lia.
Qed.

Lemma ump_dir_recv_raw e txq q :
  ump_dir txq (e_rx e) (e_qp e) q ->
  exists r e', smlt_ump_queuepair_recv_raw e = (Ret r, e') /\ rx_frame e e' /\
    match q with
    | [] => r.1 = err_value SMLT_ERR_QUEUE_EMPTY /\ e' = e
    | m :: q' => r.1 = err_value SMLT_SUCCESS /\ ump_dir txq (e_rx e') (e_qp e') q' /\
        exists slot tail, arr_get (ring_buf (e_rx e')) r.2 = Some slot /\ m_data slot = m ++ tail /\
          length (m_data slot) = SMLT_UMP_PAYLOAD_WORDS
    end.
Proof using Type*.
  destruct e as [p txring ring]. intros (sent & r & a & l & I & ->). simpl in *.
  destruct (in_flight _ _ _ _ _ _ _ _ _ I) as (Hlen & Hcap & Hlag & Hr).
  rewrite (recv_raw_spec N HN HN16 _ _ _ _ _ _ _ _ _ _ I).
  case_decide as D; eexists _, _; (split; [reflexivity|]); (split; [done|]).
  - destruct (lookup_lt_is_Some_2 sent r D) as [m Hm]. rewrite (drop_lookup_cons _ _ _ Hm).
    split; [done|]. split.
    { exists sent, (S r), (ack_after N r a), l.
      split; [apply (inv_recv N HN HN16 _ _ _ _ _ _ _ _ _ I D)|done]. }
    destruct (inv_slots _ _ _ _ _ _ _ _ _ _ I r m Hm) as (d & Es & Hd & Ht); [lia|].
    eexists _, _. simpl. rewrite arr_get_nat, Es. split; [done|]. simpl. split; [|done].
    rewrite <- Ht at 1. symmetry. apply take_drop.
  - by rewrite drop_ge by lia.
Qed.

(** A message whose buffer has room for the words it asks for; the words of a shorter
    message are followed by what the slot held before. *)
Lemma ump_dir_recv e txq q msg :
  ump_dir txq (e_rx e) (e_qp e) q -> sendable msg ->
  exists r e', smlt_ump_queuepair_try_recv msg e = (Ret r, e') /\ rx_frame e e' /\
    match q with
    | [] => r = (err_value SMLT_ERR_QUEUE_EMPTY, msg) /\ e' = e
    | m :: q' => r.1 = err_value SMLT_SUCCESS /\ ump_dir txq (e_rx e') (e_qp e') q' /\
        words r.2 = words msg /\ bufsize r.2 = bufsize msg /\
        length (msg_data r.2) = length (msg_data msg) /\
        (words msg = Z.of_nat (length m) ->
         msg_data r.2 = m ++ drop (length m) (msg_data msg))
    end.
Proof using Type*.
  intros Hd [Hwf Hw]. unfold msg_wf, SMLT_UMP_PAYLOAD_WORDS in *.
  destruct (ump_dir_recv_raw e txq q Hd) as (r & e' & E & Hfr & Hq).
  unfold smlt_ump_queuepair_try_recv, mbind, M_bind. rewrite E. destruct q as [|m q'].
  - destruct Hq as [-> ->]. simpl. eexists _, _. split; [reflexivity|]. done.
  - destruct Hq as (-> & Hd' & slot & tail & Hs & Ht & Hl). simpl.
    unfold on_rx, zoom, read_slot, ring_slot, mbind, M_bind. simpl. rewrite Hs. simpl.
    unfold SMLT_UMP_PAYLOAD_WORDS in Hl. rewrite copy_words_spec by lia. simpl.
    eexists _, _. split; [reflexivity|]. simpl. destruct e'. simpl in *. split; [done|].
    split; [done|]. split; [done|]. split; [done|]. split; [done|].
    split; [rewrite length_app, length_take, length_drop; lia|].
    intros Hm. rewrite Hm, Nat2Z.id, Ht. by rewrite take_app_length.
Qed.

(** Receiving a notification takes one message, whatever its words, or waits. *)
Lemma ump_dir_recv0 e txq q :
  ump_dir txq (e_rx e) (e_qp e) q ->
  exists o e', smlt_ump_queuepair_recv_notify e = (o, e') /\ rx_frame e e' /\
    match q with
    | [] => o = Spin /\ e' = e
    | m :: q' => o = Ret (err_value SMLT_SUCCESS) /\ ump_dir txq (e_rx e') (e_qp e') q'
    end.
Proof using Type*.
  intros Hd. destruct (ump_dir_recv_raw e txq q Hd) as (r & e' & E & Hfr & Hq).
  unfold smlt_ump_queuepair_recv_notify, mbind, M_bind.
  pose proof (ump_dir_can_recv e txq q Hd) as Ec. unfold smlt_ump_queuepair_can_recv in Ec. rewrite Ec.
  destruct q as [|m q']; simpl.
  - destruct Hq as [_ ->]. by eexists _, _.
  - rewrite E. destruct Hq as (Hr & Hd' & _). rewrite Hr. by eexists _, _.
Qed.

(** ** Messages of one length *)
Context (w : nat).

Definition ump_dinv (txq : smlt_ump_queuepair) (ring : ump_ring) (rxq : smlt_ump_queuepair)
    (q : list (list Z)) : Prop :=
  ump_dir txq ring rxq q /\ Forall (fun m => length m = w) q.

Lemma ump_end_send :
  (w <= SMLT_UMP_PAYLOAD_WORDS)%nat -> end_send_law ump_dinv N (fun m => length m = w) ump_send.
Proof using Type*.
  intros Hw e rxq q m [Hd Hq] Hm.
  assert (Hs : sendable (msg_of m)) by (split; [apply msg_of_wf|simpl; lia]).
  assert (Hp : payload (msg_of m) = m).
  { unfold payload. simpl. rewrite Nat2Z.id. by apply take_ge. }
  destruct (ump_dir_send e rxq q (msg_of m) Hd Hs) as (err & e' & E & [Hrx Hfr] & Hc).
  rewrite Hp in Hc. unfold ump_send, fmap, M_fmap. rewrite E.
  destruct Hc as [(-> & Hl & Hd')|(-> & Hl & Hd')]; eexists _, _; (split; [reflexivity|]);
    (split; [done|]); (split; [intros ? ? ? [? ?]; split; auto|]); simpl; (split; [done|]).
  - split; [done|]. apply Forall_app. auto.
  - done.
Qed.

Lemma ump_end_recv : (w <= SMLT_UMP_PAYLOAD_WORDS)%nat -> end_recv_law ump_dinv (ump_recv w).
Proof using Type*.
  intros Hw7 e txq q [Hd Hw].
  assert (Hs : sendable (msg_buf w)) by (split; [apply msg_buf_wf|simpl; lia]).
  destruct (ump_dir_recv e txq q (msg_buf w) Hd Hs) as (r & e' & E & [Htx Hfr] & Hq).
  unfold ump_recv, mbind, M_bind. rewrite E. eexists _, _. split; [reflexivity|]. split; [done|].
  split. { intros ring rxq q0 [Hd0 Hw0]. split; auto. }
  destruct q as [|m q'].
  - destruct Hq as [-> ->]. by simpl.
  - apply Forall_cons in Hw as [Hmw Hw']. destruct Hq as (-> & Hd' & _ & _ & _ & Hm).
    simpl in *. exists q'. rewrite Hm by lia. rewrite drop_ge by (rewrite length_replicate; lia).
    rewrite app_nil_r. done.
Qed.

(** Each direction of a pair implements the FIFO interface. *)
Lemma ump_spsc_laws d qo :
  (w <= SMLT_UMP_PAYLOAD_WORDS)%nat ->
  @SpscLaws ump_pair (list Z) (link_spsc ump_send (ump_recv w) d) N (fun m => length m = w)
    (link_inv ump_dinv d qo).
Proof using Type*. intros. apply link_laws; [by apply ump_end_send|by apply ump_end_recv]. Qed.
End pair.

(** ** Creation: the invariant holds initially, nothing leaks *)
Lemma land63_zero x : x mod 64 = 0 -> Z.land x (SMLT_UMP_MSG_BYTES - 1) = 0.
Proof. intros H. change (SMLT_UMP_MSG_BYTES - 1) with (Z.ones 6). by rewrite Z.land_ones. Qed.

Definition good_buf (b : Z) : Prop := b <> 0 /\ b mod SMLT_UMP_MSG_BYTES = 0.
#[export] Instance good_buf_dec b : Decision (good_buf b).
Proof. unfold good_buf. apply _. Defined.

Lemma check_alignment_spec buf slots :
  0 < slots <= 65535 ->
  check_alignment buf slots =
    if decide (good_buf buf) then err_value SMLT_SUCCESS else err_value SMLT_ERR_BAD_ALIGNMENT.
Proof.
  intros Hs. unfold check_alignment, good_buf.
  destruct (Z.eqb_spec slots 0); [lia|]. destruct (Z.ltb_spec 65535 slots); [lia|]. simpl.
  destruct (Z.eqb_spec buf 0), (Z.eqb_spec (buf mod SMLT_UMP_MSG_BYTES) 0);
    simpl; case_decide; tauto || done.
Qed.

Definition queue_after_init (buf slots : Z) (d : smlt_ump_direction_t) : smlt_ump_queue :=
  UQ (u64 (buf + SMLT_UMP_MSG_BYTES)) buf 0 (u16 (slots - 1)) true d.

Lemma init_common_spec q buf slots rs :
  0 < slots <= 65535 ->
  smlt_ump_queue_init_common q buf slots rs =
    if decide (good_buf buf)
    then (Ret (err_value SMLT_SUCCESS, queue_after_init buf slots (uq_direction q)), rs)
    else (Ret (err_value SMLT_ERR_BAD_ALIGNMENT, q), rs).
Proof.
  intros Hs. unfold smlt_ump_queue_init_common. rewrite check_alignment_spec by done.
  case_decide as G; rewrite err_is_fail_value; simpl; [|done].
  unfold assert_. unfold mbind, M_bind. simpl.
  rewrite land63_zero; [done|].
  unfold wrap. rewrite Z.mod_mod_divide by (by exists (2 ^ 58)).
  destruct G as [_ G]. unfold SMLT_UMP_MSG_BYTES in *.
  rewrite Zplus_mod, G. done.
Qed.

Lemma init_tx_spec q buf slots rs :
  0 < slots <= 65535 ->
  smlt_ump_queue_init_tx q buf slots rs =
    if decide (good_buf buf)
    then (Ret (err_value SMLT_SUCCESS, queue_after_init buf slots SMLT_UMP_DIRECTION_SEND),
          <[buf := Ring 0 (replicate (Z.to_nat (slots - 1)) zero_message)]> rs)
    else (Ret (err_value SMLT_ERR_BAD_ALIGNMENT, q), rs).
Proof.
  intros Hs. unfold smlt_ump_queue_init_tx, mbind, M_bind. rewrite init_common_spec by done.
  by case_decide.
Qed.

Lemma init_rx_spec q buf slots rs :
  0 < slots <= 65535 ->
  smlt_ump_queue_init_rx q buf slots rs =
    if decide (good_buf buf)
    then (Ret (err_value SMLT_SUCCESS, queue_after_init buf slots SMLT_UMP_DIRECTION_RECV), rs)
    else (Ret (err_value SMLT_ERR_BAD_ALIGNMENT, q), rs).
Proof.
  intros Hs. unfold smlt_ump_queue_init_rx, mbind, M_bind. rewrite init_common_spec by done.
  by case_decide.
Qed.

(** The pair whose rings are found at the base addresses of the tx queues. *)
Definition ring_at (rs : rings) (a : Z) : ump_ring := default (Ring 0 []) (rs !! a).
Definition mk_pair (sd : smlt_ump_queuepair * smlt_ump_queuepair) (rs : rings) : ump_pair :=
  Pair sd.1 sd.2 (ring_at rs (uq_last_ack (uqp_tx sd.1)))
                  (ring_at rs (uq_last_ack (uqp_tx sd.2))).

Lemma fresh_inv N buf d1 d2 buf2 :
  (0 < N)%nat -> Z.of_nat N <= 65534 ->
  ump_inv N (queue_after_init buf (Z.of_nat N + 1) d1) 1 0
    (queue_after_init buf2 (Z.of_nat N + 1) d2)
    (Ring 0 (replicate N zero_message)) [] 0 0 0.
Proof.
  intros HN H16. unfold queue_after_init.
  assert (Hu : u16 (Z.of_nat N + 1 - 1) = Z.of_nat N).
  { rewrite wrap_small by (pow_consts; lia). lia. }
  constructor; simpl; try done; try lia.
  - apply length_replicate.
  - unfold uq_at. simpl. rewrite Hu, Nat.Div0.mod_0_l, Nat.Div0.div_0_l. done.
  - unfold uq_at. simpl. rewrite Hu, Nat.Div0.mod_0_l, Nat.Div0.div_0_l. done.
  - rewrite Nat.Div0.div_0_l. lia.
  - intros j _ Hj. exists (replicate SMLT_UMP_PAYLOAD_WORDS 0), 0.
    by rewrite lookup_replicate_2.
Qed.

Section init_spec.
Context (src_addr dst_addr slots : Z) (src0 dst0 : smlt_ump_queuepair).
Context (Hslots : 2 <= slots <= 65535).

Lemma init_ok a b answers live rs :
  good_buf a -> good_buf b -> a <> b ->
  exists sd rs',
    smlt_ump_queuepair_init src_addr dst_addr slots src0 dst0
      (UIS (AllocSt (Some a :: Some b :: answers) live) rs) =
      (Ret (err_value SMLT_SUCCESS, sd), UIS (AllocSt answers (b :: a :: live)) rs') /\
    uqp_other sd.1 = dst_addr /\ uqp_other sd.2 = src_addr /\
    forall w d, link_inv (ump_dinv (Z.to_nat (slots - 1)) w) d [] (mk_pair sd rs') [].
Proof using Type*.
  intros Ga Gb Hab. unfold smlt_ump_queuepair_init.
  destruct (Z.ltb_spec slots 2); [lia|].
  unfold ui_on_alloc, ui_on_rings, zoom, mbind, M_bind. simpl.
  rewrite init_tx_spec, decide_True by (done || lia). simpl.
  rewrite init_rx_spec, decide_True by (done || lia). simpl.
  rewrite init_rx_spec, decide_True by (done || lia). simpl.
  rewrite init_tx_spec, decide_True by (done || lia). simpl.
  eexists _, _. split; [reflexivity|]. split; [done|]. split; [done|].
  assert (Hs : slots = Z.of_nat (Z.to_nat (slots - 1)) + 1) by lia.
  set (N := Z.to_nat (slots - 1)) in *.
  intros w d. unfold link_inv, link_dir, ump_dinv, mk_pair, ring_at. rewrite Hs.
  destruct d; (split; (split; [|done])); exists [], 0%nat, 0%nat, 0%nat; (split; [|done]); simpl;
    rewrite ?lookup_insert_ne, lookup_insert_eq by done; apply fresh_inv; lia.
Qed.

Ltac fin_err := unfold mret, M_ret; intros; simplify_eq; eexists _, _; split; [reflexivity|];
  autorewrite with smelt; simpl; done.

(** On every failure exactly the buffers this call allocated are freed. *)
Lemma init_no_leak answers live rs r s :
  smlt_ump_queuepair_init src_addr dst_addr slots src0 dst0
    (UIS (AllocSt answers live) rs) = (r, s) ->
  exists err sd, r = Ret (err, sd) /\
    (if smlt_err_is_fail err then al_live (ui_alloc s) = live
     else exists a b, al_live (ui_alloc s) = b :: a :: live).
Proof using Type*.
  unfold smlt_ump_queuepair_init. destruct (Z.ltb_spec slots 2); [lia|].
  unfold ui_on_alloc, ui_on_rings, zoom, mbind, M_bind.
  destruct answers as [|[a|] answers]; simpl;
    [fin_err| |fin_err].
  rewrite init_tx_spec by lia. case_decide as Ga; simpl.
  2: { unfold ui_on_alloc, zoom, mbind, M_bind. simpl. rewrite al_free_head.
       fin_err. }
  rewrite init_rx_spec, decide_True by (done || lia). simpl.
  destruct answers as [|[b|] answers]; simpl.
  1, 3: rewrite al_free_head; fin_err.
  rewrite init_rx_spec by lia. case_decide as Gb; simpl.
  - rewrite init_tx_spec, decide_True by (done || lia). simpl.
    unfold mret, M_ret. intros; simplify_eq. eexists _, _. split; [reflexivity|]. simpl. eauto.
  - unfold ui_on_alloc, zoom, mbind, M_bind. simpl.
    rewrite al_free_second. simpl. rewrite al_free_head.
    fin_err.
Qed.
End init_spec.

(** ** Main properties *)

(** [C1] From creation on, each direction of a UMP queue pair of [slots] slots
    is a FIFO of capacity [slots - 1]: for every interleaving of non-blocking
    sends by one end and receives by the other, the calls succeed or refuse as
    the FIFO specification allows, and what has been delivered followed by what
    is in flight is exactly what was accepted, in order — across ring wrap-arounds
    and overflows of the 16-bit sequence number. *)
Theorem ump_pair_fifo sa da slots s0 d0 a b an live rs w d cs :
  2 <= slots <= 65535 -> good_buf a -> good_buf b -> a <> b ->
  (w <= SMLT_UMP_PAYLOAD_WORDS)%nat ->
  Forall (valid_cmd (valid := fun m => length m = w)) cs ->
  exists sd rs' st' tr q,
    (smlt_ump_queuepair_init sa da slots s0 d0 (UIS (AllocSt (Some a :: Some b :: an) live) rs)).1 =
      Ret (err_value SMLT_SUCCESS, sd) /\
    (smlt_ump_queuepair_init sa da slots s0 d0
       (UIS (AllocSt (Some a :: Some b :: an) live) rs)).2 =
      UIS (AllocSt an (b :: a :: live)) rs' /\
    exec (SpscQueue0 := link_spsc ump_send (ump_recv w) d) cs (mk_pair sd rs') = (Ret tr, st') /\
    fifo_run (Z.to_nat (slots - 1)) [] tr q /\
    sent_of tr = recv_of tr ++ q /\ (length q <= Z.to_nat (slots - 1))%nat.
Proof.
  intros Hs Ga Gb Hab Hw Hcs.
  destruct (init_ok sa da slots s0 d0 Hs a b an live rs Ga Gb Hab) as (sd & rs' & E & _ & _ & I).
  set (N := Z.to_nat (slots - 1)) in *.
  assert (HN : (0 < N)%nat) by lia. assert (H16 : Z.of_nat N <= 65534) by lia.
  pose proof (ump_spsc_laws N HN H16 w d [] Hw) as L.
  destruct (exec_refines (SpscLaws0 := L) cs _ _ (I w d) Hcs) as (tr & st' & q & E' & R & _).
  exists sd, rs', st', tr, q. rewrite E. split; [done|]. split; [done|]. split; [done|].
  split; [done|]. split; [by rewrite <- (fifo_run_order _ _ _ _ R)|].
  apply (fifo_run_cap _ _ _ _ R). simpl. lia.
Qed.

Lemma ump_pair_fifo_witness :
  exists sd rs' st' tr q,
    (smlt_ump_queuepair_init 1 2 3 zero_queuepair zero_queuepair
       (UIS (AllocSt [Some 4096; Some 8192] []) ∅)).1 = Ret (err_value SMLT_SUCCESS, sd) /\
    (smlt_ump_queuepair_init 1 2 3 zero_queuepair zero_queuepair
       (UIS (AllocSt [Some 4096; Some 8192] []) ∅)).2 = UIS (AllocSt [] [8192; 4096]) rs' /\
    exec (SpscQueue0 := link_spsc ump_send (ump_recv 1) Src) [CSend [7]; CSend [8]; CSend [9]; CRecv]
      (mk_pair sd rs') = (Ret tr, st') /\
    fifo_run 2 [] tr q /\ sent_of tr = recv_of tr ++ q /\ (length q <= 2)%nat.
Proof.
  apply (ump_pair_fifo 1 2 3 zero_queuepair zero_queuepair 4096 8192 [] [] ∅ 1 Src);
    try (unfold good_buf, SMLT_UMP_PAYLOAD_WORDS; lia); try done.
  repeat constructor.
Defined.

(** [C34] No deadlock: whatever is in flight, after the receiver has taken those
    messages (and it gets exactly them, in order) the sender's next send is
    accepted, although the receiver acknowledges only in the middle and at the
    end of the ring. *)
Theorem ump_drain_unblocks N w d qo st q m :
  (0 < N)%nat -> Z.of_nat N <= 65534 -> (w <= SMLT_UMP_PAYLOAD_WORDS)%nat ->
  link_inv (ump_dinv N w) d qo st q -> length m = w ->
  exists st' st'',
    exec (SpscQueue0 := link_spsc ump_send (ump_recv w) d) (replicate (length q) CRecv) st =
      (Ret (ERecv <$> q), st') /\
    at_side d (ump_send m) st' = (Ret true, st'') /\ link_inv (ump_dinv N w) d qo st'' [m].
Proof.
  intros HN H16 Hw I Hm. pose proof (ump_spsc_laws N HN H16 w d qo Hw) as L.
  destruct (exec_drain (SpscLaws0 := L) _ _ I) as (st' & E & I').
  destruct (send_accepted_when_empty (SpscLaws0 := L) _ m I' Hm) as (st'' & E' & I'').
  by exists st', st''.
Qed.

(** The state of a fresh pair of ring size [N]. *)
Definition fresh_pair (N : nat) : ump_pair :=
  let q d := UQ 64 0 0 (Z.of_nat N) true d in
  let p := UQP (q SMLT_UMP_DIRECTION_SEND) (q SMLT_UMP_DIRECTION_RECV) 0 1 0 in
  Pair p p (Ring 0 (replicate N zero_message)) (Ring 0 (replicate N zero_message)).

Lemma fresh_pair_inv N w d :
  (0 < N)%nat -> Z.of_nat N <= 65534 -> link_inv (ump_dinv N w) d [] (fresh_pair N) [].
Proof.
  intros HN H16.
  pose proof (fresh_inv N 0 SMLT_UMP_DIRECTION_SEND SMLT_UMP_DIRECTION_RECV 0 HN H16) as I.
  unfold queue_after_init in I.
  replace (u16 (Z.of_nat N + 1 - 1)) with (Z.of_nat N) in I
    by (rewrite wrap_small; pow_consts; lia).
  destruct d; (split; (split; [|done])); exists [], 0%nat, 0%nat, 0%nat; (split; [exact I|done]).
Qed.

Lemma ump_drain_unblocks_witness :
  exists st' st'',
    exec (SpscQueue0 := link_spsc ump_send (ump_recv 2) Src) (replicate 0 CRecv) (fresh_pair 4) =
      (Ret (ERecv <$> []), st') /\
    at_side Src (ump_send [1; 2]) st' = (Ret true, st'') /\
    link_inv (ump_dinv 4 2) Src [] st'' [[1; 2]].
Proof.
  apply (ump_drain_unblocks 4 2 Src [] (fresh_pair 4) [] [1; 2]); try done; try lia.
  - unfold SMLT_UMP_PAYLOAD_WORDS. lia.
  - apply fresh_pair_inv; lia.
Defined.

(** Creation is all or nothing: it always returns; on an error the live
    buffers are exactly those that were live before, on success exactly the two
    rings were added. *)
Lemma ump_init_no_leak sa da slots s0 d0 answers live rs :
  2 <= slots <= 65535 ->
  exists err sd s,
    smlt_ump_queuepair_init sa da slots s0 d0 (UIS (AllocSt answers live) rs) =
      (Ret (err, sd), s) /\
    (if smlt_err_is_fail err then al_live (ui_alloc s) = live
     else exists a b, al_live (ui_alloc s) = b :: a :: live).
Proof.
  intros Hs.
  destruct (smlt_ump_queuepair_init sa da slots s0 d0 (UIS (AllocSt answers live) rs))
    as [r s] eqn:E.
  destruct (init_no_leak sa da slots s0 d0 Hs _ _ _ _ _ E) as (err & sd & -> & H).
  by exists err, sd, s.
Qed.


(** A message of more than the seven payload words of a slot does not fit:
    once the window is open the copy loop runs past the end of the slot. *)
Lemma ump_send_overrun N p ring rxring rx sent r a l msg :
  (0 < N)%nat -> Z.of_nat N <= 65534 ->
  ump_inv N (uqp_tx p) (uqp_seq_id p) (uqp_last_ack p) rx ring sent r a l ->
  (length sent < a + N)%nat ->
  msg_wf msg -> Z.of_nat SMLT_UMP_PAYLOAD_WORDS < words msg ->
  (smlt_ump_queuepair_try_send msg (Endp p ring rxring)).1 = Undef.
Proof.
  intros HN H16 I Ha Hwf Hw. unfold msg_wf, SMLT_UMP_PAYLOAD_WORDS in *.
  destruct (can_send_spec N HN H16 p ring rxring rx sent r a l I) as (b & l' & E & L1 & L2 & Hb).
  destruct b; [|lia].
  destruct (tx_slot N HN H16 _ _ _ _ _ _ _ _ _ I) as (x & Hx & Hxd & Hset).
  unfold smlt_ump_queuepair_try_send, smlt_ump_queuepair_prepare_send, mbind, M_bind.
  rewrite E. simpl.
  unfold fill_slot, ring_slot, set_slot, on_tx, zoom, gets, mbind, M_bind. simpl.
  rewrite Hx. simpl. unfold SMLT_UMP_PAYLOAD_WORDS in Hxd.
  change 0 with (Z.of_nat 0). rewrite copy_words_overrun by lia. done.
Qed.

