(* ===== verification/UmpRace.v ===== *)
(** UMP backend, inside a receive ([smlt_ump_queuepair_try_recv]): the receiver takes
    the slot and acknowledges it first ([smlt_ump_queuepair_recv_raw]) and copies the
    payload afterwards.  The sends of the other end that fall between the two halves:
    harmless at a slot that is not acknowledged at once, able to overwrite the message
    being copied at one that is. *)
From S2P Require Import Prelude Errors Message Fifo Pair UmpQueue UmpQueuepair.

(** The sender's non-blocking sends of a list of messages, with their error values. *)
Fixpoint send_burst (ms : list smlt_msg) : M ump_st (list Z) :=
  match ms with
  | [] => mret []
  | m :: ms' =>
    e ← smlt_ump_queuepair_try_send m;
    es ← send_burst ms';
    mret (e :: es)
  end.

(** [smlt_ump_queuepair_try_recv] of the end that receives from [d], cut open: between
    its two halves the end [d] sends [ms]. *)
Definition torn_recv (d : side) (ms : list smlt_msg) (msg : smlt_msg)
  : M ump_pair (list Z * (Z * smlt_msg)) :=
  r ← at_side (peer d) smlt_ump_queuepair_recv_raw;
  es ← at_side d (send_burst ms);
  if smlt_err_is_fail r.1 then mret (es, (r.1, msg)) else
  msg' ← at_side (peer d) (on_rx (read_slot r.2 msg));
  mret (es, (err_value SMLT_SUCCESS, msg')).

(** Without a send in between it is the receive. *)
Lemma torn_recv_nil d msg st :
  torn_recv d [] msg st = ((fun r => ([], r)) <$> at_side (peer d) (smlt_ump_queuepair_try_recv msg)) st.
Proof.
  unfold torn_recv, smlt_ump_queuepair_try_recv, at_side, zoom, fmap, M_fmap, mbind, M_bind. simpl.
  destruct (smlt_ump_queuepair_recv_raw (end_of (peer d) st)) as [[r| | |] e]; simpl; try done.
  rewrite set_end_id by done. destruct (smlt_err_is_fail r.1); simpl; [done|].
  rewrite end_set_same. destruct (on_rx (read_slot r.2 msg) e) as [[x| | |] e']; by destruct d.
Qed.

Section race.
Context (N : nat) (HN : (0 < N)%nat) (HN16 : Z.of_nat N <= 65534).

(** The direction from [d] of a pair in which [sent] has been sent, [r] messages have
    been taken and [a] acknowledged. *)
Definition dir_at (d : side) (st : ump_pair) (sent : list (list Z)) (r a : nat) : Prop :=
  exists l, let p := e_qp (end_of d st) in
    ump_inv N (uqp_tx p) (uqp_seq_id p) (uqp_last_ack p)
      (uqp_rx (e_qp (end_of (peer d) st))) (e_tx (end_of d st)) sent r a l.

(** The receiver acknowledges when it takes message [r]. *)
Definition ack_point (r : nat) : Prop := (r mod N = N / 2 \/ S (r mod N) = N)%nat.
#[export] Instance ack_point_dec r : Decision (ack_point r).
Proof. unfold ack_point. apply _. Defined.

Lemma dir_recv_raw d st sent r a :
  dir_at d st sent r a -> (r < length sent)%nat ->
  exists st', at_side (peer d) smlt_ump_queuepair_recv_raw st =
      (Ret (err_value SMLT_SUCCESS, Z.of_nat (r mod N)), st') /\
    dir_at d st' sent (S r) (if decide (ack_point r) then S r else a).
Proof using Type*.
  intros [l I] Hr. destruct (end_rings d st) as [E1 E2].
  unfold at_side, zoom.
  destruct (end_of (peer d) st) as [pr txr rxr] eqn:Er. simpl in *. subst rxr.
  rewrite (recv_raw_spec N HN HN16 pr _ _ _ _ _ _ _ _ _ I), decide_True by done.
  eexists. split; [reflexivity|]. exists l. unfold recv_state.
  rewrite end_set_same, end_set_peer'. simpl.
  apply (inv_recv N HN HN16 _ _ _ _ _ _ _ _ _ I Hr).
Qed.

(** A burst appends what is accepted; it is accepted while the window is open. *)
Lemma dir_burst d ms : forall st sent r a,
  dir_at d st sent r a -> Forall sendable ms ->
  exists es new st', at_side d (send_burst ms) st = (Ret es, st') /\
    dir_at d st' (sent ++ new) r a /\
    e_qp (end_of (peer d) st') = e_qp (end_of (peer d) st) /\
    ((length sent + length ms <= a + N)%nat ->
     es = replicate (length ms) (err_value SMLT_SUCCESS) /\ new = payload <$> ms).
Proof using Type*.
  unfold at_side, zoom. induction ms as [|m ms IH]; intros st sent r a [l I] Hms.
  { exists [], [], st. simpl. rewrite app_nil_r, set_end_id by done.
    split; [done|]. split; [by exists l|done]. }
  apply Forall_cons in Hms as [Hm Hms].
  destruct (end_of d st) as [p ring rxring] eqn:Ep. simpl in I.
  destruct (try_send_spec N HN HN16 p ring rxring _ _ _ _ _ m I Hm)
    as (err & p' & ring' & l' & E & Hrx & Hc).
  set (st1 := set_end d (Endp p' ring' rxring) st).
  assert (exists new1, dir_at d st1 (sent ++ new1) r a /\
    ((length sent < a + N)%nat -> err = err_value SMLT_SUCCESS /\ new1 = [payload m]))
    as (new1 & D1 & Hw1).
  { unfold dir_at, st1. rewrite end_set_same, end_set_peer. simpl.
    destruct Hc as [(-> & _ & I')|(-> & Hl & I')].
    - exists [payload m]. split; [by exists l'|done].
    - exists []. rewrite app_nil_r. split; [by exists l'|lia]. }
  destruct (IH st1 _ _ _ D1 Hms) as (es & new & st' & E' & D' & Hq & Hw).
  exists (err :: es), (new1 ++ new), st'.
  unfold st1 in E', Hq. rewrite end_set_same in E'. rewrite end_set_peer in Hq.
  simpl. unfold mbind, M_bind. rewrite E.
  destruct (send_burst ms (Endp p' ring' rxring)) as [o s2]. simplify_eq. simpl.
  rewrite app_assoc. split_and!; [|done|done|].
  - f_equal. by destruct d.
  - intros Hl. rewrite length_app in Hw. destruct Hw1 as [-> ->]; [lia|].
    destruct Hw as [-> ->]; [simpl; lia|]. done.
Qed.

(** What the copy reads: the message last written to the slot. *)
Lemma dir_read d st sent r a j m slot buf :
  dir_at d st sent r a -> sent !! j = Some m -> (length sent <= j + N)%nat ->
  slot = Z.of_nat (j mod N) -> sendable buf -> words buf = Z.of_nat (length m) ->
  exists buf', at_side (peer d) (on_rx (read_slot slot buf)) st = (Ret buf', st) /\
    payload buf' = m.
Proof using Type*.
  intros [l I] Hj Hn -> [Hwf Hw] Hm. destruct (end_rings d st) as [E1 E2].
  destruct (inv_slots _ _ _ _ _ _ _ _ _ _ I j m Hj Hn) as (x & Hx & Hxl & Hxt).
  unfold at_side, on_rx, zoom, read_slot, ring_slot, mbind, M_bind. simpl.
  rewrite E1, arr_get_nat, Hx. simpl.
  unfold msg_wf, SMLT_UMP_PAYLOAD_WORDS in *.
  rewrite copy_words_spec by lia. eexists. simpl. split.
  - f_equal. apply set_end_id. destruct (end_of (peer d) st) as [[]]. simpl in *. by subst.
  - unfold payload. simpl. rewrite take_app_le by (rewrite length_take; lia).
    rewrite take_ge by (rewrite length_take; lia). by rewrite Hm, Nat2Z.id.
Qed.

(** [C19] A message that is not acknowledged when it is taken keeps its slot: sends of the
    other end between the two halves of the receive do not touch it. *)
Theorem ump_copy_stable d st sent r a m ms buf :
  dir_at d st sent r a -> sent !! r = Some m -> ~ ack_point r ->
  Forall sendable ms -> sendable buf -> words buf = Z.of_nat (length m) ->
  exists es buf' st', torn_recv d ms buf st = (Ret (es, (err_value SMLT_SUCCESS, buf')), st') /\
    payload buf' = m.
Proof using Type*.
  intros D Hr Ha Hms Hb Hw. pose proof (lookup_lt_Some _ _ _ Hr) as Hlt.
  destruct (dir_recv_raw d st sent r a D Hlt) as (st1 & E1 & D1).
  rewrite decide_False in D1 by done.
  destruct (dir_burst d ms st1 sent _ _ D1 Hms) as (es & new & st2 & E2 & D2 & _ & _).
  destruct D2 as [l I2]. pose proof (inv_order _ _ _ _ _ _ _ _ _ _ I2) as O.
  destruct D as [l0 I0]. pose proof (inv_order _ _ _ _ _ _ _ _ _ _ I0) as O0.
  destruct (dir_read d st2 (sent ++ new) (S r) a r m (Z.of_nat (r mod N)) buf (ex_intro _ l I2)) as (buf' & E3 & Hp);
    [by apply lookup_app_l_Some|lia|reflexivity|done|done|].
  exists es, buf', st2. unfold torn_recv, mbind, M_bind. rewrite E1, E2. simpl. by rewrite E3.
Qed.

(** [C18] At an acknowledgement point the window opens before the payload is copied: with as
    many sends as then fit, all accepted, the receive still succeeds and returns the
    last of the new messages in place of the one it took. *)
Theorem ump_copy_torn d st sent r a m ms new buf :
  dir_at d st sent r a -> sent !! r = Some m -> ack_point r ->
  Forall sendable (ms ++ [new]) -> (length sent + length ms = r + N)%nat ->
  sendable buf -> words buf = words new ->
  exists buf' st', torn_recv d (ms ++ [new]) buf st =
      (Ret (replicate (S (length ms)) (err_value SMLT_SUCCESS),
            (err_value SMLT_SUCCESS, buf')), st') /\
    payload buf' = payload new.
Proof using Type*.
  intros D Hr Ha Hms Hlen Hb Hw. pose proof (lookup_lt_Some _ _ _ Hr) as Hlt.
  destruct (dir_recv_raw d st sent r a D Hlt) as (st1 & E1 & D1).
  rewrite decide_True in D1 by done.
  destruct (dir_burst d _ st1 sent _ _ D1 Hms) as (es & snd & st2 & E2 & D2 & _ & Hok).
  rewrite length_app in Hok. destruct Hok as [-> ->]; [simpl; lia|].
  apply Forall_app in Hms as [_ Hnew]. apply Forall_singleton in Hnew as [Hnwf Hnw].
  destruct (dir_read d st2 _ (S r) (S r) (r + N) (payload new) (Z.of_nat (r mod N)) buf D2)
    as (buf' & E3 & Hp).
  - rewrite fmap_app, app_assoc. apply lookup_snoc_Some. right.
    rewrite length_app, length_fmap. split; [lia|done].
  - rewrite length_app, length_fmap, length_app. simpl. lia.
  - by destruct (ring_add_period N HN r) as [-> _].
  - done.
  - unfold payload, msg_wf in *. rewrite length_take. lia.
  - exists buf', st2. unfold torn_recv, mbind, M_bind. rewrite E1, E2. simpl. rewrite E3.
    by rewrite Nat.add_1_r.
Qed.
End race.

(** A ring of four messages of which three are used and some taken. *)
Lemma one_taken : exists st, dir_at 4 Src st [[10]; [20]; [30]] 1 0.
Proof.
  assert (D : dir_at 4 Src (fresh_pair 4) [] 0 0).
  { exists 0%nat. apply (fresh_inv 4 0 SMLT_UMP_DIRECTION_SEND SMLT_UMP_DIRECTION_RECV 0); lia. }
  destruct (dir_burst 4 ltac:(lia) ltac:(lia) Src (msg_of <$> [[10]; [20]; [30]]) _ _ _ _ D)
    as (es & new & st & _ & D' & _ & Hok).
  { repeat constructor; simpl; unfold SMLT_UMP_PAYLOAD_WORDS; lia. }
  destruct Hok as [_ ->]; [simpl; lia|].
  destruct (dir_recv_raw 4 ltac:(lia) ltac:(lia) Src st _ _ _ D') as (st' & _ & D'');
    [simpl; lia|].
  by exists st'.
Qed.

Lemma two_taken : exists st, dir_at 4 Src st [[10]; [20]; [30]] 2 0.
Proof.
  destruct one_taken as [st D].
  destruct (dir_recv_raw 4 ltac:(lia) ltac:(lia) Src st _ _ _ D) as (st' & _ & D'');
    [simpl; lia|].
  by exists st'.
Qed.

Lemma ump_copy_stable_witness :
  exists st es buf' st', dir_at 4 Src st [[10]; [20]; [30]] 1 0 /\
    torn_recv Src [msg_of [40]; msg_of [50]; msg_of [60]] (msg_buf 1) st =
      (Ret (es, (err_value SMLT_SUCCESS, buf')), st') /\ payload buf' = [20].
Proof.
  destruct one_taken as [st D].
  destruct (ump_copy_stable 4 ltac:(lia) ltac:(lia) Src st _ _ _ [20]
              [msg_of [40]; msg_of [50]; msg_of [60]] (msg_buf 1) D) as (es & buf' & st' & E & P).
  - done.
  - unfold ack_point. simpl. lia.
  - repeat constructor; simpl; unfold SMLT_UMP_PAYLOAD_WORDS; lia.
  - split; simpl; unfold SMLT_UMP_PAYLOAD_WORDS; [done|lia].
  - done.
  - by exists st, es, buf', st'.
Defined.

Lemma ump_copy_torn_witness :
  exists st buf' st', dir_at 4 Src st [[10]; [20]; [30]] 2 0 /\
    torn_recv Src ([msg_of [40]; msg_of [50]; msg_of [60]] ++ [msg_of [70]]) (msg_buf 1) st =
      (Ret (replicate 4 (err_value SMLT_SUCCESS), (err_value SMLT_SUCCESS, buf')), st') /\
    payload buf' = [70].
Proof.
  destruct two_taken as [st D].
  destruct (ump_copy_torn 4 ltac:(lia) ltac:(lia) Src st _ _ _ [30]
              [msg_of [40]; msg_of [50]; msg_of [60]] (msg_of [70]) (msg_buf 1) D)
    as (buf' & st' & E & P).
  - done.
  - unfold ack_point. simpl. lia.
  - repeat constructor; simpl; unfold SMLT_UMP_PAYLOAD_WORDS; lia.
  - done.
  - split; simpl; unfold SMLT_UMP_PAYLOAD_WORDS; [done|lia].
  - done.
  - by exists st, buf', st'.
Defined.
