(* ===== verification/Ffq.v ===== *)
(** FastForward backend ([inc/backends/ffq/smlt_ffq_queue.h],
    [inc/backends/ffq/smlt_ffq_queuepair.h], [src/backends/ffq/*.c]): a ring of
    cache-line slots where the first payload word doubles as the full/empty flag. *)
From S2P Require Import Prelude Errors Message Platform Fifo Pair.

(** ** Data *)
Definition SMLT_FFQ_SLOT_EMPTY : Z := 2 ^ 64 - 1.
#[global] Opaque SMLT_FFQ_SLOT_EMPTY.
Definition SMLT_FFQ_SLOT_NOTIFY : Z := 0.
Definition SMLT_FFQ_MSG_WORDS : nat := 8.
Definition SMLT_FFQ_DEFAULT_SLOTS : Z := 64.

(** [struct smlt_ffq_slot] *)
Abbreviation ffq_slot := (list Z).
(** The slots of a ring in shared memory. *)
Abbreviation ffq_ring := (list ffq_slot).

Inductive smlt_ffq_direction_t := SMLT_FFQ_DIRECTION_SEND | SMLT_FFQ_DIRECTION_RECV.
#[export] Instance smlt_ffq_direction_eq_dec : EqDecision smlt_ffq_direction_t.
Proof. solve_decision. Defined.

(** [struct smlt_ffq_queue] *)
Record smlt_ffq_queue := FQ {
  fq_slots : Z;  (** address of the ring *)
  fq_size : Z;
  fq_pos : Z;
  fq_direction : smlt_ffq_direction_t;
}.

(** [struct smlt_ffq_queuepair] *)
Record smlt_ffq_queuepair := FQP { fqp_tx : smlt_ffq_queue; fqp_rx : smlt_ffq_queue }.

Definition fq_state : Type := smlt_ffq_queue * ffq_ring.

(** ** Initialisation *)

(** [for (i = 0; i < slots; ++i) q->slots[i].data[0] = SMLT_FFQ_SLOT_EMPTY;] *)
Fixpoint clear_slots (n : nat) (i : Z) (r : ffq_ring) : option ffq_ring :=
  match n with
  | O => Some r
  | S n' =>
      match arr_get r i with
      | None => None
      | Some s =>
          match arr_set s 0 SMLT_FFQ_SLOT_EMPTY with
          | None => None
          | Some s' =>
              match arr_set r i s' with
              | None => None
              | Some r' => clear_slots n' (i + 1) r'
              end
          end
      end
  end.

Abbreviation ffq_rings := (gmap Z ffq_ring).

Definition smlt_ffq_queue_init_tx (buf slots : Z) : M ffq_rings (Z * smlt_ffq_queue) :=
  rs ← get;
  r ← defined (rs !! buf);
  r' ← defined (clear_slots (Z.to_nat slots) 0 r);
  _ ← modify <[buf := r']>;
  mret (err_value SMLT_SUCCESS, FQ buf slots 0 SMLT_FFQ_DIRECTION_SEND).

Definition smlt_ffq_queue_init_rx (buf slots : Z) : M ffq_rings (Z * smlt_ffq_queue) :=
  mret (err_value SMLT_SUCCESS, FQ buf slots 0 SMLT_FFQ_DIRECTION_RECV).

(** ** Send *)
Definition fq_slot : M fq_state ffq_slot := fun s => defined (arr_get s.2 (fq_pos s.1)) s.
Definition fq_set_slot (d : ffq_slot) : M fq_state unit := fun s =>
  match arr_set s.2 (fq_pos s.1) d with
  | Some r => (Ret tt, (s.1, r))
  | None => (Undef, s)
  end.
(** [if (++q->pos == q->size) q->pos = 0;] *)
Definition fq_advance (q : smlt_ffq_queue) : smlt_ffq_queue :=
  let p := u16 (fq_pos q + 1) in
  FQ (fq_slots q) (fq_size q) (if p =? fq_size q then 0 else p) (fq_direction q).

Definition smlt_ffq_queue_get_next : M fq_state Z := gets (fun s => fq_pos s.1).

Definition smlt_ffq_queue_can_send : M fq_state bool :=
  q ← gets fst;
  if negb (bool_decide (fq_direction q = SMLT_FFQ_DIRECTION_SEND)) then mret false else
  slot ← fq_slot;
  w ← defined (arr_get slot 0);
  mret (w =? SMLT_FFQ_SLOT_EMPTY).

Definition smlt_ffq_queue_send_raw (val_ptr : list Z) (num0 : Z) : M fq_state Z :=
  b ← smlt_ffq_queue_can_send;
  if negb b then mret (err_value SMLT_ERR_QUEUE_FULL) else
  let num := if Z.of_nat SMLT_FFQ_MSG_WORDS <? num0
             then Z.of_nat SMLT_FFQ_MSG_WORDS else num0 in
  slot ← fq_slot;
  d ← defined (copy_words val_ptr (Z.to_nat (num - 1)) 1 slot);
  _ ← fq_set_slot d;
  (* write barrier, then the flag word *)
  v ← defined (arr_get val_ptr 0);
  d' ← defined (arr_set d 0 v);
  _ ← fq_set_slot d';
  _ ← modify (fun s => (fq_advance s.1, s.2));
  mret (err_value SMLT_SUCCESS).

Definition smlt_ffq_queue_notify : M fq_state Z :=
  b ← smlt_ffq_queue_can_send;
  if negb b then mret (err_value SMLT_ERR_QUEUE_FULL) else
  slot ← fq_slot;
  d ← defined (arr_set slot 0 SMLT_FFQ_SLOT_NOTIFY);
  _ ← fq_set_slot d;
  _ ← modify (fun s => (fq_advance s.1, s.2));
  mret (err_value SMLT_SUCCESS).

(** ** Receive *)
Definition smlt_ffq_queue_can_recv : M fq_state bool :=
  q ← gets fst;
  if negb (bool_decide (fq_direction q = SMLT_FFQ_DIRECTION_RECV)) then mret false else
  slot ← fq_slot;
  w ← defined (arr_get slot 0);
  mret (negb (w =? SMLT_FFQ_SLOT_EMPTY)).

(** [val_ptr] is [None] for a NULL pointer. *)
Definition smlt_ffq_queue_recv_raw (val_ptr : option (list Z)) (num0 : Z)
  : M fq_state (Z * option (list Z)) :=
  slot ← fq_slot;
  w ← defined (arr_get slot 0);
  if w =? SMLT_FFQ_SLOT_EMPTY then mret (err_value SMLT_ERR_QUEUE_EMPTY, val_ptr) else
  out ← match val_ptr with
        | None => mret None
        | Some buf =>
            let num := if Z.of_nat SMLT_FFQ_MSG_WORDS <? num0
                       then Z.of_nat SMLT_FFQ_MSG_WORDS else num0 in
            Some <$> defined (copy_words slot (Z.to_nat num) 0 buf)
        end;
  d ← defined (arr_set slot 0 SMLT_FFQ_SLOT_EMPTY);
  _ ← fq_set_slot d;
  _ ← modify (fun s => (fq_advance s.1, s.2));
  mret (err_value SMLT_SUCCESS, out).

(** ** Queue pair *)
Abbreviation ffq_st := (endp smlt_ffq_queuepair ffq_ring).
Abbreviation ffq_pair := (pair smlt_ffq_queuepair ffq_ring).

Definition on_ftx {A} : M fq_state A -> M ffq_st A :=
  zoom (fun s => (fqp_tx (e_qp s), e_tx s))
       (fun t s => Endp (FQP t.1 (fqp_rx (e_qp s))) t.2 (e_rx s)).
Definition on_frx {A} : M fq_state A -> M ffq_st A :=
  zoom (fun s => (fqp_rx (e_qp s), e_rx s))
       (fun t s => Endp (FQP (fqp_tx (e_qp s)) t.1) (e_tx s) t.2).

(** The word count is converted to the 16-bit index type by the call. *)
Definition smlt_ffq_queuepair_send_raw (val_ptr : list Z) (num : Z) : M ffq_st Z :=
  on_ftx (smlt_ffq_queue_send_raw val_ptr num).
Definition smlt_ffq_queuepair_send (msg : smlt_msg) : M ffq_st Z :=
  smlt_ffq_queuepair_send_raw (msg_data msg) (u16 (words msg)).
Definition smlt_ffq_queuepair_notify_raw : M ffq_st Z := on_ftx smlt_ffq_queue_notify.
Definition smlt_ffq_queuepair_notify : M ffq_st Z := smlt_ffq_queuepair_notify_raw.
Definition smlt_ffq_queuepair_can_send_raw : M ffq_st bool := on_ftx smlt_ffq_queue_can_send.
Definition smlt_ffq_queuepair_can_send : M ffq_st bool := smlt_ffq_queuepair_can_send_raw.

Definition smlt_ffq_queuepair_recv_raw (val_ptr : option (list Z)) (num : Z)
  : M ffq_st (Z * option (list Z)) :=
  on_frx (smlt_ffq_queue_recv_raw val_ptr num).
Definition smlt_ffq_queuepair_recv (msg : smlt_msg) : M ffq_st (Z * smlt_msg) :=
  r ← smlt_ffq_queuepair_recv_raw (Some (msg_data msg)) (u16 (words msg));
  mret (r.1, Msg (words msg) (bufsize msg) (default (msg_data msg) r.2)).
Definition smlt_ffq_queuepair_recv_notify_raw : M ffq_st Z :=
  fst <$> on_frx (smlt_ffq_queue_recv_raw None 0).
Definition smlt_ffq_queuepair_recv_notify : M ffq_st Z :=
  fst <$> smlt_ffq_queuepair_recv_raw None 0.
Definition smlt_ffq_queuepair_can_recv_raw : M ffq_st bool := on_frx smlt_ffq_queue_can_recv.
Definition smlt_ffq_queuepair_can_recv : M ffq_st bool := smlt_ffq_queuepair_can_recv_raw.

(** ** Creation *)
Record ffq_init_st := FIS { fi_alloc : alloc_st; fi_rings : ffq_rings }.
Definition fi_on_alloc {A} : M alloc_st A -> M ffq_init_st A :=
  zoom fi_alloc (fun a s => FIS a (fi_rings s)).
Definition fi_on_rings {A} : M ffq_rings A -> M ffq_init_st A :=
  zoom fi_rings (fun r s => FIS (fi_alloc s) r).

(** A zeroed allocation of [slots * 64] bytes. *)
Definition zero_ring (slots : Z) : ffq_ring :=
  replicate (Z.to_nat slots) (replicate SMLT_FFQ_MSG_WORDS 0).

Definition ffq_alloc (slots : Z) : M ffq_init_st (option Z) :=
  o ← fi_on_alloc al_alloc;
  match o with
  | None => mret None
  | Some b => _ ← fi_on_rings (modify <[b := zero_ring slots]>); mret (Some b)
  end.

(** [err_init:] free what was allocated. *)
Definition ffq_err_init (shm_src shm_dst : option Z) (sd : smlt_ffq_queuepair * smlt_ffq_queuepair)
  : M ffq_init_st (Z * (smlt_ffq_queuepair * smlt_ffq_queuepair)) :=
  _ ← match shm_src with Some b => fi_on_alloc (al_free b) | None => mret tt end;
  _ ← match shm_dst with Some b => fi_on_alloc (al_free b) | None => mret tt end;
  mret (err_value SMLT_ERR_QUEUE_INIT, sd).

Definition smlt_ffq_queuepair_init (num_slots : Z) (src dst : smlt_ffq_queuepair)
  : M ffq_init_st (Z * (smlt_ffq_queuepair * smlt_ffq_queuepair)) :=
  shm_src ← ffq_alloc num_slots;
  match shm_src with
  | None => mret (err_value SMLT_ERR_MALLOC_FAIL, (src, dst))
  | Some shm_src =>
    r ← fi_on_rings (smlt_ffq_queue_init_rx shm_src num_slots);
    let src := FQP (fqp_tx src) r.2 in
    if smlt_err_is_fail r.1 then ffq_err_init (Some shm_src) None (src, dst) else
    r ← fi_on_rings (smlt_ffq_queue_init_tx shm_src num_slots);
    let dst := FQP r.2 (fqp_rx dst) in
    if smlt_err_is_fail r.1 then ffq_err_init (Some shm_src) None (src, dst) else
    shm_dst ← ffq_alloc num_slots;
    match shm_dst with
    | None => ffq_err_init (Some shm_src) None (src, dst)
    | Some shm_dst =>
      r ← fi_on_rings (smlt_ffq_queue_init_rx shm_dst num_slots);
      let dst := FQP (fqp_tx dst) r.2 in
      if smlt_err_is_fail r.1 then ffq_err_init (Some shm_src) (Some shm_dst) (src, dst) else
      r ← fi_on_rings (smlt_ffq_queue_init_tx shm_dst num_slots);
      let src := FQP r.2 (fqp_rx src) in
      if smlt_err_is_fail r.1 then ffq_err_init (Some shm_src) (Some shm_dst) (src, dst) else
      mret (err_value SMLT_SUCCESS, (src, dst))
    end
  end.

Definition smlt_ffq_queuepair_destroy (qp : smlt_ffq_queuepair) : Z := err_value SMLT_SUCCESS.

(** ** The invariant of one direction

    [sent]: the messages accepted so far; [r]: how many were taken. *)
Section invariant.
Context (N : nat) (HN : (0 < N)%nat) (HN16 : Z.of_nat N <= 65535).

(** A message the backend can carry: between one word and a cache line, and
    its first word is not the empty marker. *)
Definition ffq_valid (m : list Z) : Prop :=
  (1 <= length m <= SMLT_FFQ_MSG_WORDS)%nat /\ head m <> Some SMLT_FFQ_SLOT_EMPTY.

Definition slot_full (ring : ffq_ring) (j : nat) (m : list Z) : Prop :=
  exists d, ring !! (j mod N)%nat = Some d /\ length d = SMLT_FFQ_MSG_WORDS /\
    take (length m) d = m.
Definition slot_empty (ring : ffq_ring) (j : nat) : Prop :=
  exists d, ring !! (j mod N)%nat = Some d /\ length d = SMLT_FFQ_MSG_WORDS /\
    d !! 0%nat = Some SMLT_FFQ_SLOT_EMPTY.

Definition fq_at (q : smlt_ffq_queue) (dir : smlt_ffq_direction_t) (s : nat) : Prop :=
  fq_size q = Z.of_nat N /\ fq_pos q = Z.of_nat (s mod N) /\ fq_direction q = dir.

Record ffq_inv (tx rx : smlt_ffq_queue) (ring : ffq_ring) (sent : list (list Z)) (r : nat)
  : Prop := {
  fi_len : length ring = N;
  fi_tx : fq_at tx SMLT_FFQ_DIRECTION_SEND (length sent);
  fi_rx : fq_at rx SMLT_FFQ_DIRECTION_RECV r;
  fi_order : (r <= length sent <= r + N)%nat;
  fi_valid : Forall ffq_valid sent;
  fi_full j m : sent !! j = Some m -> (r <= j)%nat -> slot_full ring j m;
  fi_empty j : (length sent <= j < r + N)%nat -> slot_empty ring j;
}.

Lemma fq_advance_at q dir s : fq_at q dir s -> fq_at (fq_advance q) dir (S s).
Proof using Type*.
  intros (Hs & Hp & Hd). unfold fq_advance, fq_at. rewrite Hp, Hs. simpl.
  destruct (ring_next N HN s) as [E _]. pose proof (ring_lt N HN s). rewrite E.
  destruct (decide (S (s mod N) = N)) as [D|D].
  - replace (Z.of_nat (s mod N) + 1) with (Z.of_nat N) by lia.
    destruct (decide (Z.of_nat N = 65536)); [lia|].
    rewrite wrap_small by (pow_consts; lia). by rewrite Z.eqb_refl.
  - rewrite wrap_small by (pow_consts; lia).
    destruct (Z.eqb_spec (Z.of_nat (s mod N) + 1) (Z.of_nat N)); [lia|].
    split; [done|]. split; [lia|done].
Qed.

Lemma full_head ring j m :
  slot_full ring j m -> ffq_valid m ->
  exists d w, ring !! (j mod N)%nat = Some d /\ length d = SMLT_FFQ_MSG_WORDS /\
    d !! 0%nat = Some w /\ w <> SMLT_FFQ_SLOT_EMPTY /\ take (length m) d = m.
Proof using Type*.
  intros (d & E & Hd & Ht) [Hl Hh]. destruct m as [|w m]; simpl in *; [lia|].
  destruct d as [|w' d]; simplify_eq/=. exists (w :: d), w. simpl.
  repeat split; try done; congruence.
Qed.

(** The flag word of the sender's slot says exactly whether there is room. *)
Lemma ffq_can_send_spec tx rx ring sent r :
  ffq_inv tx rx ring sent r ->
  exists d, ring !! (length sent mod N)%nat = Some d /\ length d = SMLT_FFQ_MSG_WORDS /\
    smlt_ffq_queue_can_send (tx, ring) =
      (Ret (bool_decide (length sent < r + N)%nat), (tx, ring)).
Proof using Type*.
  intros [Il (Hs & Hp & Hd) Ir Io Iv If Ie].
  unfold smlt_ffq_queue_can_send, gets, fq_slot, mbind, M_bind. simpl.
  rewrite Hd, bool_decide_true by done. simpl. rewrite Hp, arr_get_nat.
  case_bool_decide as D.
  - destruct (Ie (length sent)) as (d & E & Hl & Hw); [lia|]. rewrite E. simpl.
    change 0 with (Z.of_nat 0). rewrite arr_get_nat, Hw. simpl.
    exists d. by rewrite (Z.eqb_refl SMLT_FFQ_SLOT_EMPTY).
  - assert (Hlen : length sent = (r + N)%nat) by lia.
    destruct (lookup_lt_is_Some_2 sent r) as [m Hm]; [lia|].
    destruct (full_head ring r m) as (d & w & E & Hl & Hw & Hne & _);
      [by apply (If r m Hm)|by eapply Forall_lookup_1|].
    destruct (ring_add_period N HN r) as [Er _]. rewrite <- Hlen in Er. rewrite Er, E. simpl.
    change 0 with (Z.of_nat 0). rewrite arr_get_nat, Hw. simpl.
    exists d. destruct (Z.eqb_spec w SMLT_FFQ_SLOT_EMPTY); done.
Qed.

Lemma ffq_inv_send tx rx ring sent r m d :
  ffq_inv tx rx ring sent r -> (length sent < r + N)%nat -> ffq_valid m ->
  length d = SMLT_FFQ_MSG_WORDS -> take (length m) d = m ->
  ffq_inv (fq_advance tx) rx (<[(length sent mod N)%nat := d]> ring) (sent ++ [m]) r.
Proof using Type*.
  intros [Il It Ir Io Iv If Ie] Hroom Hm Hd Ht.
  pose proof (ring_lt N HN (length sent)).
  constructor; rewrite ?length_app; simpl; rewrite ?Nat.add_1_r; try done; try lia.
  - by rewrite length_insert.
  - by apply fq_advance_at.
  - apply Forall_app. auto.
  - intros j m' Hj Hr. destruct (decide (j = length sent)) as [->|Hne].
    + rewrite lookup_snoc_eq in Hj. simplify_eq. exists d.
      by rewrite list_lookup_insert_eq by lia.
    + pose proof (lookup_lt_Some _ _ _ Hj) as Hjl. rewrite length_app in Hjl. simpl in Hjl.
      rewrite lookup_snoc_lt in Hj by lia.
      destruct (If j m' Hj Hr) as (d' & E & ?). exists d'.
      rewrite list_lookup_insert_ne; [done|].
      intros E'. symmetry in E'. revert E'. apply (ring_distinct N HN); lia.
  - intros j Hj. destruct (Ie j) as (d' & E & ?); [lia|]. exists d'.
    rewrite list_lookup_insert_ne; [done|]. apply (ring_distinct N HN); lia.
Qed.

Lemma ffq_inv_recv tx rx ring sent r d :
  ffq_inv tx rx ring sent r -> (r < length sent)%nat ->
  ring !! (r mod N)%nat = Some d ->
  length d = SMLT_FFQ_MSG_WORDS ->
  ffq_inv tx (fq_advance rx)
    (<[(r mod N)%nat := <[0%nat := SMLT_FFQ_SLOT_EMPTY]> d]> ring) sent (S r).
Proof using Type*.
  intros [Il It Ir Io Iv If Ie] Hr Hd Hdl.
  pose proof (ring_lt N HN r).
  constructor; try done; try lia.
  - by rewrite length_insert.
  - by apply fq_advance_at.
  - intros j m Hj Hrj. destruct (If j m Hj) as (d' & E & ?); [lia|]. exists d'.
    pose proof (lookup_lt_Some _ _ _ Hj).
    rewrite list_lookup_insert_ne; [done|]. apply (ring_distinct N HN); lia.
  - intros j Hj. destruct (decide (j = (r + N)%nat)) as [->|].
    + destruct (ring_add_period N HN r) as [Er _]. exists (<[0%nat := SMLT_FFQ_SLOT_EMPTY]> d).
      rewrite Er, list_lookup_insert_eq, length_insert by lia.
      split; [done|]. split; [done|]. apply list_lookup_insert_eq.
      rewrite Hdl. unfold SMLT_FFQ_MSG_WORDS. lia.
    + destruct (Ie j) as (d' & E & ?); [lia|]. exists d'.
      rewrite list_lookup_insert_ne; [done|]. apply (ring_distinct N HN); lia.
Qed.

(** One send into an empty slot. *)
Lemma send_raw_run q ring p d m :
  fq_pos q = Z.of_nat p -> fq_direction q = SMLT_FFQ_DIRECTION_SEND ->
  ring !! p = Some d -> length d = SMLT_FFQ_MSG_WORDS ->
  d !! 0%nat = Some SMLT_FFQ_SLOT_EMPTY -> (1 <= length m <= SMLT_FFQ_MSG_WORDS)%nat ->
  smlt_ffq_queue_send_raw m (Z.of_nat (length m)) (q, ring) =
    (Ret (err_value SMLT_SUCCESS), (fq_advance q, <[p := m ++ drop (length m) d]> ring)).
Proof using.
  clear N HN HN16. intros Hp Hq Ed Hd Hd0 Hl. pose proof (lookup_lt_Some _ _ _ Ed).
  unfold smlt_ffq_queue_send_raw, smlt_ffq_queue_can_send, gets, fq_slot, mbind, M_bind. simpl.
  rewrite Hq, bool_decide_true by done. simpl. rewrite Hp, arr_get_nat, Ed. simpl.
  change 0 with (Z.of_nat 0) at 1. rewrite arr_get_nat, Hd0. simpl.
  rewrite (Z.eqb_refl SMLT_FFQ_SLOT_EMPTY). simpl.
  unfold SMLT_FFQ_MSG_WORDS in *.
  destruct (Z.ltb_spec (Z.of_nat 8) (Z.of_nat (length m))); [lia|].
  destruct m as [|w m]; simpl in *; [lia|].
  replace (Z.to_nat (Z.of_nat (S (length m)) - 1)) with (length m) by lia.
  rewrite Hp, arr_get_nat, Ed. simpl.
  change 1 with (Z.of_nat 1). rewrite copy_words_from by (simpl; lia). simpl.
  unfold fq_set_slot. simpl. rewrite Hp, arr_set_nat by lia. simpl.
  destruct d as [|w' d]; simpl in *; [lia|]. rewrite drop_0, firstn_all.
  unfold arr_get, arr_set. simpl.
  rewrite Hp, decide_True by (rewrite length_insert; lia).
  by rewrite Nat2Z.id, list_insert_insert_eq.
Qed.

Lemma send_raw_spec tx rx ring sent r m :
  ffq_inv tx rx ring sent r -> ffq_valid m ->
  exists err st', smlt_ffq_queue_send_raw m (Z.of_nat (length m)) (tx, ring) = (Ret err, st') /\
    if decide (length sent < r + N)%nat
    then err = err_value SMLT_SUCCESS /\ ffq_inv st'.1 rx st'.2 (sent ++ [m]) r
    else err = err_value SMLT_ERR_QUEUE_FULL /\ st' = (tx, ring).
Proof using Type*.
  intros I [Hl Hh]. destruct (ffq_can_send_spec _ _ _ _ _ I) as (_ & _ & _ & Ec).
  case_decide as D.
  - destruct (fi_tx _ _ _ _ _ I) as (Hs & Hp & Hdir).
    destruct (fi_empty _ _ _ _ _ I (length sent)) as (d & Ed & Hd & Hd0);
      [pose proof (fi_order _ _ _ _ _ I); lia|].
    eexists _, _. split; [by apply (send_raw_run _ _ _ d m Hp)|]. simpl.
    split; [done|]. apply ffq_inv_send; try done.
    + rewrite length_app, length_drop. lia.
    + by apply take_app_length.
  - unfold smlt_ffq_queue_send_raw, mbind, M_bind. rewrite Ec.
    rewrite bool_decide_false by done. simpl. by eexists _, _.
Qed.

(** Any number of sends that fit. *)
Lemma send_all ms tx rx ring sent r :
  ffq_inv tx rx ring sent r -> Forall ffq_valid ms ->
  (length sent + length ms <= r + N)%nat ->
  exists st',
    mapM (fun m => smlt_ffq_queue_send_raw m (Z.of_nat (length m))) ms (tx, ring) =
      (Ret (replicate (length ms) (err_value SMLT_SUCCESS)), st') /\
    ffq_inv st'.1 rx st'.2 (sent ++ ms) r.
Proof using Type*.
  revert tx ring sent. induction ms as [|m ms IH]; intros tx ring sent I Hv Hle; simpl.
  { exists (tx, ring). by rewrite app_nil_r. }
  apply Forall_cons in Hv as [Hm Hv]. simpl in Hle.
  destruct (send_raw_spec _ _ _ _ _ _ I Hm) as (err & [tx1 ring1] & E & H).
  rewrite decide_True in H by lia. destruct H as [-> I1].
  rewrite (bind_ret _ _ _ _ _ E).
  destruct (IH _ _ _ I1 Hv) as (st' & E' & I'); [rewrite length_app; simpl; lia|].
  rewrite (bind_ret _ _ _ _ _ E'). exists st'. split; [done|].
  by rewrite <- app_assoc in I'.
Qed.

Lemma ffq_recv_raw_spec tx rx ring sent r w :
  ffq_inv tx rx ring sent r -> (w <= SMLT_FFQ_MSG_WORDS)%nat ->
  exists res st', smlt_ffq_queue_recv_raw (Some (replicate w 0)) (Z.of_nat w) (rx, ring) =
      (Ret res, st') /\
    match sent !! r with
    | Some m =>
        res.1 = err_value SMLT_SUCCESS /\ ffq_inv tx st'.1 st'.2 sent (S r) /\
        (length m = w -> res.2 = Some m)
    | None => res.1 = err_value SMLT_ERR_QUEUE_EMPTY /\ st' = (rx, ring)
    end.
Proof using Type*.
  intros I Hw. destruct (fi_rx _ _ _ _ _ I) as (Hs & Hp & _).
  pose proof (ring_lt N HN r). pose proof (fi_len _ _ _ _ _ I).
  pose proof (fi_order _ _ _ _ _ I).
  unfold smlt_ffq_queue_recv_raw, fq_slot, mbind, M_bind. simpl. rewrite Hp, arr_get_nat.
  destruct (sent !! r) as [m|] eqn:Em.
  - destruct (full_head ring r m) as (d & v & E & Hl & Hv & Hne & Ht).
    { by apply (fi_full _ _ _ _ _ I). }
    { eapply Forall_lookup_1; [apply (fi_valid _ _ _ _ _ I)|done]. }
    rewrite E. simpl. change 0 with (Z.of_nat 0) at 1. rewrite arr_get_nat, Hv. simpl.
    destruct (Z.eqb_spec v SMLT_FFQ_SLOT_EMPTY); [done|].
    unfold SMLT_FFQ_MSG_WORDS in *.
    destruct (Z.ltb_spec (Z.of_nat 8) (Z.of_nat w)); [lia|]. rewrite Nat2Z.id.
    rewrite copy_words_spec by (rewrite ?length_replicate; lia). simpl.
    unfold arr_set. rewrite decide_True by lia. simpl.
    unfold fq_set_slot, arr_set. simpl. rewrite Hp, decide_True by lia. rewrite Nat2Z.id.
    eexists _, _. split; [reflexivity|]. simpl. split; [done|]. split.
    + by apply ffq_inv_recv; [|apply lookup_lt_Some in Em|..].
    + intros <-. rewrite drop_ge by (by rewrite length_replicate). by rewrite app_nil_r, Ht.
  - apply lookup_ge_None in Em. assert (r = length sent) as -> by lia.
    destruct (fi_empty _ _ _ _ _ I (length sent)) as (d & E & Hl & Hv); [lia|].
    rewrite E. simpl. change 0 with (Z.of_nat 0) at 1. rewrite arr_get_nat, Hv. simpl.
    rewrite Z.eqb_refl. eexists _, _. done.
Qed.
End invariant.

(** ** A connected pair *)
Definition ffq_send (m : list Z) : M ffq_st bool :=
  smlt_err_is_ok <$> smlt_ffq_queuepair_send (msg_of m).
Definition ffq_recv (w : nat) : M ffq_st (option (list Z)) :=
  r ← smlt_ffq_queuepair_recv (msg_buf w);
  mret (if smlt_err_is_ok r.1 then Some (msg_data r.2) else None).

Section pair.
Context (N : nat) (HN : (0 < N)%nat) (HN16 : Z.of_nat N <= 65535) (w : nat).

Definition ffq_dinv (txq : smlt_ffq_queuepair) (ring : ffq_ring) (rxq : smlt_ffq_queuepair)
    (q : list (list Z)) : Prop :=
  exists sent r, ffq_inv N (fqp_tx txq) (fqp_rx rxq) ring sent r /\ q = drop r sent /\
    Forall (fun m => length m = w) q.

Definition ffq_word (m : list Z) : Prop := ffq_valid m /\ length m = w.

Lemma ffq_end_send : end_send_law ffq_dinv N ffq_word ffq_send.
Proof using Type*.
  intros [[tx rx] ring rxring] rxq q m (sent & r & I & -> & Hw) [Hv Hm]. simpl in *.
  destruct (send_raw_spec N HN HN16 _ _ _ _ _ m I Hv) as (err & [tx' ring'] & E & H).
  unfold ffq_send, smlt_ffq_queuepair_send, smlt_ffq_queuepair_send_raw, on_ftx, zoom,
    fmap, M_fmap. simpl.
  assert (Hu : u16 (Z.of_nat (length m)) = Z.of_nat (length m)).
  { destruct Hv as [Hv _]. unfold SMLT_FFQ_MSG_WORDS in Hv.
    apply wrap_small. pow_consts. lia. }
  rewrite Hu, E. pose proof (fi_order _ _ _ _ _ _ I).
  case_decide; destruct H as [-> H]; simpl in *; eexists _, _; (split; [reflexivity|]); simpl;
    (split; [done|]).
  - split; [done|]. rewrite length_drop. split; [lia|].
    exists (sent ++ [m]), r. split; [done|]. rewrite drop_app_le by lia. split; [done|].
    apply Forall_app. auto.
  - simplify_eq. split; [done|]. split; [|by exists sent, r].
    intros Hq. apply (f_equal length) in Hq. rewrite length_drop in Hq. simpl in Hq. lia.
Qed.

Lemma ffq_end_recv : (1 <= w <= SMLT_FFQ_MSG_WORDS)%nat -> end_recv_law ffq_dinv (ffq_recv w).
Proof using Type*.
  intros Hw8 [[tx rx] txring ring] txq q (sent & r & I & -> & Hw). simpl in *.
  destruct (ffq_recv_raw_spec N HN HN16 _ _ _ _ _ w I) as ([err out] & [rx' ring'] & E & H); [lia|].
  unfold ffq_recv, smlt_ffq_queuepair_recv, smlt_ffq_queuepair_recv_raw, on_frx, zoom,
    mbind, M_bind. simpl.
  assert (Hu : u16 (Z.of_nat w) = Z.of_nat w).
  { unfold SMLT_FFQ_MSG_WORDS in Hw8. apply wrap_small. pow_consts. lia. }
  rewrite Hu, E. destruct (sent !! r) as [m|] eqn:Em; simpl in *.
  - rewrite (drop_lookup_cons _ _ _ Em) in Hw |- *. apply Forall_cons in Hw as [Hm Hw].
    destruct H as (-> & I' & Ho). rewrite (Ho Hm). simpl.
    eexists _, _. split; [reflexivity|]. simpl. split; [done|]. split; [done|].
    exists (drop (S r) sent). split; [done|]. by exists sent, (S r).
  - destruct H as [-> H]. simplify_eq. simpl. apply lookup_ge_None in Em.
    eexists _, _. split; [reflexivity|]. simpl. split; [done|]. split; [done|].
    split; [by apply drop_ge|]. by exists sent, r.
Qed.
End pair.

(** ** Creation *)
Lemma clear_slots_spec n i (r : ffq_ring) :
  (forall j, (j < n)%nat -> exists s, r !! (i + j)%nat = Some s /\ length s = SMLT_FFQ_MSG_WORDS) ->
  exists r', clear_slots n (Z.of_nat i) r = Some r' /\ length r' = length r /\
    (forall j, (j < n)%nat -> exists s, r' !! (i + j)%nat = Some s /\
       length s = SMLT_FFQ_MSG_WORDS /\ s !! 0%nat = Some SMLT_FFQ_SLOT_EMPTY) /\
    (forall k, (k < i)%nat -> r' !! k = r !! k).
Proof.
  revert i r. induction n as [|n IH]; intros i r H; simpl.
  { exists r. repeat split; try done. intros; lia. }
  destruct (H 0%nat) as (s & E & Hs); [lia|]. rewrite Nat.add_0_r in E.
  pose proof (lookup_lt_Some _ _ _ E) as L.
  rewrite arr_get_nat, E. unfold SMLT_FFQ_MSG_WORDS in *.
  change 0 with (Z.of_nat 0). rewrite arr_set_nat by lia. rewrite arr_set_nat by lia.
  replace (Z.of_nat i + 1) with (Z.of_nat (S i)) by lia.
  destruct (IH (S i) (<[i := <[0%nat := SMLT_FFQ_SLOT_EMPTY]> s]> r)) as (r' & E' & Hl & Hn & Hk).
  { intros j Hj. destruct (H (S j)) as (s' & Es & ?); [lia|]. exists s'.
    rewrite list_lookup_insert_ne by lia. by replace (S i + j)%nat with (i + S j)%nat by lia. }
  exists r'. split; [done|]. split; [by rewrite Hl, length_insert|]. split.
  - intros [|j] Hj.
    + rewrite Nat.add_0_r, Hk, list_lookup_insert_eq by lia.
      eexists. split; [done|]. rewrite length_insert. split; [done|].
      apply list_lookup_insert_eq. lia.
    + replace (i + S j)%nat with (S i + j)%nat by lia. apply Hn. lia.
  - intros k Hki. rewrite Hk by lia. apply list_lookup_insert_ne. lia.
Qed.

Definition ffq_ring_at (rs : ffq_rings) (a : Z) : ffq_ring := default [] (rs !! a).
Definition mk_ffq_pair (sd : smlt_ffq_queuepair * smlt_ffq_queuepair) (rs : ffq_rings) : ffq_pair :=
  Pair sd.1 sd.2 (ffq_ring_at rs (fq_slots (fqp_tx sd.1)))
                  (ffq_ring_at rs (fq_slots (fqp_tx sd.2))).

(** A ring that [clear_slots] prepared holds no message. *)
Lemma cleared_inv N a b ring :
  (0 < N)%nat -> clear_slots N 0 (zero_ring (Z.of_nat N)) = Some ring ->
  ffq_inv N (FQ a (Z.of_nat N) 0 SMLT_FFQ_DIRECTION_SEND)
    (FQ b (Z.of_nat N) 0 SMLT_FFQ_DIRECTION_RECV) ring [] 0.
Proof.
  intros HN E. unfold zero_ring in E. rewrite Nat2Z.id in E.
  destruct (clear_slots_spec N 0 (replicate N (replicate SMLT_FFQ_MSG_WORDS 0)))
    as (r' & E' & Hl & Hn & _).
  { intros j Hj. exists (replicate SMLT_FFQ_MSG_WORDS 0). by rewrite lookup_replicate_2. }
  change (Z.of_nat 0) with 0 in E'. rewrite E in E'. simplify_eq.
  rewrite length_replicate in Hl.
  constructor; try done; try (simpl; lia).
  - unfold fq_at. simpl. by rewrite Nat.Div0.mod_0_l.
  - unfold fq_at. simpl. by rewrite Nat.Div0.mod_0_l.
  - intros j [_ Hj]. destruct (Hn j) as (s & ? & ? & ?); [lia|].
    exists s. by rewrite Nat.mod_small by lia.
Qed.

Lemma clear_zero_ring (N : nat) : exists r, clear_slots N 0 (zero_ring (Z.of_nat N)) = Some r.
Proof.
  unfold zero_ring. rewrite Nat2Z.id.
  destruct (clear_slots_spec N 0 (replicate N (replicate SMLT_FFQ_MSG_WORDS 0)))
    as (r' & E' & _).
  { intros j Hj. exists (replicate SMLT_FFQ_MSG_WORDS 0). by rewrite lookup_replicate_2. }
  by exists r'.
Qed.

(** Creation succeeds and connects the two ends when both rings were allocated
    at different addresses. *)
Lemma ffq_init_ok w (N : nat) src0 dst0 a b answers live rs :
  (0 < N)%nat -> a <> b ->
  exists sd rs',
    smlt_ffq_queuepair_init (Z.of_nat N) src0 dst0
      (FIS (AllocSt (Some a :: Some b :: answers) live) rs) =
      (Ret (err_value SMLT_SUCCESS, sd), FIS (AllocSt answers (b :: a :: live)) rs') /\
    forall d, link_inv (ffq_dinv N w) d [] (mk_ffq_pair sd rs') [].
Proof.
  intros HN Hab. destruct (clear_zero_ring N) as [ring Er].
  unfold smlt_ffq_queuepair_init, ffq_alloc, fi_on_alloc, fi_on_rings, zoom, mbind, M_bind. simpl.
  unfold smlt_ffq_queue_init_tx, mbind, M_bind. simpl.
  rewrite lookup_insert_eq, Nat2Z.id. simpl. rewrite Er. simpl.
  rewrite lookup_insert_eq. simpl. rewrite Er. simpl.
  eexists _, _. split; [reflexivity|].
  unfold link_inv, link_dir, mk_ffq_pair, ffq_ring_at, ffq_dinv. intros d.
  destruct d; simpl; rewrite ?lookup_insert_eq;
    rewrite lookup_insert_ne by done; rewrite lookup_insert_ne by done;
    rewrite lookup_insert_eq; simpl;
    (split; exists [], 0%nat; (split; [by apply cleared_inv|done])).
Qed.

(** ** Main properties *)

(** [C2] From creation on, each direction of a FastForward queue pair of [N]
    slots is a FIFO of capacity [N]: every interleaving of sends and receives of
    [w]-word messages (1 to 8 words, the first not the empty marker) succeeds or
    is refused as the FIFO specification allows; what was delivered followed by
    what is in flight is what was accepted, in order. *)
Theorem ffq_pair_fifo N s0 d0 a b an live rs w d cs :
  (0 < N)%nat -> Z.of_nat N <= 65535 -> a <> b -> (1 <= w <= SMLT_FFQ_MSG_WORDS)%nat ->
  Forall (valid_cmd (valid := ffq_word w)) cs ->
  exists sd rs' st' tr q,
    smlt_ffq_queuepair_init (Z.of_nat N) s0 d0
      (FIS (AllocSt (Some a :: Some b :: an) live) rs) =
      (Ret (err_value SMLT_SUCCESS, sd), FIS (AllocSt an (b :: a :: live)) rs') /\
    exec (SpscQueue0 := link_spsc ffq_send (ffq_recv w) d) cs (mk_ffq_pair sd rs') =
      (Ret tr, st') /\
    fifo_run N [] tr q /\ sent_of tr = recv_of tr ++ q /\ (length q <= N)%nat.
Proof.
  intros HN H16 Hab Hw Hcs.
  destruct (ffq_init_ok w N s0 d0 a b an live rs HN Hab) as (sd & rs' & E & I).
  pose proof (link_laws (ffq_dinv N w) N (ffq_word w) ffq_send (ffq_recv w) d []
    (ffq_end_send N HN H16 w) (ffq_end_recv N HN H16 w Hw)) as L.
  destruct (exec_refines (SpscLaws0 := L) cs _ _ (I d) Hcs) as (tr & st' & q & E' & R & _).
  exists sd, rs', st', tr, q. split; [done|]. split; [done|]. split; [done|].
  split; [by rewrite <- (fifo_run_order _ _ _ _ R)|].
  apply (fifo_run_cap _ _ _ _ R). simpl. lia.
Qed.

Lemma ffq_pair_fifo_witness :
  exists sd rs' st' tr q,
    smlt_ffq_queuepair_init 2 (FQP (FQ 0 0 0 SMLT_FFQ_DIRECTION_SEND) (FQ 0 0 0 SMLT_FFQ_DIRECTION_SEND))
      (FQP (FQ 0 0 0 SMLT_FFQ_DIRECTION_SEND) (FQ 0 0 0 SMLT_FFQ_DIRECTION_SEND))
      (FIS (AllocSt [Some 64; Some 256] []) ∅) =
      (Ret (err_value SMLT_SUCCESS, sd), FIS (AllocSt [] [256; 64]) rs') /\
    exec (SpscQueue0 := link_spsc ffq_send (ffq_recv 1) Dst) [CSend [7]; CSend [8]; CSend [9]; CRecv]
      (mk_ffq_pair sd rs') = (Ret tr, st') /\
    fifo_run 2 [] tr q /\ sent_of tr = recv_of tr ++ q /\ (length q <= 2)%nat.
Proof.
  apply (ffq_pair_fifo 2 _ _ 64 256 [] [] ∅ 1 Dst); try lia; try done.
  - unfold SMLT_FFQ_MSG_WORDS. lia.
  - repeat constructor; unfold SMLT_FFQ_MSG_WORDS; simpl; try lia;
      with_strategy transparent [SMLT_FFQ_SLOT_EMPTY] (intros ?; simplify_eq/=).
Defined.

(** [C35] A message whose first word is the empty marker is accepted and lost:
    the send reports success, the receiver sees an empty queue, and keeps seeing
    one whatever the next [N - 1] sends carry, although they are all accepted. *)
Theorem ffq_marker_message_lost N tx rx ring sent m ms :
  (0 < N)%nat -> Z.of_nat N <= 65535 ->
  ffq_inv N tx rx ring sent (length sent) ->
  head m = Some SMLT_FFQ_SLOT_EMPTY -> (length m <= SMLT_FFQ_MSG_WORDS)%nat ->
  Forall ffq_valid ms -> (length ms < N)%nat ->
  exists st,
    mapM (fun m => smlt_ffq_queue_send_raw m (Z.of_nat (length m))) (m :: ms) (tx, ring) =
      (Ret (replicate (S (length ms)) (err_value SMLT_SUCCESS)), st) /\
    forall w buf, smlt_ffq_queue_recv_raw buf w (rx, st.2) =
      (Ret (err_value SMLT_ERR_QUEUE_EMPTY, buf), (rx, st.2)).
Proof.
  intros HN H16 I Hm Hl Hms Hlen.
  set (r := length sent) in *. destruct (fi_tx _ _ _ _ _ _ I) as (Hs & Hp & Hdir).
  destruct (fi_empty _ _ _ _ _ _ I (length sent)) as (d & Ed & Hd & Hd0); [lia|].
  destruct m as [|v m]; simplify_eq/=.
  set (ring1 := <[(r mod N)%nat := (SMLT_FFQ_SLOT_EMPTY :: m) ++ drop (S (length m)) d]> ring).
  (* for the sender, and for every other slot, it is as if message [r] had been
     taken already *)
  assert (I1 : ffq_inv N (fq_advance tx) (fq_advance rx) ring1 (sent ++ [[0]]) (S r)).
  { assert (Ig : ffq_inv N (fq_advance tx) rx
      (<[(r mod N)%nat := 0 :: (m ++ drop (S (length m)) d)]> ring) (sent ++ [[0]]) r).
    { apply ffq_inv_send; try done; try lia.
      - split; [unfold SMLT_FFQ_MSG_WORDS; simpl; lia|].
        with_strategy transparent [SMLT_FFQ_SLOT_EMPTY] (intros ?; simplify_eq/=).
      - simpl. rewrite length_app, length_drop, Hd. unfold SMLT_FFQ_MSG_WORDS in *. lia. }
    pose proof (lookup_lt_Some _ _ _ Ed) as Lr.
    pose proof (ffq_inv_recv N HN H16 _ _ _ _ _ (0 :: (m ++ drop (S (length m)) d)) Ig) as Ir.
    rewrite list_insert_insert_eq in Ir. apply Ir.
    - rewrite length_app. simpl. fold r. lia.
    - by apply list_lookup_insert_eq.
    - simpl. rewrite length_app, length_drop, Hd. unfold SMLT_FFQ_MSG_WORDS in *. lia. }
  destruct (send_all N HN H16 ms _ _ _ _ _ I1 Hms) as (st & E & I2).
  { rewrite length_app. simpl. fold r. lia. }
  exists st. split.
  - rewrite (bind_ret _ _ _ _ _ (send_raw_run tx ring _ d (SMLT_FFQ_SLOT_EMPTY :: m) Hp Hdir Ed Hd Hd0
      ltac:(simpl; lia))).
    by rewrite (bind_ret _ _ _ _ _ E).
  - intros w buf. destruct (fi_rx _ _ _ _ _ _ I) as (_ & Hpr & _). fold r in Hpr.
    destruct (fi_empty _ _ _ _ _ _ I2 (r + N)) as (e & Ee & He & He0).
    { rewrite !length_app. simpl. fold r. lia. }
    rewrite (proj1 (ring_add_period N HN r)) in Ee.
    unfold smlt_ffq_queue_recv_raw, fq_slot, mbind, M_bind. simpl.
    rewrite Hpr, arr_get_nat, Ee. simpl. change 0 with (Z.of_nat 0) at 1.
    rewrite arr_get_nat, He0. simpl. by rewrite Z.eqb_refl.
Qed.

Lemma ffq_marker_message_lost_witness :
  exists st,
    mapM (fun m => smlt_ffq_queue_send_raw m (Z.of_nat (length m)))
      [[SMLT_FFQ_SLOT_EMPTY; 5]; [1]; [2]; [3]]
      (FQ 0 4 0 SMLT_FFQ_DIRECTION_SEND,
       replicate 4 (SMLT_FFQ_SLOT_EMPTY :: replicate 7 0)) =
      (Ret (replicate 4 (err_value SMLT_SUCCESS)), st) /\
    forall w buf, smlt_ffq_queue_recv_raw buf w (FQ 0 4 0 SMLT_FFQ_DIRECTION_RECV, st.2) =
      (Ret (err_value SMLT_ERR_QUEUE_EMPTY, buf), (FQ 0 4 0 SMLT_FFQ_DIRECTION_RECV, st.2)).
Proof.
  apply (ffq_marker_message_lost 4 (FQ 0 4 0 SMLT_FFQ_DIRECTION_SEND)
    (FQ 0 4 0 SMLT_FFQ_DIRECTION_RECV)
    (replicate 4 (SMLT_FFQ_SLOT_EMPTY :: replicate 7 0)) []
    [SMLT_FFQ_SLOT_EMPTY; 5] [[1]; [2]; [3]]); try done; try (simpl; unfold SMLT_FFQ_MSG_WORDS; lia).
  - constructor; try done; try (simpl; lia).
    intros j Hj. exists (SMLT_FFQ_SLOT_EMPTY :: replicate 7 0). simpl in Hj.
    rewrite lookup_replicate_2; [done|]. apply Nat.mod_upper_bound. lia.
  - repeat constructor; unfold SMLT_FFQ_MSG_WORDS; simpl; try lia;
      with_strategy transparent [SMLT_FFQ_SLOT_EMPTY] (intros ?; simplify_eq/=).
Defined.

(** A longer message is cut without an error: in every state, sending
    more than eight words is the same as sending the first eight. *)
Lemma ffq_send_truncates st m :
  (SMLT_FFQ_MSG_WORDS < length m)%nat ->
  smlt_ffq_queue_send_raw m (Z.of_nat (length m)) st =
    smlt_ffq_queue_send_raw (take SMLT_FFQ_MSG_WORDS m) (Z.of_nat SMLT_FFQ_MSG_WORDS) st.
Proof.
  intros Hm. unfold smlt_ffq_queue_send_raw.
  assert (E0 : arr_get (take SMLT_FFQ_MSG_WORDS m) 0 = arr_get m 0) by (by destruct m).
  rewrite E0. destruct (Z.ltb_spec (Z.of_nat SMLT_FFQ_MSG_WORDS) (Z.of_nat (length m))); [|lia].
  rewrite Z.ltb_irrefl.
  assert (Ec : forall slot, copy_words (take SMLT_FFQ_MSG_WORDS m) 7 1 slot = copy_words m 7 1 slot)
    by (intros slot; exact (copy_words_take m slot 7 1)).
  change (Z.to_nat (Z.of_nat SMLT_FFQ_MSG_WORDS - 1)) with 7%nat. unfold mbind, M_bind.
  destruct (smlt_ffq_queue_can_send st) as [[[]| | |] st1]; try done. cbn [negb].
  destruct (fq_slot st1) as [[slot| | |] st2]; try done. by rewrite Ec.
Qed.

