(* ===== verification/FfqSteps.v ===== *)
(** FastForward backend, one access to shared memory at a time: between any two words that
    a send or a receive reads or writes the thread at the other end can run. *)
From S2P Require Import Prelude Errors Message Platform Fifo Pair Ffq Steps.

(** ** The queue's operations *)
Definition ffq_read (i : Z) : M fq_state Z := slot ← fq_slot; defined (arr_get slot i).
Definition ffq_write (i v : Z) : M fq_state unit :=
  slot ← fq_slot; d ← defined (arr_set slot i v); fq_set_slot d.

(** [for (i = i0; i < i0 + n; ++i) s->data[i] = val_ptr[i];] *)
Fixpoint send_words {A} (val_ptr : list Z) (n : nat) (i : Z) (k : frag fq_state A) : frag fq_state A :=
  match n with
  | O => k
  | S n' => FAct (v ← defined (arr_get val_ptr i); _ ← ffq_write i v; mret (send_words val_ptr n' (i + 1) k))
  end.
Definition send_flag (val_ptr : list Z) : frag fq_state Z :=
  act (v ← defined (arr_get val_ptr 0);
       _ ← ffq_write 0 v;
       _ ← modify (fun s => (fq_advance s.1, s.2));
       mret (err_value SMLT_SUCCESS)).
Definition smlt_ffq_queue_send_raw_steps (val_ptr : list Z) (num0 : Z) : frag fq_state Z :=
  FAct (b ← smlt_ffq_queue_can_send;
        mret (if negb b then FDone (err_value SMLT_ERR_QUEUE_FULL) else
              let num := if Z.of_nat SMLT_FFQ_MSG_WORDS <? num0 then Z.of_nat SMLT_FFQ_MSG_WORDS else num0 in
              send_words val_ptr (Z.to_nat (num - 1)) 1 (send_flag val_ptr))).

(** [for (i = i0; i < i0 + n; ++i) val_ptr[i] = s->data[i];] *)
Fixpoint recv_words {A} (n : nat) (i : Z) (val_ptr : list Z) (k : list Z -> frag fq_state A) : frag fq_state A :=
  match n with
  | O => k val_ptr
  | S n' => FAct (v ← ffq_read i; val_ptr' ← defined (arr_set val_ptr i v); mret (recv_words n' (i + 1) val_ptr' k))
  end.
Definition recv_flag (out : option (list Z)) : frag fq_state (Z * option (list Z)) :=
  act (_ ← ffq_write 0 SMLT_FFQ_SLOT_EMPTY;
       _ ← modify (fun s => (fq_advance s.1, s.2));
       mret (err_value SMLT_SUCCESS, out)).
Definition smlt_ffq_queue_recv_raw_steps (val_ptr : option (list Z)) (num0 : Z)
  : frag fq_state (Z * option (list Z)) :=
  FAct (w ← ffq_read 0;
        mret (if w =? SMLT_FFQ_SLOT_EMPTY then FDone (err_value SMLT_ERR_QUEUE_EMPTY, val_ptr) else
              match val_ptr with
              | None => recv_flag None
              | Some buf =>
                  let num := if Z.of_nat SMLT_FFQ_MSG_WORDS <? num0 then Z.of_nat SMLT_FFQ_MSG_WORDS else num0 in
                  recv_words (Z.to_nat num) 0 buf (fun out => recv_flag (Some out))
              end)).

(** ** The queue pair's *)
Definition at_ftx {A} : frag fq_state A -> frag ffq_st A :=
  frag_zoom (fun s => (fqp_tx (e_qp s), e_tx s)) (fun t s => Endp (FQP t.1 (fqp_rx (e_qp s))) t.2 (e_rx s)).
Definition at_frx {A} : frag fq_state A -> frag ffq_st A :=
  frag_zoom (fun s => (fqp_rx (e_qp s), e_rx s)) (fun t s => Endp (FQP (fqp_tx (e_qp s)) t.1) (e_tx s) t.2).
Definition sent_event (m : list Z) (err : Z) : frag ffq_st (event (list Z)) :=
  FDone (if smlt_err_is_ok err then ESent m else EFull).
Definition recv_event (r : Z * option (list Z)) : frag ffq_st (event (list Z)) :=
  FDone (if smlt_err_is_ok r.1 then ERecv (default [] r.2) else EEmpty).

(** A send of the message [m], a receive into a buffer of [w] words. *)
Definition ffq_code (w : nat) (c : cmd (list Z)) : frag ffq_st (event (list Z)) :=
  match c with
  | CSend m => frag_bind (at_ftx (smlt_ffq_queue_send_raw_steps m (u16 (Z.of_nat (length m))))) (sent_event m)
  | CRecv => frag_bind (at_frx (smlt_ffq_queue_recv_raw_steps (Some (replicate w 0)) (u16 (Z.of_nat w)))) recv_event
  end.

(** Two ends, their threads interleaved word by word. *)
Example ffq_steps_run :
  let q dir := FQ 0 2 0 dir in
  let qp := FQP (q SMLT_FFQ_DIRECTION_SEND) (q SMLT_FFQ_DIRECTION_RECV) in
  let empty := SMLT_FFQ_SLOT_EMPTY :: replicate 7 0 in
  let ring := [empty; empty] in
  let s := steps_start (Pair qp qp ring ring)
     (fun d => match d with Src => [CSend [1; 2]; CSend [3; 4]; CRecv] | Dst => [CRecv; CRecv; CSend [5; 6]] end) in
  ss_trace <$> steps_run (ffq_code 2) s [Src; Dst; Src; Dst; Src; Dst; Src; Dst; Src; Dst; Src; Dst; Src; Dst; Dst; Dst; Dst; Dst; Src; Src; Src; Src]
  = Some [(Dst, EEmpty); (Src, ESent [1; 2]); (Dst, ERecv [1; 2]); (Dst, ESent [5; 6]); (Src, ESent [3; 4])].
Proof. with_strategy transparent [SMLT_FFQ_SLOT_EMPTY] vm_compute. reflexivity. Qed.

(** ** One direction, with its two threads in the middle of their calls *)
Section direction.
Context (N : nat) (HN : (0 < N)%nat) (HN16 : Z.of_nat N <= 65535)
  (w : nat) (Hw8 : (1 <= w <= SMLT_FFQ_MSG_WORDS)%nat).

(** The send of [m] with words [i] to [i + n - 1] still to write; the receive with words
    [i] to [i + n - 1] still to read into [buf]. *)
Definition send_at (m : list Z) (n : nat) (i : Z) : frag ffq_st (event (list Z)) :=
  frag_bind (at_ftx (send_words m n i (send_flag m))) (sent_event m).
Definition recv_at (n : nat) (i : Z) (buf : list Z) : frag ffq_st (event (list Z)) :=
  frag_bind (at_frx (recv_words n i buf (fun out => recv_flag (Some out)))) recv_event.

Definition sender_at (ring : ffq_ring) (sent : list (list Z)) (r : nat)
    (sp : option (list Z * frag ffq_st (event (list Z)))) : Prop :=
  match sp with
  | None => True
  | Some (m, f) => ffq_word w m /\
      (f = ffq_code w (CSend m) \/
       exists i n, f = send_at m n (Z.of_nat i) /\ (1 <= i)%nat /\ (i + n = length m)%nat /\
         (length sent < r + N)%nat /\
         exists d, ring !! (length sent mod N)%nat = Some d /\ forall j, (1 <= j < i)%nat -> d !! j = m !! j)
  end.
Definition receiver_at (sent : list (list Z)) (r : nat) (rp : option (frag ffq_st (event (list Z)))) : Prop :=
  match rp with
  | None => True
  | Some f => f = ffq_code w CRecv \/
      exists i n m, f = recv_at n (Z.of_nat i) (take i m ++ replicate n 0) /\ (i + n = w)%nat /\ sent !! r = Some m
  end.
Definition ffq_steps_inv (txq : smlt_ffq_queuepair) (ring : ffq_ring) (rxq : smlt_ffq_queuepair)
    (sp : option (list Z * frag ffq_st (event (list Z)))) (rp : option (frag ffq_st (event (list Z))))
    (q : list (list Z)) : Prop :=
  exists sent r, ffq_inv N (fqp_tx txq) (fqp_rx rxq) ring sent r /\ q = drop r sent /\
    Forall (fun m => length m = w) q /\ sender_at ring sent r sp /\ receiver_at sent r rp.

Lemma start_send : start_send_law (ffq_code w) ffq_steps_inv (ffq_word w).
Proof using Type.
  intros txq ring rxq rp q m (sent & r & I & Hq & Hw & _ & Hr) Hm. exists sent, r.
  split; [done|]. split; [done|]. split; [done|]. split; [|done]. split; [done|by left].
Qed.
Lemma start_recv : start_recv_law (ffq_code w) ffq_steps_inv.
Proof using Type.
  intros txq ring rxq sp q (sent & r & I & Hq & Hw & Hs & _). exists sent, r.
  split; [done|]. split; [done|]. split; [done|]. split; [done|by left].
Qed.

(** Words behind the flag of an empty slot are the sender's. *)
Lemma ffq_inv_scratch tx rx ring sent r d i v :
  ffq_inv N tx rx ring sent r -> (length sent < r + N)%nat ->
  ring !! (length sent mod N)%nat = Some d -> (1 <= i)%nat ->
  ffq_inv N tx rx (<[(length sent mod N)%nat := <[i := v]> d]> ring) sent r.
Proof using HN HN16.
  clear w Hw8. intros I Hroom Hd Hi. pose proof (ring_lt N HN (length sent)) as Hlt. destruct I as [Il It Ir Io Iv If Ie].
  constructor; try done.
  - by rewrite length_insert.
  - intros j m Hj Hr. destruct (If j m Hj Hr) as (d' & E & H). exists d'. pose proof (lookup_lt_Some _ _ _ Hj).
    rewrite list_lookup_insert_ne; [done|]. intros E'. symmetry in E'. revert E'. apply (ring_distinct N HN); lia.
  - intros j Hj. destruct (Ie j Hj) as (d' & E & Hl & H0). destruct (decide (j = length sent)) as [->|Hne].
    + rewrite Hd in E. injection E as <-. exists (<[i := v]> d). rewrite list_lookup_insert_eq by lia.
      split; [done|]. rewrite length_insert. split; [done|]. by rewrite list_lookup_insert_ne by lia.
    + exists d'. rewrite list_lookup_insert_ne; [done|]. apply (ring_distinct N HN); lia.
Qed.

Lemma ffq_write_run q (ring : ffq_ring) p d i v :
  fq_pos q = Z.of_nat p -> ring !! p = Some d -> (i < length d)%nat ->
  ffq_write (Z.of_nat i) v (q, ring) = (Ret tt, (q, <[p := <[i := v]> d]> ring)).
Proof using Type.
  clear HN HN16 Hw8. intros Hp Hd Hi. unfold ffq_write, fq_slot, fq_set_slot, mbind, M_bind. simpl.
  rewrite Hp, arr_get_nat, Hd. simpl. rewrite arr_set_nat by done. simpl. rewrite Hp.
  rewrite arr_set_nat by (by eapply lookup_lt_Some). done.
Qed.
Lemma ffq_read_run q (ring : ffq_ring) p d i v :
  fq_pos q = Z.of_nat p -> ring !! p = Some d -> d !! i = Some v ->
  ffq_read (Z.of_nat i) (q, ring) = (Ret v, (q, ring)).
Proof using Type.
  clear HN HN16 Hw8. intros Hp Hd Hi. unfold ffq_read, fq_slot, mbind, M_bind. simpl.
  rewrite Hp, arr_get_nat, Hd. simpl. by rewrite arr_get_nat, Hi.
Qed.
Lemma u16_words n : (n <= SMLT_FFQ_MSG_WORDS)%nat -> u16 (Z.of_nat n) = Z.of_nat n.
Proof using Type. clear. unfold SMLT_FFQ_MSG_WORDS. intros. apply wrap_small. pow_consts. lia. Qed.
Lemma words_cap n :
  (n <= SMLT_FFQ_MSG_WORDS)%nat ->
  (if Z.of_nat SMLT_FFQ_MSG_WORDS <? Z.of_nat n then Z.of_nat SMLT_FFQ_MSG_WORDS else Z.of_nat n) = Z.of_nat n.
Proof using Type. clear. intros. by destruct (Z.ltb_spec (Z.of_nat SMLT_FFQ_MSG_WORDS) (Z.of_nat n)); [lia|]. Qed.

(** The actions of a send. *)
Lemma send_check tx rx ring sent r m :
  ffq_inv N tx rx ring sent r -> ffq_word w m -> exists a,
  ffq_code w (CSend m) = FAct a /\ forall rx' rxring,
  a (Endp (FQP tx rx') ring rxring) =
    (Ret (if bool_decide (length sent < r + N)%nat then send_at m (length m - 1) 1 else FDone EFull),
     Endp (FQP tx rx') ring rxring).
Proof using HN HN16 Hw8.
  intros I [_ Hm]. eexists. split; [reflexivity|]. intros rx' rxring. cbn [fqp_tx fqp_rx e_qp e_tx e_rx].
  destruct (ffq_can_send_spec N HN HN16 _ _ _ _ _ I) as (_ & _ & _ & E).
  unfold mbind, M_bind. rewrite E. cbn [mret M_ret]. rewrite Hm, u16_words, words_cap by lia.
  case_bool_decide as D; cbn [negb]; [|done]. unfold send_at.
  replace (Z.to_nat (Z.of_nat w - 1)) with (w - 1)%nat by lia. done.
Qed.

Lemma send_word m n i tx (ring : ffq_ring) p d v :
  fq_pos tx = Z.of_nat p -> ring !! p = Some d -> (i < length d)%nat -> m !! i = Some v -> exists a,
  send_at m (S n) (Z.of_nat i) = FAct a /\ forall rx' rxring,
  a (Endp (FQP tx rx') ring rxring) =
    (Ret (send_at m n (Z.of_nat (S i))), Endp (FQP tx rx') (<[p := <[i := v]> d]> ring) rxring).
Proof using Type.
  clear HN HN16 Hw8. intros Hp Hd Hi Hv. eexists. split; [reflexivity|]. intros rx' rxring.
  cbn [fqp_tx fqp_rx e_qp e_tx e_rx]. unfold mbind, M_bind. rewrite arr_get_nat, Hv. cbn [defined mret M_ret].
  rewrite (ffq_write_run _ _ p d) by done. cbn [fst snd].
  replace (Z.of_nat i + 1) with (Z.of_nat (S i)) by lia. done.
Qed.
Lemma send_last m i tx (ring : ffq_ring) p d v :
  fq_pos tx = Z.of_nat p -> ring !! p = Some d -> (0 < length d)%nat -> m !! 0%nat = Some v -> exists a,
  send_at m 0 i = FAct a /\ forall rx' rxring,
  a (Endp (FQP tx rx') ring rxring) =
    (Ret (FDone (ESent m)), Endp (FQP (fq_advance tx) rx') (<[p := <[0%nat := v]> d]> ring) rxring).
Proof using Type.
  clear HN HN16 Hw8. intros Hp Hd Hi Hv. eexists. split; [reflexivity|]. intros rx' rxring.
  cbn [fqp_tx fqp_rx e_qp e_tx e_rx]. unfold fmap, M_fmap, mbind, M_bind. change 0 with (Z.of_nat 0).
  rewrite arr_get_nat, Hv. cbn [defined mret M_ret]. by rewrite (ffq_write_run _ _ p d) by done.
Qed.

(** The actions of a receive. *)
Lemma recv_check tx rx ring sent r :
  ffq_inv N tx rx ring sent r -> exists a,
  ffq_code w CRecv = FAct a /\ forall tx' txring,
  a (Endp (FQP tx' rx) txring ring) =
    (Ret (if sent !! r is Some _ then recv_at w 0 (replicate w 0) else FDone EEmpty), Endp (FQP tx' rx) txring ring).
Proof using HN HN16 Hw8.
  intros I. eexists. split; [reflexivity|]. intros tx' txring. cbn [fqp_tx fqp_rx e_qp e_tx e_rx].
  destruct (fi_rx _ _ _ _ _ _ I) as (_ & Hp & _). pose proof (fi_order _ _ _ _ _ _ I).
  unfold mbind, M_bind. change 0 with (Z.of_nat 0) at 1. destruct (sent !! r) as [m|] eqn:Em.
  - destruct (full_head N HN HN16 ring r m) as (d & v & E & _ & Hv & Hne & _).
    { by apply (fi_full _ _ _ _ _ _ I). }
    { eapply Forall_lookup_1; [apply (fi_valid _ _ _ _ _ _ I)|done]. }
    rewrite (ffq_read_run _ _ _ d 0 v Hp E Hv). rewrite (proj2 (Z.eqb_neq _ _) Hne).
    rewrite u16_words, words_cap, Nat2Z.id by lia. done.
  - apply lookup_ge_None in Em. assert (r = length sent) as -> by lia.
    destruct (fi_empty _ _ _ _ _ _ I (length sent)) as (d & E & _ & Hv); [lia|].
    rewrite (ffq_read_run _ _ _ d 0 _ Hp E Hv). rewrite Z.eqb_refl. done.
Qed.
Lemma recv_word n i buf rx (ring : ffq_ring) p d v :
  fq_pos rx = Z.of_nat p -> ring !! p = Some d -> d !! i = Some v -> (i < length buf)%nat -> exists a,
  recv_at (S n) (Z.of_nat i) buf = FAct a /\ forall tx' txring,
  a (Endp (FQP tx' rx) txring ring) =
    (Ret (recv_at n (Z.of_nat (S i)) (<[i := v]> buf)), Endp (FQP tx' rx) txring ring).
Proof using Type.
  clear HN HN16 Hw8. intros Hp Hd Hv Hi. eexists. split; [reflexivity|]. intros tx' txring.
  cbn [fqp_tx fqp_rx e_qp e_tx e_rx]. unfold mbind, M_bind. rewrite (ffq_read_run _ _ p d i v) by done.
  rewrite arr_set_nat by done. cbn [defined mret M_ret].
  replace (Z.of_nat i + 1) with (Z.of_nat (S i)) by lia. done.
Qed.
Lemma recv_last i buf rx (ring : ffq_ring) p d :
  fq_pos rx = Z.of_nat p -> ring !! p = Some d -> (0 < length d)%nat -> exists a,
  recv_at 0 i buf = FAct a /\ forall tx' txring,
  a (Endp (FQP tx' rx) txring ring) =
    (Ret (FDone (ERecv buf)), Endp (FQP tx' (fq_advance rx)) txring (<[p := <[0%nat := SMLT_FFQ_SLOT_EMPTY]> d]> ring)).
Proof using Type.
  clear HN HN16 Hw8. intros Hp Hd Hi. eexists. split; [reflexivity|]. intros tx' txring.
  cbn [fqp_tx fqp_rx e_qp e_tx e_rx]. unfold fmap, M_fmap, mbind, M_bind. change 0 with (Z.of_nat 0).
  by rewrite (ffq_write_run _ _ p d) by done.
Qed.

Lemma send_at_act m n i : exists a, send_at m n i = FAct a.
Proof using Type. destruct n; by eexists. Qed.
Lemma recv_at_act n i buf : exists a, recv_at n i buf = FAct a.
Proof using Type. destruct n; by eexists. Qed.

(** The last action of a send, and of a receive, takes effect on the queue. *)
Lemma send_effect tx rx ring sent r m d v rp :
  ffq_inv N tx rx ring sent r -> (length sent < r + N)%nat -> ffq_word w m -> m !! 0%nat = Some v ->
  ring !! (length sent mod N)%nat = Some d -> length d = SMLT_FFQ_MSG_WORDS ->
  (forall j, (1 <= j < length m)%nat -> d !! j = m !! j) -> receiver_at sent r rp ->
  ffq_inv N (fq_advance tx) rx (<[(length sent mod N)%nat := <[0%nat := v]> d]> ring) (sent ++ [m]) r /\
  receiver_at (sent ++ [m]) r rp.
Proof using HN HN16 Hw8.
  intros I Hroom [Hm Hmw] Hv Hd Hdl Hwords Hr. split.
  - apply (ffq_inv_send N HN HN16); try done; [by rewrite length_insert|].
    apply list_eq_same_length with (length m); [done|rewrite length_take, length_insert; lia|].
    intros j x y Hj. rewrite lookup_take_lt by done. destruct (decide (j = 0)%nat) as [->|Hj0].
    + rewrite list_lookup_insert_eq by lia. congruence.
    + rewrite list_lookup_insert_ne by lia. rewrite Hwords by lia. congruence.
  - destruct rp as [g|]; [|done]. destruct Hr as [Hr|(k & n & m' & Hg & Hk & Hm')]; [by left|right].
    exists k, n, m'. split; [done|]. split; [done|]. rewrite lookup_app_l; [done|by eapply lookup_lt_Some].
Qed.
Lemma recv_effect tx rx ring sent r m d sp :
  ffq_inv N tx rx ring sent r -> sent !! r = Some m -> ring !! (r mod N)%nat = Some d ->
  length d = SMLT_FFQ_MSG_WORDS -> sender_at ring sent r sp ->
  ffq_inv N tx (fq_advance rx) (<[(r mod N)%nat := <[0%nat := SMLT_FFQ_SLOT_EMPTY]> d]> ring) sent (S r) /\
  sender_at (<[(r mod N)%nat := <[0%nat := SMLT_FFQ_SLOT_EMPTY]> d]> ring) sent (S r) sp.
Proof using HN HN16 Hw8.
  intros I Hm Hd Hdl Hs. pose proof (lookup_lt_Some _ _ _ Hm) as Hlt. split; [by apply (ffq_inv_recv N HN HN16)|].
  destruct sp as [[m' f]|]; [|done]. destruct Hs as [Hm' [->|(i & n & -> & Hi & Hin & Hroom & d' & Hd' & Hwords)]].
  - split; [done|by left].
  - split; [done|right]. exists i, n. split; [done|]. split; [done|]. split; [done|]. split; [lia|]. exists d'.
    rewrite list_lookup_insert_ne; [done|]. apply (ring_distinct N HN); lia.
Qed.

Lemma ffq_step_send : step_send_law ffq_steps_inv N.
Proof using Type*.
  intros [[tx rx'] ring rxring] rxq m f rp q (sent & r & I & -> & Hw & [Hm Hf] & Hr). cbn [e_qp e_tx e_rx fqp_tx] in *.
  pose proof (fi_order _ _ _ _ _ _ I) as Ho. pose proof Hm as [[Hm1 _] Hm2].
  destruct Hf as [->|(i & n & -> & Hi & Hin & Hroom & d & Hd & Hwords)].
  - destruct (send_check tx _ ring sent r m I Hm) as (a & Ea & Ha). eexists a, _, _. split; [done|].
    split; [apply Ha|]. split; [done|]. split; [done|]. case_bool_decide as D.
    + destruct (send_at_act m (length m - 1) 1) as [a' Ea']. rewrite Ea'. rewrite <- Ea'.
      destruct (fi_empty _ _ _ _ _ _ I (length sent)) as (d & Ed & _); [lia|].
      exists sent, r. split; [done|]. split; [done|]. split; [done|]. split; [|done]. split; [done|]. right.
      exists 1%nat, (length m - 1)%nat. split; [done|]. split; [lia|]. split; [lia|]. split; [done|].
      exists d. split; [done|]. intros; lia.
    + split; [done|]. exists (drop r sent). split; [|by exists sent, r].
      apply fifo_full. intros Hq. apply (f_equal length) in Hq. rewrite length_drop in Hq. simpl in Hq. lia.
  - destruct (fi_tx _ _ _ _ _ _ I) as (_ & Hp & _).
    destruct (fi_empty _ _ _ _ _ _ I (length sent)) as (d' & Ed & Hdl & Hd0); [lia|]. rewrite Hd in Ed. injection Ed as <-.
    destruct n as [|n].
    + destruct (lookup_lt_is_Some_2 m 0) as [v Hv]; [lia|].
      destruct (send_last m (Z.of_nat i) tx ring _ d v Hp Hd) as (a & Ea & Ha); [lia|done|].
      eexists a, _, _. split; [done|]. split; [apply Ha|]. split; [done|].
      split; [by intros txq ring' sp q' H|]. split; [done|]. exists (drop r sent ++ [m]).
      split; [apply fifo_sent; rewrite length_drop; lia|].
      destruct (send_effect _ _ _ _ _ _ d v rp I Hroom Hm Hv Hd Hdl) as [I' Hr']; [intros; apply Hwords; lia|done|].
      exists (sent ++ [m]), r. split; [done|]. split; [by rewrite drop_app_le by lia|].
      split; [apply Forall_app; by split; [|constructor]|done].
    + destruct (lookup_lt_is_Some_2 m i) as [v Hv]; [lia|].
      destruct (send_word m n i tx ring _ d v Hp Hd) as (a & Ea & Ha); [lia|done|].
      eexists a, _, _. split; [done|]. split; [apply Ha|]. split; [done|]. split; [done|].
      destruct (send_at_act m n (Z.of_nat (S i))) as [a' Ea']. rewrite Ea'. rewrite <- Ea'.
      exists sent, r. split; [by apply ffq_inv_scratch|]. split; [done|]. split; [done|].
      split; [|done]. split; [done|]. right. exists (S i), n. split; [done|]. split; [lia|]. split; [lia|]. split; [done|].
      exists (<[i := v]> d). cbn [e_tx]. rewrite list_lookup_insert_eq by (by eapply lookup_lt_Some). split; [done|].
      intros j Hj. destruct (decide (j = i)) as [->|Hne]; [rewrite list_lookup_insert_eq by lia; done|].
      rewrite list_lookup_insert_ne by lia. apply Hwords. lia.
Qed.

Lemma ffq_step_recv : step_recv_law ffq_steps_inv N.
Proof using Type*.
  intros [[tx' rx] txring ring] txq f sp q (sent & r & I & -> & Hw & Hs & Hf). cbn [e_qp e_tx e_rx fqp_rx] in *.
  pose proof (fi_order _ _ _ _ _ _ I) as Ho. destruct (fi_rx _ _ _ _ _ _ I) as (_ & Hp & _).
  destruct Hf as [->|(i & n & m & -> & Hin & Hm)].
  - destruct (recv_check _ rx ring sent r I) as (a & Ea & Ha). eexists a, _, _. split; [done|].
    split; [apply Ha|]. split; [done|]. split; [done|]. destruct (sent !! r) as [m|] eqn:Em.
    + destruct (recv_at_act w 0 (replicate w 0)) as [a' Ea']. rewrite Ea'. rewrite <- Ea'.
      exists sent, r. split; [done|]. split; [done|]. split; [done|]. split; [done|]. right.
      exists 0%nat, w, m. done.
    + apply lookup_ge_None in Em. split; [by intros []|]. exists []. rewrite drop_ge by done.
      split; [apply fifo_empty|]. exists sent, r. split; [done|]. by rewrite drop_ge.
  - destruct (fi_full _ _ _ _ _ _ I r m Hm ltac:(lia)) as (d & Hd & Hdl & Ht).
    rewrite (drop_lookup_cons _ _ _ Hm) in Hw |- *. apply Forall_cons in Hw as [Hmw Hw].
    destruct n as [|n].
    + replace (take i m ++ replicate 0 0) with m by (rewrite app_nil_r, take_ge; [done|lia]).
      destruct (recv_last (Z.of_nat i) m rx ring _ d Hp Hd) as (a & Ea & Ha); [unfold SMLT_FFQ_MSG_WORDS in *; lia|].
      eexists a, _, _. split; [done|]. split; [apply Ha|]. split; [done|].
      split; [by intros ring' rxq rp q' H|]. split; [by intros []|]. exists (drop (S r) sent).
      split; [apply fifo_recv|]. destruct (recv_effect _ _ _ _ _ _ d sp I Hm Hd Hdl Hs) as [I' Hs'].
      by exists sent, (S r).
    + destruct (lookup_lt_is_Some_2 m i) as [v Hv]; [lia|].
      assert (Hdv : d !! i = Some v) by (rewrite <- Ht, lookup_take_lt in Hv; [done|lia]).
      destruct (recv_word n i (take i m ++ replicate (S n) 0) rx ring _ d v Hp Hd Hdv) as (a & Ea & Ha);
        [rewrite length_app, length_take, length_replicate; lia|].
      eexists a, _, _. split; [done|]. split; [apply Ha|]. split; [done|]. split; [done|].
      destruct (recv_at_act n (Z.of_nat (S i)) (<[i := v]> (take i m ++ replicate (S n) 0))) as [a' Ea'].
      rewrite Ea'. rewrite <- Ea'. exists sent, r. split; [done|]. split; [by rewrite (drop_lookup_cons _ _ _ Hm)|].
      split; [by constructor|]. split; [done|]. right. exists (S i), n, m. split; [|split; [lia|done]].
      f_equal. rewrite insert_app_r_alt by (rewrite length_take; lia). rewrite length_take, Nat.min_l by lia.
      rewrite Nat.sub_diag. simpl. rewrite (take_S_r _ _ v) by done. by rewrite <- app_assoc.
Qed.
(** *** Without interruption the steps are the operations of [Ffq] *)
Lemma send_at_run m n : forall i tx rx' (ring rxring : ffq_ring) p d v,
  fq_pos tx = Z.of_nat p -> ring !! p = Some d -> m !! 0%nat = Some v -> (1 <= i)%nat ->
  (i + n = length m)%nat -> (length m <= length d)%nat -> (forall j, (1 <= j < i)%nat -> d !! j = m !! j) ->
  frag_run (send_at m n (Z.of_nat i)) (Endp (FQP tx rx') ring rxring) =
    (Ret (ESent m), Endp (FQP (fq_advance tx) rx') (<[p := m ++ drop (length m) d]> ring) rxring).
Proof using Type.
  clear. induction n as [|n IH]; intros i tx rx' ring rxring p d v Hp Hd Hv Hi Hin Hl Hw.
  - destruct (send_last m (Z.of_nat i) tx ring p d v Hp Hd) as (a & -> & Ha); [lia|done|]. cbn [frag_run].
    rewrite Ha. cbn [frag_run mret M_ret]. do 3 f_equal. f_equal. apply list_eq. intros j.
    destruct (decide (j < length m)%nat) as [D|D].
    + rewrite lookup_app_l by done. destruct (decide (j = 0)%nat) as [->|].
      * by rewrite list_lookup_insert_eq by lia.
      * rewrite list_lookup_insert_ne by lia. apply Hw. lia.
    + rewrite lookup_app_r by lia. rewrite lookup_drop, list_lookup_insert_ne by lia. f_equal. lia.
  - destruct (lookup_lt_is_Some_2 m i) as [x Hx]; [lia|].
    destruct (send_word m n i tx ring p d x Hp Hd) as (a & -> & Ha); [lia|done|]. cbn [frag_run]. rewrite Ha.
    rewrite (IH (S i) tx rx' _ rxring p (<[i := x]> d) v Hp); try done; try lia.
    + by rewrite list_insert_insert_eq, drop_insert_lt by lia.
    + apply list_lookup_insert_eq. by eapply lookup_lt_Some.
    + by rewrite length_insert.
    + intros j Hj. destruct (decide (j = i)) as [->|]; [rewrite list_lookup_insert_eq by lia; done|].
      rewrite list_lookup_insert_ne by lia. apply Hw. lia.
Qed.
Lemma ffq_send_whole tx rx rx' ring rxring sent r m :
  ffq_inv N tx rx ring sent r -> ffq_word w m ->
  frag_run (ffq_code w (CSend m)) (Endp (FQP tx rx') ring rxring) =
    ((fun b : bool => if b then ESent m else EFull) <$> ffq_send m) (Endp (FQP tx rx') ring rxring).
Proof using HN HN16 Hw8.
  intros I Hm. pose proof Hm as [[Hm1 _] Hm2]. pose proof (fi_order _ _ _ _ _ _ I) as Ho.
  destruct (send_check tx rx ring sent r m I Hm) as (a & -> & Ha). cbn [frag_run]. rewrite Ha.
  unfold ffq_send, smlt_ffq_queuepair_send, smlt_ffq_queuepair_send_raw, on_ftx, zoom, fmap, M_fmap. simpl.
  rewrite u16_words by lia. case_bool_decide as D.
  - destruct (fi_tx _ _ _ _ _ _ I) as (_ & Hp & Hdir).
    destruct (fi_empty _ _ _ _ _ _ I (length sent)) as (d & Ed & Hdl & Hd0); [lia|].
    destruct (lookup_lt_is_Some_2 m 0) as [v Hv]; [lia|].
    rewrite (send_raw_run tx ring _ d m Hp Hdir Ed Hdl Hd0) by lia. change 1 with (Z.of_nat 1).
    rewrite (send_at_run m (length m - 1) 1 tx rx' ring rxring _ d v Hp Ed Hv); [done|lia|lia|lia|intros; lia].
  - destruct (ffq_can_send_spec N HN HN16 _ _ _ _ _ I) as (_ & _ & _ & E).
    unfold smlt_ffq_queue_send_raw, mbind, M_bind. rewrite E, bool_decide_false by done. done.
Qed.
Lemma recv_at_run n : forall i buf tx' rx (ring txring : ffq_ring) p d,
  fq_pos rx = Z.of_nat p -> ring !! p = Some d -> (0 < length d)%nat -> (i + n <= length d)%nat ->
  (i + n = length buf)%nat -> take i buf = take i d ->
  frag_run (recv_at n (Z.of_nat i) buf) (Endp (FQP tx' rx) txring ring) =
    (Ret (ERecv (take (length buf) d)), Endp (FQP tx' (fq_advance rx)) txring (<[p := <[0%nat := SMLT_FFQ_SLOT_EMPTY]> d]> ring)).
Proof using Type.
  clear. induction n as [|n IH]; intros i buf tx' rx ring txring p d Hp Hd H0 Hl Hb Ht.
  - destruct (recv_last (Z.of_nat i) buf rx ring p d Hp Hd) as (a & -> & Ha); [done|]. cbn [frag_run].
    rewrite Ha. cbn [frag_run mret M_ret]. do 3 f_equal. rewrite <- Hb, Nat.add_0_r, <- Ht. rewrite take_ge; [done|lia].
  - destruct (lookup_lt_is_Some_2 d i) as [x Hx]; [lia|].
    destruct (recv_word n i buf rx ring p d x Hp Hd Hx) as (a & -> & Ha); [lia|]. cbn [frag_run]. rewrite Ha.
    rewrite (IH (S i) _ tx' rx ring txring p d); try done; rewrite ?length_insert; try lia; [done|].
    rewrite (take_S_r d i x) by done. rewrite (take_S_r _ _ x) by (apply list_lookup_insert_eq; lia).
    rewrite take_insert_ge by lia. by rewrite Ht.
Qed.
Lemma recv_raw_run rx (ring : ffq_ring) p d v :
  fq_pos rx = Z.of_nat p -> ring !! p = Some d -> length d = SMLT_FFQ_MSG_WORDS -> d !! 0%nat = Some v ->
  smlt_ffq_queue_recv_raw (Some (replicate w 0)) (Z.of_nat w) (rx, ring) =
    if v =? SMLT_FFQ_SLOT_EMPTY then (Ret (err_value SMLT_ERR_QUEUE_EMPTY, Some (replicate w 0)), (rx, ring))
    else (Ret (err_value SMLT_SUCCESS, Some (take w d)), (fq_advance rx, <[p := <[0%nat := SMLT_FFQ_SLOT_EMPTY]> d]> ring)).
Proof using Hw8.
  clear HN HN16. intros Hp Hd Hdl Hv. unfold smlt_ffq_queue_recv_raw, fq_slot, mbind, M_bind. cbn [fst snd].
  rewrite Hp, arr_get_nat, Hd. cbn [defined mret M_ret]. change 0 with (Z.of_nat 0) at 1. rewrite arr_get_nat, Hv.
  cbn [defined mret M_ret]. destruct (v =? SMLT_FFQ_SLOT_EMPTY); [done|]. rewrite words_cap, Nat2Z.id by lia.
  unfold SMLT_FFQ_MSG_WORDS in *. rewrite copy_words_spec by (rewrite ?length_replicate; lia).
  cbn [defined mret M_ret fmap M_fmap]. pose proof (arr_set_nat d 0 SMLT_FFQ_SLOT_EMPTY ltac:(lia)) as Hset.
  change (Z.of_nat 0) with 0 in Hset. rewrite Hset.
  unfold fq_set_slot. simpl. rewrite Hp, arr_set_nat by (by eapply lookup_lt_Some).
  rewrite drop_ge by (rewrite length_replicate; lia). rewrite app_nil_r. done.
Qed.
Lemma ffq_recv_whole tx rx tx' ring txring sent r :
  ffq_inv N tx rx ring sent r ->
  frag_run (ffq_code w CRecv) (Endp (FQP tx' rx) txring ring) =
    ((fun o : option (list Z) => match o with Some m => ERecv m | None => EEmpty end) <$> ffq_recv w) (Endp (FQP tx' rx) txring ring).
Proof using HN HN16 Hw8.
  intros I. destruct (recv_check tx rx ring sent r I) as (a & -> & Ha). cbn [frag_run]. rewrite Ha.
  destruct (fi_rx _ _ _ _ _ _ I) as (_ & Hp & _). pose proof (fi_order _ _ _ _ _ _ I).
  unfold ffq_recv, smlt_ffq_queuepair_recv, smlt_ffq_queuepair_recv_raw, on_frx, zoom, fmap, M_fmap, mbind, M_bind. simpl.
  rewrite u16_words by lia. destruct (sent !! r) as [m|] eqn:Em.
  - destruct (full_head N HN HN16 ring r m) as (d & v & E & Hdl & Hv & Hne & _).
    { by apply (fi_full _ _ _ _ _ _ I). }
    { eapply Forall_lookup_1; [apply (fi_valid _ _ _ _ _ _ I)|done]. }
    rewrite (recv_raw_run rx ring _ d v Hp E Hdl Hv), (proj2 (Z.eqb_neq _ _) Hne). change 0 with (Z.of_nat 0) at 1.
    rewrite (recv_at_run w 0 _ tx' rx ring txring _ d Hp E); rewrite ?length_replicate; try lia; done.
  - apply lookup_ge_None in Em. assert (r = length sent) as -> by lia.
    destruct (fi_empty _ _ _ _ _ _ I (length sent)) as (d & E & Hdl & Hv); [lia|].
    rewrite (recv_raw_run rx ring _ d _ Hp E Hdl Hv), Z.eqb_refl. done.
Qed.
End direction.

(** ** No call ever waits *)
Lemma send_words_ends {A} val_ptr n : forall i k (f : frag fq_state A), frag_ends False k f -> frag_ends False (n + k) (send_words val_ptr n i f).
Proof.
  induction n as [|n IH]; intros i k f Hf; [done|]. intros [q ring]. unfold mbind, M_bind.
  destruct (arr_get val_ptr i) as [v|]; [|done]. cbn [defined mret M_ret]. unfold ffq_write, fq_slot, fq_set_slot, mbind, M_bind. simpl.
  destruct (arr_get ring (fq_pos q)) as [slot|]; [|done]. simpl. destruct (arr_set slot i v) as [d|]; [|done]. simpl.
  destruct (arr_set ring (fq_pos q) d); [|done]. simpl. by apply IH.
Qed.
Lemma recv_words_ends {A} n : forall i buf k (f : list Z -> frag fq_state A),
  (forall b, frag_ends False k (f b)) -> frag_ends False (n + k) (recv_words n i buf f).
Proof.
  induction n as [|n IH]; intros i buf k f Hf; [apply Hf|]. intros [q ring]. unfold ffq_read, fq_slot, mbind, M_bind. simpl.
  destruct (arr_get ring (fq_pos q)) as [slot|]; [|done]. simpl. destruct (arr_get slot i) as [v|]; [|done]. simpl.
  destruct (arr_set buf i v); [|done]. simpl. by apply IH.
Qed.
Lemma send_flag_ends val_ptr : frag_ends False 1 (send_flag val_ptr).
Proof.
  intros [q ring]. unfold fmap, M_fmap, mbind, M_bind. destruct (arr_get val_ptr 0) as [v|]; [|done]. cbn [defined mret M_ret].
  unfold ffq_write, fq_slot, fq_set_slot, mbind, M_bind. simpl.
  destruct (arr_get ring (fq_pos q)) as [slot|]; [|done]. simpl. destruct (arr_set slot 0 v) as [d|]; [|done]. simpl.
  by destruct (arr_set ring (fq_pos q) d).
Qed.
Lemma recv_flag_ends out : frag_ends False 1 (recv_flag out).
Proof.
  intros [q ring]. unfold fmap, M_fmap, ffq_write, fq_slot, fq_set_slot, mbind, M_bind. simpl.
  destruct (arr_get ring (fq_pos q)) as [slot|]; [|done]. simpl. destruct (arr_set slot 0 _) as [d|]; [|done]. simpl.
  by destruct (arr_set ring (fq_pos q) d).
Qed.
Lemma words_at_most (num0 : Z) :
  (Z.to_nat (if Z.of_nat SMLT_FFQ_MSG_WORDS <? num0 then Z.of_nat SMLT_FFQ_MSG_WORDS else num0)%Z <= 8)%nat.
Proof. unfold SMLT_FFQ_MSG_WORDS. destruct (Z.ltb_spec (Z.of_nat 8) num0); simpl; lia. Qed.
Lemma can_send_returns s : match smlt_ffq_queue_can_send s with (Spin, _) => False | _ => True end.
Proof.
  destruct s as [q ring]. unfold smlt_ffq_queue_can_send, fq_slot, gets, mbind, M_bind. simpl.
  destruct (negb _); [done|]. simpl. destruct (arr_get ring (fq_pos q)) as [slot|]; [|done]. simpl.
  by destruct (arr_get slot 0).
Qed.
Lemma send_raw_ends val_ptr num0 : frag_ends False 10 (smlt_ffq_queue_send_raw_steps val_ptr num0).
Proof.
  intros s. unfold mbind, M_bind. pose proof (can_send_returns s) as H.
  destruct (smlt_ffq_queue_can_send s) as [[b| | |] s']; try done. cbn [mret M_ret]. destruct b; [|done]. cbn [negb].
  eapply frag_ends_le; [apply send_words_ends, send_flag_ends|]. pose proof (words_at_most num0). lia.
Qed.
Lemma recv_raw_ends val_ptr num0 : frag_ends False 10 (smlt_ffq_queue_recv_raw_steps val_ptr num0).
Proof.
  intros [q ring]. unfold ffq_read, fq_slot, mbind, M_bind. simpl.
  destruct (arr_get ring (fq_pos q)) as [slot|]; [|done]. simpl. destruct (arr_get slot 0) as [v|]; [|done]. simpl.
  destruct (v =? SMLT_FFQ_SLOT_EMPTY); [done|]. destruct val_ptr as [buf|]; [|by apply (frag_ends_le _ _ 1); [apply recv_flag_ends|lia]].
  eapply frag_ends_le; [apply recv_words_ends; intros b; apply recv_flag_ends|]. pose proof (words_at_most num0). lia.
Qed.
Lemma ffq_code_ends w c : frag_ends False 10 (ffq_code w c).
Proof.
  destruct c as [m|]; (eapply frag_ends_le; [apply (frag_ends_bind _ 10 _ 0); [apply frag_ends_zoom|]|done]).
  - apply send_raw_ends.
  - done.
  - apply recv_raw_ends.
  - done.
Qed.

(** ** Properties *)

Lemma ffq_runs N s0 d0 a b an live rs w (todo : side -> list (cmd (list Z))) sched :
  (0 < N)%nat -> Z.of_nat N <= 65535 -> a <> b -> (1 <= w <= SMLT_FFQ_MSG_WORDS)%nat ->
  (forall d, Forall (valid_cmd (valid := ffq_word w)) (todo d)) ->
  exists sd rs' s',
    smlt_ffq_queuepair_init (Z.of_nat N) s0 d0 (FIS (AllocSt (Some a :: Some b :: an) live) rs) =
      (Ret (err_value SMLT_SUCCESS, sd), FIS (AllocSt an (b :: a :: live)) rs') /\
    steps_run (ffq_code w) (steps_start (mk_ffq_pair sd rs') todo) sched = Some s' /\
    forall d, exists q, fifo_run N [] (dir_trace d (ss_trace s')) q /\
      sent_of (dir_trace d (ss_trace s')) = recv_of (dir_trace d (ss_trace s')) ++ q /\ (length q <= N)%nat.
Proof.
  intros HN H16 Hab Hw Htodo. destruct (ffq_init_ok w N s0 d0 a b an live rs HN Hab) as (sd & rs' & E & I).
  destruct (steps_refine (ffq_code w) (ffq_steps_inv N w) N (ffq_word w) (ffq_step_send N HN H16 w Hw)
    (ffq_step_recv N HN H16 w Hw) (start_send N w) (start_recv N w) sched
    (steps_start (mk_ffq_pair sd rs') todo) (fun _ => [])) as (s' & Qs & new & E' & _ & T & R).
  { split; [|done]. intros d. destruct (I d) as [(sent & r & Hi & Hq & Hl) _]. by exists sent, r. }
  exists sd, rs', s'. split; [done|]. split; [done|]. intros d. exists (Qs d). simpl in T. rewrite T.
  specialize (R d). split; [done|]. split; [by rewrite <- (fifo_run_order _ _ _ _ R)|].
  apply (fifo_run_cap _ _ _ _ R). simpl. lia.
Qed.

(** [C3] Words of a message are never torn or reordered: from creation on, with one thread at
    each end that sends and receives messages of [w] words in any order, none beginning with
    the empty marker 2^64 - 1, under every
    interleaving of the threads' single accesses to the rings no access is out of
    bounds, and each direction is a FIFO of capacity [N] whose calls take effect one at
    a time, the results of the threads' calls being its outputs. *)
Theorem ffq_interleaved N s0 d0 a b an live rs w (todo : side -> list (cmd (list Z))) sched :
  (0 < N)%nat -> Z.of_nat N <= 65535 -> a <> b -> (1 <= w <= SMLT_FFQ_MSG_WORDS)%nat ->
  (forall d, Forall (valid_cmd (valid := ffq_word w)) (todo d)) ->
  exists sd rs' s',
    smlt_ffq_queuepair_init (Z.of_nat N) s0 d0 (FIS (AllocSt (Some a :: Some b :: an) live) rs) =
      (Ret (err_value SMLT_SUCCESS, sd), FIS (AllocSt an (b :: a :: live)) rs') /\
    steps_run (ffq_code w) (steps_start (mk_ffq_pair sd rs') todo) sched = Some s' /\
    forall d, exists q, fifo_run N [] (dir_trace d (ss_trace s')) q /\
      sent_of (dir_trace d (ss_trace s')) = recv_of (dir_trace d (ss_trace s')) ++ q /\ (length q <= N)%nat.
Proof. apply ffq_runs. Qed.
Lemma ffq_interleaved_witness :
  exists sd rs' s', smlt_ffq_queuepair_init 2 (FQP (FQ 0 0 0 SMLT_FFQ_DIRECTION_SEND) (FQ 0 0 0 SMLT_FFQ_DIRECTION_SEND))
      (FQP (FQ 0 0 0 SMLT_FFQ_DIRECTION_SEND) (FQ 0 0 0 SMLT_FFQ_DIRECTION_SEND))
      (FIS (AllocSt [Some 64; Some 256] []) ∅) = (Ret (err_value SMLT_SUCCESS, sd), FIS (AllocSt [] [256; 64]) rs') /\
    steps_run (ffq_code 2) (steps_start (mk_ffq_pair sd rs') (fun d => if decide (d = Src) then [CSend [1; 2]] else [CRecv]))
      [Src; Src; Src; Dst; Dst; Src; Dst; Dst; Dst; Dst] = Some s' /\
    forall d, exists q, fifo_run 2 [] (dir_trace d (ss_trace s')) q /\
      sent_of (dir_trace d (ss_trace s')) = recv_of (dir_trace d (ss_trace s')) ++ q /\ (length q <= 2)%nat.
Proof.
  apply (ffq_interleaved 2 _ _ 64 256 [] [] ∅ 2); try lia; try done.
  - unfold SMLT_FFQ_MSG_WORDS. lia.
  - intros d. destruct d; simpl; repeat constructor; unfold SMLT_FFQ_MSG_WORDS; simpl; try lia;
      with_strategy transparent [SMLT_FFQ_SLOT_EMPTY] (intros ?; simplify_eq/=).
Defined.

(** [C7] The FastForward calls are wait-free: whatever the other thread does, a thread has
    finished all its calls once it has run 12 times per call (each call is started, checks
    the slot and copies at most eight words, none of which it repeats), and every call has
    then returned an event. *)
Theorem ffq_wait_free N s0 d0 a b an live rs w (todo : side -> list (cmd (list Z))) sched d :
  (0 < N)%nat -> Z.of_nat N <= 65535 -> a <> b -> (1 <= w <= SMLT_FFQ_MSG_WORDS)%nat ->
  (forall e, Forall (valid_cmd (valid := ffq_word w)) (todo e)) ->
  (12 * length (todo d) <= length (filter (eq d) sched))%nat ->
  exists sd rs' s',
    smlt_ffq_queuepair_init (Z.of_nat N) s0 d0 (FIS (AllocSt (Some a :: Some b :: an) live) rs) =
      (Ret (err_value SMLT_SUCCESS, sd), FIS (AllocSt an (b :: a :: live)) rs') /\
    steps_run (ffq_code w) (steps_start (mk_ffq_pair sd rs') todo) sched = Some s' /\
    ss_cur s' d = None /\ ss_todo s' d = [] /\ length (filter (fun x => x.1 = d) (ss_trace s')) = length (todo d).
Proof.
  intros HN H16 Hab Hw Htodo Hn. destruct (ffq_runs N s0 d0 a b an live rs w todo sched HN H16 Hab Hw Htodo) as (sd & rs' & s' & E & E' & _).
  exists sd, rs', s'. split; [done|]. split; [done|]. by apply (wait_free (ffq_code w) 10 False (ffq_code_ends w) d _ _ _ _ id E').
Qed.
Lemma ffq_wait_free_witness :
  exists sd rs' s', smlt_ffq_queuepair_init 2 (FQP (FQ 0 0 0 SMLT_FFQ_DIRECTION_SEND) (FQ 0 0 0 SMLT_FFQ_DIRECTION_SEND))
      (FQP (FQ 0 0 0 SMLT_FFQ_DIRECTION_SEND) (FQ 0 0 0 SMLT_FFQ_DIRECTION_SEND))
      (FIS (AllocSt [Some 64; Some 256] []) ∅) = (Ret (err_value SMLT_SUCCESS, sd), FIS (AllocSt [] [256; 64]) rs') /\
    steps_run (ffq_code 2) (steps_start (mk_ffq_pair sd rs') (fun _ => [CRecv])) (concat (replicate 12 [Src; Dst; Dst])) = Some s' /\
    ss_cur s' Src = None /\ ss_todo s' Src = [] /\ length (filter (fun x => x.1 = Src) (ss_trace s')) = 1%nat.
Proof.
  apply (ffq_wait_free 2 _ _ 64 256 [] [] ∅ 2 (fun _ => [CRecv])); try lia; try done.
  - unfold SMLT_FFQ_MSG_WORDS. lia.
  - intros _. by repeat constructor.
Defined.
