(* ===== verification/SeqRing.v ===== *)
(** The reasoning the two sequence-numbered shared-memory queues have in common
    ([src/backends/shm/shm_qp.c], [src/backends/shm/swmr_queue.c]): message number
    [j] lies in slot [j mod N] under the 64-bit sequence number [j + 1]; unused
    slots carry 0.  The memory is seen through two functions, since the word that
    holds the sequence number need not be next to the payload. *)
From S2P Require Import Prelude.

Definition SEQ_PAYLOAD_WORDS : nat := 7.

Section seqring.
Context (N : nat) (HN : (0 < N)%nat) (HN64 : Z.of_nat N < 2 ^ 63).

(** [hd p]: the sequence number in slot [p]; [pl p]: its payload words. *)
Record seq_ring (hd : nat -> option Z) (pl : nat -> option (list Z)) (sent : list (list Z))
  : Prop := {
  sr_payload p : (p < N)%nat -> exists d, pl p = Some d /\ length d = SEQ_PAYLOAD_WORDS;
  sr_header p : (p < N)%nat -> is_Some (hd p);
  sr_slots j m : sent !! j = Some m -> (length sent <= j + N)%nat ->
    hd (j mod N)%nat = Some (u64 (Z.of_nat (S j))) /\
    exists d, pl (j mod N)%nat = Some d /\ take (length m) d = m;
  sr_fresh p : (length sent <= p < N)%nat -> hd p = Some 0;
}.

(** The reader waiting for number [r] sees it exactly when it was sent. *)
Lemma seq_pending hd pl sent r :
  seq_ring hd pl sent -> (r <= length sent)%nat -> (length sent <= r + N)%nat ->
  exists v, hd (r mod N)%nat = Some v /\
    (u64 (Z.of_nat (S r)) =? v) = bool_decide (r < length sent)%nat.
Proof using Type*.
  intros [Ip Ih Is If] H1 H2. case_bool_decide as D.
  - destruct (lookup_lt_is_Some_2 sent r D) as [m Hm].
    destruct (Is r m Hm H2) as [E _]. eexists. split; [exact E|]. apply Z.eqb_refl.
  - assert (r = length sent) as -> by lia. destruct (decide (N <= length sent)%nat) as [Hn|Hn].
    + destruct (lookup_lt_is_Some_2 sent (length sent - N)) as [m Hm]; [lia|].
      destruct (Is _ m Hm) as [E _]; [lia|].
      destruct (ring_add_period N HN (length sent - N)) as [Ep _].
      replace (length sent - N + N)%nat with (length sent) in Ep by lia.
      rewrite <- Ep in E. eexists. split; [exact E|].
      apply Z.eqb_neq. intros Ee. apply wrap_inj in Ee; lia.
    + rewrite Nat.mod_small by lia. exists 0. split; [apply If; lia|].
      apply Z.eqb_neq. rewrite wrap_small; lia.
Qed.

(** Writing message number [length sent]. *)
Lemma seq_write hd pl hd' pl' sent m :
  let p := (length sent mod N)%nat in
  seq_ring hd pl sent ->
  (forall i, i <> p -> hd' i = hd i /\ pl' i = pl i) ->
  hd' p = Some (u64 (Z.of_nat (S (length sent)))) ->
  (exists d, pl' p = Some d /\ length d = SEQ_PAYLOAD_WORDS /\ take (length m) d = m) ->
  seq_ring hd' pl' (sent ++ [m]).
Proof using Type*.
  intros p [Ip Ih Is If] Hne Hp (d & Hd & Hl & Ht).
  pose proof (ring_lt N HN (length sent)).
  constructor; rewrite ?length_app; simpl; rewrite ?Nat.add_1_r.
  - intros i Hi. destruct (decide (i = p)) as [->|Hip]; [by exists d|].
    destruct (Hne i Hip) as [_ ->]. auto.
  - intros i Hi. destruct (decide (i = p)) as [->|Hip]; [by rewrite Hp|].
    destruct (Hne i Hip) as [-> _]. auto.
  - intros j m' Hj Hs. destruct (decide (j = length sent)) as [->|Hj'].
    + rewrite lookup_snoc_eq in Hj. simplify_eq. split; [done|]. eauto.
    + pose proof (lookup_lt_Some _ _ _ Hj) as Hl'. rewrite length_app in Hl'. simpl in Hl'.
      rewrite lookup_snoc_lt in Hj by lia.
      assert (Hjp : (j mod N)%nat <> p).
      { intros E. apply Hj'. apply (ring_inj N HN j (length sent) (S (length sent))); done || lia. }
      destruct (Hne _ Hjp) as [-> ->]. apply Is; [done|lia].
  - intros i Hi. destruct (Hne i) as [-> _].
    + unfold p. rewrite Nat.mod_small; lia.
    + apply If. lia.
Qed.

(** Reading message number [r]. *)
Lemma seq_read hd pl sent r m :
  seq_ring hd pl sent -> sent !! r = Some m -> (length sent <= r + N)%nat ->
  exists d, pl (r mod N)%nat = Some d /\ length d = SEQ_PAYLOAD_WORDS /\ take (length m) d = m.
Proof using Type*.
  intros I Hm Hr. destruct (sr_slots _ _ _ I r m Hm Hr) as [_ (d & E & Ht)].
  destruct (sr_payload _ _ _ I (r mod N)%nat (ring_lt N HN r)) as (d' & E' & Hl).
  rewrite E in E'. simplify_eq. eauto.
Qed.
End seqring.

(** The 16-bit local position of the two queues: a writer leaves it at [N] after
    the last slot and resets it before the next write. *)
Definition seq_lpos (N : nat) (l : Z) (s : nat) : Prop :=
  l = Z.of_nat (s mod N) \/ ((0 < s)%nat /\ (s mod N = 0)%nat /\ l = Z.of_nat N).

(** [if (l_pos == num_slots) l_pos = 0;] *)
Definition lpos_reset (l num_slots : Z) : Z := if l =? num_slots then 0 else l.

Lemma lpos_reset_spec N l s :
  (0 < N)%nat -> seq_lpos N l s -> lpos_reset l (Z.of_nat N) = Z.of_nat (s mod N).
Proof.
  intros HN H. unfold lpos_reset. pose proof (ring_lt N HN s).
  destruct H as [->|(_ & E & ->)].
  - destruct (Z.eqb_spec (Z.of_nat (s mod N)) (Z.of_nat N)); lia.
  - rewrite Z.eqb_refl, E. done.
Qed.

Lemma lpos_next N s :
  (0 < N)%nat -> Z.of_nat N <= 65535 -> seq_lpos N (u16 (Z.of_nat (s mod N) + 1)) (S s).
Proof.
  intros HN H16. unfold seq_lpos. destruct (ring_next N HN s) as [E _].
  pose proof (ring_lt N HN s). rewrite wrap_small by (pow_consts; lia). rewrite E.
  case_decide; [right|left]; lia.
Qed.

(** [l_pos + 1], then the reset: the reader's order. *)
Lemma lpos_next_reset N s :
  (0 < N)%nat -> Z.of_nat N <= 65535 ->
  lpos_reset (u16 (Z.of_nat (s mod N) + 1)) (Z.of_nat N) = Z.of_nat (S s mod N).
Proof. intros HN H16. by apply lpos_reset_spec, lpos_next. Qed.

(** ** Words of cache lines

    [((uintptr_t* ) data + i * 8)[k]], undefined outside the block. *)
Definition line_load (ls : list (list Z)) (i k : Z) : option Z :=
  l ← arr_get ls i; arr_get l k.
Definition line_store (ls : list (list Z)) (i k v : Z) : option (list (list Z)) :=
  l ← arr_get ls i; l' ← arr_set l k v; arr_set ls i l'.
(** [start[k] = v1; start[k + 1] = v2; ...] *)
Fixpoint line_stores (ls : list (list Z)) (i k : Z) (vs : list Z) : option (list (list Z)) :=
  match vs with
  | [] => Some ls
  | v :: vs' => ls' ← line_store ls i k v; line_stores ls' i (k + 1) vs'
  end.
(** [p1 = start[k]; p2 = start[k + 1]; ...] *)
Fixpoint line_loads (ls : list (list Z)) (i k : Z) (n : nat) : option (list Z) :=
  match n with
  | O => Some []
  | S n' => v ← line_load ls i k; vs ← line_loads ls i (k + 1) n'; Some (v :: vs)
  end.

Lemma line_load_run ls i k l v :
  ls !! i = Some l -> l !! k = Some v -> line_load ls (Z.of_nat i) (Z.of_nat k) = Some v.
Proof. intros Hl Hv. unfold line_load. rewrite arr_get_nat, Hl. simpl. by rewrite arr_get_nat. Qed.

Lemma line_store_run ls i k v l :
  ls !! i = Some l -> (k < length l)%nat ->
  line_store ls (Z.of_nat i) (Z.of_nat k) v = Some (<[i := <[k := v]> l]> ls).
Proof.
  intros Hl Hk. unfold line_store. rewrite arr_get_nat, Hl. simpl.
  rewrite arr_set_nat by done. simpl. by rewrite arr_set_nat by (by eapply lookup_lt_Some).
Qed.

Lemma line_store_nil i k v : line_store [] i k v = None.
Proof. unfold line_store, arr_get. by case_decide. Qed.

Lemma line_stores_run ls i h d vs :
  ls !! i = Some (h :: d) -> length vs = length d ->
  line_stores ls (Z.of_nat i) 1 vs = Some (<[i := h :: vs]> ls).
Proof.
  assert (G : forall vs2 vs1 rest ls, length vs2 = length rest ->
    ls !! i = Some (h :: vs1 ++ rest) ->
    line_stores ls (Z.of_nat i) (Z.of_nat (S (length vs1))) vs2 =
      Some (<[i := h :: vs1 ++ vs2]> ls)).
  { induction vs2 as [|v vs2 IH]; intros vs1 rest ls' Hlen Hs.
    - destruct rest; [|done]. simpl. by rewrite list_insert_id.
    - destruct rest as [|x rest]; [done|]. cbn [line_stores].
      rewrite (line_store_run ls' i (S (length vs1)) v _ Hs)
        by (simpl; rewrite length_app; simpl; lia).
      replace (Z.of_nat (S (length vs1)) + 1) with (Z.of_nat (S (length (vs1 ++ [v]))))
        by (rewrite length_app; simpl; lia).
      cbn [mbind option_bind].
      pose proof (lookup_lt_Some _ _ _ Hs).
      rewrite (IH (vs1 ++ [v]) rest); [|by simplify_eq/=|].
      + by rewrite list_insert_insert_eq, <- app_assoc.
      + rewrite list_lookup_insert_eq by done.
        simpl. rewrite insert_app_r_alt, Nat.sub_diag by lia. simpl. by rewrite <- app_assoc. }
  intros Hl Hv. apply (G vs [] d ls Hv Hl).
Qed.

Lemma line_loads_run ls i h d :
  ls !! i = Some (h :: d) -> line_loads ls (Z.of_nat i) 1 (length d) = Some d.
Proof.
  assert (G : forall d2 d1, ls !! i = Some (h :: d1 ++ d2) ->
    line_loads ls (Z.of_nat i) (Z.of_nat (S (length d1))) (length d2) = Some d2).
  { induction d2 as [|v d2 IH]; intros d1 Hl; [done|]. cbn [line_loads length].
    rewrite (line_load_run _ _ (S (length d1)) _ v Hl) by (simpl; by apply list_lookup_middle).
    replace (Z.of_nat (S (length d1)) + 1) with (Z.of_nat (S (length (d1 ++ [v]))))
      by (rewrite length_app; simpl; lia).
    cbn [mbind option_bind]. rewrite IH; [done|]. by rewrite <- app_assoc. }
  intros Hl. apply (G d [] Hl).
Qed.
