(* ===== verification/Shm.v ===== *)
(** Shared-memory backend ([inc/backends/shm/shm_qp.h],
    [src/backends/shm/shm_qp.c], the wrappers in [src/qp_func_wrapper.c]): one
    writer, one reader, messages of seven words under a 64-bit sequence number,
    and one cell in which the reader publishes how far it has read. *)
From S2P Require Import Prelude Errors Message Fifo Pair SeqRing.

(** ** Data *)
Definition SHM_SIZE : Z := 4096.
Definition sizeof_SHM_SIZE : Z := 4.   (** [sizeof] of the [int] constant *)
Definition SHMQ_SIZE : Z := 64.
Definition SHM_CACHELINE_SIZE : Z := 64.

(** [struct shm_context]; the last three are addresses. *)
Record shm_context := SC {
  sc_num_slots : Z;
  sc_l_pos : Z;       (** uint16_t *)
  sc_next_sync : Z;
  sc_next_seq : Z;
  sc_shm : Z;
  sc_data : Z;
  sc_reader_pos : Z;
}.

(** [struct shm_qp] *)
Record shm_qp := SQP { shm_src : shm_context; shm_dst : shm_context }.

(** The shared block: the cell [reader_pos->pos], then the cache lines at [data]. *)
Record shm_mem := SM { sm_pos : Z; sm_slots : list (list Z) }.
Record shm_block := SB { sb_addr : Z; sb_mem : shm_mem }.

Definition sc_state : Type := shm_context * shm_mem.

Definition sc_set_l_pos (l : Z) (q : shm_context) : shm_context :=
  SC (sc_num_slots q) l (sc_next_sync q) (sc_next_seq q) (sc_shm q) (sc_data q) (sc_reader_pos q).
Definition sc_set_next_sync (v : Z) (q : shm_context) : shm_context :=
  SC (sc_num_slots q) (sc_l_pos q) v (sc_next_seq q) (sc_shm q) (sc_data q) (sc_reader_pos q).
Definition sc_set_next_seq (v : Z) (q : shm_context) : shm_context :=
  SC (sc_num_slots q) (sc_l_pos q) (sc_next_sync q) v (sc_shm q) (sc_data q) (sc_reader_pos q).

Definition on_ctx (f : shm_context -> shm_context) : M sc_state unit :=
  modify (fun s => (f s.1, s.2)).

(** ** Creation *)
Section create.
(** libnuma and libc: a block of at least so many bytes on a node, the node of a
    core, and whether [malloc] and the context's allocation succeed. *)
Context (numa_alloc_onnode : Z -> Z -> option shm_block) (numa_node_of_cpu : Z -> Z)
  (malloc_ok : bool) (ctx_alloc_ok : Z -> bool).

Definition shm_init_context (shm node : Z) : outcome shm_context :=
  if negb (ctx_alloc_ok node) then Panic (* assert (q!=NULL) *) else
  let num_slots := SHMQ_SIZE - 1 in
  Ret (SC num_slots 0 (num_slots - 1) 1 shm (u64 (shm + SHM_CACHELINE_SIZE)) shm).

(** The queue pair and the block it lives in, if there is one. *)
Definition shm_queuepair_create (src dst : Z) : outcome (shm_qp * option shm_block) :=
  let shm := numa_alloc_onnode sizeof_SHM_SIZE (numa_node_of_cpu dst) in
  let addr := match shm with Some b => sb_addr b | None => 0 end in
  match shm_init_context addr (numa_node_of_cpu src),
        shm_init_context addr (numa_node_of_cpu dst) with
  | Ret s, Ret d => if malloc_ok then Ret (SQP s d, shm) else Undef
  | _, _ => Panic
  end.
End create.

(** ** Words of a slot *)
Definition load_word (i k : Z) : M sc_state Z := fun s =>
  defined (line_load (sm_slots s.2) i k) s.
Definition load_words (i k : Z) (n : nat) : M sc_state (list Z) := fun s =>
  defined (line_loads (sm_slots s.2) i k n) s.

(** An update of the slots, undefined when it touches a word outside them. *)
Definition set_slots (f : list (list Z) -> option (list (list Z))) : M sc_state unit := fun s =>
  match f (sm_slots s.2) with
  | Some ls => (Ret tt, (s.1, SM (sm_pos s.2) ls))
  | None => (Undef, s)
  end.
Definition store_word (i k v : Z) : M sc_state unit := set_slots (fun ls => line_store ls i k v).
Definition store_words (i k : Z) (vs : list Z) : M sc_state unit :=
  set_slots (fun ls => line_stores ls i k vs).

(** ** Send *)
Definition get_next_sync : M sc_state Z :=
  gets (fun s => u64 (sm_pos s.2 + u64 (sc_num_slots s.1 - 1))).

(** At a sync point wait until the reader has moved on. *)
Definition shm_sync : M sc_state unit :=
  q ← gets fst;
  if sc_next_seq q =? sc_next_sync q then
    next_sync ← get_next_sync;
    if sc_next_seq q =? next_sync then spin
    else on_ctx (sc_set_next_sync next_sync)
  else mret tt.

Definition shm_reset_pos : M sc_state unit :=
  on_ctx (fun q => sc_set_l_pos (lpos_reset (sc_l_pos q) (sc_num_slots q)) q).

(** [slot_start[0] = next_seq; next_seq++; l_pos = l_pos + 1;] *)
Definition shm_publish (slot : Z) : M sc_state unit :=
  seq ← gets (fun s => sc_next_seq s.1);
  _ ← store_word slot 0 seq;
  _ ← on_ctx (fun q => sc_set_next_seq (u64 (sc_next_seq q + 1)) q);
  on_ctx (fun q => sc_set_l_pos (u16 (sc_l_pos q + 1)) q).

Definition shm_q_send (p1 p2 p3 p4 p5 p6 p7 : Z) : M sc_state unit :=
  _ ← shm_reset_pos;
  _ ← shm_sync;
  slot ← gets (fun s => sc_l_pos s.1);
  _ ← store_words slot 1 [p1; p2; p3; p4; p5; p6; p7];
  shm_publish slot.

Definition shm_q_send0 : M sc_state unit :=
  _ ← shm_reset_pos;
  _ ← shm_sync;
  slot ← gets (fun s => sc_l_pos s.1);
  shm_publish slot.

(** ** Receive *)
Definition shm_q_can_recv : M sc_state bool :=
  q ← gets fst;
  v ← load_word (sc_l_pos q) 0;
  mret (sc_next_seq q =? v).

Definition shm_q_can_send : M sc_state bool :=
  gets (fun s => negb (sc_next_seq s.1 =? sc_next_sync s.1)).

(** [l_pos + 1, next_seq + 1], wrap the position, publish the reader position. *)
Definition shm_consume : M sc_state unit :=
  _ ← on_ctx (fun q => sc_set_l_pos (u16 (sc_l_pos q + 1)) q);
  _ ← on_ctx (fun q => sc_set_next_seq (u64 (sc_next_seq q + 1)) q);
  _ ← shm_reset_pos;
  modify (fun s => (s.1, SM (u64 (sc_next_seq s.1 - 1)) (sm_slots s.2))).

(** [None]: nothing to read; otherwise the seven words. *)
Definition shm_receive_non_blocking : M sc_state (option (list Z)) :=
  q ← gets fst;
  v ← load_word (sc_l_pos q) 0;
  if sc_next_seq q =? v then
    ps ← load_words (sc_l_pos q) 1 7;
    _ ← shm_consume;
    mret (Some ps)
  else mret None.

Definition shm_receive_non_blocking0 : M sc_state bool :=
  q ← gets fst;
  v ← load_word (sc_l_pos q) 0;
  if sc_next_seq q =? v then _ ← shm_consume; mret true else mret false.

Definition shm_q_recv : M sc_state (list Z) :=
  o ← shm_receive_non_blocking;
  match o with Some ps => mret ps | None => spin end.

Definition shm_q_recv0 : M sc_state unit :=
  b ← shm_receive_non_blocking0;
  if b : bool then mret tt else spin.

(** ** The wrappers installed in a [smlt_qp] *)

(** The [queue_tx.shm] and [queue_rx.shm] of a [smlt_qp]. *)
Record shm_queues := SQS { queue_tx : shm_qp; queue_rx : shm_qp }.
Abbreviation shm_st := (endp shm_queues shm_mem).
Abbreviation shm_pair := (pair shm_queues shm_mem).

Definition on_stx {A} : M sc_state A -> M shm_st A :=
  zoom (fun s => (shm_src (queue_tx (e_qp s)), e_tx s))
       (fun t s => Endp (SQS (SQP t.1 (shm_dst (queue_tx (e_qp s)))) (queue_rx (e_qp s)))
                     t.2 (e_rx s)).
Definition on_srx {A} : M sc_state A -> M shm_st A :=
  zoom (fun s => (shm_dst (queue_rx (e_qp s)), e_rx s))
       (fun t s => Endp (SQS (queue_tx (e_qp s)) (SQP (shm_src (queue_rx (e_qp s))) t.1))
                     (e_tx s) t.2).

(** Reads [data[0]] to [data[6]] whatever the length of the message; a longer
    message is dropped. *)
Definition smlt_shm_send (msg : smlt_msg) : M shm_st Z :=
  if words msg <=? 7 then
    p1 ← defined (arr_get (msg_data msg) 0); p2 ← defined (arr_get (msg_data msg) 1);
    p3 ← defined (arr_get (msg_data msg) 2); p4 ← defined (arr_get (msg_data msg) 3);
    p5 ← defined (arr_get (msg_data msg) 4); p6 ← defined (arr_get (msg_data msg) 5);
    p7 ← defined (arr_get (msg_data msg) 6);
    _ ← on_stx (shm_q_send p1 p2 p3 p4 p5 p6 p7);
    mret (err_value SMLT_SUCCESS)
  else mret (err_value SMLT_SUCCESS).

Definition smlt_shm_recv (msg : smlt_msg) : M shm_st (Z * smlt_msg) :=
  ps ← on_srx shm_q_recv;
  d ← defined (copy_words ps 7 0 (msg_data msg));
  mret (err_value SMLT_SUCCESS, Msg (words msg) (bufsize msg) d).

Definition smlt_shm_recv0 : M shm_st Z :=
  _ ← on_srx shm_q_recv0; mret (err_value SMLT_SUCCESS).
Definition smlt_shm_send0 : M shm_st Z :=
  _ ← on_stx shm_q_send0; mret (err_value SMLT_SUCCESS).
Definition smlt_shm_can_recv : M shm_st bool := on_srx shm_q_can_recv.
Definition smlt_shm_can_send : M shm_st bool := on_stx shm_q_can_send.

(** ** The invariant of one direction *)
Definition sm_hd (mem : shm_mem) (p : nat) : option Z := l ← sm_slots mem !! p; l !! 0%nat.
Definition sm_pl (mem : shm_mem) (p : nat) : option (list Z) := drop 1 <$> sm_slots mem !! p.

Section invariant.
Context (N : nat) (HN : (3 <= N)%nat) (HN16 : Z.of_nat N <= 65535).

Record shm_inv (tx rx : shm_context) (mem : shm_mem) (sent : list (list Z)) (r : nat) : Prop := {
  si_tx_slots : sc_num_slots tx = Z.of_nat N;
  si_tx_pos : seq_lpos N (sc_l_pos tx) (length sent);
  si_tx_seq : sc_next_seq tx = u64 (Z.of_nat (S (length sent)));
  si_sync : exists sync, sc_next_sync tx = u64 (Z.of_nat sync) /\
              (S (length sent) <= sync <= r + N - 1)%nat;
  si_rx_slots : sc_num_slots rx = Z.of_nat N;
  si_rx_pos : sc_l_pos rx = Z.of_nat (r mod N);
  si_rx_seq : sc_next_seq rx = u64 (Z.of_nat (S r));
  si_pos : sm_pos mem = u64 (Z.of_nat r);
  si_order : (r <= length sent)%nat;
  si_len : length (sm_slots mem) = N;
  si_lines : Forall (fun l => length l = 8%nat) (sm_slots mem);
  si_ring : seq_ring N (sm_hd mem) (sm_pl mem) sent;
}.

Lemma shm_line tx rx mem sent r p :
  shm_inv tx rx mem sent r -> (p < N)%nat ->
  exists h d, sm_slots mem !! p = Some (h :: d) /\ length d = 7%nat /\
    sm_hd mem p = Some h /\ sm_pl mem p = Some d.
Proof using Type*.
  intros I Hp. destruct (lookup_lt_is_Some_2 (sm_slots mem) p) as [l Hl];
    [rewrite (si_len _ _ _ _ _ I); lia|].
  pose proof (Forall_lookup_1 _ _ _ _ (si_lines _ _ _ _ _ I) Hl) as L. simpl in L.
  unfold sm_hd, sm_pl. rewrite Hl. destruct l as [|h d]; [done|].
  exists h, d. simpl in *. split; [done|]. split; [lia|]. done.
Qed.

(** What the writer's sync point does. *)
Lemma shm_sync_spec tx rx mem sent r :
  shm_inv tx rx mem sent r ->
  (exists sync, shm_sync (tx, mem) = (Ret tt, (sc_set_next_sync (u64 (Z.of_nat sync)) tx, mem)) /\
     (S (length sent) < sync <= r + N - 1)%nat) \/
  (shm_sync (tx, mem) = (Spin, (tx, mem)) /\ (S (length sent) = r + N - 1)%nat).
Proof using Type*.
  intros I. destruct (si_sync _ _ _ _ _ I) as (sync & Hs & Hb).
  pose proof (si_order _ _ _ _ _ I).
  assert (En : u64 (sm_pos mem + u64 (sc_num_slots tx - 1)) = u64 (Z.of_nat (r + N - 1))).
  { rewrite (si_pos _ _ _ _ _ I), (si_tx_slots _ _ _ _ _ I), wrap_add_l, wrap_add_r by lia.
    f_equal. lia. }
  unfold shm_sync, get_next_sync, gets, on_ctx, modify, mbind, M_bind. simpl.
  rewrite (si_tx_seq _ _ _ _ _ I), Hs.
  destruct (Z.eqb_spec (u64 (Z.of_nat (S (length sent)))) (u64 (Z.of_nat sync))) as [E|E]; simpl.
  - rewrite En. apply wrap_inj in E; [|lia|pow_consts; lia].
    destruct (Z.eqb_spec (u64 (Z.of_nat (S (length sent)))) (u64 (Z.of_nat (r + N - 1)))) as [F|F].
    + right. split; [done|]. apply wrap_inj in F; [lia|lia|pow_consts; lia].
    + left. exists (r + N - 1)%nat. split; [done|].
      assert (S (length sent) <> r + N - 1)%nat by (intros G; apply F; by rewrite G). lia.
  - left. exists sync. split.
    + rewrite <- Hs. by destruct tx.
    + assert (S (length sent) <> sync)%nat by (intros G; apply E; by rewrite G). lia.
Qed.

Lemma store_word_run q mem i k v l :
  sm_slots mem !! i = Some l -> (k < length l)%nat ->
  store_word (Z.of_nat i) (Z.of_nat k) v (q, mem) =
    (Ret tt, (q, SM (sm_pos mem) (<[i := <[k := v]> l]> (sm_slots mem)))).
Proof. intros. unfold store_word, set_slots. simpl. by rewrite (line_store_run _ _ _ _ l). Qed.

Lemma store_words_run q mem i h d vs :
  sm_slots mem !! i = Some (h :: d) -> length vs = length d ->
  store_words (Z.of_nat i) 1 vs (q, mem) =
    (Ret tt, (q, SM (sm_pos mem) (<[i := h :: vs]> (sm_slots mem)))).
Proof. intros. unfold store_words, set_slots. simpl. by rewrite (line_stores_run _ _ h d). Qed.
#[local] Arguments store_words : simpl never.
#[local] Arguments load_words : simpl never.

Lemma shm_reset_inv tx rx mem sent r :
  shm_inv tx rx mem sent r ->
  shm_reset_pos (tx, mem) =
    (Ret tt, (sc_set_l_pos (Z.of_nat (length sent mod N)) tx, mem)) /\
  shm_inv (sc_set_l_pos (Z.of_nat (length sent mod N)) tx) rx mem sent r.
Proof using Type*.
  intros I. split.
  - unfold shm_reset_pos, on_ctx, modify. simpl.
    by rewrite (si_tx_slots _ _ _ _ _ I), (lpos_reset_spec N _ (length sent))
      by (lia || apply (si_tx_pos _ _ _ _ _ I)).
  - destruct I. constructor; try done. by left.
Qed.

Lemma shm_synced_inv tx rx mem sent r sync :
  shm_inv tx rx mem sent r -> (S (length sent) <= sync <= r + N - 1)%nat ->
  shm_inv (sc_set_next_sync (u64 (Z.of_nat sync)) tx) rx mem sent r.
Proof using Type*. intros [] ?. constructor; try done. by exists sync. Qed.

(** Publishing the line that holds message [m]. *)
Lemma shm_publish_spec tx rx mem sent r sync m h d :
  let p := (length sent mod N)%nat in
  shm_inv (sc_set_next_sync (u64 (Z.of_nat sync)) tx) rx mem sent r ->
  sc_l_pos tx = Z.of_nat p ->
  (S (length sent) < sync <= r + N - 1)%nat ->
  length d = SEQ_PAYLOAD_WORDS -> take (length m) d = m ->
  exists tx' mem',
    shm_publish (Z.of_nat p)
      (sc_set_next_sync (u64 (Z.of_nat sync)) tx,
       SM (sm_pos mem) (<[p := h :: d]> (sm_slots mem))) = (Ret tt, (tx', mem')) /\
    shm_inv tx' rx mem' (sent ++ [m]) r.
Proof using Type*.
  intros p I Hp Hs Hd Ht. pose proof (ring_lt N ltac:(lia) (length sent)) as L. fold p in L.
  pose proof (si_len _ _ _ _ _ I) as Hlen.
  assert (Eq : (<[p := h :: d]> (sm_slots mem)) !! p = Some (h :: d))
    by (apply list_lookup_insert_eq; lia).
  unfold shm_publish, gets, mbind, M_bind. simpl.
  change 0 with (Z.of_nat 0).
  rewrite (store_word_run _ (SM _ _) p 0 _ _ Eq) by (simpl; lia). simpl.
  rewrite list_insert_insert_eq. eexists _, _. split; [reflexivity|].
  destruct I. simpl in *.
  constructor; rewrite ?length_app; simpl; rewrite ?Nat.add_1_r; try done; try lia.
  - rewrite Hp. apply lpos_next; lia.
  - rewrite si_tx_seq0, wrap_add_l by lia. f_equal. lia.
  - exists sync. split; [done|lia].
  - by rewrite length_insert.
  - apply Forall_insert; [done|]. simpl. rewrite Hd. done.
  - apply (seq_write N ltac:(lia) ltac:(lia) (sm_hd mem) (sm_pl mem)); unfold sm_hd, sm_pl; simpl; fold p.
    + done.
    + intros i Hi. by rewrite list_lookup_insert_ne by done.
    + rewrite list_lookup_insert_eq by lia. simpl. by rewrite si_tx_seq0.
    + rewrite list_lookup_insert_eq by lia. simpl. rewrite drop_0. eauto.
Qed.

Lemma shm_q_send_spec tx rx mem sent r p1 p2 p3 p4 p5 p6 p7 :
  shm_inv tx rx mem sent r ->
  exists o tx' mem', shm_q_send p1 p2 p3 p4 p5 p6 p7 (tx, mem) = (o, (tx', mem')) /\
    ((o = Ret tt /\ (S (length sent) < r + N - 1)%nat /\
      shm_inv tx' rx mem' (sent ++ [[p1; p2; p3; p4; p5; p6; p7]]) r) \/
     (o = Spin /\ (S (length sent) = r + N - 1)%nat /\ shm_inv tx' rx mem' sent r)).
Proof using Type*.
  intros I. destruct (shm_reset_inv _ _ _ _ _ I) as [E I1].
  unfold shm_q_send, mbind, M_bind. rewrite E.
  destruct (shm_sync_spec _ _ _ _ _ I1) as [(sync & E2 & Hs)|[E2 Hs]]; rewrite E2; simpl.
  - pose proof (shm_synced_inv _ _ _ _ _ sync I1 ltac:(lia)) as I2.
    destruct (shm_line _ _ _ _ _ (length sent mod N)%nat I2 (ring_lt N ltac:(lia) _))
      as (h & d & El & Hd & _).
    rewrite (store_words_run _ _ _ h d [p1; p2; p3; p4; p5; p6; p7] El) by done.
    destruct (shm_publish_spec _ _ _ _ _ sync [p1; p2; p3; p4; p5; p6; p7] h
      [p1; p2; p3; p4; p5; p6; p7] I2) as (tx' & mem' & E3 & I3); try done.
    rewrite E3. eexists _, _, _. split; [reflexivity|]. left. split; [done|]. split; [lia|done].
  - eexists _, _, _. split; [reflexivity|]. by right.
Qed.

(** A notification leaves the payload words as they are. *)
Lemma shm_q_send0_spec tx rx mem sent r :
  shm_inv tx rx mem sent r ->
  exists o tx' mem', shm_q_send0 (tx, mem) = (o, (tx', mem')) /\
    ((o = Ret tt /\ (S (length sent) < r + N - 1)%nat /\ shm_inv tx' rx mem' (sent ++ [[]]) r) \/
     (o = Spin /\ (S (length sent) = r + N - 1)%nat /\ shm_inv tx' rx mem' sent r)).
Proof using Type*.
  intros I. destruct (shm_reset_inv _ _ _ _ _ I) as [E I1].
  unfold shm_q_send0, mbind, M_bind. rewrite E.
  destruct (shm_sync_spec _ _ _ _ _ I1) as [(sync & E2 & Hs)|[E2 Hs]]; rewrite E2; simpl.
  - pose proof (shm_synced_inv _ _ _ _ _ sync I1 ltac:(lia)) as I2.
    destruct (shm_line _ _ _ _ _ (length sent mod N)%nat I2 (ring_lt N ltac:(lia) _))
      as (h & d & El & Hd & _).
    destruct (shm_publish_spec _ _ _ _ _ sync [] h d I2) as (tx' & mem' & E3 & I3); try done.
    rewrite list_insert_id in E3 by done. destruct mem as [pos slots]. simpl in *.
    rewrite E3. eexists _, _, _. split; [reflexivity|]. left. split; [done|]. split; [lia|done].
  - eexists _, _, _. split; [reflexivity|]. by right.
Qed.

(** *** Receive *)
Lemma load_word_run q mem i k v l :
  sm_slots mem !! i = Some l -> l !! k = Some v ->
  load_word (Z.of_nat i) (Z.of_nat k) (q, mem) = (Ret v, (q, mem)).
Proof. intros. unfold load_word. simpl. by rewrite (line_load_run _ _ _ l v). Qed.

Lemma load_words_run q mem i h d :
  sm_slots mem !! i = Some (h :: d) -> length d = 7%nat ->
  load_words (Z.of_nat i) 1 7 (q, mem) = (Ret d, (q, mem)).
Proof. intros Hl <-. unfold load_words. simpl. by rewrite (line_loads_run _ _ h d). Qed.

Lemma shm_pending tx rx mem sent r :
  shm_inv tx rx mem sent r ->
  exists v, load_word (sc_l_pos rx) 0 (rx, mem) = (Ret v, (rx, mem)) /\
    (sc_next_seq rx =? v) = bool_decide (r < length sent)%nat.
Proof using Type*.
  intros I. destruct (si_sync _ _ _ _ _ I) as (sync & _ & Hb).
  destruct (seq_pending N ltac:(lia) ltac:(lia) _ _ _ r (si_ring _ _ _ _ _ I))
    as (v & Hv & Hd); [apply (si_order _ _ _ _ _ I)|lia|].
  exists v. rewrite (si_rx_pos _ _ _ _ _ I), (si_rx_seq _ _ _ _ _ I). split; [|done].
  unfold sm_hd in Hv. apply bind_Some in Hv as (l & Hl & Hv).
  by apply (load_word_run _ _ _ 0 _ _ Hl Hv).
Qed.

Lemma shm_consume_spec tx rx mem sent r :
  shm_inv tx rx mem sent r -> (r < length sent)%nat ->
  exists rx' mem', shm_consume (rx, mem) = (Ret tt, (rx', mem')) /\
    shm_inv tx rx' mem' sent (S r).
Proof using Type*.
  intros I Hr. unfold shm_consume, shm_reset_pos, on_ctx, modify, mbind, M_bind. simpl.
  rewrite (si_rx_pos _ _ _ _ _ I), (si_rx_slots _ _ _ _ _ I), (si_rx_seq _ _ _ _ _ I),
    lpos_next_reset by lia.
  eexists _, _. split; [reflexivity|].
  destruct I. destruct si_sync0 as (sync & ? & ?). constructor; simpl; try done; try lia.
  - exists sync. split; [done|lia].
  - rewrite wrap_add_l by lia. f_equal. lia.
  - unfold wrap. rewrite Zplus_mod_idemp_l, Zminus_mod_idemp_l. f_equal. lia.
Qed.

Lemma shm_receive_spec tx rx mem sent r :
  shm_inv tx rx mem sent r -> Forall (fun m => length m = SEQ_PAYLOAD_WORDS) sent ->
  exists rx' mem', shm_receive_non_blocking (rx, mem) = (Ret (sent !! r), (rx', mem')) /\
    shm_inv tx rx' mem' sent (if decide (r < length sent)%nat then S r else r).
Proof using Type*.
  intros I Hw. destruct (shm_pending _ _ _ _ _ I) as (v & Ev & Hd).
  unfold shm_receive_non_blocking. rewrite (bind_ret (gets fst) _ _ rx (rx, mem)) by done.
  rewrite (bind_ret _ _ _ _ _ Ev), Hd. case_bool_decide as D.
  - destruct (lookup_lt_is_Some_2 sent r D) as [m Hm].
    destruct (si_sync _ _ _ _ _ I) as (sync & _ & Hb).
    destruct (seq_read N ltac:(lia) ltac:(lia) _ _ _ r m (si_ring _ _ _ _ _ I) Hm)
      as (d & Hpl & Hl & Ht); [lia|].
    destruct (shm_line _ _ _ _ _ (r mod N)%nat I (ring_lt N ltac:(lia) _))
      as (h & d' & El & Hl' & _ & Hpl').
    rewrite Hpl in Hpl'. simplify_eq. rewrite (si_rx_pos _ _ _ _ _ I).
    rewrite (bind_ret _ _ _ _ _ (load_words_run rx mem _ h d' El Hl')).
    destruct (shm_consume_spec _ _ _ _ _ I D) as (rx' & mem' & Ec & I').
    rewrite (bind_ret _ _ _ _ _ Ec), decide_True by done. rewrite Hm.
    pose proof (Forall_lookup_1 _ _ _ _ Hw Hm) as Hmw. simpl in Hmw.
    rewrite take_ge in Ht by lia. subst d'. by exists rx', mem'.
  - rewrite decide_False by done. rewrite lookup_ge_None_2 by lia. by exists rx, mem.
Qed.

Lemma shm_receive0_spec tx rx mem sent r :
  shm_inv tx rx mem sent r ->
  exists rx' mem', shm_receive_non_blocking0 (rx, mem) =
      (Ret (bool_decide (r < length sent)%nat), (rx', mem')) /\
    shm_inv tx rx' mem' sent (if decide (r < length sent)%nat then S r else r).
Proof using Type*.
  intros I. destruct (shm_pending _ _ _ _ _ I) as (v & Ev & Hd).
  unfold shm_receive_non_blocking0. rewrite (bind_ret (gets fst) _ _ rx (rx, mem)) by done.
  rewrite (bind_ret _ _ _ _ _ Ev), Hd. case_bool_decide as D.
  - destruct (shm_consume_spec _ _ _ _ _ I D) as (rx' & mem' & Ec & I').
    rewrite (bind_ret _ _ _ _ _ Ec), decide_True by done. by exists rx', mem'.
  - rewrite decide_False by done. by exists rx, mem.
Qed.
End invariant.

(** ** A connected pair *)

(** The calls as a client sees them: a blocking call either completes or does
    not return in the current state. *)
Definition completes {S A} (m : M S A) : M S bool := fun s =>
  match m s with
  | (Ret _, s') => (Ret true, s')
  | (Spin, s') => (Ret false, s')
  | (Panic, s') => (Panic, s')
  | (Undef, s') => (Undef, s')
  end.
Definition shm_send (m : list Z) : M shm_st bool := completes (smlt_shm_send (msg_of m)).
Definition shm_recv : M shm_st (option (list Z)) := fun s =>
  match smlt_shm_recv (msg_buf 7) s with
  | (Ret r, s') => (Ret (Some (msg_data r.2)), s')
  | (Spin, s') => (Ret None, s')
  | (Panic, s') => (Panic, s')
  | (Undef, s') => (Undef, s')
  end.

Section pair.
Context (N : nat) (HN : (3 <= N)%nat) (HN16 : Z.of_nat N <= 65535).

Definition shm_dinv (txq : shm_queues) (mem : shm_mem) (rxq : shm_queues)
    (q : list (list Z)) : Prop :=
  exists sent r, shm_inv N (shm_src (queue_tx txq)) (shm_dst (queue_rx rxq)) mem sent r /\
    q = drop r sent /\ Forall (fun m => length m = SEQ_PAYLOAD_WORDS) sent.

Lemma shm_end_send :
  end_send_law shm_dinv (N - 2) (fun m => length m = SEQ_PAYLOAD_WORDS) shm_send.
Proof using Type*.
  intros [[[tx d1] rxq0] mem rxmem] rxq q m (sent & r & I & -> & Hw) Hm. simpl in *.
  pose proof (si_order _ _ _ _ _ _ I) as Ho.
  do 8 (destruct m as [|? m]; try done).
  match goal with |- context [shm_send [?a; ?b; ?c; ?d; ?e; ?f; ?g]] =>
    destruct (shm_q_send_spec N HN HN16 _ _ _ _ _ a b c d e f g I) as (o & tx' & mem' & E & H) end.
  unfold shm_send, completes, smlt_shm_send, on_stx, zoom, mbind, M_bind. simpl. rewrite E.
  destruct H as [(-> & Hs & I')|(-> & Hs & I')]; simpl; eexists _, _; (split; [reflexivity|]);
    simpl; (split; [done|]); (split; [done|]).
  - rewrite length_drop. split; [lia|]. eexists _, r. split; [exact I'|]. rewrite drop_app_le by lia. split; [done|].
    apply Forall_app. auto.
  - split; [|by exists sent, r]. intros Hq. apply (f_equal length) in Hq.
    rewrite length_drop in Hq. simpl in Hq. lia.
Qed.

Lemma shm_end_recv : end_recv_law shm_dinv shm_recv.
Proof using Type*.
  intros [[txq0 [s1 rx]] txmem mem] txq q (sent & r & I & -> & Hw). simpl in *.
  destruct (shm_receive_spec N HN HN16 _ _ _ _ _ I Hw) as (rx' & mem' & E & I').
  unfold shm_recv, smlt_shm_recv, shm_q_recv, on_srx, zoom, mbind, M_bind. simpl. rewrite E.
  case_decide as D.
  - destruct (lookup_lt_is_Some_2 sent r D) as [m Hm]. rewrite Hm.
    pose proof (Forall_lookup_1 _ _ _ _ Hw Hm) as Hl. simpl in Hl. unfold SEQ_PAYLOAD_WORDS in Hl.
    do 8 (destruct m as [|? m]; try done). simpl.
    eexists _, _. split; [reflexivity|]. simpl. split; [done|]. split; [done|].
    exists (drop (S r) sent). split; [|by exists sent, (S r)].
    by rewrite (drop_lookup_cons _ _ _ Hm).
  - rewrite lookup_ge_None_2 by lia. simpl. eexists _, _. split; [reflexivity|]. simpl.
    split; [done|]. split; [done|]. split; [by apply drop_ge; lia|]. by exists sent, r.
Qed.
End pair.

(** ** Creation *)
Definition zero_lines (n : nat) : list (list Z) := replicate n (replicate 8 0).

Definition shm_ctx_init (addr : Z) : shm_context :=
  SC 63 0 62 1 addr (u64 (addr + SHM_CACHELINE_SIZE)) addr.

Lemma zero_lines_seq N : seq_ring N (sm_hd (SM 0 (zero_lines N))) (sm_pl (SM 0 (zero_lines N))) [].
Proof.
  unfold sm_hd, sm_pl, zero_lines. simpl.
  constructor; try done; intros p Hp; rewrite lookup_replicate_2 by lia; try done.
  by eexists.
Qed.

Lemma shm_fresh_inv a : shm_inv 63 (shm_ctx_init a) (shm_ctx_init a) (SM 0 (zero_lines 63)) [] 0.
Proof.
  pose proof (zero_lines_seq 63).
  constructor; simpl; try done; try lia.
  - by left.
  - exists 62%nat. split; [done|lia].
  - repeat constructor.
Qed.

(** The two ends of a SHM [smlt_qp]: each has copies of both queue pairs. *)
Definition mk_shm_pair (f b : shm_qp) (fm bm : shm_mem) : shm_pair :=
  Pair (SQS f b) (SQS b f) fm bm.

(** ** Main properties *)

(** The shared-memory queue pair of the library (64 lines: 63 slots) is, in
    each direction and from creation on, a FIFO of capacity 61: whatever the
    interleaving of sends and receives of seven-word messages, a send that does
    not block is accepted, one that blocks has something to wait for, and what was
    received followed by what is in flight is what was sent.  libnuma's blocks are
    whole zeroed pages, which makes up for the four bytes that are asked for. *)
Lemma shm_pair_fifo numa node_of ctx_ok src dst bf bb d cs :
  (forall n, ctx_ok n = true) ->
  numa sizeof_SHM_SIZE (node_of dst) = Some bf -> sb_mem bf = SM 0 (zero_lines 63) ->
  numa sizeof_SHM_SIZE (node_of src) = Some bb -> sb_mem bb = SM 0 (zero_lines 63) ->
  Forall (valid_cmd (valid := fun m => length m = SEQ_PAYLOAD_WORDS)) cs ->
  exists f b st tr q,
    shm_queuepair_create numa node_of true ctx_ok src dst = Ret (f, Some bf) /\
    shm_queuepair_create numa node_of true ctx_ok dst src = Ret (b, Some bb) /\
    exec (SpscQueue0 := link_spsc shm_send shm_recv d) cs (mk_shm_pair f b (sb_mem bf) (sb_mem bb)) =
      (Ret tr, st) /\
    fifo_run 61 [] tr q /\ sent_of tr = recv_of tr ++ q /\ (length q <= 61)%nat.
Proof.
  intros Hc Hf Hfm Hb Hbm Hcs.
  unfold shm_queuepair_create, shm_init_context. rewrite Hf, Hb, !Hc, Hfm, Hbm. simpl.
  set (f := SQP (shm_ctx_init (sb_addr bf)) (shm_ctx_init (sb_addr bf))).
  set (b := SQP (shm_ctx_init (sb_addr bb)) (shm_ctx_init (sb_addr bb))).
  pose proof (link_laws (shm_dinv 63) (63 - 2) _ shm_send shm_recv d []
    (shm_end_send 63 ltac:(lia) ltac:(lia)) (shm_end_recv 63 ltac:(lia) ltac:(lia))) as L.
  assert (I : link_inv (shm_dinv 63) d []
      (mk_shm_pair f b (SM 0 (zero_lines 63)) (SM 0 (zero_lines 63))) []).
  { unfold link_inv, link_dir, shm_dinv.
    destruct d; split; exists [], 0%nat; (split; [apply shm_fresh_inv|done]). }
  destruct (exec_refines (SpscLaws0 := L) cs _ _ I Hcs) as (tr & st & q & E & R & _).
  exists f, b, st, tr, q. split; [done|]. split; [done|]. split; [done|]. split; [done|].
  split; [by rewrite <- (fifo_run_order _ _ _ _ R)|].
  apply (fifo_run_cap _ _ _ _ R). simpl. lia.
Qed.

(** A libnuma whose blocks are zeroed pages, at addresses chosen by node. *)
Definition numa_pages (size node : Z) : option shm_block :=
  Some (SB (4096 * (node + 1)) (SM 0 (zero_lines 63))).


(** One end sends to itself through the queue: [n] sends, each followed by a
    receive at the other end. *)
Fixpoint ping (n : nat) : M shm_pair unit :=
  match n with
  | O => mret tt
  | S n' =>
      _ ← at_side Src (shm_send (replicate 7 1));
      _ ← at_side Dst shm_recv;
      ping n'
  end.

Definition shm_fresh_pair : shm_pair :=
  let c := SQP (shm_ctx_init 4096) (shm_ctx_init 4096) in
  mk_shm_pair c c (SM 0 (zero_lines 63)) (SM 0 (zero_lines 63)).

(** [shm_q_can_send] only compares the cached synchronisation point, which
    a send alone moves on: after 61 messages have been sent and received the queue
    is empty and a send does not block, but [can_send] says no. *)
Lemma shm_can_send_stuck :
  let st := (ping 61 shm_fresh_pair).2 in
  (ping 61 shm_fresh_pair).1 = Ret tt /\
  (at_side Src smlt_shm_can_send st).1 = Ret false /\
  (at_side Dst smlt_shm_can_recv st).1 = Ret false /\
  (at_side Src (smlt_shm_send (msg_of (replicate 7 2))) st).1 = Ret (err_value SMLT_SUCCESS).
Proof. vm_compute. done. Qed.
