(* ===== verification/ShmSteps.v ===== *)
(** Shared-memory backend, one access to shared memory at a time. *)
From S2P Require Import Prelude Errors Message Fifo Pair SeqRing Shm Steps Progress.

(** ** The queue's operations *)

(** [slot_start[k] = v1; slot_start[k + 1] = v2; ...] *)
Fixpoint store_steps {A} (slot k : Z) (vs : list Z) (next : frag sc_state A) : frag sc_state A :=
  match vs with
  | [] => next
  | v :: vs' => FAct (_ ← store_word slot k v; mret (store_steps slot (k + 1) vs' next))
  end.
Definition shm_q_send_steps (ps : list Z) : frag sc_state unit :=
  FAct (_ ← shm_reset_pos;
        _ ← shm_sync;
        slot ← gets (fun s => sc_l_pos s.1);
        mret (store_steps slot 1 ps (act (shm_publish slot)))).

(** [p1 = start[k]; p2 = start[k + 1]; ...] *)
Fixpoint load_steps {A} (slot k : Z) (n : nat) (ps : list Z) (next : list Z -> frag sc_state A) : frag sc_state A :=
  match n with
  | O => next ps
  | S n' => FAct (v ← load_word slot k; mret (load_steps slot (k + 1) n' (ps ++ [v]) next))
  end.
Definition consume_step (ps : list Z) : frag sc_state (list Z) := act (_ ← shm_consume; mret ps).
Definition shm_q_recv_steps : frag sc_state (list Z) :=
  FAct (q ← gets fst;
        v ← load_word (sc_l_pos q) 0;
        if sc_next_seq q =? v then mret (load_steps (sc_l_pos q) 1 7 [] consume_step) else spin).

(** ** The queue pair's *)
Definition at_stx {A} : frag sc_state A -> frag shm_st A :=
  frag_zoom (fun s => (shm_src (queue_tx (e_qp s)), e_tx s))
    (fun t s => Endp (SQS (SQP t.1 (shm_dst (queue_tx (e_qp s)))) (queue_rx (e_qp s))) t.2 (e_rx s)).
Definition at_srx {A} : frag sc_state A -> frag shm_st A :=
  frag_zoom (fun s => (shm_dst (queue_rx (e_qp s)), e_rx s))
    (fun t s => Endp (SQS (queue_tx (e_qp s)) (SQP (shm_src (queue_rx (e_qp s))) t.1)) (e_tx s) t.2).

Lemma at_stx_run {A} (f : frag sc_state A) s : frag_run (at_stx f) s = on_stx (frag_run f) s.
Proof. apply frag_run_zoom; [by intros [[[] []] ? ?]|by intros [] ?|done]. Qed.
Lemma at_srx_run {A} (f : frag sc_state A) s : frag_run (at_srx f) s = on_srx (frag_run f) s.
Proof. apply frag_run_zoom; [by intros [[[] []] ? ?]|by intros [] ?|done]. Qed.

(** [smlt_shm_send] of a message, [smlt_shm_recv] into a buffer of seven words. *)
Definition shm_send_steps (m : list Z) : frag shm_st (event (list Z)) :=
  if Z.of_nat (length m) <=? 7 then
    match mapM (arr_get m) [0; 1; 2; 3; 4; 5; 6] with
    | Some ps => frag_bind (at_stx (shm_q_send_steps ps)) (fun _ => FDone (ESent m))
    | None => FAct undef
    end
  else FDone (ESent m).
Definition recv_result (ps : list Z) : frag shm_st (event (list Z)) :=
  match copy_words ps 7 0 (replicate 7 0) with
  | Some d => FDone (ERecv d)
  | None => FAct undef
  end.
Definition shm_code (c : cmd (list Z)) : frag shm_st (event (list Z)) :=
  match c with
  | CSend m => shm_send_steps m
  | CRecv => frag_bind (at_srx shm_q_recv_steps) recv_result
  end.

Example shm_steps_run :
  let c := SQP (shm_ctx_init 4096) (shm_ctx_init 4096) in
  let s := steps_start (mk_shm_pair c c (SM 0 (zero_lines 63)) (SM 0 (zero_lines 63)))
     (fun d => match d with Src => [CSend (replicate 7 1); CSend (replicate 7 2)] | Dst => [CRecv; CSend (replicate 7 3); CRecv] end) in
  ss_trace <$> steps_run shm_code s (concat (replicate 20 [Src; Dst; Dst; Src]))
  = Some [(Src, ESent (replicate 7 1)); (Dst, ERecv (replicate 7 1)); (Src, ESent (replicate 7 2));
          (Dst, ESent (replicate 7 3)); (Dst, ERecv (replicate 7 2))].
Proof. vm_compute. reflexivity. Qed.

(** ** One direction, with its two threads in the middle of their calls *)
Section direction.
Context (N : nat) (HN : (3 <= N)%nat) (HN16 : Z.of_nat N <= 65535).

(** The send of [m] with the payload words [ps] still to store from word [k] on; the receive
    with [n] words still to load from word [k] on, after [ps]. *)
Definition shm_send_at (m : list Z) (slot k : Z) (ps : list Z) : frag shm_st (event (list Z)) :=
  frag_bind (at_stx (store_steps slot k ps (act (shm_publish slot)))) (fun _ => FDone (ESent m)).
Definition shm_recv_at (slot k : Z) (n : nat) (ps : list Z) : frag shm_st (event (list Z)) :=
  frag_bind (at_srx (load_steps slot k n ps consume_step)) recv_result.

(** The message whose slot is being overwritten is forgotten: it was received long ago. *)
Definition stale (sent : list (list Z)) : Prop := (N <= length sent)%nat -> sent !! (length sent - N)%nat = Some [].
Definition shm_sender_at (tx : shm_context) (mem : shm_mem) (sent : list (list Z)) (r : nat)
    (sp : option (list Z * frag shm_st (event (list Z)))) : Prop :=
  match sp with
  | None => True
  | Some (m, f) => length m = SEQ_PAYLOAD_WORDS /\
      (f = shm_code (CSend m) \/
       exists i l sync, f = shm_send_at m (Z.of_nat (length sent mod N)) (Z.of_nat (S i)) (drop i m) /\ (i <= 7)%nat /\
         sc_l_pos tx = Z.of_nat (length sent mod N) /\ sc_next_sync tx = u64 (Z.of_nat sync) /\
         (S (length sent) < sync <= r + N - 1)%nat /\ stale sent /\
         sm_slots mem !! (length sent mod N)%nat = Some l /\ forall j, (j < i)%nat -> l !! S j = m !! j)
  end.
Definition shm_receiver_at (sent : list (list Z)) (r : nat) (rp : option (frag shm_st (event (list Z)))) : Prop :=
  match rp with
  | None => True
  | Some f => f = shm_code CRecv \/
      exists i n m, f = shm_recv_at (Z.of_nat (r mod N)) (Z.of_nat (S i)) n (take i m) /\ (i + n = 7)%nat /\
        sent !! r = Some m
  end.
Definition shm_steps_inv (txq : shm_queues) (mem : shm_mem) (rxq : shm_queues)
    (sp : option (list Z * frag shm_st (event (list Z)))) (rp : option (frag shm_st (event (list Z))))
    (q : list (list Z)) : Prop :=
  exists sent r, shm_inv N (shm_src (queue_tx txq)) (shm_dst (queue_rx rxq)) mem sent r /\ q = drop r sent /\
    Forall (fun m => length m = SEQ_PAYLOAD_WORDS) q /\
    shm_sender_at (shm_src (queue_tx txq)) mem sent r sp /\ shm_receiver_at sent r rp.

Lemma shm_start_send : start_send_law shm_code shm_steps_inv (fun m => length m = SEQ_PAYLOAD_WORDS).
Proof using Type.
  intros txq ring rxq rp q m (sent & r & I & Hq & Hw & _ & Hr) Hm. exists sent, r.
  split; [done|]. split; [done|]. split; [done|]. split; [|done]. split; [done|by left].
Qed.
Lemma shm_start_recv : start_recv_law shm_code shm_steps_inv.
Proof using Type.
  intros txq ring rxq sp q (sent & r & I & Hq & Hw & Hs & _). exists sent, r.
  split; [done|]. split; [done|]. split; [done|]. split; [done|by left].
Qed.

Lemma forget_length (sent : list (list Z)) j : length (<[j := []]> sent) = length sent.
Proof using Type. apply length_insert. Qed.
Lemma shm_forget tx rx mem sent r j : shm_inv N tx rx mem sent r -> shm_inv N tx rx mem (<[j := []]> sent) r.
Proof using Type.
  intros I. pose proof (si_ring _ _ _ _ _ _ I) as [Ip Ih Is If].
  constructor; rewrite ?forget_length; try apply I.
  constructor; rewrite ?forget_length; try done. intros k m Hk Hl.
  assert (k < length sent)%nat as Hlt by (apply lookup_lt_Some in Hk; by rewrite forget_length in Hk).
  destruct (decide (k = j)) as [->|Hne].
  - rewrite list_lookup_insert_eq in Hk by done. injection Hk as <-.
    destruct (lookup_lt_is_Some_2 sent j Hlt) as [m' Hm'].
    destruct (Is j m' Hm' Hl) as [H1 (d & H2 & _)]. split; [done|]. by exists d.
  - rewrite list_lookup_insert_ne in Hk by done. by apply Is.
Qed.

(** The payload words of the slot after the last message are the sender's. *)
Lemma shm_scratch tx rx mem sent r k v l :
  shm_inv N tx rx mem sent r -> stale sent -> sm_slots mem !! (length sent mod N)%nat = Some l -> (1 <= k)%nat ->
  shm_inv N tx rx (SM (sm_pos mem) (<[(length sent mod N)%nat := <[k := v]> l]> (sm_slots mem))) sent r.
Proof using HN.
  intros I Hst Hl Hk. pose proof (ring_lt N ltac:(lia) (length sent)) as Hp. pose proof (si_len _ _ _ _ _ _ I) as Hlen.
  pose proof (Forall_lookup_1 _ _ _ _ (si_lines _ _ _ _ _ _ I) Hl) as Hl8. cbv beta in Hl8.
  set (p := (length sent mod N)%nat) in *. set (mem' := SM _ _).
  assert (Hhd : forall x, sm_hd mem' x = sm_hd mem x).
  { intros x. unfold sm_hd, mem'. cbn [sm_slots]. destruct (decide (x = p)) as [->|Hne]; [|by rewrite list_lookup_insert_ne].
    rewrite list_lookup_insert_eq by lia. rewrite Hl. simpl. by rewrite list_lookup_insert_ne by lia. }
  assert (Hpl : forall x, x <> p -> sm_pl mem' x = sm_pl mem x).
  { intros x Hne. unfold sm_pl, mem'. cbn [sm_slots]. by rewrite list_lookup_insert_ne. }
  assert (Hplp : sm_pl mem' p = Some (drop 1 (<[k := v]> l))).
  { unfold sm_pl, mem'. cbn [sm_slots]. by rewrite list_lookup_insert_eq by lia. }
  pose proof (si_ring _ _ _ _ _ _ I) as [Ip Ih Is If]. constructor; try apply I.
  - unfold mem'. cbn [sm_slots]. by rewrite length_insert.
  - apply Forall_insert; [apply I|by rewrite length_insert].
  - constructor.
    + intros x Hx. destruct (decide (x = p)) as [->|Hne]; [|rewrite Hpl by done; by apply Ip].
      rewrite Hplp. eexists. split; [done|]. rewrite length_drop, length_insert, Hl8. done.
    + intros x Hx. rewrite Hhd. by apply Ih.
    + intros j m Hj Hjl. rewrite Hhd. destruct (Is j m Hj Hjl) as [H1 H2]. split; [done|].
      destruct (decide (j mod N = p)%nat) as [E|Hne]; [|by rewrite Hpl].
      pose proof (lookup_lt_Some _ _ _ Hj) as Hlt.
      assert (j + N = length sent)%nat as HjN.
      { destruct (decide (j + N = length sent)%nat) as [|Hd]; [done|]. exfalso.
        apply (ring_distinct N ltac:(lia) j (length sent)); [lia|lia|exact E]. }
      replace j with (length sent - N)%nat in Hj by lia. rewrite Hst in Hj by lia. injection Hj as <-.
      rewrite E, Hplp. by eexists.
    + intros x Hx. rewrite Hhd. by apply If.
Qed.

(** *** The actions of a send *)
Lemma shm_send_check tx rx mem sent r m :
  shm_inv N tx rx mem sent r -> length m = SEQ_PAYLOAD_WORDS -> exists a,
  shm_code (CSend m) = FAct a /\ forall d1 rxq0 rxmem,
  exists o tx', a (Endp (SQS (SQP tx d1) rxq0) mem rxmem) = (o, Endp (SQS (SQP tx' d1) rxq0) mem rxmem) /\
    ((o = Spin /\ shm_inv N tx' rx mem sent r /\ (r < length sent)%nat) \/
     (o = Ret (shm_send_at m (Z.of_nat (length sent mod N)) 1 m) /\ exists sync,
        sc_l_pos tx' = Z.of_nat (length sent mod N) /\ sc_next_sync tx' = u64 (Z.of_nat sync) /\
        (S (length sent) < sync <= r + N - 1)%nat /\ shm_inv N tx' rx mem sent r)).
Proof using HN HN16.
  intros I Hm. unfold SEQ_PAYLOAD_WORDS in Hm. do 8 (destruct m as [|? m]; try done).
  eexists. split; [reflexivity|]. intros d1 rxq0 rxmem. cbn [e_qp e_tx e_rx queue_tx shm_src shm_dst].
  destruct (shm_reset_inv N HN HN16 _ _ _ _ _ I) as [E I1]. unfold mbind, M_bind. rewrite E.
  destruct (shm_sync_spec N HN HN16 _ _ _ _ _ I1) as [(sync & E2 & Hs)|[E2 Hs]]; rewrite E2.
  - eexists _, _. split; [reflexivity|]. right. split; [done|]. exists sync. split; [done|]. split; [done|].
    split; [done|]. apply (shm_synced_inv N HN HN16); [done|lia].
  - eexists _, _. split; [reflexivity|]. left. split; [done|]. split; [done|lia].
Qed.
Lemma shm_send_word m p k v ps tx mem l :
  sm_slots mem !! p = Some l -> (k < length l)%nat -> exists a,
  shm_send_at m (Z.of_nat p) (Z.of_nat k) (v :: ps) = FAct a /\ forall d1 rxq0 rxmem,
  a (Endp (SQS (SQP tx d1) rxq0) mem rxmem) =
    (Ret (shm_send_at m (Z.of_nat p) (Z.of_nat (S k)) ps),
     Endp (SQS (SQP tx d1) rxq0) (SM (sm_pos mem) (<[p := <[k := v]> l]> (sm_slots mem))) rxmem).
Proof using Type.
  clear HN HN16. intros Hl Hk. eexists. split; [reflexivity|]. intros d1 rxq0 rxmem.
  cbn [e_qp e_tx e_rx queue_tx shm_src shm_dst]. unfold mbind, M_bind.
  rewrite (store_word_run _ _ _ _ _ l Hl Hk). cbn [mret M_ret]. by replace (Z.of_nat k + 1) with (Z.of_nat (S k)) by lia.
Qed.
Lemma shm_send_last m k tx rx mem sent r sync h :
  shm_inv N tx rx mem sent r -> sc_l_pos tx = Z.of_nat (length sent mod N) -> sc_next_sync tx = u64 (Z.of_nat sync) ->
  (S (length sent) < sync <= r + N - 1)%nat -> sm_slots mem !! (length sent mod N)%nat = Some (h :: m) ->
  length m = SEQ_PAYLOAD_WORDS -> exists a,
  shm_send_at m (Z.of_nat (length sent mod N)) k [] = FAct a /\ forall d1 rxq0 rxmem,
  exists tx' mem', a (Endp (SQS (SQP tx d1) rxq0) mem rxmem) =
    (Ret (FDone (ESent m)), Endp (SQS (SQP tx' d1) rxq0) mem' rxmem) /\ shm_inv N tx' rx mem' (sent ++ [m]) r.
Proof using HN HN16.
  intros I Hp Hsync Hb Hl Hm. eexists. split; [reflexivity|]. intros d1 rxq0 rxmem.
  cbn [e_qp e_tx e_rx queue_tx shm_src shm_dst]. unfold fmap, M_fmap.
  assert (Etx : sc_set_next_sync (u64 (Z.of_nat sync)) tx = tx) by (rewrite <- Hsync; by destruct tx).
  pose proof I as I2. rewrite <- Etx in I2.
  destruct (shm_publish_spec N HN HN16 tx rx mem sent r sync m h m I2 Hp Hb Hm) as (tx' & mem' & E & I');
    [by rewrite take_ge|].
  rewrite Etx in E. rewrite list_insert_id in E by done. destruct mem as [pos slots]. cbn [sm_pos sm_slots] in E.
  rewrite E. eexists _, _. split; [reflexivity|done].
Qed.

(** *** The actions of a receive *)
Lemma shm_recv_check tx rx mem sent r :
  shm_inv N tx rx mem sent r -> exists a, shm_code CRecv = FAct a /\ forall s1 txq0 txmem,
  a (Endp (SQS txq0 (SQP s1 rx)) txmem mem) =
    (if sent !! r is Some _ then Ret (shm_recv_at (Z.of_nat (r mod N)) 1 7 []) else Spin,
     Endp (SQS txq0 (SQP s1 rx)) txmem mem).
Proof using HN HN16.
  intros I. eexists. split; [reflexivity|]. intros s1 txq0 txmem. cbn [e_qp e_tx e_rx queue_rx shm_src shm_dst].
  destruct (shm_pending N HN HN16 _ _ _ _ _ I) as (v & Ev & Hd). unfold gets, mbind, M_bind. cbn [fst].
  rewrite Ev, Hd. case_bool_decide as D.
  - destruct (lookup_lt_is_Some_2 sent r D) as [m ->]. rewrite (si_rx_pos _ _ _ _ _ _ I). done.
  - rewrite lookup_ge_None_2 by lia. done.
Qed.
Lemma shm_recv_word p k n ps rx mem l v :
  sm_slots mem !! p = Some l -> l !! k = Some v -> exists a,
  shm_recv_at (Z.of_nat p) (Z.of_nat k) (S n) ps = FAct a /\ forall s1 txq0 txmem,
  a (Endp (SQS txq0 (SQP s1 rx)) txmem mem) =
    (Ret (shm_recv_at (Z.of_nat p) (Z.of_nat (S k)) n (ps ++ [v])), Endp (SQS txq0 (SQP s1 rx)) txmem mem).
Proof using Type.
  clear HN HN16. intros Hl Hv. eexists. split; [reflexivity|]. intros s1 txq0 txmem.
  cbn [e_qp e_tx e_rx queue_rx shm_src shm_dst]. unfold mbind, M_bind.
  rewrite (load_word_run _ _ _ _ _ _ Hl Hv). cbn [mret M_ret]. by replace (Z.of_nat k + 1) with (Z.of_nat (S k)) by lia.
Qed.
Lemma shm_recv_last p k m tx rx mem sent r :
  shm_inv N tx rx mem sent r -> (r < length sent)%nat -> length m = SEQ_PAYLOAD_WORDS -> exists a,
  shm_recv_at p k 0 m = FAct a /\ forall s1 txq0 txmem,
  exists rx' mem', a (Endp (SQS txq0 (SQP s1 rx)) txmem mem) =
    (Ret (FDone (ERecv m)), Endp (SQS txq0 (SQP s1 rx')) txmem mem') /\
    shm_inv N tx rx' mem' sent (S r) /\ sm_slots mem' = sm_slots mem.
Proof using HN HN16.
  intros I Hr Hm. eexists. split; [reflexivity|]. intros s1 txq0 txmem. cbn [e_qp e_tx e_rx queue_rx shm_src shm_dst].
  destruct (shm_consume_spec N HN HN16 _ _ _ _ _ I Hr) as (rx' & mem' & E & I').
  unfold fmap, M_fmap, mbind, M_bind. rewrite E. eexists _, _. split; [|split; [exact I'|]].
  - unfold SEQ_PAYLOAD_WORDS in Hm. do 8 (destruct m as [|? m]; try done).
  - unfold shm_consume, shm_reset_pos, on_ctx, modify, mbind, M_bind in E. injection E as <- <-. done.
Qed.

Lemma shm_send_at_act m p k ps : exists a, shm_send_at m p k ps = FAct a.
Proof using Type. destruct ps; by eexists. Qed.
Lemma shm_recv_at_act p k n ps : exists a, shm_recv_at p k n ps = FAct a.
Proof using Type. destruct n; by eexists. Qed.

Lemma forget_old tx rx mem sent r :
  shm_inv N tx rx mem sent r -> (S (length sent) < r + N - 1)%nat ->
  exists sent', length sent' = length sent /\ drop r sent' = drop r sent /\ stale sent' /\ shm_inv N tx rx mem sent' r.
Proof using HN.
  intros I Hroom. destruct (decide (N <= length sent)%nat) as [Hn|Hn].
  - exists (<[(length sent - N)%nat := []]> sent). split; [apply forget_length|]. split; [by rewrite drop_insert_lt by lia|].
    split; [|by apply shm_forget]. intros _. rewrite forget_length. apply list_lookup_insert_eq. lia.
  - exists sent. split; [done|]. split; [done|]. split; [|done]. intros ?. lia.
Qed.
Lemma receiver_drop sent sent' r rp :
  drop r sent' = drop r sent -> shm_receiver_at sent r rp -> shm_receiver_at sent' r rp.
Proof using Type.
  intros Hd. destruct rp as [f|]; [|done]. intros [->|(i & n & m & -> & Hin & Hm)]; [by left|right].
  exists i, n, m. split; [done|]. split; [done|].
  pose proof (f_equal (fun l => l !! 0%nat) Hd) as H. cbv beta in H. rewrite !lookup_drop, Nat.add_0_r in H. congruence.
Qed.
Lemma receiver_snoc sent m r rp : shm_receiver_at sent r rp -> shm_receiver_at (sent ++ [m]) r rp.
Proof using Type.
  destruct rp as [f|]; [|done]. intros [->|(i & n & m' & -> & Hin & Hm)]; [by left|right].
  exists i, n, m'. split; [done|]. split; [done|]. rewrite lookup_app_l; [done|by eapply lookup_lt_Some].
Qed.

Lemma shm_step_send : step_send_law shm_steps_inv (N - 2).
Proof using Type*.
  intros [[[tx d1] rxq0] mem rxmem] rxq m f rp q (sent & r & I & -> & Hw & [Hm Hf] & Hr).
  cbn [e_qp e_tx e_rx queue_tx shm_src] in *. pose proof (si_order _ _ _ _ _ _ I) as Ho.
  destruct Hf as [->|(i & l & sync & -> & Hi & Hp & Hsync & Hb & Hst & Hl & Hwords)].
  - destruct (shm_send_check tx _ mem sent r m I Hm) as (a & Ea & Ha).
    destruct (Ha d1 rxq0 rxmem) as (o & tx' & E & [(-> & I' & _)|(-> & sync & Hp & Hsync & Hb & I')]);
      eexists a, _, _; (split; [done|]); (split; [exact E|]); (split; [done|]); (split; [done|]).
    + exists sent, r. split; [done|]. split; [done|]. split; [done|]. split; [|done]. split; [done|by left].
    + destruct (shm_send_at_act m (Z.of_nat (length sent mod N)) 1 m) as [a' Ea']. rewrite Ea'. rewrite <- Ea'.
      destruct (forget_old _ _ _ _ _ I' ltac:(lia)) as (sent' & Hlen & Hdrop & Hst & I2).
      destruct (shm_line N HN HN16 _ _ _ _ _ (length sent mod N)%nat I2 (ring_lt N ltac:(lia) _)) as (h & d & El & _).
      exists sent', r. split; [done|]. split; [done|]. split; [done|].
      split; [|by apply (receiver_drop sent)]. split; [done|right]. exists 0%nat, (h :: d), sync. rewrite Hlen.
      split; [done|]. split; [lia|]. split; [done|]. split; [done|]. split; [done|]. split; [done|]. split; [done|]. intros; lia.
  - pose proof (Forall_lookup_1 _ _ _ _ (si_lines _ _ _ _ _ _ I) Hl) as Hl8. cbv beta in Hl8.
    unfold SEQ_PAYLOAD_WORDS in Hm. destruct (decide (i = 7)%nat) as [->|Hi7].
    + rewrite drop_ge by lia. destruct l as [|h l]; [done|].
      assert (l = m) as ->.
      { apply list_eq_same_length with 7%nat; [done|simpl in Hl8; lia|]. intros j x y Hj Hx Hy.
        specialize (Hwords j Hj). simpl in Hwords. congruence. }
      destruct (shm_send_last m (Z.of_nat 8) tx _ mem sent r sync h I Hp Hsync Hb Hl Hm) as (a & Ea & Ha).
      destruct (Ha d1 rxq0 rxmem) as (tx' & mem' & E & I'). eexists a, _, _. split; [done|]. split; [exact E|].
      split; [done|]. split; [done|]. split; [done|]. exists (drop r sent ++ [m]).
      split; [apply fifo_sent; rewrite length_drop; lia|]. exists (sent ++ [m]), r. split; [done|].
      split; [by rewrite drop_app_le by lia|]. split; [apply Forall_app; by split; [|constructor]|].
      split; [done|by apply receiver_snoc].
    + destruct (lookup_lt_is_Some_2 m i) as [v Hv]; [lia|]. rewrite (drop_S m v i Hv).
      destruct (shm_send_word m (length sent mod N) (S i) v (drop (S i) m) tx mem l Hl) as (a & Ea & Ha); [lia|].
      eexists a, _, _. split; [done|]. split; [apply Ha|]. split; [done|]. split; [done|].
      destruct (shm_send_at_act m (Z.of_nat (length sent mod N)) (Z.of_nat (S (S i))) (drop (S i) m)) as [a' Ea'].
      rewrite Ea'. rewrite <- Ea'. exists sent, r. split; [apply shm_scratch; try done; lia|]. split; [done|].
      split; [done|]. split; [|done]. split; [done|right]. exists (S i), (<[S i := v]> l), sync.
      split; [done|]. split; [lia|]. split; [done|]. split; [done|]. split; [done|]. split; [done|]. cbn [e_tx sm_slots].
      rewrite list_lookup_insert_eq by (by eapply lookup_lt_Some). split; [done|].
      intros j Hj. destruct (decide (j = i)) as [->|Hne]; [rewrite list_lookup_insert_eq by lia; done|].
      rewrite list_lookup_insert_ne by lia. apply Hwords. lia.
Qed.

Lemma sender_after_recv tx rx mem mem' sent r sp :
  shm_inv N tx rx mem sent r -> sm_slots mem' = sm_slots mem -> shm_sender_at tx mem sent r sp -> shm_sender_at tx mem' sent (S r) sp.
Proof using HN.
  intros I Hs. destruct sp as [[m f]|]; [|done].
  intros [Hm [->|(i & l & sync & -> & Hi & Hp & Hsync & Hb & Hst & Hl & Hwords)]]; (split; [done|]); [by left|right].
  exists i, l, sync. rewrite Hs. split; [done|]. split; [done|]. split; [done|]. split; [done|]. split; [lia|]. done.
Qed.
Lemma shm_step_recv : step_recv_law shm_steps_inv (N - 2).
Proof using Type*.
  intros [[txq0 [s1 rx]] txmem mem] txq f sp q (sent & r & I & -> & Hw & Hs & Hf).
  cbn [e_qp e_tx e_rx queue_rx shm_dst] in *. pose proof (si_order _ _ _ _ _ _ I) as Ho.
  destruct Hf as [->|(i & n & m & -> & Hin & Hm)].
  - destruct (shm_recv_check _ rx mem sent r I) as (a & Ea & Ha). eexists a, _, _. split; [done|].
    split; [apply Ha|]. split; [done|]. split; [done|]. destruct (sent !! r) as [m|] eqn:Em.
    + destruct (shm_recv_at_act (Z.of_nat (r mod N)) 1 7 []) as [a' Ea']. rewrite Ea'. rewrite <- Ea'.
      exists sent, r. split; [done|]. split; [done|]. split; [done|]. split; [done|]. right. by exists 0%nat, 7%nat, m.
    + exists sent, r. split; [done|]. split; [done|]. split; [done|]. split; [done|by left].
  - pose proof (lookup_lt_Some _ _ _ Hm) as Hlt. destruct (si_sync _ _ _ _ _ _ I) as (sync & _ & Hb).
    destruct (seq_read N ltac:(lia) ltac:(pow_consts; lia) _ _ _ r m (si_ring _ _ _ _ _ _ I) Hm) as (d & Hpl & Hdl & Ht); [lia|].
    rewrite (drop_lookup_cons _ _ _ Hm) in Hw |- *. apply Forall_cons in Hw as [Hmw Hw]. cbv beta in Hmw.
    unfold sm_pl in Hpl. apply fmap_Some in Hpl as (l & Hl & ->).
    rewrite take_ge in Ht by lia. unfold SEQ_PAYLOAD_WORDS in *. destruct n as [|n].
    + rewrite take_ge by lia.
      destruct (shm_recv_last (Z.of_nat (r mod N)) (Z.of_nat (S i)) m _ rx mem sent r I Hlt Hmw) as (a & Ea & Ha).
      destruct (Ha s1 txq0 txmem) as (rx' & mem' & E & I' & Hsl). eexists a, _, _. split; [done|]. split; [exact E|].
      split; [done|]. split; [done|]. split; [by intros []|]. exists (drop (S r) sent). split; [apply fifo_recv|].
      exists sent, (S r). split; [done|]. split; [done|]. split; [done|]. split; [by apply (sender_after_recv _ _ _ _ _ _ _ I)|done].
    + destruct (lookup_lt_is_Some_2 m i) as [v Hv]; [lia|].
      assert (Hlv : l !! S i = Some v) by (rewrite <- Ht, lookup_drop in Hv; done).
      destruct (shm_recv_word (r mod N) (S i) n (take i m) rx mem l v Hl Hlv) as (a & Ea & Ha).
      eexists a, _, _. split; [done|]. split; [apply Ha|]. split; [done|]. split; [done|].
      destruct (shm_recv_at_act (Z.of_nat (r mod N)) (Z.of_nat (S (S i))) n (take i m ++ [v])) as [a' Ea'].
      rewrite Ea'. rewrite <- Ea'. exists sent, r. split; [done|]. split; [by rewrite (drop_lookup_cons _ _ _ Hm)|].
      split; [by constructor|]. split; [done|]. right. exists (S i), n, m. rewrite (take_S_r _ _ v) by done.
      split; [done|]. split; [lia|done].
Qed.

(** *** Blocking *)
Lemma shm_send_blocks : send_blocks_law shm_steps_inv.
Proof using Type*.
  intros [[[tx d1] rxq0] mem rxmem] rxq m f rp q a (sent & r & I & -> & Hw & [Hm Hf] & Hr) Efa.
  cbn [e_qp e_tx e_rx queue_tx shm_src] in *.
  destruct Hf as [->|(i & l & sync & -> & Hi & Hp & Hsync & Hb & Hst & Hl & Hwords)].
  - destruct (shm_send_check tx _ mem sent r m I Hm) as (a' & Ea & Ha). rewrite Ea in Efa. injection Efa as <-.
    destruct (Ha d1 rxq0 rxmem) as (o & tx' & E & [(-> & _ & Hlt)|(-> & _)]); rewrite E; cbn [fst].
    + intros H. apply (f_equal length) in H. rewrite length_drop in H. simpl in H. lia.
    + by destruct (shm_send_at_act m (Z.of_nat (length sent mod N)) 1 m) as [a1 ->].
  - pose proof (Forall_lookup_1 _ _ _ _ (si_lines _ _ _ _ _ _ I) Hl) as Hl8. cbv beta in Hl8.
    unfold SEQ_PAYLOAD_WORDS in Hm. destruct (decide (i = 7)%nat) as [->|Hi7].
    + rewrite drop_ge in Efa by lia. destruct l as [|h l]; [done|].
      assert (l = m) as ->.
      { apply list_eq_same_length with 7%nat; [done|simpl in Hl8; lia|]. intros j x y Hj Hx Hy.
        specialize (Hwords j Hj). simpl in Hwords. congruence. }
      destruct (shm_send_last m (Z.of_nat 8) tx _ mem sent r sync h I Hp Hsync Hb Hl Hm) as (a' & Ea & Ha).
      rewrite Ea in Efa. injection Efa as <-. destruct (Ha d1 rxq0 rxmem) as (tx' & mem' & E & _). by rewrite E.
    + destruct (lookup_lt_is_Some_2 m i) as [v Hv]; [lia|]. rewrite (drop_S m v i Hv) in Efa.
      destruct (shm_send_word m (length sent mod N) (S i) v (drop (S i) m) tx mem l Hl) as (a' & Ea & Ha); [lia|].
      rewrite Ea in Efa. injection Efa as <-. rewrite Ha. cbn [fst].
      by destruct (shm_send_at_act m (Z.of_nat (length sent mod N)) (Z.of_nat (S (S i))) (drop (S i) m)) as [a1 ->].
Qed.
Lemma shm_recv_blocks : recv_blocks_law shm_steps_inv.
Proof using Type*.
  intros [[txq0 [s1 rx]] txmem mem] txq f sp q a (sent & r & I & -> & Hw & Hs & Hf) Efa.
  cbn [e_qp e_tx e_rx queue_rx shm_dst] in *.
  destruct Hf as [->|(i & n & m & -> & Hin & Hm)].
  - destruct (shm_recv_check _ rx mem sent r I) as (a' & Ea & Ha). rewrite Ea in Efa. injection Efa as <-. rewrite Ha.
    cbn [fst]. destruct (sent !! r) as [m|] eqn:Em; [|by apply drop_ge, lookup_ge_None_1].
    by destruct (shm_recv_at_act (Z.of_nat (r mod N)) 1 7 []) as [a1 ->].
  - pose proof (lookup_lt_Some _ _ _ Hm) as Hlt. pose proof (si_sync _ _ _ _ _ _ I) as (sync & _ & Hb).
    rewrite (drop_lookup_cons _ _ _ Hm) in Hw. apply Forall_cons in Hw as [Hmw Hw]. cbv beta in Hmw.
    destruct (seq_read N ltac:(lia) ltac:(pow_consts; lia) _ _ _ r m (si_ring _ _ _ _ _ _ I) Hm) as (d & Hpl & Hdl & Ht); [lia|].
    unfold sm_pl in Hpl. apply fmap_Some in Hpl as (l & Hl & ->). unfold SEQ_PAYLOAD_WORDS in *. destruct n as [|n].
    + rewrite take_ge in Efa by lia.
      destruct (shm_recv_last (Z.of_nat (r mod N)) (Z.of_nat (S i)) m _ rx mem sent r I Hlt Hmw) as (a' & Ea & Ha).
      rewrite Ea in Efa. injection Efa as <-. destruct (Ha s1 txq0 txmem) as (rx' & mem' & E & _). by rewrite E.
    + destruct (lookup_lt_is_Some_2 (drop 1 l) i) as [v Hv]; [lia|]. rewrite lookup_drop in Hv.
      destruct (shm_recv_word (r mod N) (S i) n (take i m) rx mem l v Hl Hv) as (a' & Ea & Ha).
      rewrite Ea in Efa. injection Efa as <-. rewrite Ha. cbn [fst].
      by destruct (shm_recv_at_act (Z.of_nat (r mod N)) (Z.of_nat (S (S i))) n (take i m ++ [v])) as [a1 ->].
Qed.

(** *** Without interruption the steps are the operations of [Shm] *)
Lemma store_steps_run {A} slot vs (next : frag sc_state A) q pos : forall k ls ls',
  line_stores ls slot k vs = Some ls' ->
  frag_run (store_steps slot k vs next) (q, SM pos ls) = frag_run next (q, SM pos ls').
Proof using Type.
  clear. induction vs as [|v vs IH]; intros k ls ls' H; [by injection H as ->|]. cbn [line_stores] in H.
  apply bind_Some in H as (ls1 & E & H). cbn [store_steps frag_run].
  unfold store_word, set_slots, mbind, M_bind. cbn [snd sm_slots fst sm_pos]. rewrite E. cbn [mret M_ret]. by apply IH.
Qed.
Lemma load_steps_run {A} slot (next : list Z -> frag sc_state A) q mem n : forall k ps vs,
  line_loads (sm_slots mem) slot k n = Some vs ->
  frag_run (load_steps slot k n ps next) (q, mem) = frag_run (next (ps ++ vs)) (q, mem).
Proof using Type.
  clear. induction n as [|n IH]; intros k ps vs H; cbn [line_loads] in H.
  - injection H as <-. by rewrite app_nil_r.
  - apply bind_Some in H as (v & E & H). apply bind_Some in H as (vs' & E' & H). injection H as <-.
    cbn [load_steps frag_run]. unfold load_word, mbind, M_bind. cbn [snd]. rewrite E. cbn [defined mret M_ret].
    rewrite (IH _ _ vs' E'). by rewrite <- app_assoc.
Qed.
Lemma shm_send_whole tx rx mem sent r m d1 rxq0 rxmem :
  shm_inv N tx rx mem sent r -> length m = SEQ_PAYLOAD_WORDS ->
  frag_run (shm_code (CSend m)) (Endp (SQS (SQP tx d1) rxq0) mem rxmem) =
    ((fun _ => ESent m) <$> smlt_shm_send (msg_of m)) (Endp (SQS (SQP tx d1) rxq0) mem rxmem).
Proof using HN HN16.
  intros I Hm. unfold SEQ_PAYLOAD_WORDS in Hm. do 8 (destruct m as [|? m]; try done).
  match goal with |- context [CSend [?a; ?b; ?c; ?d; ?e; ?f; ?g]] => set (ps := [a; b; c; d; e; f; g]) end.
  change (shm_code (CSend ps)) with (frag_bind (at_stx (shm_q_send_steps ps)) (fun _ => FDone (ESent ps))).
  rewrite frag_run_bind. unfold mbind at 1, M_bind at 1. rewrite at_stx_run.
  assert (E : frag_run (shm_q_send_steps ps) (tx, mem) = (shm_q_send z z0 z1 z2 z3 z4 z5) (tx, mem)).
  { destruct (shm_reset_inv N HN HN16 _ _ _ _ _ I) as [E I1]. unfold shm_q_send_steps, shm_q_send. cbn [frag_run].
    unfold mbind, M_bind. rewrite E. destruct (shm_sync_spec N HN HN16 _ _ _ _ _ I1) as [(sync & E2 & Hs)|[E2 Hs]]; rewrite E2; [|done].
    pose proof (shm_synced_inv N HN HN16 _ _ _ _ _ sync I1 ltac:(lia)) as I2.
    destruct (shm_line N HN HN16 _ _ _ _ _ (length sent mod N)%nat I2 (ring_lt N ltac:(lia) _)) as (h & d & El & Hd & _).
    cbn [gets mret M_ret fst sc_l_pos sc_set_l_pos sc_set_next_sync]. destruct mem as [pos slots].
    rewrite (store_steps_run _ _ _ _ _ _ _ _ (line_stores_run slots _ h d ps El ltac:(done))), frag_run_act.
    by rewrite (store_words_run _ (SM pos slots) _ h d ps El). }
  unfold on_stx at 1, zoom at 1. cbn [e_qp e_tx e_rx queue_tx queue_rx shm_src shm_dst]. rewrite E.
  unfold smlt_shm_send, on_stx, zoom, fmap, M_fmap, mbind, M_bind. simpl.
  by destruct (shm_q_send _ _ _ _ _ _ _ _) as [[]].
Qed.
Lemma shm_recv_whole tx rx mem sent r txq0 s1 txmem :
  shm_inv N tx rx mem sent r ->
  frag_run (shm_code CRecv) (Endp (SQS txq0 (SQP s1 rx)) txmem mem) =
    ((fun out : Z * smlt_msg => ERecv (msg_data out.2)) <$> smlt_shm_recv (msg_buf 7)) (Endp (SQS txq0 (SQP s1 rx)) txmem mem).
Proof using HN HN16.
  intros I. cbn [shm_code]. rewrite frag_run_bind. unfold mbind at 1, M_bind at 1. rewrite at_srx_run.
  assert (E : frag_run shm_q_recv_steps (rx, mem) = shm_q_recv (rx, mem)).
  { destruct (shm_pending N HN HN16 _ _ _ _ _ I) as (v & Ev & Hd). unfold shm_q_recv_steps, shm_q_recv, shm_receive_non_blocking.
    cbn [frag_run]. unfold gets, mbind, M_bind. cbn [fst]. rewrite Ev. destruct (sc_next_seq rx =? v); [|done].
    cbn [mret M_ret]. rewrite (si_rx_pos _ _ _ _ _ _ I).
    destruct (shm_line N HN HN16 _ _ _ _ _ (r mod N)%nat I (ring_lt N ltac:(lia) _)) as (h & d & El & Hl & _).
    rewrite (load_words_run _ _ _ _ _ El Hl), (load_steps_run _ _ _ _ _ _ _ d);
      [|rewrite <- Hl; by apply (line_loads_run _ _ h)].
    unfold consume_step. rewrite frag_run_act. unfold mbind, M_bind. cbn [app]. by destruct (shm_consume (rx, mem)) as [[]]. }
  unfold on_srx at 1, zoom at 1. cbn [e_qp e_tx e_rx queue_tx queue_rx shm_src shm_dst]. rewrite E.
  unfold smlt_shm_recv, on_srx, zoom, fmap, M_fmap, mbind, M_bind. cbn [e_qp e_tx e_rx queue_tx queue_rx shm_src shm_dst].
  destruct (shm_q_recv (rx, mem)) as [[ps| | |] t]; [|reflexivity..].
  unfold recv_result. change (msg_data (msg_buf 7)) with (replicate 7 0). destruct (copy_words ps 7 0 (replicate 7 0)); reflexivity.
Qed.
End direction.

(** ** The length of a call *)
Lemma store_steps_ends {A} slot vs k (next : frag sc_state A) : forall i,
  frag_ends True k next -> frag_ends True (length vs + k) (store_steps slot i vs next).
Proof.
  induction vs as [|v vs IH]; intros i H; [done|]. intros s. unfold mbind, M_bind.
  destruct (store_word slot i v s) as [[[]| | |] s']; try done. by apply IH.
Qed.
Lemma load_steps_ends {A} slot n k (next : list Z -> frag sc_state A) : forall i ps,
  (forall l, frag_ends True k (next l)) -> frag_ends True (n + k) (load_steps slot i n ps next).
Proof.
  induction n as [|n IH]; intros i ps H; [apply H|]. intros s. unfold mbind, M_bind.
  destruct (load_word slot i s) as [[v| | |] s']; try done. by apply IH.
Qed.
Lemma act_ends {S A} (m : M S A) : frag_ends True 1 (act m).
Proof. intros s. unfold fmap, M_fmap. by destruct (m s) as [[]]. Qed.
Lemma q_send_ends ps : length ps = 7%nat -> frag_ends True 9 (shm_q_send_steps ps).
Proof.
  intros Hl s. unfold mbind, M_bind. destruct (shm_reset_pos s) as [[[]| | |] s1]; try done.
  destruct (shm_sync s1) as [[[]| | |] s2]; try done. cbn [gets mret M_ret]. change 8%nat with (7 + 1)%nat. rewrite <- Hl.
  apply store_steps_ends, act_ends.
Qed.
Lemma q_recv_ends : frag_ends True 9 shm_q_recv_steps.
Proof.
  intros s. unfold gets, mbind, M_bind. destruct (load_word (sc_l_pos s.1) 0 s) as [[v| | |] s1]; try done.
  destruct (sc_next_seq s.1 =? v); [|done]. apply (load_steps_ends _ 7 1). intros l. apply act_ends.
Qed.
Lemma shm_code_ends c : frag_ends True 10 (shm_code c).
Proof.
  destruct c as [m|].
  - cbn [shm_code]. unfold shm_send_steps. destruct (_ <=? _); [|done].
    destruct (mapM (arr_get m) [0; 1; 2; 3; 4; 5; 6]) as [ps|] eqn:E; [|done].
    eapply frag_ends_le; [apply (frag_ends_bind _ 9 _ 0); [|done]|lia]. apply frag_ends_zoom, q_send_ends.
    apply length_mapM in E. by rewrite <- E.
  - apply (frag_ends_bind _ 9 _ 1); [apply frag_ends_zoom, q_recv_ends|]. intros ps. unfold recv_result.
    by destruct (copy_words _ _ _ _).
Qed.

(** ** Properties *)

Lemma shm_runs numa node_of ctx_ok src dst bf bb (todo : side -> list (cmd (list Z))) sched :
  (forall n, ctx_ok n = true) ->
  numa sizeof_SHM_SIZE (node_of dst) = Some bf -> sb_mem bf = SM 0 (zero_lines 63) ->
  numa sizeof_SHM_SIZE (node_of src) = Some bb -> sb_mem bb = SM 0 (zero_lines 63) ->
  (forall d, Forall (valid_cmd (valid := fun m => length m = SEQ_PAYLOAD_WORDS)) (todo d)) ->
  exists f b s',
    shm_queuepair_create numa node_of true ctx_ok src dst = Ret (f, Some bf) /\
    shm_queuepair_create numa node_of true ctx_ok dst src = Ret (b, Some bb) /\
    steps_run shm_code (steps_start (mk_shm_pair f b (sb_mem bf) (sb_mem bb)) todo) sched = Some s' /\
    (forall d, exists q, fifo_run 61 [] (dir_trace d (ss_trace s')) q /\
      sent_of (dir_trace d (ss_trace s')) = recv_of (dir_trace d (ss_trace s')) ++ q /\ (length q <= 61)%nat) /\
    steps_ok (shm_steps_inv 63) (fun m => length m = SEQ_PAYLOAD_WORDS) (steps_start (mk_shm_pair f b (sb_mem bf) (sb_mem bb)) todo) (fun _ => []).
Proof.
  intros Hc Hf Hfm Hb Hbm Htodo. unfold shm_queuepair_create, shm_init_context. rewrite Hf, Hb, !Hc, Hfm, Hbm. simpl.
  set (f := SQP (shm_ctx_init (sb_addr bf)) (shm_ctx_init (sb_addr bf))).
  set (b := SQP (shm_ctx_init (sb_addr bb)) (shm_ctx_init (sb_addr bb))).
  assert (H3 : (3 <= 63)%nat) by lia. assert (H16 : Z.of_nat 63 <= 65535) by lia.
  assert (H0 : steps_ok (shm_steps_inv 63) (fun m => length m = SEQ_PAYLOAD_WORDS)
    (steps_start (mk_shm_pair f b (SM 0 (zero_lines 63)) (SM 0 (zero_lines 63))) todo) (fun _ => [])).
  { split; [|done]. intros d. destruct d; exists [], 0%nat; (split; [apply shm_fresh_inv|done]). }
  destruct (steps_refine shm_code (shm_steps_inv 63) (63 - 2) _ (shm_step_send 63 H3 H16)
    (shm_step_recv 63 H3 H16) (shm_start_send 63) (shm_start_recv 63) sched
    (steps_start (mk_shm_pair f b (SM 0 (zero_lines 63)) (SM 0 (zero_lines 63))) todo) (fun _ => []) H0)
    as (s' & Qs & new & E & _ & T & R).
  exists f, b, s'. split; [done|]. split; [done|]. split; [done|]. split; [|done]. intros d. exists (Qs d). simpl in T. rewrite T.
  specialize (R d). split; [done|]. split; [by rewrite <- (fifo_run_order _ _ _ _ R)|].
  apply (fifo_run_cap _ _ _ _ R). simpl. lia.
Qed.

(** [C4] Seven-word messages are never torn, lost or reordered however the two threads'
    accesses to the ring interleave: from creation on, with one thread at each end, no
    access is undefined, and each direction is a FIFO of capacity 61 whose calls
    take effect one at a time; a call that spins is not in the trace until it is over. *)
Theorem shm_interleaved numa node_of ctx_ok src dst bf bb (todo : side -> list (cmd (list Z))) sched :
  (forall n, ctx_ok n = true) ->
  numa sizeof_SHM_SIZE (node_of dst) = Some bf -> sb_mem bf = SM 0 (zero_lines 63) ->
  numa sizeof_SHM_SIZE (node_of src) = Some bb -> sb_mem bb = SM 0 (zero_lines 63) ->
  (forall d, Forall (valid_cmd (valid := fun m => length m = SEQ_PAYLOAD_WORDS)) (todo d)) ->
  exists f b s',
    shm_queuepair_create numa node_of true ctx_ok src dst = Ret (f, Some bf) /\
    shm_queuepair_create numa node_of true ctx_ok dst src = Ret (b, Some bb) /\
    steps_run shm_code (steps_start (mk_shm_pair f b (sb_mem bf) (sb_mem bb)) todo) sched = Some s' /\
    forall d, exists q, fifo_run 61 [] (dir_trace d (ss_trace s')) q /\
      sent_of (dir_trace d (ss_trace s')) = recv_of (dir_trace d (ss_trace s')) ++ q /\ (length q <= 61)%nat.
Proof.
  intros Hc Hf Hfm Hb Hbm Htodo.
  destruct (shm_runs numa node_of ctx_ok src dst bf bb todo sched Hc Hf Hfm Hb Hbm Htodo) as (f & b & s' & E1 & E2 & E & H & _).
  by exists f, b, s'.
Qed.
Lemma shm_interleaved_witness :
  exists f b s',
    shm_queuepair_create numa_pages (fun c => c) true (fun _ => true) 0 1 = Ret (f, Some (SB 8192 (SM 0 (zero_lines 63)))) /\
    shm_queuepair_create numa_pages (fun c => c) true (fun _ => true) 1 0 = Ret (b, Some (SB 4096 (SM 0 (zero_lines 63)))) /\
    steps_run shm_code (steps_start (mk_shm_pair f b (SM 0 (zero_lines 63)) (SM 0 (zero_lines 63)))
      (fun d => if decide (d = Src) then [CSend (replicate 7 1)] else [CRecv])) [Src; Dst; Src; Src; Dst; Dst; Src] = Some s' /\
    forall d, exists q, fifo_run 61 [] (dir_trace d (ss_trace s')) q /\
      sent_of (dir_trace d (ss_trace s')) = recv_of (dir_trace d (ss_trace s')) ++ q /\ (length q <= 61)%nat.
Proof.
  apply (shm_interleaved numa_pages (fun c => c) (fun _ => true) 0 1
    (SB 8192 (SM 0 (zero_lines 63))) (SB 4096 (SM 0 (zero_lines 63)))); try done.
  intros []; by repeat constructor.
Defined.

(** [C8] No wake-up is lost: when one thread sends some messages and the other receives as
    many, both calls blocking, every schedule in which both threads keep running (24 rounds
    per message, in each of which either thread runs at least once, between any accesses
    of the other) ends with all calls returned and exactly the messages sent received. *)
Theorem shm_completes numa node_of ctx_ok src dst bf bb ms scheds :
  (forall n, ctx_ok n = true) ->
  numa sizeof_SHM_SIZE (node_of dst) = Some bf -> sb_mem bf = SM 0 (zero_lines 63) ->
  numa sizeof_SHM_SIZE (node_of src) = Some bb -> sb_mem bb = SM 0 (zero_lines 63) ->
  Forall (fun m => length m = SEQ_PAYLOAD_WORDS) ms ->
  Forall (fun l => Src ∈ l /\ Dst ∈ l) scheds -> (24 * length ms <= length scheds)%nat ->
  exists f b s',
    shm_queuepair_create numa node_of true ctx_ok src dst = Ret (f, Some bf) /\
    shm_queuepair_create numa node_of true ctx_ok dst src = Ret (b, Some bb) /\
    steps_run shm_code (steps_start (mk_shm_pair f b (sb_mem bf) (sb_mem bb))
      (fun d => match d with Src => CSend <$> ms | Dst => (fun _ => CRecv) <$> ms end)) (concat scheds) = Some s' /\
    finished s' /\ sent_of (dir_trace Src (ss_trace s')) = ms /\ recv_of (dir_trace Src (ss_trace s')) = ms.
Proof.
  intros Hc Hf Hfm Hb Hbm Hms Hv Hn.
  set (todo := fun d => match d with Src => CSend <$> ms | Dst => (fun _ => CRecv) <$> ms end).
  destruct (shm_runs numa node_of ctx_ok src dst bf bb todo (concat scheds) Hc Hf Hfm Hb Hbm) as (f & b & s' & E1 & E2 & E & _ & Hok).
  { intros d. destruct d; apply Forall_fmap; [done|by apply Forall_true]. }
  exists f, b, s'. split; [done|]. split; [done|]. split; [done|].
  assert (H3 : (3 <= 63)%nat) by lia. assert (H16 : Z.of_nat 63 <= 65535) by lia.
  by apply (one_way_completes shm_code (shm_steps_inv 63) (63 - 2) _ (shm_step_send 63 H3 H16) (shm_step_recv 63 H3 H16)
    (shm_start_send 63) (shm_start_recv 63) (shm_send_blocks 63 H3 H16) (shm_recv_blocks 63 H3 H16) 10 shm_code_ends
    (mk_shm_pair f b (sb_mem bf) (sb_mem bb)) ms scheds s' (fun _ => [])).
Qed.
Lemma shm_completes_witness :
  exists f b s',
    shm_queuepair_create numa_pages (fun c => c) true (fun _ => true) 0 1 = Ret (f, Some (SB 8192 (SM 0 (zero_lines 63)))) /\
    shm_queuepair_create numa_pages (fun c => c) true (fun _ => true) 1 0 = Ret (b, Some (SB 4096 (SM 0 (zero_lines 63)))) /\
    steps_run shm_code (steps_start (mk_shm_pair f b (SM 0 (zero_lines 63)) (SM 0 (zero_lines 63)))
      (fun d => match d with Src => CSend <$> [replicate 7 1] | Dst => (fun _ => CRecv) <$> [replicate 7 1] end))
      (concat (replicate 24 [Dst; Src])) = Some s' /\
    finished s' /\ sent_of (dir_trace Src (ss_trace s')) = [replicate 7 1] /\ recv_of (dir_trace Src (ss_trace s')) = [replicate 7 1].
Proof.
  apply (shm_completes numa_pages (fun c => c) (fun _ => true) 0 1
    (SB 8192 (SM 0 (zero_lines 63))) (SB 4096 (SM 0 (zero_lines 63))) [replicate 7 1] (replicate 24 [Dst; Src])); try done.
  - by repeat constructor.
  - apply Forall_replicate. split; repeat constructor.
Defined.
