(* ===== verification/Swmr.v ===== *)
(** Single-writer multiple-reader queue ([inc/backends/shm/swmr.h],
    [src/backends/shm/swmr_queue.c]): one ring, a position cell per reader, the
    writer synchronises with the slowest reader when it reaches the point it last
    computed. *)
From S2P Require Import Prelude Errors Message SeqRing.

(** ** Data *)
Definition SWMRQ_SIZE : Z := 64.
Definition SWMR_CACHELINE_SIZE : Z := 64.

(** [struct swmr_context]; the first three are addresses. *)
Record swmr_context := WC {
  wc_shm : Z;
  wc_data : Z;
  wc_header : Z;
  wc_num_readers : Z;   (** uint8_t *)
  wc_id : Z;            (** uint8_t *)
  wc_num_slots : Z;
  wc_l_pos : Z;         (** uint16_t *)
  wc_next_sync : Z;
  wc_next_seq : Z;
}.

(** [struct swmr_queue] *)
Record swmr_queue := WQ { wq_src : swmr_context; wq_dst : list swmr_context }.

(** The shared block: the readers' position cells, the data lines, and the header
    lines, which are the data lines unless [sep_header]. *)
Record swmr_mem := WM {
  wm_pos : list Z;
  wm_data : list (list Z);
  wm_header : list (list Z);
}.

Definition wc_state : Type := swmr_context * swmr_mem.

Definition wc_set_l_pos (l : Z) (q : swmr_context) : swmr_context :=
  WC (wc_shm q) (wc_data q) (wc_header q) (wc_num_readers q) (wc_id q) (wc_num_slots q)
    l (wc_next_sync q) (wc_next_seq q).
Definition wc_set_next_sync (v : Z) (q : swmr_context) : swmr_context :=
  WC (wc_shm q) (wc_data q) (wc_header q) (wc_num_readers q) (wc_id q) (wc_num_slots q)
    (wc_l_pos q) v (wc_next_seq q).
Definition wc_set_next_seq (v : Z) (q : swmr_context) : swmr_context :=
  WC (wc_shm q) (wc_data q) (wc_header q) (wc_num_readers q) (wc_id q) (wc_num_slots q)
    (wc_l_pos q) (wc_next_sync q) v.
Definition on_wc (f : swmr_context -> swmr_context) : M wc_state unit :=
  modify (fun s => (f s.1, s.2)).

(** ** Creation *)

(** [num_readers] and [id] are 8-bit parameters, [queue_size] is 32-bit. *)
Definition swmr_init_context (shm num_readers0 id0 : Z) (sep_header : bool) (queue_size : Z)
  : swmr_context :=
  let num_readers := u8 num_readers0 in
  let num_slots := u32 (queue_size - (num_readers + 1)) in
  let data := u64 (shm + (num_readers + 1) * SWMR_CACHELINE_SIZE) in
  let header := if sep_header then u64 (data + u32 (queue_size * SWMR_CACHELINE_SIZE)) else data in
  WC shm data header num_readers (u8 id0) num_slots 0 (u64 (num_slots - 1)) 1.

(** [while ((queue_size - (count+1)) < 48) queue_size += SWMRQ_SIZE;] *)
Fixpoint swmr_queue_size (fuel : nat) (queue_size count : Z) : option Z :=
  match fuel with
  | O => None
  | S fuel' =>
      if u32 (queue_size - (count + 1)) <? 48
      then swmr_queue_size fuel' (u32 (queue_size + SWMRQ_SIZE)) count
      else Some queue_size
  end.

Definition swmr_lines (n : Z) : list (list Z) := replicate (Z.to_nat n) (replicate 8 0).

(** The block of [queue_size] (or twice that) zeroed cache lines as the contexts
    see it: [num_readers + 1] position lines, then the data lines. *)
Definition swmr_block (num_readers queue_size : Z) (sep_header : bool) : swmr_mem :=
  WM (replicate (Z.to_nat (num_readers + 1)) 0)
     (swmr_lines (queue_size - (num_readers + 1)))
     (if sep_header then swmr_lines (queue_size - (num_readers + 1)) else []).

Section create.
(** The address of a fresh zeroed block of so many bytes. *)
Context (alloc_on_node : Z -> option Z).

Definition swmr_queue_create (fuel : nat) (count : Z) (sep_header : bool)
  : outcome (swmr_queue * swmr_mem) :=
  match swmr_queue_size fuel SWMRQ_SIZE count with
  | None => Spin
  | Some queue_size =>
    match alloc_on_node (u32 (queue_size * SWMR_CACHELINE_SIZE * if sep_header then 2 else 1)) with
    | None => Panic
    | Some shm =>
      let src := swmr_init_context shm count 0 sep_header queue_size in
      match alloc_on_node (80 * count) (* count contexts *) with
      | None => Panic
      | Some _ =>
        let dst := (fun i => swmr_init_context shm count (Z.of_nat i) sep_header queue_size)
                     <$> seq 0 (Z.to_nat count) in
        Ret (WQ src dst, swmr_block (u8 count) queue_size sep_header)
      end
    end
  end.
End create.

(** ** Words of the data and header lines *)
Definition sep_header_of (q : swmr_context) : bool := negb (wc_header q =? wc_data q).

Definition load_data (i k : Z) : M wc_state Z := fun s => defined (line_load (wm_data s.2) i k) s.
Definition load_datas (i k : Z) (n : nat) : M wc_state (list Z) := fun s =>
  defined (line_loads (wm_data s.2) i k n) s.
Definition load_header (i : Z) : M wc_state Z := fun s =>
  defined (line_load (if sep_header_of s.1 then wm_header s.2 else wm_data s.2) i 0) s.

(** An update of the data lines. *)
Definition set_data (f : list (list Z) -> option (list (list Z))) : M wc_state unit := fun s =>
  match f (wm_data s.2) with
  | Some ls => (Ret tt, (s.1, WM (wm_pos s.2) ls (wm_header s.2)))
  | None => (Undef, s)
  end.
Definition store_data (i k v : Z) : M wc_state unit := set_data (fun ls => line_store ls i k v).
Definition store_datas (i k : Z) (vs : list Z) : M wc_state unit :=
  set_data (fun ls => line_stores ls i k vs).
Definition store_header (i v : Z) : M wc_state unit := fun s =>
  if sep_header_of s.1 then
    match line_store (wm_header s.2) i 0 v with
    | Some ls => (Ret tt, (s.1, WM (wm_pos s.2) (wm_data s.2) ls))
    | None => (Undef, s)
    end
  else store_data i 0 v s.

(** ** Send *)

(** [min] over [readers_pos[i].pos], starting at 0xFFFFFFFF. *)
Fixpoint swmr_min (n : nat) (i : Z) (pos : list Z) (min : Z) : option Z :=
  match n with
  | O => Some min
  | S n' =>
      match arr_get pos i with
      | None => None
      | Some p => swmr_min n' (i + 1) pos (if p <? min then p else min)
      end
  end.

Definition swmr_get_next_sync : M wc_state Z :=
  q ← gets fst; m ← gets snd;
  min ← defined (swmr_min (Z.to_nat (wc_num_readers q)) 0 (wm_pos m) 4294967295);
  mret (u64 (min + u64 (wc_num_slots q - 1))).

Definition swmr_can_send : M wc_state bool :=
  q ← gets fst;
  if wc_next_seq q =? wc_next_sync q then
    next_sync ← swmr_get_next_sync;
    mret (wc_next_sync q <? next_sync)
  else mret true.

Definition swmr_sync : M wc_state unit :=
  q ← gets fst;
  if wc_next_seq q =? wc_next_sync q then
    next_sync ← swmr_get_next_sync;
    if wc_next_seq q =? next_sync then spin else on_wc (wc_set_next_sync next_sync)
  else mret tt.

Definition swmr_reset_pos : M wc_state unit :=
  on_wc (fun q => wc_set_l_pos (lpos_reset (wc_l_pos q) (wc_num_slots q)) q).

(** [next_seq++; l_pos++;] *)
Definition swmr_step : M wc_state unit :=
  _ ← on_wc (fun q => wc_set_next_seq (u64 (wc_next_seq q + 1)) q);
  on_wc (fun q => wc_set_l_pos (u16 (wc_l_pos q + 1)) q).

Definition swmr_send_raw (p1 p2 p3 p4 p5 p6 p7 : Z) : M wc_state unit :=
  _ ← swmr_reset_pos;
  _ ← swmr_sync;
  q ← gets fst;
  _ ← store_datas (wc_l_pos q) 1 [p1; p2; p3; p4; p5; p6; p7];
  _ ← store_header (wc_l_pos q) (wc_next_seq q);
  swmr_step.

Definition swmr_send_raw0 : M wc_state unit :=
  _ ← swmr_reset_pos;
  _ ← swmr_sync;
  q ← gets fst;
  _ ← store_data (wc_l_pos q) 0 (wc_next_seq q);
  swmr_step.

(** ** Receive *)
Definition swmr_can_receive : M wc_state bool :=
  q ← gets fst;
  v ← load_data (wc_l_pos q) 0;
  mret (wc_next_seq q =? v).

(** Advance, and publish the reader position when bit 5 of [next_seq] is clear. *)
Definition swmr_consume : M wc_state unit := 
  _ ← on_wc (fun q => wc_set_l_pos (u16 (wc_l_pos q + 1)) q);
  _ ← on_wc (fun q => wc_set_next_seq (u64 (wc_next_seq q + 1)) q);
  _ ← swmr_reset_pos;
  q ← gets fst; m ← gets snd;
  if Z.land (wc_next_seq q) 32 =? 0 then
    pos ← defined (arr_set (wm_pos m) (wc_id q) (u64 (wc_next_seq q - 1)));
    modify (fun s => (s.1, WM pos (wm_data s.2) (wm_header s.2)))
  else mret tt.

Definition swmr_receive_non_blocking : M wc_state (option (list Z)) :=
  q ← gets fst;
  v ← load_header (wc_l_pos q);
  if wc_next_seq q =? v then
    ps ← load_datas (wc_l_pos q) 1 7;
    _ ← swmr_consume;
    mret (Some ps)
  else mret None.

Definition swmr_receive_non_blocking0 : M wc_state bool :=
  q ← gets fst;
  v ← load_data (wc_l_pos q) 0;
  if wc_next_seq q =? v then _ ← swmr_consume; mret true else mret false.

Definition swmr_receive_raw : M wc_state (list Z) :=
  o ← swmr_receive_non_blocking;
  match o with Some ps => mret ps | None => spin end.

Definition swmr_receive_raw0 : M wc_state unit :=
  b ← swmr_receive_non_blocking0;
  if b : bool then mret tt else spin.

(** ** Message level *)
Definition smlt_swmr_send (msg : smlt_msg) : M wc_state Z :=
  if words msg <=? 7 then
    p1 ← defined (arr_get (msg_data msg) 0); p2 ← defined (arr_get (msg_data msg) 1);
    p3 ← defined (arr_get (msg_data msg) 2); p4 ← defined (arr_get (msg_data msg) 3);
    p5 ← defined (arr_get (msg_data msg) 4); p6 ← defined (arr_get (msg_data msg) 5);
    p7 ← defined (arr_get (msg_data msg) 6);
    _ ← swmr_send_raw p1 p2 p3 p4 p5 p6 p7;
    mret (err_value SMLT_SUCCESS)
  else mret (err_value SMLT_SUCCESS).

Definition smlt_swmr_send0 : M wc_state Z := _ ← swmr_send_raw0; mret (err_value SMLT_SUCCESS).

Definition smlt_swmr_recv (msg : smlt_msg) : M wc_state (Z * smlt_msg) :=
  if words msg <=? 7 then
    ps ← swmr_receive_raw;
    d ← defined (copy_words ps 7 0 (msg_data msg));
    mret (err_value SMLT_SUCCESS, Msg (words msg) (bufsize msg) d)
  else mret (err_value SMLT_SUCCESS, msg).

Definition smlt_swmr_recv0 : M wc_state Z := _ ← swmr_receive_raw0; mret (err_value SMLT_SUCCESS).

(** ** The queue as a system: one writer, its readers, the shared block *)
Record swmr_sys := WS { ws_src : swmr_context; ws_dst : list swmr_context; ws_mem : swmr_mem }.

Inductive swmr_cmd := WSend (m : list Z) | WRecv (i : nat).
Inductive swmr_event :=
| WSent (m : list Z)             (** the send completed *)
| WBlocked                       (** the send does not return in this state *)
| WGot (i : nat) (m : list Z)    (** reader [i] received [m] *)
| WNothing (i : nat).            (** reader [i] has nothing to receive *)

Definition swmr_send_cmd (m : list Z) (s : swmr_sys) : outcome swmr_event * swmr_sys :=
  match smlt_swmr_send (msg_of m) (ws_src s, ws_mem s) with
  | (Ret _, (q, mem)) => (Ret (WSent m), WS q (ws_dst s) mem)
  | (Spin, (q, mem)) => (Ret WBlocked, WS q (ws_dst s) mem)
  | (Panic, (q, mem)) => (Panic, WS q (ws_dst s) mem)
  | (Undef, (q, mem)) => (Undef, WS q (ws_dst s) mem)
  end.

Definition swmr_recv_cmd (i : nat) (s : swmr_sys) : outcome swmr_event * swmr_sys :=
  match ws_dst s !! i with
  | None => (Undef, s)
  | Some c =>
    match swmr_receive_non_blocking (c, ws_mem s) with
    | (Ret o, (q, mem)) =>
        (Ret (match o with Some m => WGot i m | None => WNothing i end),
         WS (ws_src s) (<[i := q]> (ws_dst s)) mem)
    | (Spin, (q, mem)) => (Spin, WS (ws_src s) (<[i := q]> (ws_dst s)) mem)
    | (Panic, (q, mem)) => (Panic, WS (ws_src s) (<[i := q]> (ws_dst s)) mem)
    | (Undef, (q, mem)) => (Undef, WS (ws_src s) (<[i := q]> (ws_dst s)) mem)
    end
  end.

Definition swmr_exec_cmd (c : swmr_cmd) : M swmr_sys swmr_event :=
  match c with WSend m => swmr_send_cmd m | WRecv i => swmr_recv_cmd i end.
Definition swmr_exec (cs : list swmr_cmd) : M swmr_sys (list swmr_event) := mapM swmr_exec_cmd cs.

(** ** The specification: a broadcast channel

    [sent] and, for each reader, how many messages it has received.  A reader may
    lag by at most [cap] messages; a send may block when some reader lags by at
    least [low]. *)
Inductive bcast_step (cap low : nat) :
  list (list Z) * list nat -> swmr_event -> list (list Z) * list nat -> Prop :=
| bcast_sent sent rs m :
    (forall i r, rs !! i = Some r -> (length sent < r + cap)%nat) ->
    bcast_step cap low (sent, rs) (WSent m) (sent ++ [m], rs)
| bcast_blocked sent rs i r :
    rs !! i = Some r -> (r + low <= length sent)%nat ->
    bcast_step cap low (sent, rs) WBlocked (sent, rs)
| bcast_got sent rs i r m :
    rs !! i = Some r -> sent !! r = Some m ->
    bcast_step cap low (sent, rs) (WGot i m) (sent, <[i := S r]> rs)
| bcast_nothing sent rs i :
    rs !! i = Some (length sent) ->
    bcast_step cap low (sent, rs) (WNothing i) (sent, rs).

Inductive bcast_run (cap low : nat) :
  list (list Z) * list nat -> list swmr_event -> list (list Z) * list nat -> Prop :=
| bcast_run_nil b : bcast_run cap low b [] b
| bcast_run_cons b e b' tr b'' :
    bcast_step cap low b e b' -> bcast_run cap low b' tr b'' -> bcast_run cap low b (e :: tr) b''.

Definition bcast_sent_of (tr : list swmr_event) : list (list Z) :=
  omap (fun e => match e with WSent m => Some m | _ => None end) tr.
Definition bcast_got_of (i : nat) (tr : list swmr_event) : list (list Z) :=
  omap (fun e => match e with WGot j m => if decide (j = i) then Some m else None | _ => None end) tr.

(** Every reader receives the messages sent, each once, in order. *)
Lemma bcast_run_order cap low sent rs tr sent' rs' i r :
  bcast_run cap low (sent, rs) tr (sent', rs') -> rs !! i = Some r ->
  exists r', rs' !! i = Some r' /\ sent' = sent ++ bcast_sent_of tr /\
    ((r <= length sent)%nat -> take r' sent' = take r sent' ++ bcast_got_of i tr /\
       (r <= r' <= length sent')%nat).
Proof.
  remember (sent, rs) as b eqn:Eb. remember (sent', rs') as b' eqn:Eb'. intros R.
  revert sent rs r Eb. induction R as [b|b e b1 tr b2 St R IH]; intros sent rs r Eb Hr; subst.
  - simplify_eq. exists r. simpl. rewrite !app_nil_r. repeat split; done || lia.
  - inversion St as [s0 rs0 m Hcap|s0 rs0 i0 r0 Hi Hl|s0 rs0 i0 r0 m Hi Hm|s0 rs0 i0 Hi];
      subst; clear St.
    + destruct (IH eq_refl _ _ r eq_refl Hr) as (r' & Hr' & Es & Ho). exists r'.
      split; [done|]. simpl. rewrite Es, <- app_assoc. split; [done|].
      intros Hle. rewrite length_app in Ho. destruct Ho as [Ho1 Ho2]; [simpl; lia|].
      rewrite Es, <- app_assoc in Ho1, Ho2. done.
    + destruct (IH eq_refl _ _ r eq_refl Hr) as (r' & Hr' & Es & Ho). by exists r'.
    + destruct (decide (i0 = i)) as [->|Hne].
      * rewrite Hr in Hi. simplify_eq.
        destruct (IH eq_refl _ _ (S r0) eq_refl) as (r' & Hr' & Es & Ho).
        { apply list_lookup_insert_eq. by eapply lookup_lt_Some. }
        pose proof (lookup_lt_Some _ _ _ Hm).
        exists r'. split; [done|]. split; [done|]. intros _. destruct Ho as [Ho1 Ho2]; [lia|].
        unfold bcast_got_of in *. simpl. rewrite decide_True by done. split; [|lia].
        rewrite Ho1. erewrite take_S_r; [by rewrite <- app_assoc|].
        rewrite Es. by apply lookup_app_l_Some.
      * destruct (IH eq_refl _ _ r eq_refl) as (r' & Hr' & Es & Ho).
        { by rewrite list_lookup_insert_ne by done. }
        exists r'. split; [done|]. split; [done|].
        unfold bcast_got_of in *. simpl. by rewrite decide_False by done.
    + destruct (IH eq_refl _ _ r eq_refl Hr) as (r' & Hr' & Es & Ho). by exists r'.
Qed.

(** ** The invariant *)
Definition wm_hd (sep : bool) (mem : swmr_mem) (p : nat) : option Z :=
  l ← (if sep then wm_header mem else wm_data mem) !! p; l !! 0%nat.
Definition wm_pl (mem : swmr_mem) (p : nat) : option (list Z) := drop 1 <$> wm_data mem !! p.

(** [a] is the position a reader that has received [r] messages last published. *)
Definition published (r a : nat) : Prop :=
  (a <= r <= a + 32)%nat /\ ((S r mod 64 < 32)%nat -> a = r) /\
  ((32 <= S r mod 64)%nat -> r = (a + (S r mod 64 - 31))%nat).

Lemma nat_land_32 x : (Z.land (Z.of_nat x) 32 =? 0) = bool_decide (x mod 64 < 32)%nat.
Proof.
  assert (E : Z.land (Z.of_nat x) 32 = if Z.testbit (Z.of_nat x) 5 then 32 else 0).
  { apply Z.bits_inj'. intros n Hn. rewrite Z.land_spec. change 32 with (2 ^ 5).
    rewrite Z.pow2_bits_eqb by lia. destruct (Z.eqb_spec 5 n) as [<-|Hne].
    - rewrite andb_true_r. by destruct (Z.testbit _ 5).
    - rewrite andb_false_r. destruct (Z.testbit _ 5); [|by rewrite Z.bits_0].
      change 32 with (2 ^ 5). rewrite Z.pow2_bits_eqb by lia. by destruct (Z.eqb_spec 5 n). }
  rewrite E, Z.testbit_eqb by lia. change (2 ^ 5) with 32.
  assert (Em : Z.of_nat x mod 64 = Z.of_nat (x mod 64)) by (by rewrite Nat2Z.inj_mod).
  case_bool_decide as D; destruct (Z.eqb_spec ((Z.of_nat x / 32) mod 2) 1) as [F|F];
    try done; exfalso; Z.div_mod_to_equations; lia.
Qed.

Lemma published_next r a :
  published r a -> published (S r) (if bool_decide (S (S r) mod 64 < 32)%nat then S r else a).
Proof.
  unfold published. intros (H1 & H2 & H3).
  destruct (ring_next 64 ltac:(lia) (S r)) as [E _]. pose proof (ring_lt 64 ltac:(lia) (S r)) as L.
  pose proof (ring_lt 64 ltac:(lia) (S (S r))) as L2.
  destruct (decide (S (S r mod 64) = 64)%nat); rewrite E in *; case_bool_decide;
    repeat split; try intros; try lia;
    destruct (decide (S r mod 64 < 32)%nat); try (specialize (H2 ltac:(lia))); try lia.
Qed.

Lemma swmr_min_spec (pos : list Z) (pubs : list nat) k i m0 :
  (forall j a, pubs !! j = Some a -> pos !! j = Some (Z.of_nat a)) -> length pubs = (i + k)%nat ->
  exists mn, swmr_min k (Z.of_nat i) pos m0 = Some mn /\ mn <= m0 /\
    (forall j a, (i <= j)%nat -> pubs !! j = Some a -> mn <= Z.of_nat a) /\
    (mn = m0 \/ exists j a, pubs !! j = Some a /\ mn = Z.of_nat a).
Proof.
  intros Hp. revert i m0. induction k as [|k IH]; intros i m0 Hl; simpl.
  - exists m0. split; [done|]. split; [lia|]. split; [|by left].
    intros j a Hj Ha. apply lookup_lt_Some in Ha. lia.
  - destruct (lookup_lt_is_Some_2 pubs i) as [a Ha]; [lia|].
    rewrite arr_get_nat, (Hp _ _ Ha).
    replace (Z.of_nat i + 1) with (Z.of_nat (S i)) by lia.
    destruct (IH (S i) (if Z.of_nat a <? m0 then Z.of_nat a else m0)) as (mn & E & H1 & H2 & H3);
      [lia|].
    exists mn. split; [done|]. destruct (Z.ltb_spec (Z.of_nat a) m0); split; try lia; split.
    + intros j b Hj Hb. destruct (decide (j = i)) as [->|]; [simplify_eq; lia|]. apply (H2 j); [lia|done].
    + destruct H3 as [->|H3]; right; eauto.
    + intros j b Hj Hb. destruct (decide (j = i)) as [->|]; [simplify_eq; lia|]. apply (H2 j); [lia|done].
    + destruct H3 as [->|H3]; eauto.
Qed.

Section invariant.
Context (N n : nat) (sep : bool) (HN : (2 <= N)%nat) (HN16 : Z.of_nat N <= 65535).

Record reader_ok (sent : list (list Z)) (i : nat) (c : swmr_context) (r a : nat) : Prop := {
  rd_slots : wc_num_slots c = Z.of_nat N;
  rd_pos : wc_l_pos c = Z.of_nat (r mod N);
  rd_seq : wc_next_seq c = Z.of_nat (S r);
  rd_id : wc_id c = Z.of_nat i;
  rd_sep : sep_header_of c = sep;
  rd_pub : published r a;
  rd_le : (r <= length sent)%nat;
}.

Record writer_ok (w : swmr_context) (s : nat) (pubs : list nat) : Prop := {
  wr_slots : wc_num_slots w = Z.of_nat N;
  wr_readers : wc_num_readers w = Z.of_nat n;
  wr_pos : seq_lpos N (wc_l_pos w) s;
  wr_seq : wc_next_seq w = Z.of_nat (S s);
  wr_sep : sep_header_of w = sep;
  wr_sync : Z.of_nat (S s) <= wc_next_sync w <= 4294967295 + Z.of_nat N - 1;
  wr_behind i a : pubs !! i = Some a -> wc_next_sync w <= Z.of_nat a + Z.of_nat N - 1;
}.

Record mem_ok (mem : swmr_mem) (sent : list (list Z)) (pubs : list nat) : Prop := {
  mo_pos i a : pubs !! i = Some a -> wm_pos mem !! i = Some (Z.of_nat a);
  mo_len : length (wm_data mem) = N;
  mo_hlen : sep = true -> length (wm_header mem) = N;
  mo_lines : Forall (fun l => length l = 8%nat) (wm_data mem);
  mo_hlines : Forall (fun l => length l = 8%nat) (wm_header mem);
  mo_ring : seq_ring N (wm_hd sep mem) (wm_pl mem) sent;
  mo_words : Forall (fun m => length m = SEQ_PAYLOAD_WORDS) sent;
}.

Record swmr_inv (st : swmr_sys) (sent : list (list Z)) (rs : list nat) : Prop := {
  wi_pubs : exists pubs, length pubs = n /\ writer_ok (ws_src st) (length sent) pubs /\
     mem_ok (ws_mem st) sent pubs /\
     (forall i c r a, ws_dst st !! i = Some c -> rs !! i = Some r -> pubs !! i = Some a ->
        reader_ok sent i c r a);
  wi_dst : length (ws_dst st) = n;
  wi_rs : length rs = n;
}.

(** No reader lags by a whole ring. *)
Lemma writer_ahead w s pubs i a :
  writer_ok w s pubs -> pubs !! i = Some a -> (s + 2 <= a + N)%nat.
Proof using Type*.
  intros W Ha. pose proof (wr_behind _ _ _ W i a Ha). pose proof (wr_sync _ _ _ W). lia.
Qed.

(** *** The writer's synchronisation *)
Lemma swmr_next_sync_spec w mem s sent pubs :
  writer_ok w s pubs -> mem_ok mem sent pubs -> length pubs = n ->
  exists mn, swmr_get_next_sync (w, mem) = (Ret (mn + Z.of_nat N - 1), (w, mem)) /\
    0 <= mn <= 4294967295 /\ (forall j a, pubs !! j = Some a -> mn <= Z.of_nat a) /\
    (mn = 4294967295 \/ exists j a, pubs !! j = Some a /\ mn = Z.of_nat a).
Proof using Type*.
  intros W I Hl.
  destruct (swmr_min_spec (wm_pos mem) pubs n 0 4294967295 (mo_pos _ _ _ I)) as (mn & E & H1 & H2 & H3);
    [lia|].
  assert (0 <= mn) by (destruct H3 as [->|(? & ? & _ & ->)]; lia).
  exists mn. split; [|split; [lia|]; split; [|done]; intros j a; apply H2; lia].
  unfold swmr_get_next_sync, gets, mbind, M_bind. simpl.
  rewrite (wr_readers _ _ _ W), Nat2Z.id. change 0 with (Z.of_nat 0). rewrite E. simpl.
  rewrite (wr_slots _ _ _ W), wrap_add_r by lia. unfold mret, M_ret.
  rewrite wrap_small by (pow_consts; lia). do 2 f_equal. lia.
Qed.

Lemma swmr_sync_spec w mem s sent pubs :
  writer_ok w s pubs -> mem_ok mem sent pubs -> length pubs = n -> Z.of_nat s < 4294967295 ->
  (exists sync, swmr_sync (w, mem) = (Ret tt, (wc_set_next_sync sync w, mem)) /\
     Z.of_nat (S s) < sync /\ writer_ok (wc_set_next_sync sync w) s pubs) \/
  (swmr_sync (w, mem) = (Spin, (w, mem)) /\
   exists i a, pubs !! i = Some a /\ (s + 2 = a + N)%nat).
Proof using Type*.
  intros W I Hl Hs. pose proof (wr_sync _ _ _ W) as Hy.
  destruct (swmr_next_sync_spec _ _ _ _ _ W I Hl) as (mn & E & Hmn & Hle & Hmin).
  unfold swmr_sync. rewrite (bind_ret (gets fst) _ _ w (w, mem)) by done.
  rewrite (wr_seq _ _ _ W). destruct (Z.eqb_spec (Z.of_nat (S s)) (wc_next_sync w)) as [F|F].
  - rewrite (bind_ret _ _ _ _ _ E).
    assert (Z.of_nat (S s) <= mn + Z.of_nat N - 1).
    { destruct Hmin as [->|(j & a & Ha & ->)]; [lia|].
      pose proof (wr_behind _ _ _ W j a Ha). lia. }
    destruct (Z.eqb_spec (Z.of_nat (S s)) (mn + Z.of_nat N - 1)) as [G|G].
    + right. split; [done|]. destruct Hmin as [->|(j & a & Ha & ->)]; [lia|].
      exists j, a. split; [done|lia].
    + left. eexists. split; [reflexivity|]. split; [lia|].
      destruct W. constructor; simpl; try done; try lia.
      intros i a Ha. pose proof (Hle i a Ha). lia.
  - left. exists (wc_next_sync w). split; [by destruct w|]. split; [lia|]. by destruct w.
Qed.

(** *** Writing a message *)
Lemma line_shape (ls : list (list Z)) p :
  length ls = N -> Forall (fun l => length l = 8%nat) ls -> (p < N)%nat ->
  exists h d, ls !! p = Some (h :: d) /\ length d = 7%nat.
Proof using Type.
  clear HN HN16. intros Hl Hf Hp. destruct (lookup_lt_is_Some_2 ls p) as [l E]; [lia|].
  pose proof (Forall_lookup_1 _ _ _ _ Hf E) as L. destruct l as [|h d]; [done|].
  exists h, d. simpl in L. split; [done|lia].
Qed.

Lemma store_message_spec w mem sent pubs p vs v :
  mem_ok mem sent pubs -> (p < N)%nat -> sep_header_of w = sep -> length vs = 7%nat ->
  exists mem',
    (store_datas (Z.of_nat p) 1 vs ≫= fun _ => store_header (Z.of_nat p) v) (w, mem) =
      (Ret tt, (w, mem')) /\
    wm_pos mem' = wm_pos mem /\
    length (wm_data mem') = N /\ (sep = true -> length (wm_header mem') = N) /\
    Forall (fun l => length l = 8%nat) (wm_data mem') /\
    Forall (fun l => length l = 8%nat) (wm_header mem') /\
    (forall i, i <> p -> wm_hd sep mem' i = wm_hd sep mem i /\ wm_pl mem' i = wm_pl mem i) /\
    wm_hd sep mem' p = Some v /\ wm_pl mem' p = Some vs.
Proof using Type.
  clear HN HN16. intros [Ip Il Ih If Ifh Ir Iw] Hp Hsep Hv.
  destruct (line_shape (wm_data mem) p Il If Hp) as (h & d & E & Hd).
  assert (Ef : Forall (fun l => length l = 8%nat) (<[p := h :: vs]> (wm_data mem))).
  { apply Forall_insert; [done|]. simpl. lia. }
  assert (Es : (<[p := h :: vs]> (wm_data mem)) !! p = Some (h :: vs))
    by (apply list_lookup_insert_eq; lia).
  unfold store_datas, store_header, set_data, mbind, M_bind. simpl.
  rewrite (line_stores_run _ _ h d) by (done || lia). simpl. rewrite Hsep.
  change 0 with (Z.of_nat 0). unfold wm_hd, wm_pl. destruct sep.
  - destruct (line_shape (wm_header mem) p (Ih eq_refl) Ifh Hp) as (h' & d' & E' & Hd').
    rewrite (line_store_run _ p 0 _ (h' :: d')) by (done || simpl; lia).
    eexists. split; [reflexivity|]. simpl. rewrite !length_insert.
    split; [done|]. split; [done|]. split; [by intros; apply Ih|]. split; [done|].
    split; [apply Forall_insert; [done|simpl; lia]|].
    split; [intros i Hi; by rewrite !list_lookup_insert_ne by done|].
    rewrite !list_lookup_insert_eq by (rewrite ?Ih by done; lia). done.
  - unfold store_data, set_data. simpl. change 0 with (Z.of_nat 0).
    rewrite (line_store_run _ p 0 _ (h :: vs) Es) by (simpl; lia). simpl.
    rewrite list_insert_insert_eq.
    eexists. split; [reflexivity|]. simpl. rewrite !length_insert.
    split; [done|]. split; [done|]. split; [done|].
    split; [apply Forall_insert; [done|simpl; lia]|]. split; [done|].
    split; [intros i Hi; by rewrite !list_lookup_insert_ne by done|].
    rewrite !list_lookup_insert_eq by lia. done.
Qed.

Lemma reader_ok_mono sent m i c r a : reader_ok sent i c r a -> reader_ok (sent ++ [m]) i c r a.
Proof using Type. clear HN HN16. intros []. constructor; try done. rewrite length_app. simpl. lia. Qed.

Lemma mem_ok_append mem mem' sent pubs m :
  mem_ok mem sent pubs -> length m = SEQ_PAYLOAD_WORDS ->
  wm_pos mem' = wm_pos mem ->
  length (wm_data mem') = N -> (sep = true -> length (wm_header mem') = N) ->
  Forall (fun l => length l = 8%nat) (wm_data mem') ->
  Forall (fun l => length l = 8%nat) (wm_header mem') ->
  (forall i, i <> (length sent mod N)%nat ->
     wm_hd sep mem' i = wm_hd sep mem i /\ wm_pl mem' i = wm_pl mem i) ->
  wm_hd sep mem' (length sent mod N)%nat = Some (Z.of_nat (S (length sent))) ->
  wm_pl mem' (length sent mod N)%nat = Some m -> Z.of_nat (S (length sent)) < 2 ^ 64 ->
  mem_ok mem' (sent ++ [m]) pubs.
Proof using HN HN16.
  intros [Ip Il Ih If Ifh Ir Iw] Hm Ep H1 H2 H3 H4 H5 H6 H7 H8.
  constructor; rewrite ?Ep; try done.
  - apply (seq_write N ltac:(lia) ltac:(lia) _ _ _ _ _ _ Ir H5).
    + by rewrite H6, wrap_small by lia.
    + exists m. split; [done|]. split; [done|]. by rewrite take_ge.
  - apply Forall_app. auto.
Qed.

Lemma swmr_send_spec st sent rs p1 p2 p3 p4 p5 p6 p7 :
  swmr_inv st sent rs -> Z.of_nat (length sent) < 4294967295 ->
  exists o w' mem', swmr_send_raw p1 p2 p3 p4 p5 p6 p7 (ws_src st, ws_mem st) = (o, (w', mem')) /\
    o = (swmr_sync (wc_set_l_pos (Z.of_nat (length sent mod N)) (ws_src st), ws_mem st)).1 /\
    ((o = Ret tt /\ (forall i r, rs !! i = Some r -> (length sent < r + (N - 2))%nat) /\
      swmr_inv (WS w' (ws_dst st) mem') (sent ++ [[p1; p2; p3; p4; p5; p6; p7]]) rs) \/
     (o = Spin /\ (exists i r, rs !! i = Some r /\ (r + (N - 34) <= length sent)%nat) /\
      swmr_inv (WS w' (ws_dst st) mem') sent rs)).
Proof using Type*.
  intros [(pubs & Hn & W & I & Hrd) Hd Hr] Hs. set (m := [p1; p2; p3; p4; p5; p6; p7]).
  set (s := length sent) in *. set (p := (s mod N)%nat).
  assert (W1 : writer_ok (wc_set_l_pos (Z.of_nat p) (ws_src st)) s pubs).
  { destruct W. constructor; try done. by left. }
  assert (E1 : swmr_reset_pos (ws_src st, ws_mem st) =
            (Ret tt, (wc_set_l_pos (Z.of_nat p) (ws_src st), ws_mem st))).
  { unfold swmr_reset_pos, on_wc, modify. simpl. unfold p.
    by rewrite (wr_slots _ _ _ W), (lpos_reset_spec N _ s) by (lia || apply (wr_pos _ _ _ W)). }
  assert (Hget : forall i r, rs !! i = Some r -> exists a c, pubs !! i = Some a /\
            ws_dst st !! i = Some c /\ reader_ok sent i c r a).
  { intros i r Hi. pose proof (lookup_lt_Some _ _ _ Hi).
    destruct (lookup_lt_is_Some_2 pubs i) as [a Ha]; [lia|].
    destruct (lookup_lt_is_Some_2 (ws_dst st) i) as [c Hc]; [lia|]. eauto 10. }
  unfold swmr_send_raw. rewrite (bind_ret _ _ _ _ _ E1).
  destruct (swmr_sync_spec _ _ _ _ _ W1 I Hn Hs) as [(sync & E2 & Hsy & W2)|[E2 (i & a & Ha & Hia)]].
  - rewrite (bind_ret _ _ _ _ _ E2). set (w2 := wc_set_next_sync sync _) in *.
    rewrite (bind_ret (gets fst) _ _ w2 (w2, ws_mem st)) by done.
    pose proof (ring_lt N ltac:(lia) s) as Lp. fold p in Lp.
    destruct (store_message_spec w2 (ws_mem st) sent pubs p m (Z.of_nat (S s)) I Lp (wr_sep _ _ _ W2) eq_refl)
      as (mem' & E3 & Ep & H1 & H2 & H3 & H4 & H5 & H6 & H7).
    exists (Ret tt), (wc_set_l_pos (u16 (Z.of_nat p + 1))
      (wc_set_next_seq (u64 (Z.of_nat (S s) + 1)) w2)), mem'.
    split.
    { change (wc_l_pos w2) with (Z.of_nat p). rewrite (wr_seq _ _ _ W2).
      unfold mbind, M_bind in E3 |- *. destruct (store_datas _ _ _ _) as [[[]| | |] s1]; try done.
      rewrite E3. by unfold swmr_step, on_wc, modify, mbind, M_bind; simpl;
        rewrite (wr_seq _ _ _ W). }
    split; [by rewrite E2|]. left. split; [done|]. split.
    { intros i r Hi. destruct (Hget i r Hi) as (a & c & Ha & Hc & Hok).
      pose proof (rd_pub _ _ _ _ _ Hok) as [? _].
      pose proof (wr_behind _ _ _ W2 i a Ha) as Hb. simpl in Hb. lia. }
    split; simpl; try done. exists pubs. split; [done|]. split; [|split].
    + destruct W2. constructor; simpl in *; rewrite ?length_app; simpl; try done; fold s.
      * replace (s + 1)%nat with (S s) by lia. apply lpos_next; lia.
      * rewrite wrap_small by (pow_consts; lia). lia.
      * lia.
    + apply (mem_ok_append (ws_mem st)); try done. fold s. pow_consts. lia.
    + intros i c r a Hc Hri Ha. simpl in Hc. apply reader_ok_mono. eauto.
  - exists Spin, (wc_set_l_pos (Z.of_nat p) (ws_src st)), (ws_mem st).
    split; [unfold mbind, M_bind; by rewrite E2|].
    split; [by rewrite E2|]. right. split; [done|]. split.
    + destruct (lookup_lt_is_Some_2 rs i) as [r Hri]; [apply lookup_lt_Some in Ha; lia|].
      destruct (Hget i r Hri) as (a' & c & Ha' & Hc & Hok). rewrite Ha in Ha'. simplify_eq.
      exists i, r. split; [done|]. pose proof (rd_pub _ _ _ _ _ Hok) as [? _].
      pose proof (rd_le _ _ _ _ _ Hok) as Hle. fold s in Hle. lia.
    + split; try done. exists pubs. eauto.
Qed.

(** Asking whether a send would block. *)
Lemma swmr_can_send_spec w mem s sent pubs l :
  writer_ok w s pubs -> mem_ok mem sent pubs -> length pubs = n ->
  swmr_can_send (w, mem) =
    (Ret (bool_decide ((swmr_sync (wc_set_l_pos l w, mem)).1 = Ret tt)), (w, mem)).
Proof using Type*.
  intros W I Hl. pose proof (wr_sync _ _ _ W) as Hy.
  destruct (swmr_next_sync_spec _ _ _ _ _ W I Hl) as (mn & E & Hmn & Hle & Hmin).
  assert (E' : swmr_get_next_sync (wc_set_l_pos l w, mem) =
            (Ret (mn + Z.of_nat N - 1), (wc_set_l_pos l w, mem))).
  { unfold swmr_get_next_sync, gets, mbind, M_bind in E |- *. simpl in *.
    destruct (swmr_min _ _ _ _); simpl in *; [|done].
    unfold mret, M_ret in *. injection E as E. by rewrite E. }
  unfold swmr_can_send, swmr_sync.
  rewrite (bind_ret (gets fst) _ _ w (w, mem)) by done.
  rewrite (bind_ret (gets fst) _ _ (wc_set_l_pos l w) (wc_set_l_pos l w, mem)) by done. simpl.
  destruct (Z.eqb_spec (wc_next_seq w) (wc_next_sync w)) as [F|F];
    [|by rewrite bool_decide_true].
  rewrite (bind_ret _ _ _ _ _ E), (bind_ret _ _ _ _ _ E'). rewrite F. unfold mret, M_ret.
  rewrite (wr_seq _ _ _ W) in F.
  assert (wc_next_sync w <= mn + Z.of_nat N - 1).
  { destruct Hmin as [->|(j & a & Ha & ->)]; [lia|].
    pose proof (wr_behind _ _ _ W j a Ha). lia. }
  destruct (Z.eqb_spec (wc_next_sync w) (mn + Z.of_nat N - 1)) as [G|G].
  - destruct (Z.ltb_spec (wc_next_sync w) (mn + Z.of_nat N - 1)); [lia|by rewrite bool_decide_false].
  - destruct (Z.ltb_spec (wc_next_sync w) (mn + Z.of_nat N - 1)); [by rewrite bool_decide_true|lia].
Qed.

(** *** Receiving a message *)
Lemma swmr_consume_spec c mem sent i r a (pubs : list nat) :
  reader_ok sent i c r a -> pubs !! i = Some a -> wm_pos mem !! i = Some (Z.of_nat a) ->
  (r < length sent)%nat -> Z.of_nat (length sent) < 2 ^ 33 ->
  let pub := bool_decide (S (S r) mod 64 < 32)%nat in
  exists c', swmr_consume (c, mem) =
      (Ret tt, (c', WM (if pub then <[i := Z.of_nat (S r)]> (wm_pos mem) else wm_pos mem)
                     (wm_data mem) (wm_header mem))) /\
    reader_ok sent i c' (S r) (if pub then S r else a).
Proof using Type*.
  intros Ho Ha Hpos Hr Hb pub.
  pose proof (published_next _ _ (rd_pub _ _ _ _ _ Ho)) as Hp.
  exists (wc_set_l_pos (Z.of_nat (S r mod N)) (wc_set_next_seq (Z.of_nat (S (S r))) c)).
  split.
  - unfold swmr_consume, swmr_reset_pos, on_wc, modify, gets, mbind, M_bind. simpl.
    rewrite (rd_pos _ _ _ _ _ Ho), (rd_seq _ _ _ _ _ Ho), (rd_slots _ _ _ _ _ Ho),
      lpos_next_reset by lia.
    rewrite wrap_small by (change (2 ^ 33) with 8589934592 in Hb; pow_consts; lia).
    replace (Z.of_nat (S r) + 1) with (Z.of_nat (S (S r))) by lia.
    rewrite nat_land_32. fold pub. destruct pub; simpl; [|by destruct mem].
    rewrite (rd_id _ _ _ _ _ Ho), arr_set_nat by (by eapply lookup_lt_Some). simpl.
    rewrite (wrap_small 64) by (change (2 ^ 33) with 8589934592 in Hb; pow_consts; lia).
    by replace (Z.of_nat (S (S r)) - 1) with (Z.of_nat (S r)) by lia.
  - destruct Ho. constructor; simpl; try done; lia.
Qed.

(** A reader that publishes a later position releases the writer. *)
Lemma writer_ok_publish w s pubs i a a' :
  writer_ok w s pubs -> pubs !! i = Some a -> (a <= a')%nat -> writer_ok w s (<[i := a']> pubs).
Proof using Type.
  clear HN HN16. intros W Ha Hle. constructor; try apply W. intros j b Hj.
  apply list_lookup_insert_Some in Hj as [(<- & <- & _)|[_ Hj]]; [|by apply (wr_behind _ _ _ W j)].
  pose proof (wr_behind _ _ _ W i a Ha). lia.
Qed.
Lemma mem_ok_publish mem sent pubs i a a' pos' :
  mem_ok mem sent pubs -> pubs !! i = Some a ->
  pos' = (if decide (a' = a) then wm_pos mem else <[i := Z.of_nat a']> (wm_pos mem)) ->
  mem_ok (WM pos' (wm_data mem) (wm_header mem)) sent (<[i := a']> pubs).
Proof using Type.
  clear HN HN16. intros I Ha ->. constructor; try apply I. intros j b Hj. cbn [wm_pos].
  pose proof (mo_pos _ _ _ I _ _ Ha) as Hp. apply list_lookup_insert_Some in Hj as [(<- & <- & _)|[Hne Hj]].
  - case_decide; [by subst|]. apply list_lookup_insert_eq. by eapply lookup_lt_Some.
  - pose proof (mo_pos _ _ _ I _ _ Hj). case_decide; [done|by rewrite list_lookup_insert_ne].
Qed.

Lemma swmr_recv_spec st sent rs i c r :
  swmr_inv st sent rs -> ws_dst st !! i = Some c -> rs !! i = Some r ->
  exists c' mem', swmr_receive_non_blocking (c, ws_mem st) = (Ret (sent !! r), (c', mem')) /\
    swmr_inv (WS (ws_src st) (<[i := c']> (ws_dst st)) mem') sent
      (if decide (r < length sent)%nat then <[i := S r]> rs else rs).
Proof using Type*.
  intros Inv Hc Hr. pose proof Inv as [(pubs & Hn & W & I & Hrd) Hd Hrs].
  destruct (lookup_lt_is_Some_2 pubs i) as [a Ha]; [apply lookup_lt_Some in Hr; lia|].
  pose proof (Hrd i c r a Hc Hr Ha) as Ho. pose proof (rd_le _ _ _ _ _ Ho) as Hle.
  pose proof (writer_ahead _ _ _ _ _ W Ha) as Hah. pose proof (wr_sync _ _ _ W) as Hsy.
  destruct (rd_pub _ _ _ _ _ Ho) as [Hpa _].
  destruct (seq_pending N ltac:(lia) ltac:(lia) _ _ _ r (mo_ring _ _ _ I) Hle)
    as (v & Hv & Hd'); [lia|].
  unfold swmr_receive_non_blocking. rewrite (bind_ret (gets fst) _ _ c (c, ws_mem st)) by done.
  assert (El : load_header (wc_l_pos c) (c, ws_mem st) = (Ret v, (c, ws_mem st))).
  { unfold load_header. simpl. rewrite (rd_sep _ _ _ _ _ Ho), (rd_pos _ _ _ _ _ Ho).
    unfold wm_hd in Hv. apply bind_Some in Hv as (l & Hl & Hv).
    change 0 with (Z.of_nat 0). by rewrite (line_load_run _ _ _ l v). }
  rewrite (bind_ret _ _ _ _ _ El), (rd_seq _ _ _ _ _ Ho).
  rewrite wrap_small in Hd' by (pow_consts; lia). rewrite Hd'.
  case_bool_decide as D.
  - destruct (lookup_lt_is_Some_2 sent r D) as [m Hm].
    destruct (seq_read N ltac:(lia) ltac:(lia) _ _ _ r m (mo_ring _ _ _ I) Hm)
      as (d & Hpl & Hl & Ht); [lia|].
    pose proof (Forall_lookup_1 _ _ _ _ (mo_words _ _ _ I) Hm) as Hmw. simpl in Hmw.
    rewrite take_ge in Ht by lia. subst d.
    destruct (line_shape (wm_data (ws_mem st)) (r mod N) (mo_len _ _ _ I) (mo_lines _ _ _ I)
      (ring_lt N ltac:(lia) _)) as (h & d & Ed & Hdl).
    unfold wm_pl in Hpl. rewrite Ed in Hpl. simpl in Hpl. rewrite drop_0 in Hpl. simplify_eq.
    assert (Ep : load_datas (wc_l_pos c) 1 7 (c, ws_mem st) = (Ret m, (c, ws_mem st))).
    { rewrite <- Hdl. unfold load_datas. cbn [snd]. rewrite (rd_pos _ _ _ _ _ Ho).
      by rewrite (line_loads_run _ _ h m). }
    rewrite (bind_ret _ _ _ _ _ Ep).
    destruct (swmr_consume_spec c (ws_mem st) sent i r a pubs Ho Ha (mo_pos _ _ _ I i a Ha) D)
      as (c' & Ec & Ho'); [change (2 ^ 33) with 8589934592; lia|].
    rewrite (bind_ret _ _ _ _ _ Ec). rewrite Hm.
    destruct (decide (r < length sent)%nat); [|done].
    set (pub := bool_decide (S (S r) mod 64 < 32)%nat) in *.
    eexists _, _. split; [reflexivity|].
    split; simpl; rewrite ?length_insert; try done.
    pose proof (lookup_lt_Some _ _ _ Ha). pose proof (lookup_lt_Some _ _ _ Hc).
    pose proof (lookup_lt_Some _ _ _ Hr).
    exists (<[i := if pub then S r else a]> pubs). rewrite length_insert. split; [done|].
    split; [|split].
    + apply (writer_ok_publish _ _ _ _ a); [done|done|]. destruct pub; lia.
    + apply (mem_ok_publish _ _ _ _ a); [done|done|]. destruct pub; case_decide; done || lia.
    + intros j cj rj aj Hcj Hrj Haj. destruct (decide (i = j)) as [<-|Hne].
      * rewrite list_lookup_insert_eq in Hcj by lia.
        rewrite list_lookup_insert_eq in Hrj by lia. rewrite list_lookup_insert_eq in Haj by lia.
        by simplify_eq.
      * rewrite list_lookup_insert_ne in Hcj by done.
        rewrite list_lookup_insert_ne in Hrj by done. rewrite list_lookup_insert_ne in Haj by done.
        eauto.
  - rewrite decide_False by done. rewrite lookup_ge_None_2 by lia.
    exists c, (ws_mem st). split; [done|]. rewrite list_insert_id by done. by destruct st.
Qed.

(** Every command refines a step of the broadcast channel. *)
Definition swmr_valid (c : swmr_cmd) : Prop :=
  match c with WSend m => length m = SEQ_PAYLOAD_WORDS | WRecv i => (i < n)%nat end.
Definition is_send (c : swmr_cmd) : bool := match c with WSend _ => true | _ => false end.

Lemma swmr_cmd_refines st sent rs c :
  swmr_inv st sent rs -> swmr_valid c -> Z.of_nat (length sent) < 4294967295 ->
  exists e st' sent' rs', swmr_exec_cmd c st = (Ret e, st') /\
    bcast_step (N - 2) (N - 34) (sent, rs) e (sent', rs') /\ swmr_inv st' sent' rs' /\
    (length sent' <= length sent + 1)%nat.
Proof using Type*.
  intros Inv Hv Hs. destruct c as [m|i]; simpl in *.
  - do 8 (destruct m as [|? m]; try done).
    match goal with |- context [swmr_send_cmd [?a; ?b; ?c; ?d; ?e; ?f; ?g]] =>
      destruct (swmr_send_spec _ _ _ a b c d e f g Inv Hs) as (o & w' & mem' & E & _ & H) end.
    unfold swmr_send_cmd, smlt_swmr_send, mbind, M_bind. simpl. rewrite E.
    destruct H as [(-> & Hlag & Inv')|(-> & (i & r & Hr & Hlag) & Inv')]; simpl.
    + eexists _, _, _, _. split; [done|]. split; [by apply bcast_sent|].
      split; [done|]. rewrite length_app. done.
    + eexists _, _, _, _. split; [done|]. split; [by eapply bcast_blocked|].
      split; [done|]. lia.
  - destruct (lookup_lt_is_Some_2 (ws_dst st) i) as [c Hc]; [rewrite (wi_dst _ _ _ Inv); lia|].
    destruct (lookup_lt_is_Some_2 rs i) as [r Hr]; [rewrite (wi_rs _ _ _ Inv); lia|].
    destruct (swmr_recv_spec _ _ _ _ _ _ Inv Hc Hr) as (c' & mem' & E & Inv').
    unfold swmr_recv_cmd. rewrite Hc, E. case_decide as D.
    + destruct (lookup_lt_is_Some_2 sent r D) as [m Hm]. rewrite Hm.
      eexists _, _, _, _. split; [done|]. split; [by eapply bcast_got|]. split; [done|lia].
    + rewrite lookup_ge_None_2 by lia.
      eexists _, _, _, _. split; [done|]. split; [|split; [done|lia]].
      apply bcast_nothing. destruct Inv as [(pubs & Hn & _ & _ & Hrd) Hd _].
      destruct (lookup_lt_is_Some_2 pubs i) as [a Ha]; [lia|].
      pose proof (rd_le _ _ _ _ _ (Hrd i c r a Hc Hr Ha)).
      rewrite Hr. f_equal. lia.
Qed.

Lemma swmr_exec_refines cs st sent rs :
  swmr_inv st sent rs -> Forall swmr_valid cs ->
  Z.of_nat (length sent + length cs) < 4294967295 ->
  exists tr st' sent' rs', swmr_exec cs st = (Ret tr, st') /\
    bcast_run (N - 2) (N - 34) (sent, rs) tr (sent', rs') /\ swmr_inv st' sent' rs'.
Proof using Type*.
  unfold swmr_exec. revert st sent rs. induction cs as [|c cs IH]; intros st sent rs Inv Hv Hs; simpl.
  - eexists _, _, sent, rs. split; [reflexivity|]. split; [constructor|done].
  - apply Forall_cons in Hv as [Hc Hv]. simpl in Hs.
    destruct (swmr_cmd_refines _ _ _ _ Inv Hc) as (e & st1 & sent1 & rs1 & E & B & Inv1 & Hl); [lia|].
    rewrite (bind_ret _ _ _ _ _ E).
    destruct (IH _ _ _ Inv1 Hv) as (tr & st2 & sent2 & rs2 & E2 & B2 & Inv2); [lia|].
    rewrite (bind_ret _ _ _ _ _ E2).
    eexists _, _, _, _. split; [reflexivity|]. split; [by econstructor|done].
Qed.
End invariant.

(** ** Creation *)
Lemma swmr_queue_size_spec count :
  0 <= count <= 65535 ->
  swmr_queue_size 2 SWMRQ_SIZE count =
    Some (if (16 <=? count) && (count <=? 63) then 128 else 64).
Proof.
  intros Hc. unfold swmr_queue_size, SWMRQ_SIZE.
  destruct (Z.leb_spec 16 count) as [H1|H1], (Z.leb_spec count 63) as [H2|H2]; simpl.
  - rewrite (wrap_small 32 (64 - (count + 1))) by (pow_consts; lia).
    destruct (Z.ltb_spec (64 - (count + 1)) 48); [|lia].
    change (u32 (64 + 64)) with 128. rewrite (wrap_small 32) by (pow_consts; lia).
    destruct (Z.ltb_spec (128 - (count + 1)) 48); [lia|done].
  - replace (u32 (64 - (count + 1))) with (64 - (count + 1) + 2 ^ 32)
      by (unfold wrap; pow_consts; Z.div_mod_to_equations; lia).
    destruct (Z.ltb_spec (64 - (count + 1) + 2 ^ 32) 48); [pow_consts; lia|done].
  - rewrite (wrap_small 32 (64 - (count + 1))) by (pow_consts; lia).
    destruct (Z.ltb_spec (64 - (count + 1)) 48); [lia|done].
  - lia.
Qed.

Definition swmr_ring_size (n : nat) : nat := ((if decide (n <= 15) then 64 else 128) - (n + 1))%nat.

Lemma init_context_sep shm n id sep qs :
  0 < qs < 2 ^ 20 ->
  sep_header_of (swmr_init_context shm n id sep qs) = sep.
Proof.
  intros Hq. unfold sep_header_of, swmr_init_context, SWMR_CACHELINE_SIZE. simpl.
  destruct sep; [|by rewrite Z.eqb_refl]. change (2 ^ 20) with 1048576 in Hq.
  rewrite (wrap_small 32 (qs * 64)) by (pow_consts; lia).
  set (d := shm + (u8 n + 1) * 64). rewrite wrap_add_l by lia.
  destruct (Z.eqb_spec (u64 (d + qs * 64)) (u64 d)) as [E|]; [|done].
  apply wrap_inj in E; pow_consts; lia.
Qed.

Lemma swmr_lines_seq N (sep : bool) pos hdr :
  hdr = (if sep then swmr_lines (Z.of_nat N) else []) ->
  seq_ring N (wm_hd sep (WM pos (swmr_lines (Z.of_nat N)) hdr))
    (wm_pl (WM pos (swmr_lines (Z.of_nat N)) hdr)) [].
Proof.
  intros ->. unfold wm_hd, wm_pl, swmr_lines. simpl. rewrite Nat2Z.id.
  constructor; try done; intros p Hp; destruct sep; rewrite ?lookup_replicate_2 by lia;
    simpl; done || by eexists.
Qed.

Lemma swmr_create_inv alloc n sep :
  (1 <= n <= 63)%nat -> (forall b, is_Some (alloc b)) ->
  let N := swmr_ring_size n in
  exists q mem, swmr_queue_create alloc 2 (Z.of_nat n) sep = Ret (q, mem) /\
    wc_num_slots (wq_src q) = Z.of_nat N /\ (48 <= N <= 111)%nat /\
    swmr_inv N n sep (WS (wq_src q) (wq_dst q) mem) [] (replicate n 0%nat).
Proof.
  intros Hn Ha N. unfold swmr_queue_create. rewrite swmr_queue_size_spec by lia.
  set (qs := if _ && _ then 128 else 64).
  assert (HN : Z.of_nat N = qs - (Z.of_nat n + 1) /\ (48 <= N <= 111)%nat /\ 0 < qs < 2 ^ 20).
  { unfold N, swmr_ring_size, qs. change (2 ^ 20) with 1048576.
    destruct (Z.leb_spec 16 (Z.of_nat n)), (Z.leb_spec (Z.of_nat n) 63); simpl;
      destruct (decide (n <= 15)%nat); lia. }
  destruct HN as (HN & Hb & Hq).
  destruct (Ha (u32 (qs * SWMR_CACHELINE_SIZE * (if sep then 2 else 1)))) as [shm ->].
  destruct (Ha (80 * Z.of_nat n)) as [x ->].
  assert (Hu : u8 (Z.of_nat n) = Z.of_nat n) by (apply wrap_small; pow_consts; lia).
  assert (Hs : u32 (qs - (Z.of_nat n + 1)) = Z.of_nat N)
    by (rewrite <- HN; apply wrap_small; pow_consts; lia).
  eexists _, _. split; [reflexivity|]. cbn [wq_src wq_dst].
  split; [unfold swmr_init_context; simpl; by rewrite Hu, Hs|]. split; [done|].
  split; simpl; [|by rewrite length_fmap, length_seq, Nat2Z.id|by rewrite length_replicate].
  exists (replicate n 0%nat). split; [by rewrite length_replicate|]. split; [|split].
  - constructor; try by (apply init_context_sep).
    all: unfold swmr_init_context; simpl; rewrite ?Hu, ?Hs; try done.
    + left. by rewrite Nat.Div0.mod_0_l.
    + rewrite wrap_small by (pow_consts; lia). lia.
    + intros i a Hi. apply lookup_replicate in Hi as [-> _]. rewrite wrap_small by (pow_consts; lia). lia.
  - unfold swmr_block. rewrite Hu, <- HN.
    constructor; simpl; try done.
    + intros i a Hi. apply lookup_replicate in Hi as [-> Hi].
      rewrite lookup_replicate_2 by lia. done.
    + unfold swmr_lines. rewrite length_replicate. lia.
    + intros ->. unfold swmr_lines. rewrite length_replicate. lia.
    + by apply Forall_replicate.
    + destruct sep; [by apply Forall_replicate|done].
    + by apply swmr_lines_seq.
  - intros i c r a Hc Hr Hi. apply lookup_replicate in Hr as [-> Hil], Hi as [-> _].
    rewrite list_lookup_fmap in Hc. apply fmap_Some in Hc as (k & Hk & ->).
    apply lookup_seq in Hk as [-> _]. simpl.
    constructor; try by (apply init_context_sep).
    all: unfold swmr_init_context; simpl; rewrite ?Hu, ?Hs; try done.
    + by rewrite Nat.Div0.mod_0_l.
    + apply wrap_small. pow_consts. lia.
    + unfold published. simpl. lia.
Qed.

(** ** Main properties *)

(** [C29] From creation on, for 1 to 63 readers, with or without separate header
    lines, and any interleaving of the writer's sends with the readers' receives
    (fewer than 2^32 - 1 calls), the queue is a broadcast channel: a send completes
    only when no reader lags by [N - 2] messages, blocks only when some reader lags
    by at least [N - 34 >= 14], and every reader receives exactly the messages sent,
    each once and in order. *)
Theorem swmr_broadcast alloc n sep cs :
  (1 <= n <= 63)%nat -> (forall b, is_Some (alloc b)) ->
  Forall (swmr_valid n) cs -> Z.of_nat (length cs) < 4294967295 ->
  exists q mem tr st sent rs,
    let N := swmr_ring_size n in
    swmr_queue_create alloc 2 (Z.of_nat n) sep = Ret (q, mem) /\
    swmr_exec cs (WS (wq_src q) (wq_dst q) mem) = (Ret tr, st) /\
    bcast_run (N - 2) (N - 34) ([], replicate n 0%nat) tr (sent, rs) /\ (14 <= N - 34)%nat /\
    sent = bcast_sent_of tr /\
    forall i, (i < n)%nat -> exists r, rs !! i = Some r /\ bcast_got_of i tr = take r sent.
Proof.
  intros Hn Ha Hv Hl.
  destruct (swmr_create_inv alloc n sep Hn Ha) as (q & mem & E & _ & HN & Inv).
  destruct (swmr_exec_refines (swmr_ring_size n) n sep ltac:(lia) ltac:(lia) cs _ _ _ Inv Hv ltac:(simpl; lia))
    as (tr & st & sent & rs & Ex & B & Inv').
  exists q, mem, tr, st, sent, rs. split; [done|]. split; [done|]. split; [done|].
  split; [lia|]. split.
  - destruct (bcast_run_order _ _ _ _ _ _ _ 0 0 B) as (r & _ & Es & _); [|done].
    apply lookup_replicate_2. lia.
  - intros i Hi. destruct (bcast_run_order _ _ _ _ _ _ _ i 0 B) as (r & Hr & Es & Ho).
    { by apply lookup_replicate_2. }
    exists r. split; [done|]. destruct Ho as [Ho _]; [simpl; lia|]. by rewrite Ho.
Qed.

Lemma swmr_broadcast_witness :
  exists q mem tr st sent rs,
    let N := swmr_ring_size 2 in
    swmr_queue_create (fun _ => Some 4096) 2 (Z.of_nat 2) true = Ret (q, mem) /\
    swmr_exec [WSend [1;2;3;4;5;6;7]; WRecv 1; WRecv 1; WRecv 0]
      (WS (wq_src q) (wq_dst q) mem) = (Ret tr, st) /\
    bcast_run (N - 2) (N - 34) ([], replicate 2 0%nat) tr (sent, rs) /\ (14 <= N - 34)%nat /\
    sent = bcast_sent_of tr /\
    forall i, (i < 2)%nat -> exists r, rs !! i = Some r /\ bcast_got_of i tr = take r sent.
Proof.
  apply (swmr_broadcast (fun _ => Some 4096) 2 true); [lia|intros; by eexists| |done].
  repeat constructor; simpl; unfold SEQ_PAYLOAD_WORDS; lia.
Defined.

(** [swmr_can_send] is exact: it answers yes precisely when a send would
    complete, and changes nothing. *)
Lemma swmr_can_send_exact N n sep st sent rs m :
  (2 <= N)%nat -> Z.of_nat N <= 65535 ->
  swmr_inv N n sep st sent rs -> Z.of_nat (length sent) < 4294967295 ->
  length m = SEQ_PAYLOAD_WORDS ->
  exists b, swmr_can_send (ws_src st, ws_mem st) = (Ret b, (ws_src st, ws_mem st)) /\
    (smlt_swmr_send (msg_of m) (ws_src st, ws_mem st)).1 =
      if b then Ret (err_value SMLT_SUCCESS) else Spin.
Proof.
  intros HN H16 Inv Hs Hm. pose proof Inv as [(pubs & Hn & W & I & _) _ _].
  do 8 (destruct m as [|? m]; try done).
  eexists. split; [by eapply swmr_can_send_spec|].
  match goal with |- context [msg_of [?a; ?b; ?c; ?d; ?e; ?f; ?g]] =>
    destruct (swmr_send_spec N n sep HN H16 _ _ _ a b c d e f g Inv Hs)
      as (o & w' & mem' & E & Ho & H) end.
  unfold smlt_swmr_send, mbind, M_bind. simpl. rewrite E, <- Ho.
  by destruct H as [[-> _]|[-> _]].
Qed.

Lemma swmr_fresh_witness :
  exists q mem, swmr_queue_create (fun _ => Some 4096) 2 (Z.of_nat 2) false = Ret (q, mem) /\
    wc_num_slots (wq_src q) = Z.of_nat 61 /\ (48 <= 61 <= 111)%nat /\
    swmr_inv 61 2 false (WS (wq_src q) (wq_dst q) mem) [] (replicate 2 0%nat).
Proof. apply (swmr_create_inv (fun _ => Some 4096) 2 false); [lia|intros; by eexists]. Qed.

(** The minimum over the readers starts at 2^32 - 1, so a writer whose next
    sequence number has reached the synchronisation point 2^32 + N - 2 blocks for
    ever: no position a reader publishes from there on releases it. *)
Lemma swmr_send_exhausted w mem N m :
  1 <= N <= 65535 -> wc_num_slots w = N ->
  wc_next_seq w = 4294967295 + N - 1 -> wc_next_sync w = wc_next_seq w ->
  (Z.to_nat (wc_num_readers w) <= length (wm_pos mem))%nat ->
  Forall (fun p => 4294967295 <= p) (take (Z.to_nat (wc_num_readers w)) (wm_pos mem)) ->
  length m = SEQ_PAYLOAD_WORDS ->
  (smlt_swmr_send (msg_of m) (w, mem)).1 = Spin.
Proof.
  intros HN Hsl Hseq Hsync Hlen Hpos Hm.
  assert (Hmin : forall k i, (i + k <= Z.to_nat (wc_num_readers w))%nat ->
    swmr_min k (Z.of_nat i) (wm_pos mem) 4294967295 = Some 4294967295).
  { induction k as [|k IH]; intros i Hi; simpl; [done|].
    destruct (lookup_lt_is_Some_2 (wm_pos mem) i) as [p Hp]; [lia|].
    rewrite arr_get_nat, Hp.
    assert (Hge : 4294967295 <= p)
      by (apply (Forall_lookup_1 _ _ i p Hpos); by rewrite lookup_take_lt by lia).
    destruct (Z.ltb_spec p 4294967295); [lia|].
    replace (Z.of_nat i + 1) with (Z.of_nat (S i)) by lia. apply IH. lia. }
  do 8 (destruct m as [|? m]; try done).
  unfold smlt_swmr_send, swmr_send_raw, swmr_reset_pos, swmr_sync, swmr_get_next_sync,
    on_wc, modify, gets, mbind, M_bind. simpl.
  rewrite Hsync, Z.eqb_refl. simpl. change 0 with (Z.of_nat 0). rewrite Hmin by lia. simpl.
  rewrite Hsl, Hseq, wrap_add_r, wrap_small by (pow_consts; lia).
  by replace (4294967295 + (N - 1)) with (4294967295 + N - 1) by lia; rewrite Z.eqb_refl.
Qed.


Lemma swmr_sync_skip q mem :
  wc_next_seq q <> wc_next_sync q -> swmr_sync (q, mem) = (Ret tt, (q, mem)).
Proof.
  intros H. unfold swmr_sync. rewrite (bind_ret (gets fst) _ _ q (q, mem)) by done.
  by destruct (Z.eqb_spec (wc_next_seq q) (wc_next_sync q)).
Qed.

(** From 64 readers on the size computation underflows: the loop that should
    enlarge the ring stops at once, the contexts believe in about 2^32 slots while
    the block has no data line left, and the first send writes outside it. *)
Lemma swmr_create_overrun alloc count sep m :
  64 <= count <= 255 -> (forall b, is_Some (alloc b)) -> length m = SEQ_PAYLOAD_WORDS ->
  exists q mem, swmr_queue_create alloc 2 count sep = Ret (q, mem) /\
    wc_num_slots (wq_src q) = 2 ^ 32 + 63 - count /\
    (smlt_swmr_send (msg_of m) (wq_src q, mem)).1 = Undef.
Proof.
  intros Hc Ha Hm. unfold swmr_queue_create. rewrite swmr_queue_size_spec by lia.
  destruct (Z.leb_spec count 63); [lia|]. rewrite andb_false_r.
  destruct (Ha (u32 (64 * SWMR_CACHELINE_SIZE * (if sep then 2 else 1)))) as [shm ->].
  destruct (Ha (80 * count)) as [x ->].
  assert (Hu : u8 count = count) by (apply wrap_small; pow_consts; lia).
  assert (Hs : u32 (64 - (count + 1)) = 2 ^ 32 + 63 - count)
    by (unfold wrap; pow_consts; Z.div_mod_to_equations; lia).
  eexists _, _. split; [reflexivity|]. cbn [wq_src wq_dst].
  split; [unfold swmr_init_context; simpl; by rewrite Hu, Hs|].
  do 8 (destruct m as [|? m]; try done).
  unfold smlt_swmr_send, swmr_send_raw, swmr_reset_pos, swmr_block, swmr_init_context,
    on_wc, modify, gets, mbind, M_bind. simpl. rewrite Hu, Hs.
  rewrite swmr_sync_skip by (simpl; rewrite wrap_small; pow_consts; lia). simpl.
  unfold store_datas, set_data, swmr_lines. simpl.
  replace (Z.to_nat (64 - (count + 1))) with 0%nat by lia. by rewrite line_store_nil.
Qed.

