(* ===== verification/SwmrSteps.v ===== *)
(** Single-writer multiple-reader queue, one access to shared memory at a time: the
    writer's thread and the readers' threads run in any order between any two accesses.
    [swmr_get_next_sync] reads a position it finds smaller a second time; what happens in
    between decides whether the queue is correct. *)
From S2P Require Import Prelude Errors Message SeqRing Swmr.

(** ** The operations, as states of a thread *)

(** A send of seven words. *)
Inductive writer_pc :=
  | WStart
  | WScan (i min : Z)   (** in [swmr_get_next_sync], before the test of reader [i] *)
  | WAgain (i : Z)      (** position [i] was smaller: before [min = readers_pos[i].pos] *)
  | WWord (k : Z).      (** before the store of payload word [k], of the header for [k = 8] *)

Definition load_pos (i : Z) : M wc_state Z := fun s => defined (arr_get (wm_pos s.2) i) s.
(** One iteration of the loop over the readers, or its end.  [reread]: the position is read
    again for the assignment, as the source has it through a pointer to volatile. *)
Definition scan_step (reread : bool) (i min : Z) : M wc_state writer_pc :=
  q ← gets fst;
  if i <? wc_num_readers q then
    p ← load_pos i;
    mret (if p <? min then (if reread then WAgain i else WScan (i + 1) p) else WScan (i + 1) min)
  else
    let next_sync := u64 (min + u64 (wc_num_slots q - 1)) in
    if wc_next_seq q =? next_sync then mret (WScan 0 4294967295)
    else _ ← on_wc (wc_set_next_sync next_sync); mret (WWord 1).
(** [None]: the call has returned. *)
Definition swmr_send_raw_step (reread : bool) (m : list Z) (pc : writer_pc) : M wc_state (option writer_pc) :=
  match pc with
  | WStart =>
      _ ← swmr_reset_pos;
      q ← gets fst;
      mret (Some (if wc_next_seq q =? wc_next_sync q then WScan 0 4294967295 else WWord 1))
  | WScan i min => Some <$> scan_step reread i min
  | WAgain i => p ← load_pos i; mret (Some (WScan (i + 1) p))
  | WWord k =>
      q ← gets fst;
      if k <=? 7 then
        p ← defined (arr_get m (k - 1)); _ ← store_data (wc_l_pos q) k p; mret (Some (WWord (k + 1)))
      else
        _ ← store_header (wc_l_pos q) (wc_next_seq q); _ ← swmr_step; mret None
  end.

(** A receive that does not block. *)
Inductive reader_pc :=
  | RCheck
  | RWord (k : Z) (ps : list Z).   (** before the load of word [k], of the return for [k = 8] *)
(** With the call's result, when it returns. *)
Definition swmr_receive_step (pc : reader_pc) : M wc_state (reader_pc * option (option (list Z))) :=
  match pc with
  | RCheck =>
      q ← gets fst;
      v ← load_header (wc_l_pos q);
      mret (if wc_next_seq q =? v then (RWord 1 [], None) else (RCheck, Some None))
  | RWord k ps =>
      q ← gets fst;
      if k <=? 7 then p ← load_data (wc_l_pos q) k; mret (RWord (k + 1) (ps ++ [p]), None)
      else _ ← swmr_consume; mret (RCheck, Some (Some ps))
  end.

(** ** The threads *)
Inductive thread := Writer | Reader (i : nat).
Record swmr_run := SwmrRun {
  sr_sys : swmr_sys;
  sr_send : option (list Z * writer_pc);   (** the send the writer is in *)
  sr_todo : list (list Z);
  sr_recv : list reader_pc;
  sr_trace : list swmr_event;
}.
Definition swmr_thread_step (reread : bool) (t : thread) (s : swmr_run) : option swmr_run :=
  let st := sr_sys s in
  match t with
  | Writer =>
      match sr_send s with
      | None =>
          match sr_todo s with
          | [] => Some s
          | m :: l => Some (SwmrRun st (Some (m, WStart)) l (sr_recv s) (sr_trace s))
          end
      | Some (m, pc) =>
          match swmr_send_raw_step reread m pc (ws_src st, ws_mem st) with
          | (Ret (Some pc'), (q, mem)) =>
              Some (SwmrRun (WS q (ws_dst st) mem) (Some (m, pc')) (sr_todo s) (sr_recv s) (sr_trace s))
          | (Ret None, (q, mem)) =>
              Some (SwmrRun (WS q (ws_dst st) mem) None (sr_todo s) (sr_recv s) (sr_trace s ++ [WSent m]))
          | _ => None
          end
      end
  | Reader i =>
      c ← ws_dst st !! i; pc ← sr_recv s !! i;
      match swmr_receive_step pc (c, ws_mem st) with
      | (Ret (pc', o), (q, mem)) =>
          Some (SwmrRun (WS (ws_src st) (<[i := q]> (ws_dst st)) mem) (sr_send s) (sr_todo s) (<[i := pc']> (sr_recv s))
            (sr_trace s ++ match o with None => [] | Some None => [WNothing i] | Some (Some ps) => [WGot i ps] end))
      | _ => None
      end
  end.
Fixpoint swmr_threads (reread : bool) (sched : list thread) (s : swmr_run) : option swmr_run :=
  match sched with
  | [] => Some s
  | t :: l => s' ← swmr_thread_step reread t s; swmr_threads reread l s'
  end.
Definition swmr_started (q : swmr_queue) (mem : swmr_mem) (todo : list (list Z)) : swmr_run :=
  SwmrRun (WS (wq_src q) (wq_dst q) mem) None todo ((fun _ => RCheck) <$> wq_dst q) [].

(** A message of seven words. *)
Definition words_of (j : nat) : list Z := replicate 7 (Z.of_nat j).

(** ** Every interleaving *)
Lemma drop_lookup {A} r (l l' : list A) j : drop r l = drop r l' -> (r <= j)%nat -> l !! j = l' !! j.
Proof.
  intros H Hj. pose proof (f_equal (fun x => x !! (j - r)%nat) H) as E. cbv beta in E.
  rewrite !lookup_drop in E. by replace (r + (j - r))%nat with j in E by lia.
Qed.

Lemma swmr_threads_app reread l1 l2 s : swmr_threads reread (l1 ++ l2) s = swmr_threads reread l1 s ≫= swmr_threads reread l2.
Proof. revert s. induction l1 as [|t l1 IH]; intros s; [done|]. simpl. destruct (swmr_thread_step reread t s); simpl; [apply IH|done]. Qed.

Lemma sum_list_insert_S (l : list nat) i r : l !! i = Some r -> sum_list (<[i := S r]> l) = S (sum_list l).
Proof.
  revert i. induction l as [|x l IH]; intros [|i] H; try done; simpl in *; [by simplify_eq|]. rewrite IH by done. lia.
Qed.

Section threads.
Context (N n : nat) (sep reread : bool) (HN : (2 <= N)%nat) (HN16 : Z.of_nat N <= 65535) (Hre : reread = true -> n = 1%nat).

(** Where the writer is in the send of message number [s]. *)
Definition writer_at (w : swmr_context) (mem : swmr_mem) (s : nat) (pubs : list nat) (m : list Z) (pc : writer_pc) : Prop :=
  match pc with
  | WStart => True
  | WScan i min => wc_l_pos w = Z.of_nat (s mod N) /\ wc_next_sync w = Z.of_nat (S s) /\
      exists k, i = Z.of_nat k /\ (k <= n)%nat /\ Z.of_nat (S s) <= min + Z.of_nat N - 1 /\ min <= 4294967295 /\
        forall j a, (j < k)%nat -> pubs !! j = Some a -> min <= Z.of_nat a
  | WAgain i => wc_l_pos w = Z.of_nat (s mod N) /\ wc_next_sync w = Z.of_nat (S s) /\ reread = true /\ i = 0
  | WWord k => wc_l_pos w = Z.of_nat (s mod N) /\ Z.of_nat (S s) < wc_next_sync w /\
      exists i l, k = Z.of_nat (S i) /\ (i <= 7)%nat /\ wm_data mem !! (s mod N)%nat = Some l /\
        forall j, (j < i)%nat -> l !! S j = m !! j
  end.
Definition reader_at (sent : list (list Z)) (r : nat) (pc : reader_pc) : Prop :=
  match pc with
  | RCheck => True
  | RWord k ps => exists i m, k = Z.of_nat (S i) /\ (i <= 7)%nat /\ sent !! r = Some m /\ ps = take i m
  end.

(** [old]: the messages with, in place of the one whose slot is being overwritten, what is
    in the slot; no reader needs it any more. *)
Record threads_ok (st : swmr_sys) (sd : option (list Z * writer_pc)) (rcv : list reader_pc)
    (sent old : list (list Z)) (rs pubs : list nat) : Prop := {
  to_old : length old = length sent;
  to_kept i r : rs !! i = Some r -> drop r old = drop r sent;
  to_pubs : length pubs = n;
  to_dst : length (ws_dst st) = n;
  to_rs : length rs = n;
  to_rcv : length rcv = n;
  to_writer : writer_ok N n sep (ws_src st) (length sent) pubs;
  to_mem : mem_ok N sep (ws_mem st) old pubs;
  to_reader i c r a : ws_dst st !! i = Some c -> rs !! i = Some r -> pubs !! i = Some a -> reader_ok N sep old i c r a;
  to_send m pc : sd = Some (m, pc) ->
    length m = SEQ_PAYLOAD_WORDS /\ writer_at (ws_src st) (ws_mem st) (length sent) pubs m pc;
  to_recv i r pc : rs !! i = Some r -> rcv !! i = Some pc -> reader_at sent r pc;
}.

Lemma writer_set_pos w s pubs : writer_ok N n sep w s pubs -> writer_ok N n sep (wc_set_l_pos (Z.of_nat (s mod N)) w) s pubs.
Proof using Type. intros []. constructor; try done. by left. Qed.
Lemma writer_set_sync w s pubs min :
  writer_ok N n sep w s pubs -> length pubs = n -> Z.of_nat (S s) <= min + Z.of_nat N - 1 -> min <= 4294967295 ->
  (forall j a, (j < n)%nat -> pubs !! j = Some a -> min <= Z.of_nat a) ->
  writer_ok N n sep (wc_set_next_sync (min + Z.of_nat N - 1) w) s pubs.
Proof using Type*.
  intros [] Hl H1 H2 H3. constructor; cbn [wc_set_next_sync wc_next_sync]; try done; try lia. intros j a Hj.
  pose proof (lookup_lt_Some _ _ _ Hj). specialize (H3 j a ltac:(lia) Hj). lia.
Qed.
Lemma load_pos_run q mem old pubs i a :
  mem_ok N sep mem old pubs -> pubs !! i = Some a -> load_pos (Z.of_nat i) (q, mem) = (Ret (Z.of_nat a), (q, mem)).
Proof using Type. intros I Ha. unfold load_pos. cbn [snd]. by rewrite arr_get_nat, (mo_pos _ _ _ _ _ I _ _ Ha). Qed.

(** A later position of a reader keeps the writer where it is. *)
Lemma writer_at_publish w mem pos' s pubs m pc i a a' :
  writer_at w mem s pubs m pc -> pubs !! i = Some a -> (a <= a')%nat ->
  writer_at w (WM pos' (wm_data mem) (wm_header mem)) s (<[i := a']> pubs) m pc.
Proof using Type*.
  intros H Ha Hle. destruct pc as [|x min|x|k]; [done| |done|done].
  destruct H as (H1 & H2 & k & -> & Hk & H3 & H4 & H5). split; [done|]. split; [done|]. exists k.
  split; [done|]. split; [done|]. split; [done|]. split; [done|]. intros j b Hj Hb.
  apply list_lookup_insert_Some in Hb as [(<- & <- & _)|[_ Hb]]; [|by apply (H5 j)]. specialize (H5 i a Hj Ha). lia.
Qed.

(** The payload words of the slot after the last message are the writer's. *)
Lemma scratch mem old pubs k v l :
  mem_ok N sep mem old pubs -> wm_data mem !! (length old mod N)%nat = Some l -> (1 <= k <= 7)%nat ->
  exists old', length old' = length old /\ (forall r, (length old < r + N)%nat -> drop r old' = drop r old) /\
    mem_ok N sep (WM (wm_pos mem) (<[(length old mod N)%nat := <[k := v]> l]> (wm_data mem)) (wm_header mem)) old' pubs.
Proof using Type*.
  clear Hre. intros I Hl Hk. pose proof (ring_lt N ltac:(lia) (length old)) as Hp. pose proof (mo_len _ _ _ _ _ I) as Hlen.
  pose proof (Forall_lookup_1 _ _ _ _ (mo_lines _ _ _ _ _ I) Hl) as Hl8. cbv beta in Hl8.
  set (p := (length old mod N)%nat) in *. set (mem' := WM _ _ _).
  assert (Hhd : forall x, wm_hd sep mem' x = wm_hd sep mem x).
  { intros x. unfold wm_hd, mem'. cbn [wm_data wm_header]. destruct sep; [done|]. destruct (decide (x = p)) as [->|Hne]; [|by rewrite list_lookup_insert_ne].
    rewrite list_lookup_insert_eq by lia. rewrite Hl. simpl. by rewrite list_lookup_insert_ne by lia. }
  assert (Hpl : forall x, x <> p -> wm_pl mem' x = wm_pl mem x).
  { intros x Hne. unfold wm_pl, mem'. cbn [wm_data]. by rewrite list_lookup_insert_ne. }
  assert (Hplp : wm_pl mem' p = Some (drop 1 (<[k := v]> l))).
  { unfold wm_pl, mem'. cbn [wm_data]. by rewrite list_lookup_insert_eq by lia. }
  set (old' := <[(length old - N)%nat := drop 1 (<[k := v]> l)]> old).
  pose proof (mo_ring _ _ _ _ _ I) as [Ip Ih Is If].
  destruct (decide (N <= length old)%nat) as [HNl|HNl].
  - exists old'. unfold old'. rewrite length_insert. split; [done|].
    split; [intros r Hr; by rewrite drop_insert_lt by lia|]. constructor; try apply I.
    + unfold mem'. cbn [wm_data]. by rewrite length_insert.
    + apply Forall_insert; [apply I|by rewrite length_insert].
    + constructor; rewrite ?length_insert.
      * intros x Hx. destruct (decide (x = p)) as [->|Hne]; [|rewrite Hpl by done; by apply Ip].
        rewrite Hplp. eexists. split; [done|]. rewrite length_drop, length_insert, Hl8. done.
      * intros x Hx. rewrite Hhd. by apply Ih.
      * intros j m Hj Hjl. rewrite Hhd. apply list_lookup_insert_Some in Hj as [(<- & <- & Hj)|[Hne Hj]].
        -- destruct (lookup_lt_is_Some_2 old _ Hj) as [m0 Hm0]. destruct (Is _ _ Hm0 Hjl) as [H1 _]. split; [done|].
           destruct (ring_add_period N ltac:(lia) (length old - N)) as [Ep _].
           replace (length old - N + N)%nat with (length old) in Ep by lia. fold p in Ep. rewrite <- Ep, Hplp.
           eexists. split; [done|]. by rewrite take_ge.
        -- destruct (Is j m Hj Hjl) as [H1 H2]. split; [done|]. rewrite Hpl; [done|].
           pose proof (lookup_lt_Some _ _ _ Hj). apply (ring_distinct N ltac:(lia)); lia.
      * intros x Hx. rewrite Hhd. by apply If.
    + apply Forall_insert; [apply I|]. rewrite length_drop, length_insert, Hl8. done.
  - exists old. split; [done|]. split; [done|]. constructor; try apply I.
    + unfold mem'. cbn [wm_data]. by rewrite length_insert.
    + apply Forall_insert; [apply I|by rewrite length_insert].
    + constructor.
      * intros x Hx. destruct (decide (x = p)) as [->|Hne]; [|rewrite Hpl by done; by apply Ip].
        rewrite Hplp. eexists. split; [done|]. rewrite length_drop, length_insert, Hl8. done.
      * intros x Hx. rewrite Hhd. by apply Ih.
      * intros j m Hj Hjl. rewrite Hhd. destruct (Is j m Hj Hjl) as [H1 H2]. split; [done|]. rewrite Hpl; [done|].
        pose proof (lookup_lt_Some _ _ _ Hj). apply (ring_distinct N ltac:(lia)); lia.
      * intros x Hx. rewrite Hhd. by apply If.
Qed.

(** *** A step of the writer *)

(** An upper bound of the steps until the send returns, when no reader has anything left to
    receive: a scan that has seen an old position may fail, the next one does not. *)
Definition writer_left (s : nat) (pc : writer_pc) : nat :=
  match pc with
  | WStart => 2 * n + 10
  | WScan i min => 2 * (n - Z.to_nat i) + 9 + if decide (Z.of_nat (S s) < min + Z.of_nat N - 1) then 0 else 2 * n + 2
  | WAgain i => 2 * (n - Z.to_nat i) + 8
  | WWord k => S (8 - Z.to_nat k)
  end.
Definition all_received (rs : list nat) (s : nat) : Prop := forall i r, rs !! i = Some r -> r = s.
Definition writer_next (st : swmr_sys) (rcv : list reader_pc) (m : list Z) (pc : writer_pc) (sent : list (list Z)) (rs : list nat) : Prop :=
  exists o w' mem' sent' old' pubs', swmr_send_raw_step reread m pc (ws_src st, ws_mem st) = (Ret o, (w', mem')) /\
    threads_ok (WS w' (ws_dst st) mem') (pc' ← o; Some (m, pc')) rcv sent' old' rs pubs' /\
    match o with
    | Some pc' => sent' = sent /\
        ((35 <= N)%nat -> all_received rs (length sent) -> (writer_left (length sent) pc' < writer_left (length sent) pc)%nat)
    | None => sent' = sent ++ [m] /\ forall i r, rs !! i = Some r -> (length sent < r + (N - 2))%nat
    end.

Lemma writer_moves st rcv m pc sent old rs pubs w' pc' :
  threads_ok st (Some (m, pc)) rcv sent old rs pubs ->
  swmr_send_raw_step reread m pc (ws_src st, ws_mem st) = (Ret (Some pc'), (w', ws_mem st)) ->
  writer_ok N n sep w' (length sent) pubs -> writer_at w' (ws_mem st) (length sent) pubs m pc' ->
  ((35 <= N)%nat -> all_received rs (length sent) -> (writer_left (length sent) pc' < writer_left (length sent) pc)%nat) ->
  writer_next st rcv m pc sent rs.
Proof using Type.
  intros T E W A L. exists (Some pc'), w', (ws_mem st), sent, old, pubs. split; [done|]. split; [|done].
  constructor; try apply T; [done|]. intros m1 pc1 H. injection H as <- <-. split; [|done]. by eapply (to_send _ _ _ _ _ _ _ T).
Qed.

Lemma writer_start st rcv m sent old rs pubs :
  threads_ok st (Some (m, WStart)) rcv sent old rs pubs -> Z.of_nat (length sent) < 4294967295 ->
  writer_next st rcv m WStart sent rs.
Proof using Type*.
  intros T Hs. pose proof (to_writer _ _ _ _ _ _ _ T) as W. pose proof (writer_set_pos _ _ _ W) as W'.
  eapply (writer_moves _ _ _ _ _ _ _ _ (wc_set_l_pos (Z.of_nat (length sent mod N)) (ws_src st))); [done| |done| |].
  - cbn [swmr_send_raw_step]. unfold swmr_reset_pos, on_wc, modify, gets, mbind, M_bind. cbn [fst snd].
    rewrite (wr_slots _ _ _ _ _ _ W), (lpos_reset_spec N _ (length sent)) by (lia || apply (wr_pos _ _ _ _ _ _ W)). reflexivity.
  - pose proof (wr_sync _ _ _ _ _ _ W) as Hy. pose proof (wr_seq _ _ _ _ _ _ W) as Hq.
    cbn [wc_set_l_pos wc_next_seq wc_next_sync]. rewrite Hq. destruct (Z.eqb_spec (Z.of_nat (S (length sent))) (wc_next_sync (ws_src st))).
    + split; [done|]. split; [done|]. exists 0%nat. split; [done|]. split; [lia|]. split; [lia|]. split; [lia|]. intros; lia.
    + split; [done|]. split; [cbn; lia|]. destruct (line_shape N (wm_data (ws_mem st)) (length sent mod N)) as (h & d & El & _).
      * apply (to_mem _ _ _ _ _ _ _ T).
      * apply (to_mem _ _ _ _ _ _ _ T).
      * apply ring_lt. lia.
      * exists 0%nat, (h :: d). split; [done|]. split; [lia|]. split; [done|]. intros; lia.
  - intros _ _. unfold writer_left. destruct (_ =? _); [|simpl; lia]. change (Z.to_nat 0) with 0%nat. rewrite decide_True by lia. lia.
Qed.

Lemma pub_bound st sd rcv sent old rs pubs i a :
  threads_ok st sd rcv sent old rs pubs -> pubs !! i = Some a -> (a <= length sent)%nat.
Proof using Type*.
  intros T Ha. pose proof (lookup_lt_Some _ _ _ Ha) as Hl. rewrite (to_pubs _ _ _ _ _ _ _ T) in Hl.
  destruct (lookup_lt_is_Some_2 (ws_dst st) i) as [c Hc]; [rewrite (to_dst _ _ _ _ _ _ _ T); lia|].
  destruct (lookup_lt_is_Some_2 rs i) as [r Hr]; [rewrite (to_rs _ _ _ _ _ _ _ T); lia|].
  pose proof (to_reader _ _ _ _ _ _ _ T _ _ _ _ Hc Hr Ha) as R. destruct (rd_pub _ _ _ _ _ _ _ R) as [? _].
  pose proof (rd_le _ _ _ _ _ _ _ R). rewrite (to_old _ _ _ _ _ _ _ T) in *. lia.
Qed.

Lemma pub_recent st sd rcv sent old rs pubs i a :
  threads_ok st sd rcv sent old rs pubs -> pubs !! i = Some a -> (35 <= N)%nat -> all_received rs (length sent) ->
  Z.of_nat (S (length sent)) < Z.of_nat a + Z.of_nat N - 1.
Proof using Type*.
  intros T Ha HN35 Hall. pose proof (lookup_lt_Some _ _ _ Ha) as Hl. rewrite (to_pubs _ _ _ _ _ _ _ T) in Hl.
  destruct (lookup_lt_is_Some_2 (ws_dst st) i) as [c Hc]; [rewrite (to_dst _ _ _ _ _ _ _ T); lia|].
  destruct (lookup_lt_is_Some_2 rs i) as [r Hr]; [rewrite (to_rs _ _ _ _ _ _ _ T); lia|].
  pose proof (to_reader _ _ _ _ _ _ _ T _ _ _ _ Hc Hr Ha) as R. destruct (rd_pub _ _ _ _ _ _ _ R) as [? _].
  rewrite (Hall i r Hr) in *. lia.
Qed.

Lemma writer_scan st rcv m i min sent old rs pubs :
  threads_ok st (Some (m, WScan i min)) rcv sent old rs pubs -> Z.of_nat (length sent) < 4294967295 ->
  writer_next st rcv m (WScan i min) sent rs.
Proof using Type*.
  intros T Hs. pose proof (to_writer _ _ _ _ _ _ _ T) as W. pose proof (to_mem _ _ _ _ _ _ _ T) as I.
  pose proof (to_pubs _ _ _ _ _ _ _ T) as Hn.
  destruct (to_send _ _ _ _ _ _ _ T _ _ eq_refl) as [_ (Hp & Hy & k & -> & Hk & H1 & H2 & H3)].
  pose proof (wr_seq _ _ _ _ _ _ W) as Hq. pose proof (wr_slots _ _ _ _ _ _ W) as Hsl.
  destruct (Z.ltb_spec (Z.of_nat k) (wc_num_readers (ws_src st))) as [Hlt|Hge]; rewrite (wr_readers _ _ _ _ _ _ W) in *.
  - destruct (lookup_lt_is_Some_2 pubs k) as [a Ha]; [lia|]. pose proof (wr_behind _ _ _ _ _ _ W k a Ha).
    pose proof (pub_bound _ _ _ _ _ _ _ _ _ T Ha).
    eapply (writer_moves _ _ _ _ _ _ _ _ (ws_src st)); [done| |done| |].
    + cbn [swmr_send_raw_step]. unfold scan_step, fmap, M_fmap, gets, mbind, M_bind. cbn [fst snd].
      rewrite (wr_readers _ _ _ _ _ _ W), (proj2 (Z.ltb_lt _ _) Hlt), (load_pos_run _ _ _ _ _ _ I Ha). reflexivity.
    + replace (Z.of_nat k + 1) with (Z.of_nat (S k)) by lia. destruct (Z.ltb_spec (Z.of_nat a) min); [destruct reread eqn:Er|].
      * split; [done|]. split; [done|]. split; [exact Er|]. specialize (Hre eq_refl). lia.
      * split; [done|]. split; [done|]. exists (S k). split; [done|]. split; [lia|]. split; [lia|]. split; [lia|].
        intros j b Hj Hb. destruct (decide (j = k)) as [->|]; [simplify_eq; lia|]. specialize (H3 j b ltac:(lia) Hb). lia.
      * split; [done|]. split; [done|]. exists (S k). split; [done|]. split; [lia|]. split; [lia|]. split; [lia|].
        intros j b Hj Hb. destruct (decide (j = k)) as [->|]; [simplify_eq; lia|]. apply (H3 j); [lia|done].
    + intros HN35 Hall. pose proof (pub_recent _ _ _ _ _ _ _ _ _ T Ha HN35 Hall). unfold writer_left.
      replace (Z.to_nat (Z.of_nat k + 1)) with (S k) by lia. rewrite !Nat2Z.id.
      destruct (Z.of_nat a <? min), reread; repeat case_decide; lia.
  - assert (k = n) as -> by lia.
    assert (Es : u64 (min + u64 (wc_num_slots (ws_src st) - 1)) = min + Z.of_nat N - 1).
    { rewrite Hsl, wrap_add_r, wrap_small by (pow_consts; lia). lia. }
    destruct (Z.eqb_spec (Z.of_nat (S (length sent))) (min + Z.of_nat N - 1)) as [F|F].
    + eapply (writer_moves _ _ _ _ _ _ _ _ (ws_src st)); [done| |done| |].
      * cbn [swmr_send_raw_step]. unfold scan_step, fmap, M_fmap, gets, mbind, M_bind. cbn [fst snd].
        rewrite (wr_readers _ _ _ _ _ _ W), Z.ltb_irrefl, Es, Hq, (proj2 (Z.eqb_eq _ _) F). reflexivity.
      * split; [done|]. split; [done|]. exists 0%nat. split; [done|]. split; [lia|]. split; [lia|]. split; [lia|]. intros; lia.
      * intros _ _. unfold writer_left. change (Z.to_nat 0) with 0%nat. rewrite Nat2Z.id, decide_True by lia. rewrite decide_False by lia. lia.
    + eapply (writer_moves _ _ _ _ _ _ _ _ (wc_set_next_sync (min + Z.of_nat N - 1) (ws_src st))); [done| | | |].
      * cbn [swmr_send_raw_step]. unfold scan_step, fmap, M_fmap, on_wc, modify, gets, mbind, M_bind. cbn [fst snd].
        rewrite (wr_readers _ _ _ _ _ _ W), Z.ltb_irrefl, Es, Hq, (proj2 (Z.eqb_neq _ _) F). reflexivity.
      * by apply writer_set_sync.
      * split; [done|]. split; [cbn; lia|]. destruct (line_shape N (wm_data (ws_mem st)) (length sent mod N)) as (h & d & El & _).
        -- apply I.
        -- apply I.
        -- apply ring_lt. lia.
        -- exists 0%nat, (h :: d). split; [done|]. split; [lia|]. split; [done|]. intros; lia.
      * intros _ _. simpl. lia.
Qed.

Lemma writer_again st rcv m i sent old rs pubs :
  threads_ok st (Some (m, WAgain i)) rcv sent old rs pubs -> Z.of_nat (length sent) < 4294967295 ->
  writer_next st rcv m (WAgain i) sent rs.
Proof using Type*.
  intros T Hs. pose proof (to_writer _ _ _ _ _ _ _ T) as W. pose proof (to_mem _ _ _ _ _ _ _ T) as I.
  pose proof (to_pubs _ _ _ _ _ _ _ T) as Hn.
  destruct (to_send _ _ _ _ _ _ _ T _ _ eq_refl) as [_ (Hp & Hy & Hr & ->)]. pose proof (Hre Hr) as Hn1.
  destruct (lookup_lt_is_Some_2 pubs 0) as [a Ha]; [lia|]. pose proof (wr_behind _ _ _ _ _ _ W _ a Ha).
  pose proof (pub_bound _ _ _ _ _ _ _ _ _ T Ha).
  eapply (writer_moves _ _ _ _ _ _ _ _ (ws_src st)); [done| |done| |].
  - cbn [swmr_send_raw_step]. unfold mbind, M_bind. change 0 with (Z.of_nat 0) at 1.
    rewrite (load_pos_run _ _ _ _ _ _ I Ha). reflexivity.
  - split; [done|]. split; [done|]. exists 1%nat. split; [done|]. split; [lia|]. split; [lia|]. split; [lia|].
    intros j b Hj Hb. assert (j = 0%nat) as -> by lia. simplify_eq. lia.
  - intros HN35 Hall. pose proof (pub_recent _ _ _ _ _ _ _ _ _ T Ha HN35 Hall). unfold writer_left.
    change (Z.to_nat (0 + 1)) with 1%nat. change (Z.to_nat 0) with 0%nat. rewrite decide_True by done. lia.
Qed.

Lemma reader_kept st sd rcv sent old rs pubs i r :
  threads_ok st sd rcv sent old rs pubs -> rs !! i = Some r -> (length sent + 2 <= r + N)%nat.
Proof using Type*.
  intros T Hr. pose proof (lookup_lt_Some _ _ _ Hr) as Hl. rewrite (to_rs _ _ _ _ _ _ _ T) in Hl.
  destruct (lookup_lt_is_Some_2 (ws_dst st) i) as [c Hc]; [rewrite (to_dst _ _ _ _ _ _ _ T); lia|].
  destruct (lookup_lt_is_Some_2 pubs i) as [a Ha]; [rewrite (to_pubs _ _ _ _ _ _ _ T); lia|].
  pose proof (to_reader _ _ _ _ _ _ _ T _ _ _ _ Hc Hr Ha) as R. destruct (rd_pub _ _ _ _ _ _ _ R) as [? _].
  pose proof (wr_behind _ _ _ _ _ _ (to_writer _ _ _ _ _ _ _ T) _ _ Ha).
  pose proof (wr_sync _ _ _ _ _ _ (to_writer _ _ _ _ _ _ _ T)). lia.
Qed.

Lemma writer_word st rcv m i sent old rs pubs :
  threads_ok st (Some (m, WWord (Z.of_nat (S i)))) rcv sent old rs pubs -> (i < 7)%nat ->
  writer_next st rcv m (WWord (Z.of_nat (S i))) sent rs.
Proof using Type*.
  intros T Hi. pose proof (to_writer _ _ _ _ _ _ _ T) as W. pose proof (to_mem _ _ _ _ _ _ _ T) as I.
  destruct (to_send _ _ _ _ _ _ _ T _ _ eq_refl) as [Hm (Hp & Hy & j & l & Hj & _ & Hl & Hw)].
  assert (j = i) as -> by lia. unfold SEQ_PAYLOAD_WORDS in Hm. destruct (lookup_lt_is_Some_2 m i) as [v Hv]; [lia|].
  pose proof (Forall_lookup_1 _ _ _ _ (mo_lines _ _ _ _ _ I) Hl) as Hl8. cbv beta in Hl8.
  pose proof (lookup_lt_Some _ _ _ Hl) as Hpl. pose proof (to_old _ _ _ _ _ _ _ T) as Ho.
  destruct (scratch (ws_mem st) old pubs (S i) v l I) as (old' & Hlen & Hdrop & I'); [by rewrite Ho|lia|].
  eexists (Some (WWord (Z.of_nat (S (S i))))), (ws_src st), _, sent, old', pubs. split; [|split; [|split; [done|intros _ _; unfold writer_left; rewrite !Nat2Z.id; lia]]].
  - cbn [swmr_send_raw_step]. unfold gets, mbind, M_bind. cbn [fst snd].
    rewrite (proj2 (Z.leb_le _ _)) by lia. replace (Z.of_nat (S i) - 1) with (Z.of_nat i) by lia.
    rewrite arr_get_nat, Hv. cbn [defined mret M_ret]. unfold store_data, set_data. cbn [snd fst].
    rewrite Hp, (line_store_run _ _ _ _ l Hl) by lia. replace (Z.of_nat (S i) + 1) with (Z.of_nat (S (S i))) by lia.
    rewrite <- Ho. reflexivity.
  - constructor; try apply T; [by rewrite Hlen| |done| | ].
    + intros x r Hr. pose proof (reader_kept _ _ _ _ _ _ _ _ _ T Hr). rewrite Hdrop by lia. by apply (to_kept _ _ _ _ _ _ _ T x).
    + intros x c r a Hc Hr Ha. pose proof (to_reader _ _ _ _ _ _ _ T _ _ _ _ Hc Hr Ha) as []. constructor; try done. lia.
    + intros m1 pc1 H. injection H as <- <-. split; [done|]. split; [done|]. split; [done|].
      exists (S i), (<[S i := v]> l). split; [done|]. split; [lia|]. cbn [ws_mem wm_data].
      rewrite Ho, list_lookup_insert_eq by lia. split; [done|]. intros x Hx.
      destruct (decide (x = i)) as [->|Hne]; [rewrite list_lookup_insert_eq by lia; done|].
      rewrite list_lookup_insert_ne by lia. apply Hw. lia.
Qed.

Lemma writer_publish st rcv m sent old rs pubs :
  threads_ok st (Some (m, WWord 8)) rcv sent old rs pubs -> Z.of_nat (length sent) < 4294967295 ->
  writer_next st rcv m (WWord 8) sent rs.
Proof using Type*.
  intros T Hs. pose proof (to_writer _ _ _ _ _ _ _ T) as W. pose proof (to_mem _ _ _ _ _ _ _ T) as I.
  destruct (to_send _ _ _ _ _ _ _ T _ _ eq_refl) as [Hm (Hp & Hy & j & l & Hj & _ & Hl & Hw)].
  assert (j = 7)%nat as -> by lia. pose proof (to_old _ _ _ _ _ _ _ T) as Ho.
  pose proof (Forall_lookup_1 _ _ _ _ (mo_lines _ _ _ _ _ I) Hl) as Hl8. cbv beta in Hl8.
  destruct l as [|h l]; [done|]. assert (l = m) as ->.
  { apply list_eq_same_length with 7%nat; [done|simpl in Hl8; lia|]. intros x a b Hx Ha Hb. specialize (Hw x Hx). simpl in Hw. congruence. }
  destruct (store_message_spec N sep (ws_src st) (ws_mem st) old pubs (length sent mod N)%nat m (Z.of_nat (S (length sent))) I
    (ring_lt N ltac:(lia) _) (wr_sep _ _ _ _ _ _ W) Hm) as (mem' & E & Ep & H1 & H2 & H3 & H4 & H5 & H6 & H7).
  unfold store_datas, set_data, mbind, M_bind in E. cbn [fst snd] in E.
  rewrite (line_stores_run _ _ h m) in E by done. rewrite list_insert_id in E by done.
  replace (WM _ _ _) with (ws_mem st) in E by (by destruct (ws_mem st)).
  set (w' := wc_set_l_pos (u16 (Z.of_nat (length sent mod N) + 1)) (wc_set_next_seq (u64 (Z.of_nat (S (length sent)) + 1)) (ws_src st))).
  exists None, w', mem', (sent ++ [m]), (old ++ [m]), pubs. split; [|split; [|split; [done|]]].
  - cbn [swmr_send_raw_step]. unfold gets, mbind, M_bind. change (8 <=? 7) with false. cbn [fst snd].
    rewrite Hp, (wr_seq _ _ _ _ _ _ W). unfold mbind, M_bind. rewrite E.
    unfold swmr_step, on_wc, modify, mbind, M_bind, w'. cbn [fst snd wc_next_seq wc_l_pos wc_set_next_seq].
    by rewrite (wr_seq _ _ _ _ _ _ W), Hp.
  - constructor; try apply T; [by rewrite !length_app, Ho| | | | |done|].
    + intros x r Hr. pose proof (reader_kept _ _ _ _ _ _ _ _ _ T Hr) as Hk. destruct (decide (r <= length sent)%nat) as [Hle|Hgt].
      * rewrite !drop_app_le by lia. f_equal. by apply (to_kept _ _ _ _ _ _ _ T x).
      * rewrite !drop_ge by (rewrite length_app; simpl; lia). done.
    + destruct W. unfold w'. constructor; cbn [ws_src wc_set_l_pos wc_set_next_seq wc_num_slots wc_num_readers wc_l_pos wc_next_seq wc_next_sync];
        rewrite ?length_app; cbn [length]; rewrite ?Nat.add_1_r; try done.
      * apply lpos_next; lia.
      * rewrite wrap_small by (pow_consts; lia). cbn. lia.
      * cbn. lia.
    + apply (mem_ok_append N sep HN HN16 (ws_mem st)); try done; rewrite ?Ho; try done. pow_consts. lia.
    + intros x c r a Hc Hr Ha. apply reader_ok_mono. by apply (to_reader _ _ _ _ _ _ _ T x).
    + intros x r pc Hr Hpc. pose proof (to_recv _ _ _ _ _ _ _ T x r pc Hr Hpc) as A. destruct pc as [|k ps]; [done|].
      destruct A as (i & m1 & -> & Hi & Hm1 & ->). exists i, m1. split; [done|]. split; [done|]. split; [|done].
      by apply lookup_app_l_Some.
  - intros x r Hr. pose proof (lookup_lt_Some _ _ _ Hr) as Hlt. rewrite (to_rs _ _ _ _ _ _ _ T) in Hlt.
    destruct (lookup_lt_is_Some_2 (ws_dst st) x) as [c Hc]; [rewrite (to_dst _ _ _ _ _ _ _ T); lia|].
    destruct (lookup_lt_is_Some_2 pubs x) as [a Ha]; [rewrite (to_pubs _ _ _ _ _ _ _ T); lia|].
    pose proof (to_reader _ _ _ _ _ _ _ T _ _ _ _ Hc Hr Ha) as R. destruct (rd_pub _ _ _ _ _ _ _ R) as [? _].
    pose proof (wr_behind _ _ _ _ _ _ W _ _ Ha). lia.
Qed.

Lemma writer_step st rcv m pc sent old rs pubs :
  threads_ok st (Some (m, pc)) rcv sent old rs pubs -> Z.of_nat (length sent) < 4294967295 ->
  writer_next st rcv m pc sent rs.
Proof using Type*.
  intros T Hs. destruct pc as [|i min|i|k].
  - by apply (writer_start _ _ _ _ old _ pubs).
  - by apply (writer_scan _ _ _ _ _ _ old _ pubs).
  - by apply (writer_again _ _ _ _ _ old _ pubs).
  - destruct (to_send _ _ _ _ _ _ _ T _ _ eq_refl) as [_ (_ & _ & i & l & -> & Hi & _)].
    destruct (decide (i = 7)%nat) as [->|]; [by apply (writer_publish _ _ _ _ old _ pubs)|].
    apply (writer_word _ _ _ _ _ old _ pubs); [done|lia].
Qed.

(** *** A step of a reader *)

(** The steps until a receive returns. *)
Definition reader_left (pc : reader_pc) : nat :=
  match pc with RCheck => 9 | RWord k _ => S (8 - Z.to_nat k) end.
Definition reader_next (st : swmr_sys) (sd : option (list Z * writer_pc)) (rcv : list reader_pc) (i : nat)
    (c : swmr_context) (pc : reader_pc) (sent old : list (list Z)) (rs : list nat) : Prop :=
  exists pc' o c' mem' rs' pubs', swmr_receive_step pc (c, ws_mem st) = (Ret (pc', o), (c', mem')) /\
    threads_ok (WS (ws_src st) (<[i := c']> (ws_dst st)) mem') sd (<[i := pc']> rcv) sent old rs' pubs' /\
    match o with
    | None => rs' = rs /\ (reader_left pc' < reader_left pc)%nat
    | Some None => rs' = rs /\ rs !! i = Some (length sent)
    | Some (Some m) => exists r, rs !! i = Some r /\ sent !! r = Some m /\ rs' = <[i := S r]> rs
    end.

Lemma recv_insert (rcv : list reader_pc) (rs : list nat) sent i pc' :
  (forall j r pc, rs !! j = Some r -> rcv !! j = Some pc -> reader_at sent r pc) ->
  (forall r, rs !! i = Some r -> reader_at sent r pc') ->
  forall j r pc, rs !! j = Some r -> <[i := pc']> rcv !! j = Some pc -> reader_at sent r pc.
Proof using Type.
  intros H H' j r pc Hr Hpc. apply list_lookup_insert_Some in Hpc as [(<- & <- & _)|[_ Hpc]]; [by apply H'|by apply (H j)].
Qed.
Lemma reader_moves st sd rcv i c pc' sent old rs pubs :
  threads_ok st sd rcv sent old rs pubs -> ws_dst st !! i = Some c ->
  (forall r, rs !! i = Some r -> reader_at sent r pc') ->
  threads_ok (WS (ws_src st) (<[i := c]> (ws_dst st)) (ws_mem st)) sd (<[i := pc']> rcv) sent old rs pubs.
Proof using Type.
  intros T Hc Hpc. rewrite list_insert_id by done. constructor; try apply T.
  - rewrite length_insert. apply T.
  - apply recv_insert; [apply T|done].
Qed.

Lemma reader_facts st sd rcv i c sent old rs pubs :
  threads_ok st sd rcv sent old rs pubs -> ws_dst st !! i = Some c ->
  exists r a, rs !! i = Some r /\ pubs !! i = Some a /\ reader_ok N sep old i c r a /\ old !! r = sent !! r /\
    (length old <= r + N)%nat /\ Z.of_nat (length old) < 4294967296 + Z.of_nat N.
Proof using Type*.
  intros T Hc. pose proof (lookup_lt_Some _ _ _ Hc) as Hl. rewrite (to_dst _ _ _ _ _ _ _ T) in Hl.
  destruct (lookup_lt_is_Some_2 rs i) as [r Hr]; [rewrite (to_rs _ _ _ _ _ _ _ T); lia|].
  destruct (lookup_lt_is_Some_2 pubs i) as [a Ha]; [rewrite (to_pubs _ _ _ _ _ _ _ T); lia|].
  exists r, a. split; [done|]. split; [done|]. split; [by apply (to_reader _ _ _ _ _ _ _ T)|].
  split; [by apply (drop_lookup r); [apply (to_kept _ _ _ _ _ _ _ T i)|]|].
  pose proof (reader_kept _ _ _ _ _ _ _ _ _ T Hr). rewrite (to_old _ _ _ _ _ _ _ T). split; [lia|].
  pose proof (wr_sync _ _ _ _ _ _ (to_writer _ _ _ _ _ _ _ T)). lia.
Qed.

Lemma reader_check st sd rcv i c sent old rs pubs :
  threads_ok st sd rcv sent old rs pubs -> ws_dst st !! i = Some c -> reader_next st sd rcv i c RCheck sent old rs.
Proof using Type*.
  intros T Hc. destruct (reader_facts _ _ _ _ _ _ _ _ _ T Hc) as (r & a & Hr & Ha & R & Hold & Hk & Hb).
  pose proof (to_mem _ _ _ _ _ _ _ T) as I. pose proof (rd_le _ _ _ _ _ _ _ R) as Hle.
  destruct (seq_pending N ltac:(lia) ltac:(lia) _ _ _ r (mo_ring _ _ _ _ _ I) Hle Hk) as (v & Hv & Hd).
  rewrite wrap_small in Hd by (pow_consts; lia).
  assert (El : load_header (wc_l_pos c) (c, ws_mem st) = (Ret v, (c, ws_mem st))).
  { unfold load_header. cbn [fst snd]. rewrite (rd_sep _ _ _ _ _ _ _ R), (rd_pos _ _ _ _ _ _ _ R).
    unfold wm_hd in Hv. apply bind_Some in Hv as (l & Hl & Hv). change 0 with (Z.of_nat 0). by rewrite (line_load_run _ _ _ l v). }
  unfold reader_next. cbn [swmr_receive_step]. unfold gets, mbind, M_bind. cbn [fst]. rewrite El, (rd_seq _ _ _ _ _ _ _ R), Hd.
  case_bool_decide as D.
  - destruct (lookup_lt_is_Some_2 old r D) as [m Hm]. exists (RWord 1 []), None, c, (ws_mem st), rs, pubs.
    split; [done|]. split; [|split; [done|simpl; lia]]. apply reader_moves; [done|done|]. intros r' Hr'. simplify_eq.
    exists 0%nat, m. split; [done|]. split; [lia|]. split; [congruence|done].
  - exists RCheck, (Some None), c, (ws_mem st), rs, pubs. split; [done|]. split; [by apply reader_moves|].
    split; [done|]. rewrite Hr. f_equal. rewrite (to_old _ _ _ _ _ _ _ T) in *. lia.
Qed.

Lemma reader_word st sd rcv i c k ps sent old rs pubs :
  threads_ok st sd rcv sent old rs pubs -> ws_dst st !! i = Some c -> rcv !! i = Some (RWord k ps) ->
  reader_next st sd rcv i c (RWord k ps) sent old rs.
Proof using Type*.
  intros T Hc Hrc. destruct (reader_facts _ _ _ _ _ _ _ _ _ T Hc) as (r & a & Hr & Ha & R & Hold & Hk & Hb).
  pose proof (to_mem _ _ _ _ _ _ _ T) as I.
  destruct (to_recv _ _ _ _ _ _ _ T _ _ _ Hr Hrc) as (j & m & -> & Hj & Hm & ->). rewrite Hm in Hold.
  pose proof (Forall_lookup_1 _ _ _ _ (mo_words _ _ _ _ _ I) Hold) as Hmw. cbv beta in Hmw.
  unfold reader_next. cbn [swmr_receive_step]. unfold gets, mbind, M_bind. cbn [fst].
  destruct (decide (j = 7)%nat) as [->|Hne].
  - change (Z.of_nat 8 <=? 7) with false. rewrite take_ge by (unfold SEQ_PAYLOAD_WORDS in Hmw; lia).
    pose proof (lookup_lt_Some _ _ _ Hold) as Hlt.
    destruct (swmr_consume_spec N sep HN HN16 c (ws_mem st) old i r a pubs R Ha (mo_pos _ _ _ _ _ I i a Ha) Hlt)
      as (c' & Ec & R'); [change (2 ^ 33) with 8589934592; lia|]. rewrite Ec.
    destruct (rd_pub _ _ _ _ _ _ _ R) as [Hpa _].
    set (pub := bool_decide (S (S r) mod 64 < 32)%nat) in *. set (a' := if pub then S r else a) in *.
    assert (Haa : (a <= a')%nat) by (unfold a'; destruct pub; lia).
    eexists RCheck, (Some (Some m)), c', _, (<[i := S r]> rs), (<[i := a']> pubs). split; [reflexivity|]. split; [|by exists r].
    pose proof (lookup_lt_Some _ _ _ Hr). pose proof (lookup_lt_Some _ _ _ Hc). pose proof (lookup_lt_Some _ _ _ Ha).
    constructor; cbn [ws_src ws_dst ws_mem]; rewrite ?length_insert; try apply T.
    + intros x y Hx. apply list_lookup_insert_Some in Hx as [(<- & <- & _)|[_ Hx]]; [|by apply (to_kept _ _ _ _ _ _ _ T x)].
      pose proof (to_kept _ _ _ _ _ _ _ T i r Hr) as E. apply (f_equal (drop 1)) in E. rewrite !drop_drop in E.
      by rewrite Nat.add_1_r in E.
    + apply (writer_ok_publish _ _ _ _ _ _ _ a); [apply T|done|done].
    + apply (mem_ok_publish _ _ _ _ _ _ a); [done|done|]. unfold a'. destruct pub; case_decide; done || lia.
    + intros x cx rx ax Hcx Hrx Hax. destruct (decide (i = x)) as [<-|Hx].
      * rewrite list_lookup_insert_eq in Hcx by done. rewrite list_lookup_insert_eq in Hrx by done.
        rewrite list_lookup_insert_eq in Hax by done. by simplify_eq.
      * rewrite list_lookup_insert_ne in Hcx by done. rewrite list_lookup_insert_ne in Hrx by done.
        rewrite list_lookup_insert_ne in Hax by done. by apply (to_reader _ _ _ _ _ _ _ T x).
    + intros m1 pc1 Hsd. destruct (to_send _ _ _ _ _ _ _ T _ _ Hsd) as [? A]. split; [done|].
      by apply (writer_at_publish _ _ _ _ _ _ _ i a).
    + intros x y pc Hx Hpc. destruct (decide (i = x)) as [<-|Hne].
      * rewrite list_lookup_insert_eq in Hpc by (by eapply lookup_lt_Some). by injection Hpc as <-.
      * rewrite list_lookup_insert_ne in Hx by done. rewrite list_lookup_insert_ne in Hpc by done. by apply (to_recv _ _ _ _ _ _ _ T x).
  - rewrite (proj2 (Z.leb_le _ _)) by lia.
    destruct (seq_read N ltac:(lia) ltac:(lia) _ _ _ r m (mo_ring _ _ _ _ _ I) Hold Hk) as (d & Hpl & Hl & Ht).
    rewrite take_ge in Ht by lia. subst d. unfold wm_pl in Hpl. apply fmap_Some in Hpl as (l & Hl0 & ->).
    unfold SEQ_PAYLOAD_WORDS in Hmw. destruct (lookup_lt_is_Some_2 (drop 1 l) j) as [v Hv]; [lia|].
    assert (Hlv : l !! S j = Some v) by (by rewrite lookup_drop in Hv).
    assert (El : load_data (wc_l_pos c) (Z.of_nat (S j)) (c, ws_mem st) = (Ret v, (c, ws_mem st))).
    { unfold load_data. cbn [fst snd]. rewrite (rd_pos _ _ _ _ _ _ _ R). by rewrite (line_load_run _ _ _ l v). }
    rewrite El. exists (RWord (Z.of_nat (S (S j))) (take (S j) (drop 1 l))), None, c, (ws_mem st), rs, pubs.
    split; [cbn [mret M_ret]; replace (Z.of_nat (S j) + 1) with (Z.of_nat (S (S j))) by lia; by rewrite (take_S_r _ _ v)|].
    split; [|split; [done|unfold reader_left; rewrite !Nat2Z.id; lia]]. apply reader_moves; [done|done|]. intros r' Hr'. simplify_eq.
    exists (S j), (drop 1 l). split; [done|]. split; [lia|done].
Qed.
Lemma reader_step st sd rcv i c pc sent old rs pubs :
  threads_ok st sd rcv sent old rs pubs -> ws_dst st !! i = Some c -> rcv !! i = Some pc ->
  reader_next st sd rcv i c pc sent old rs.
Proof using Type*.
  intros T Hc Hpc. destruct pc as [|k ps]; [by apply (reader_check _ _ _ _ _ _ _ _ pubs)|by apply (reader_word _ _ _ _ _ _ _ _ _ _ pubs)].
Qed.

(** *** Any schedule *)
Definition thread_valid (t : thread) : Prop := match t with Writer => True | Reader i => (i < n)%nat end.
Definition run_ok (s : swmr_run) (sent : list (list Z)) (rs : list nat) : Prop :=
  (exists old pubs, threads_ok (sr_sys s) (sr_send s) (sr_recv s) sent old rs pubs) /\
  Forall (fun m => length m = SEQ_PAYLOAD_WORDS) (sr_todo s) /\
  Z.of_nat (length sent + length (sr_todo s) + (if sr_send s is Some _ then 1 else 0)) < 4294967295.
(** The messages sent and those that will be. *)
Definition unsent (s : swmr_run) : list (list Z) := option_list (fst <$> sr_send s) ++ sr_todo s.
Definition plan (s : swmr_run) (sent : list (list Z)) : list (list Z) := sent ++ unsent s.
(** What has been done: the messages sent and received. *)
Definition work_done (sent : list (list Z)) (rs : list nat) : nat := length sent + sum_list rs.
(** A reader with something to receive; the writer, if none has and it has something to send. *)
Definition enabled (t : thread) (s : swmr_run) (sent : list (list Z)) (rs : list nat) : Prop :=
  match t with
  | Writer => all_received rs (length sent) /\ unsent s <> []
  | Reader i => exists r, rs !! i = Some r /\ (r < length sent)%nat
  end.
Definition steps_left (t : thread) (s : swmr_run) (sent : list (list Z)) : nat :=
  match t with
  | Writer => match sr_send s with None => 2 * n + 11 | Some (_, pc) => writer_left (length sent) pc end
  | Reader i => from_option reader_left 0%nat (sr_recv s !! i)
  end.
(** A step of [t] sends or receives a message, or brings [t] nearer to it if it is enabled. *)
Definition advances (t : thread) (s s' : swmr_run) (sent : list (list Z)) (rs : list nat) (sent' : list (list Z)) (rs' : list nat) : Prop :=
  (work_done sent rs < work_done sent' rs')%nat \/
  (sent' = sent /\ rs' = rs /\ (forall u, u <> t -> steps_left u s' sent = steps_left u s sent) /\
   ((35 <= N)%nat -> enabled t s sent rs -> (steps_left t s' sent < steps_left t s sent)%nat)).
Definition run_next (low : nat) (t : thread) (s s' : swmr_run) (sent : list (list Z)) (rs : list nat) : Prop :=
  exists sent' rs' new, run_ok s' sent' rs' /\ sr_trace s' = sr_trace s ++ new /\
    bcast_run (N - 2) low (sent, rs) new (sent', rs') /\ plan s' sent' = plan s sent /\
    advances t s s' sent rs sent' rs'.

Lemma run_stays low t s s' sent rs :
  run_ok s' sent rs -> sr_trace s' = sr_trace s -> unsent s' = unsent s -> advances t s s' sent rs sent rs ->
  run_next low t s s' sent rs.
Proof using Type.
  intros H E U A. exists sent, rs, []. rewrite app_nil_r. split; [done|]. split; [done|]. split; [constructor|].
  split; [unfold plan; by rewrite U|done].
Qed.
Lemma run_event low t s s' sent rs e sent' rs' :
  run_ok s' sent' rs' -> sr_trace s' = sr_trace s ++ [e] -> bcast_step (N - 2) low (sent, rs) e (sent', rs') ->
  plan s' sent' = plan s sent -> advances t s s' sent rs sent' rs' -> run_next low t s s' sent rs.
Proof using Type.
  intros H E B P A. exists sent', rs', [e]. split; [done|]. split; [done|]. split; [|by split].
  econstructor; [done|constructor].
Qed.
(** Steps that leave the readers alone, or the writer. *)
Lemma advances_writer s s' sent rs :
  sr_recv s' = sr_recv s -> ((35 <= N)%nat -> enabled Writer s sent rs -> (steps_left Writer s' sent < steps_left Writer s sent)%nat) ->
  advances Writer s s' sent rs sent rs.
Proof using Type.
  intros Hr Hw. right. split; [done|]. split; [done|]. split; [|done]. intros [|i] Hu; [done|]. simpl. by rewrite Hr.
Qed.
Lemma advances_reader i pc s s' sent rs :
  sr_send s' = sr_send s -> sr_recv s' = <[i := pc]> (sr_recv s) ->
  ((35 <= N)%nat -> enabled (Reader i) s sent rs -> (steps_left (Reader i) s' sent < steps_left (Reader i) s sent)%nat) ->
  advances (Reader i) s s' sent rs sent rs.
Proof using Type.
  intros Hs Hr Hw. right. split; [done|]. split; [done|]. split; [|done]. intros [|j] Hu; simpl; [by rewrite Hs|].
  rewrite Hr, list_lookup_insert_ne; [done|congruence].
Qed.

Lemma writer_thread low s sent rs :
  run_ok s sent rs -> exists s', swmr_thread_step reread Writer s = Some s' /\ run_next low Writer s s' sent rs.
Proof using Type*.
  intros [(old & pubs & T) [Htodo Hb]]. destruct s as [st sd todo rcv tr]. cbn [sr_sys sr_send sr_todo sr_recv] in *.
  destruct sd as [[m pc]|].
  - destruct (writer_step _ _ _ _ _ _ _ _ T) as (o & w' & mem' & sent' & old' & pubs' & E & T' & Ho); [lia|].
    unfold swmr_thread_step. cbn [sr_sys sr_send]. rewrite E. destruct o as [pc'|]; (eexists; split; [reflexivity|]).
    + destruct Ho as [-> Hl]. apply run_stays; [|done|done|].
      * split; [by exists old', pubs'|]. split; [done|]. cbn [sr_send sr_todo]. lia.
      * apply advances_writer; [done|]. intros HN35 [Hall _]. by apply Hl.
    + destruct Ho as [-> Hcap]. eapply run_event; [|done|by apply bcast_sent|unfold plan; cbn; by rewrite <- app_assoc|].
      * split; [by exists old', pubs'|]. split; [done|]. cbn [sr_send sr_todo]. rewrite length_app. simpl. lia.
      * left. unfold work_done. rewrite length_app. simpl. lia.
  - unfold swmr_thread_step. cbn [sr_sys sr_send sr_todo sr_recv sr_trace]. destruct todo as [|m todo].
    + eexists. split; [done|]. apply run_stays; [|done|done|].
      * split; [by exists old, pubs|done].
      * apply advances_writer; [done|]. by intros _ [_ ?].
    + apply Forall_cons in Htodo as [Hm Htodo]. eexists. split; [done|]. apply run_stays; [|done|done|].
      * split; [|split; [done|simpl in *; lia]]. exists old, pubs. constructor; try apply T. intros m1 pc1 H. by injection H as <- <-.
      * apply advances_writer; [done|]. intros _ _. simpl. lia.
Qed.
Lemma reader_thread low i s sent rs :
  run_ok s sent rs -> (i < n)%nat -> exists s', swmr_thread_step reread (Reader i) s = Some s' /\ run_next low (Reader i) s s' sent rs.
Proof using Type*.
  intros [(old & pubs & T) [Htodo Hb]] Hi. destruct s as [st sd todo rcv tr]. cbn [sr_sys sr_send sr_todo sr_recv] in *.
  destruct (lookup_lt_is_Some_2 (ws_dst st) i) as [c Hc]; [rewrite (to_dst _ _ _ _ _ _ _ T); lia|].
  destruct (lookup_lt_is_Some_2 rcv i) as [pc Hpc]; [rewrite (to_rcv _ _ _ _ _ _ _ T); lia|].
  destruct (reader_step _ _ _ _ _ _ _ _ _ _ T Hc Hpc) as (pc' & o & c' & mem' & rs' & pubs' & E & T' & Ho).
  unfold swmr_thread_step. cbn [sr_sys sr_send sr_todo sr_recv sr_trace]. rewrite Hc. cbn [mbind option_bind].
  rewrite Hpc. cbn [mbind option_bind]. rewrite E. eexists. split; [reflexivity|].
  assert (R : run_ok (SwmrRun (WS (ws_src st) (<[i := c']> (ws_dst st)) mem') sd todo (<[i := pc']> rcv)
    (tr ++ match o with None => [] | Some None => [WNothing i] | Some (Some ps) => [WGot i ps] end)) sent rs')
    by (split; [by exists old, pubs'|done]).
  destruct o as [[m|]|].
  - destruct Ho as (r & Hr & Hm & ->). eapply run_event; [exact R|done|by eapply bcast_got|done|].
    left. unfold work_done. rewrite (sum_list_insert_S _ _ _ Hr). lia.
  - destruct Ho as [-> Hr]. eapply run_event; [exact R|done|by apply bcast_nothing|done|].
    apply (advances_reader i pc'); [done|done|]. intros _ (r & Hr' & Hlt). simplify_eq. lia.
  - destruct Ho as [-> Hl]. apply run_stays; [exact R|cbn [sr_trace]; by rewrite app_nil_r|done|].
    apply (advances_reader i pc'); [done|done|]. intros _ _. simpl.
    rewrite list_lookup_insert_eq, Hpc by (by eapply lookup_lt_Some). done.
Qed.
Lemma any_thread low t s sent rs :
  run_ok s sent rs -> thread_valid t -> exists s', swmr_thread_step reread t s = Some s' /\ run_next low t s s' sent rs.
Proof using Type*. destruct t as [|i]; [intros H _; by apply writer_thread|intros; by apply reader_thread]. Qed.

Lemma bcast_run_app low b t1 b1 t2 b2 :
  bcast_run (N - 2) low b t1 b1 -> bcast_run (N - 2) low b1 t2 b2 -> bcast_run (N - 2) low b (t1 ++ t2) b2.
Proof using Type. induction 1; intros; simpl; [done|]. econstructor; eauto. Qed.

Lemma swmr_threads_refine low sched : forall s sent rs,
  run_ok s sent rs -> Forall thread_valid sched ->
  exists s' sent' rs' new, swmr_threads reread sched s = Some s' /\ run_ok s' sent' rs' /\
    sr_trace s' = sr_trace s ++ new /\ bcast_run (N - 2) low (sent, rs) new (sent', rs').
Proof using Type*.
  induction sched as [|t sched IH]; intros s sent rs H Hv.
  { exists s, sent, rs, []. rewrite app_nil_r. split; [done|]. split; [done|]. split; [done|constructor]. }
  apply Forall_cons in Hv as [Ht Hv]. destruct (any_thread low t s sent rs H Ht) as (s1 & E1 & sent1 & rs1 & n1 & H1 & T1 & B1 & _).
  destruct (IH s1 sent1 rs1 H1 Hv) as (s2 & sent2 & rs2 & n2 & E2 & H2 & T2 & B2).
  exists s2, sent2, rs2, (n1 ++ n2). cbn [swmr_threads]. rewrite E1. split; [done|]. split; [done|].
  split; [by rewrite T2, T1, app_assoc|by apply (bcast_run_app _ _ _ (sent1, rs1))].
Qed.
End threads.

Lemma swmr_started_ok N n sep reread q mem todo :
  swmr_inv N n sep (WS (wq_src q) (wq_dst q) mem) [] (replicate n 0%nat) ->
  Forall (fun m => length m = SEQ_PAYLOAD_WORDS) todo -> Z.of_nat (length todo) < 4294967295 ->
  run_ok N n sep reread (swmr_started q mem todo) [] (replicate n 0%nat).
Proof.
  intros [(pubs & Hn & W & I & R) Hd Hr] Htodo Hb. split; [|split; [done|simpl; lia]]. exists [], pubs.
  constructor; try done. simpl. by rewrite length_fmap. intros i r pc _ Hpc. unfold swmr_started in Hpc.
  cbn [sr_recv] in Hpc. apply list_lookup_fmap_Some in Hpc as (c & -> & _). done.
Qed.

(** ** Properties *)

(** [C5] Single accesses of the writer and of 1 to 63 readers, in any order, from creation on
    (fewer than 2^32 - 1 messages): no access is out of bounds and the queue is a broadcast
    channel, every reader receiving exactly the messages sent, in order - provided
    [swmr_get_next_sync] takes the position it compared, or there is only one reader. *)
Theorem swmr_interleaved alloc n sep reread todo sched :
  (1 <= n <= 63)%nat -> (forall b, is_Some (alloc b)) -> (reread = true -> n = 1%nat) ->
  Forall (fun m => length m = SEQ_PAYLOAD_WORDS) todo -> Z.of_nat (length todo) < 4294967295 ->
  Forall (thread_valid n) sched ->
  exists q mem s sent rs,
    let N := swmr_ring_size n in
    swmr_queue_create alloc 2 (Z.of_nat n) sep = Ret (q, mem) /\
    swmr_threads reread sched (swmr_started q mem todo) = Some s /\
    bcast_run (N - 2) (N - 34) ([], replicate n 0%nat) (sr_trace s) (sent, rs) /\
    sent = bcast_sent_of (sr_trace s) /\
    forall i, (i < n)%nat -> exists r, rs !! i = Some r /\ bcast_got_of i (sr_trace s) = take r sent.
Proof.
  intros Hn Ha Hre Htodo Hb Hv. destruct (swmr_create_inv alloc n sep Hn Ha) as (q & mem & E & _ & HN & Inv).
  pose proof (swmr_started_ok _ _ _ reread q mem todo Inv Htodo Hb) as H0.
  destruct (swmr_threads_refine (swmr_ring_size n) n sep reread ltac:(lia) ltac:(lia) Hre (swmr_ring_size n - 34) sched _ _ _ H0 Hv)
    as (s & sent & rs & new & Es & _ & T & B). simpl in T. subst new.
  exists q, mem, s, sent, rs. split; [done|]. split; [done|]. split; [done|]. split.
  - destruct (bcast_run_order _ _ _ _ _ _ _ 0 0 B) as (r & _ & Hs & _); [|done]. apply lookup_replicate_2. lia.
  - intros i Hi. destruct (bcast_run_order _ _ _ _ _ _ _ i 0 B) as (r & Hr & Hs & Ho); [by apply lookup_replicate_2|].
    exists r. split; [done|]. destruct Ho as [Ho _]; [simpl; lia|]. by rewrite Ho.
Qed.
Lemma swmr_interleaved_witness :
  exists q mem s sent rs,
    let N := swmr_ring_size 2 in
    swmr_queue_create (fun _ => Some 4096) 2 (Z.of_nat 2) true = Ret (q, mem) /\
    swmr_threads false [Writer; Reader 1; Writer; Writer; Reader 0] (swmr_started q mem [words_of 1; words_of 2]) = Some s /\
    bcast_run (N - 2) (N - 34) ([], replicate 2 0%nat) (sr_trace s) (sent, rs) /\
    sent = bcast_sent_of (sr_trace s) /\
    forall i, (i < 2)%nat -> exists r, rs !! i = Some r /\ bcast_got_of i (sr_trace s) = take r sent.
Proof.
  apply (swmr_interleaved (fun _ => Some 4096) 2 true false); [lia|intros; by eexists|done|by repeat constructor|done|].
  repeat constructor; simpl; lia.
Defined.
