(* ===== verification/SwmrProgress.v ===== *)
(** Single-writer multiple-reader queue: no wake-up is lost.  A reader publishes its position
    only in half of its receives, and the writer computes its next synchronisation point from
    positions that may be old by the time it has read them all; still every fair schedule of
    single accesses delivers all messages. *)
From S2P Require Import Prelude Errors Message SeqRing Swmr SwmrSteps.

Lemma sum_list_const (l : list nat) b : Forall (fun x => x = b) l -> sum_list l = (length l * b)%nat.
Proof. induction 1 as [|x l -> _ IH]; [done|]. simpl. by rewrite IH. Qed.
Lemma sum_list_bound (l : list nat) b :
  Forall (fun x => (x <= b)%nat) l ->
  (sum_list l <= length l * b)%nat /\ ((length l * b <= sum_list l)%nat -> Forall (fun x => x = b) l).
Proof.
  induction 1 as [|x l Hx _ [IH1 IH2]]; [by split|]. simpl. split; [lia|]. intros H. constructor; [lia|]. apply IH2. lia.
Qed.

Section progress.
Context (N n : nat) (sep reread : bool) (HN : (35 <= N)%nat) (HN16 : Z.of_nat N <= 65535) (Hre : reread = true -> n = 1%nat).
Abbreviation ok := (run_ok N n sep reread).
Abbreviation left := (steps_left N n).
Implicit Types (s : swmr_run) (sent : list (list Z)) (rs : list nat) (t : thread).

(** A run from one state to another, as the broadcast channel sees it. *)
Record runs_to (s : swmr_run) (sent : list (list Z)) (rs : list nat) (s' : swmr_run) (sent' : list (list Z)) (rs' : list nat) : Prop := {
  rt_ok : ok s' sent' rs';
  rt_trace : exists new, sr_trace s' = sr_trace s ++ new /\ bcast_run (N - 2) (N - 34) (sent, rs) new (sent', rs');
  rt_plan : plan s' sent' = plan s sent;
}.
Lemma runs_to_refl s sent rs : ok s sent rs -> runs_to s sent rs s sent rs.
Proof using Type. intros H. split; [done| |done]. exists []. rewrite app_nil_r. split; [done|constructor]. Qed.
Lemma runs_to_trans s1 sent1 rs1 s2 sent2 rs2 s3 sent3 rs3 :
  runs_to s1 sent1 rs1 s2 sent2 rs2 -> runs_to s2 sent2 rs2 s3 sent3 rs3 -> runs_to s1 sent1 rs1 s3 sent3 rs3.
Proof using Type.
  intros [_ (n1 & T1 & B1) P1] [H (n2 & T2 & B2) P2]. split; [done| |by rewrite P2].
  exists (n1 ++ n2). split; [by rewrite T2, T1, app_assoc|by eapply bcast_run_app].
Qed.

(** Something has been sent or received, or nothing has and each enabled thread that has run
    is nearer to it. *)
Definition nearer (ran : thread -> Prop) s sent rs s' sent' rs' : Prop :=
  (work_done sent rs < work_done sent' rs')%nat \/
  (sent' = sent /\ rs' = rs /\ forall t, enabled t s sent rs ->
     enabled t s' sent rs /\ (left t s' sent <= left t s sent)%nat /\ (ran t -> (left t s' sent < left t s sent)%nat)).

Lemma nearer_le ran s sent rs s' sent' rs' : nearer ran s sent rs s' sent' rs' -> (work_done sent rs <= work_done sent' rs')%nat.
Proof using Type. clear. intros [?|(-> & -> & _)]; lia. Qed.
Lemma nearer_step (ran : thread -> Prop) t s1 sent1 rs1 s2 sent2 rs2 s3 sent3 rs3 :
  nearer (fun u => u = t) s1 sent1 rs1 s2 sent2 rs2 -> nearer ran s2 sent2 rs2 s3 sent3 rs3 ->
  nearer (fun u => u = t \/ ran u) s1 sent1 rs1 s3 sent3 rs3.
Proof using Type.
  clear. intros H1 H2. pose proof (nearer_le _ _ _ _ _ _ _ H2) as Hle.
  destruct H1 as [H1|(-> & -> & H1)]; [left; lia|]. destruct H2 as [H2|(-> & -> & H2)]; [by left|right].
  split; [done|]. split; [done|]. intros u Hu. destruct (H1 u Hu) as (E1 & L1 & R1), (H2 u E1) as (E2 & L2 & R2).
  split; [done|]. split; [lia|]. intros [->|Hr]; [specialize (R1 eq_refl); lia|specialize (R2 Hr); lia].
Qed.

Lemma enabled_same t s s' sent rs : unsent s' = unsent s -> enabled t s sent rs -> enabled t s' sent rs.
Proof using Type. clear. intros U. destruct t; simpl; [by rewrite U|done]. Qed.

Lemma step_nearer t s sent rs :
  ok s sent rs -> thread_valid n t ->
  exists s' sent' rs', swmr_thread_step reread t s = Some s' /\ runs_to s sent rs s' sent' rs' /\
    nearer (fun u => u = t) s sent rs s' sent' rs'.
Proof using HN HN16 Hre.
  intros H Ht. destruct (any_thread N n sep reread ltac:(lia) HN16 Hre (N - 34) t s sent rs H Ht)
    as (s' & E & sent' & rs' & new & H' & T & B & P & A).
  exists s', sent', rs'. split; [done|]. split; [split; [done|by exists new|done]|].
  destruct A as [A|(-> & -> & Ho & Ht')]; [by left|right]. split; [done|]. split; [done|]. intros u Hu.
  assert (U : unsent s' = unsent s) by (by apply app_inv_head in P).
  split; [by apply (enabled_same u s)|]. destruct (decide (left u s' sent < left u s sent)%nat) as [|D]; [split; [lia|done]|].
  split; [|intros ->; by destruct D; apply Ht'].
  destruct t as [|i], u as [|j]; try (rewrite Ho by done; done); try (by destruct D; apply Ht').
  destruct (decide (i = j)) as [->|Hne]; [by destruct D; apply Ht'|]. rewrite Ho by congruence. done.
Qed.

Lemma round_nearer l : forall s sent rs,
  ok s sent rs -> Forall (thread_valid n) l ->
  exists s' sent' rs', swmr_threads reread l s = Some s' /\ runs_to s sent rs s' sent' rs' /\
    nearer (fun u => u ∈ l) s sent rs s' sent' rs'.
Proof using HN HN16 Hre.
  induction l as [|t l IH]; intros s sent rs H Hl.
  { exists s, sent, rs. split; [done|]. split; [by apply runs_to_refl|]. right. split; [done|]. split; [done|].
    intros u Hu. split; [done|]. split; [done|]. by intros ?%not_elem_of_nil. }
  apply Forall_cons in Hl as [Ht Hl]. destruct (step_nearer t s sent rs H Ht) as (s1 & sent1 & rs1 & E1 & R1 & N1).
  destruct (IH s1 sent1 rs1 (rt_ok _ _ _ _ _ _ R1) Hl) as (s2 & sent2 & rs2 & E2 & R2 & N2).
  exists s2, sent2, rs2. cbn [swmr_threads]. rewrite E1. split; [done|]. split; [by eapply runs_to_trans|].
  pose proof (nearer_step _ _ _ _ _ _ _ _ _ _ _ N1 N2) as [H3|(-> & -> & H3)]; [by left|right].
  split; [done|]. split; [done|]. intros u Hu. destruct (H3 u Hu) as (E & L & R). split; [done|]. split; [done|].
  intros [->|?]%elem_of_cons; apply R; [by left|by right].
Qed.

(** A round in which the writer and every reader run. *)
Definition fair (l : list thread) : Prop := Forall (thread_valid n) l /\ Writer ∈ l /\ forall i, (i < n)%nat -> Reader i ∈ l.

Lemma fair_in l t : fair l -> thread_valid n t -> t ∈ l.
Proof using Type. clear. intros (_ & Hw & Hr). destruct t; [done|apply Hr]. Qed.
Lemma enabled_valid t s sent rs : ok s sent rs -> enabled t s sent rs -> thread_valid n t.
Proof using Type.
  intros [(old & pubs & T) _]. destruct t as [|i]; [done|]. intros (r & Hr & _). simpl.
  rewrite <- (to_rs _ _ _ _ _ _ _ _ _ _ _ T). by eapply lookup_lt_Some.
Qed.
Lemma left_pos t s sent rs : ok s sent rs -> enabled t s sent rs -> (0 < left t s sent)%nat.
Proof using Type.
  intros H He. pose proof (enabled_valid _ _ _ _ H He) as Hv. clear HN HN16 Hre. destruct t as [|i]; simpl.
  - destruct (sr_send s) as [[m []]|]; simpl; lia.
  - destruct H as [(old & pubs & T) _]. destruct (lookup_lt_is_Some_2 (sr_recv s) i) as [pc ->]; [by rewrite (to_rcv _ _ _ _ _ _ _ _ _ _ _ T)|].
    destruct pc; simpl; lia.
Qed.

Lemma left_bound t s sent : (left t s sent <= 4 * n + 12)%nat.
Proof using Type.
  clear HN HN16 Hre. destruct t as [|i]; simpl.
  - destruct (sr_send s) as [[m []]|]; simpl; try lia. case_decide; lia.
  - destruct (sr_recv s !! i) as [[]|]; simpl; lia.
Qed.

Lemma rounds_run rounds : forall s sent rs,
  ok s sent rs -> Forall fair rounds ->
  exists s' sent' rs', swmr_threads reread (concat rounds) s = Some s' /\ runs_to s sent rs s' sent' rs' /\
    (work_done sent rs <= work_done sent' rs')%nat.
Proof using HN HN16 Hre.
  intros s sent rs H Hf.
  destruct (round_nearer (concat rounds) s sent rs H) as (s' & sent' & rs' & E & R & Hn).
  { apply Forall_concat. eapply Forall_impl; [exact Hf|]. by intros l [? _]. }
  exists s', sent', rs'. split; [done|]. split; [done|]. by eapply nearer_le.
Qed.

(** While a thread is enabled, as many rounds as it has steps left do something. *)
Lemma rounds_gain t rounds : forall s sent rs,
  ok s sent rs -> Forall fair rounds -> enabled t s sent rs -> (left t s sent <= length rounds)%nat ->
  exists s' sent' rs', swmr_threads reread (concat rounds) s = Some s' /\ runs_to s sent rs s' sent' rs' /\
    (work_done sent rs < work_done sent' rs')%nat.
Proof using HN HN16 Hre.
  induction rounds as [|l rounds IH]; intros s sent rs H Hf He Hl.
  { pose proof (left_pos _ _ _ _ H He). simpl in Hl. lia. }
  apply Forall_cons in Hf as [Hfl Hf]. destruct (round_nearer l s sent rs H) as (s1 & sent1 & rs1 & E1 & R1 & N1); [apply Hfl|].
  assert (Hgo : exists s' sent' rs', swmr_threads reread (concat rounds) s1 = Some s' /\ runs_to s1 sent1 rs1 s' sent' rs' /\
    (work_done sent rs < work_done sent' rs')%nat).
  { pose proof (rt_ok _ _ _ _ _ _ R1) as H1. destruct N1 as [N1|(-> & -> & N1)].
    - destruct (rounds_run rounds s1 sent1 rs1 H1 Hf) as (s' & sent' & rs' & E & R & Hle). exists s', sent', rs'. by split_and!; [| |lia].
    - destruct (N1 t He) as (He1 & _ & Hlt). specialize (Hlt (fair_in _ _ Hfl (enabled_valid _ _ _ _ H He))).
      apply (IH s1); [done|done|done|]. simpl in Hl. lia. }
  destruct Hgo as (s' & sent' & rs' & E & R & Hlt). exists s', sent', rs'. cbn [concat]. rewrite swmr_threads_app, E1.
  split; [done|]. split; [by eapply runs_to_trans|done].
Qed.

Lemma received_le s sent rs : ok s sent rs -> length rs = n /\ Forall (fun r => (r <= length sent)%nat) rs.
Proof using Type.
  clear HN HN16 Hre. intros [(old & pubs & T) _]. split; [apply (to_rs _ _ _ _ _ _ _ _ _ _ _ T)|]. apply Forall_lookup. intros i r Hr.
  pose proof (lookup_lt_Some _ _ _ Hr) as Hl. rewrite (to_rs _ _ _ _ _ _ _ _ _ _ _ T) in Hl.
  destruct (lookup_lt_is_Some_2 (ws_dst (sr_sys s)) i) as [c Hc]; [by rewrite (to_dst _ _ _ _ _ _ _ _ _ _ _ T)|].
  destruct (lookup_lt_is_Some_2 pubs i) as [a Ha]; [by rewrite (to_pubs _ _ _ _ _ _ _ _ _ _ _ T)|].
  pose proof (rd_le _ _ _ _ _ _ _ (to_reader _ _ _ _ _ _ _ _ _ _ _ T _ _ _ _ Hc Hr Ha)) as Hle.
  by rewrite (to_old _ _ _ _ _ _ _ _ _ _ _ T) in Hle.
Qed.

(** What there is to do: to send all messages, and to receive each [n] times. *)
Definition all_work s sent : nat := S n * length (plan s sent).
Lemma work_left s sent rs :
  ok s sent rs -> (work_done sent rs < all_work s sent)%nat -> exists t, enabled t s sent rs.
Proof using Type.
  intros H Hw. destruct (received_le _ _ _ H) as [Hl Hle]. clear HN HN16 Hre H.
  destruct (decide (Forall (fun r => r = length sent) rs)) as [D|D].
  - exists Writer. split; [intros i r Hr; exact (Forall_lookup_1 _ _ _ _ D Hr)|]. intros U.
    unfold work_done, all_work, plan in Hw. rewrite U, app_nil_r in Hw. rewrite (sum_list_const _ _ D), Hl in Hw. lia.
  - apply not_Forall_Exists in D; [|intros ?; apply _]. apply Exists_exists in D as (r & Hr & Hne). simpl in Hne.
    apply list_elem_of_lookup in Hr as [i Hr]. exists (Reader i), r. split; [done|].
    pose proof (Forall_lookup_1 _ _ _ _ Hle Hr). simpl in *. lia.
Qed.
Lemma work_all s sent rs :
  ok s sent rs -> (all_work s sent <= work_done sent rs)%nat -> unsent s = [] /\ all_received rs (length sent).
Proof using Type.
  intros H Hw. destruct (received_le _ _ _ H) as [Hl Hle]. clear HN HN16 Hre H.
  unfold work_done, all_work, plan in Hw. rewrite length_app in Hw.
  destruct (sum_list_bound _ _ Hle) as [H1 H2]. rewrite Hl in *. assert (U : length (unsent s) = 0%nat) by nia.
  split; [by apply nil_length_inv|]. intros i r Hr. exact (Forall_lookup_1 _ _ _ _ (H2 ltac:(lia)) Hr).
Qed.

(** [k] times [4 * n + 12] rounds do [k] things, if there are as many. *)
Lemma rounds_work k : forall rounds s sent rs,
  ok s sent rs -> Forall fair rounds -> (k * (4 * n + 12) <= length rounds)%nat ->
  exists s' sent' rs', swmr_threads reread (concat rounds) s = Some s' /\ runs_to s sent rs s' sent' rs' /\
    (all_work s sent <= work_done sent' rs' \/ work_done sent rs + k <= work_done sent' rs')%nat.
Proof using HN HN16 Hre.
  induction k as [|k IH]; intros rounds s sent rs H Hf Hl.
  { destruct (rounds_run rounds s sent rs H Hf) as (s' & sent' & rs' & E & R & Hle). exists s', sent', rs'.
    split; [done|]. split; [done|]. right. lia. }
  destruct (decide (work_done sent rs < all_work s sent)%nat) as [D|D].
  - destruct (work_left s sent rs H D) as [t Ht]. pose proof (left_bound t s sent).
    destruct (rounds_gain t (take (4 * n + 12) rounds) s sent rs H) as (s1 & sent1 & rs1 & E1 & R1 & H1);
      [by apply Forall_take|done|rewrite length_take; lia|].
    destruct (IH (drop (4 * n + 12) rounds) s1 sent1 rs1 (rt_ok _ _ _ _ _ _ R1)) as (s2 & sent2 & rs2 & E2 & R2 & H2);
      [by apply Forall_drop|rewrite length_drop; lia|].
    exists s2, sent2, rs2. rewrite <- (take_drop (4 * n + 12) rounds), concat_app, swmr_threads_app, E1.
    split; [done|]. split; [by eapply runs_to_trans|]. unfold all_work in *. rewrite (rt_plan _ _ _ _ _ _ R1) in H2. lia.
  - destruct (rounds_run rounds s sent rs H Hf) as (s' & sent' & rs' & E & R & Hle). exists s', sent', rs'.
    split; [done|]. split; [done|]. left. lia.
Qed.
End progress.

(** [C30] No wake-up is lost: let the writer send any messages of seven words and the readers
    receive, with other threads' accesses to shared memory between any two of their own.
    Although a reader publishes its position only while bit 5 of its sequence number is
    clear, and the writer may go through the positions while they change, every schedule in
    which all threads keep running - [4 * n + 12] rounds for each message sent and each
    message received, in each of which every thread runs at least once - ends with all
    messages sent, and received by every reader.  As in [swmr_interleaved] the scan of the
    positions is taken to read each of them once, or there is one reader. *)
Theorem swmr_completes alloc n sep reread todo rounds :
  (1 <= n <= 63)%nat -> (forall b, is_Some (alloc b)) -> (reread = true -> n = 1%nat) ->
  Forall (fun m => length m = SEQ_PAYLOAD_WORDS) todo -> Z.of_nat (length todo) < 4294967295 ->
  Forall (fair n) rounds -> (S n * length todo * (4 * n + 12) <= length rounds)%nat ->
  exists q mem s,
    swmr_queue_create alloc 2 (Z.of_nat n) sep = Ret (q, mem) /\
    swmr_threads reread (concat rounds) (swmr_started q mem todo) = Some s /\
    sr_send s = None /\ sr_todo s = [] /\
    bcast_sent_of (sr_trace s) = todo /\ forall i, (i < n)%nat -> bcast_got_of i (sr_trace s) = todo.
Proof.
  intros Hn Ha Hre Htodo Hb Hf Hlen. destruct (swmr_create_inv alloc n sep Hn Ha) as (q & mem & E & _ & HN & Inv).
  pose proof (swmr_started_ok _ _ _ reread q mem todo Inv Htodo Hb) as H0.
  destruct (rounds_work (swmr_ring_size n) n sep reread ltac:(lia) ltac:(lia) Hre _ rounds _ _ _ H0 Hf Hlen)
    as (s & sent & rs & Es & [Hok (new & T & B) P] & Hw).
  exists q, mem, s. split; [done|]. split; [done|].
  assert (Hall : (all_work n s sent <= work_done sent rs)%nat).
  { unfold all_work in *. rewrite P. unfold plan, unsent in *. simpl in *. lia. }
  destruct (work_all _ _ _ _ _ _ _ Hok Hall) as [U Hr]. unfold plan in P. rewrite U, app_nil_r in P. simpl in P. subst sent.
  unfold unsent in U. apply app_nil in U as [U1 U2].
  split; [by destruct (sr_send s)|]. split; [done|]. simpl in T. subst new.
  assert (Hi : forall i, (i < n)%nat -> bcast_sent_of (sr_trace s) = todo /\ bcast_got_of i (sr_trace s) = todo).
  { intros i Hi. destruct (bcast_run_order _ _ _ _ _ _ _ i 0 B) as (r & Hri & Hs & Ho); [by apply lookup_replicate_2|].
    destruct Ho as [Ho _]; [simpl; lia|]. rewrite (Hr i r Hri), firstn_all in Ho. by split. }
  split; [apply (Hi 0%nat); lia|]. intros i Hin. by apply Hi.
Qed.

Lemma swmr_completes_witness :
  exists q mem s,
    swmr_queue_create (fun _ => Some 4096) 2 (Z.of_nat 2) true = Ret (q, mem) /\
    swmr_threads false (concat (replicate 120 [Reader 1; Writer; Reader 0])) (swmr_started q mem [words_of 1; words_of 2]) = Some s /\
    sr_send s = None /\ sr_todo s = [] /\
    bcast_sent_of (sr_trace s) = [words_of 1; words_of 2] /\
    forall i, (i < 2)%nat -> bcast_got_of i (sr_trace s) = [words_of 1; words_of 2].
Proof.
  apply (swmr_completes (fun _ => Some 4096) 2 true false); [lia|intros; by eexists|done|by repeat constructor|done| |simpl; lia].
  apply Forall_replicate. split; [repeat constructor; simpl; lia|]. split; [by right; left|].
  intros [|[|i]] Hi; [by right; right; left|by left|lia].
Defined.
