(* ===== verification/SwmrRace.v ===== *)
(** Single-writer multiple-reader queue: what the second read of a position in
    [swmr_get_next_sync] does when two readers move at the wrong moment. *)
From S2P Require Import Prelude Errors Message SeqRing Swmr SwmrSteps.

(** ** A thread that runs alone *)
Section alone.
Context (reread : bool).

Lemma writer_step_run m pc w mem w' mem' pc' dst todo rcv tr :
  swmr_send_raw_step reread m pc (w, mem) = (Ret (Some pc'), (w', mem')) ->
  swmr_thread_step reread Writer (SwmrRun (WS w dst mem) (Some (m, pc)) todo rcv tr) =
    Some (SwmrRun (WS w' dst mem') (Some (m, pc')) todo rcv tr).
Proof using Type. intros E. unfold swmr_thread_step. cbn [sr_sys sr_send ws_src ws_dst ws_mem sr_todo sr_recv sr_trace]. by rewrite E. Qed.

(** The payload words. *)
Lemma stores_alone w dst pos hdr m todo rcv tr vs : forall i ls ls',
  drop i m = vs -> (i + length vs = 7)%nat -> line_stores ls (wc_l_pos w) (Z.of_nat (S i)) vs = Some ls' ->
  swmr_threads reread (replicate (length vs) Writer) (SwmrRun (WS w dst (WM pos ls hdr)) (Some (m, WWord (Z.of_nat (S i)))) todo rcv tr) =
    Some (SwmrRun (WS w dst (WM pos ls' hdr)) (Some (m, WWord 8)) todo rcv tr).
Proof using Type.
  induction vs as [|v vs IH]; intros i ls ls' Hd Hi Hs; simpl in Hi.
  { injection Hs as <-. assert (i = 7%nat) as -> by lia. done. }
  cbn [line_stores] in Hs. apply bind_Some in Hs as (ls1 & E1 & Hs).
  assert (Hv : m !! i = Some v) by (by rewrite <- (Nat.add_0_r i), <- lookup_drop, Hd).
  cbn [length replicate swmr_threads]. erewrite (writer_step_run m _ w (WM pos ls hdr) w (WM pos ls1 hdr) (WWord (Z.of_nat (S (S i))))).
  - cbn [mbind option_bind]. apply IH; [|lia|].
    + change (S i) with (1 + i)%nat. rewrite Nat.add_comm, <- drop_drop, Hd. done.
    + by replace (Z.of_nat (S (S i))) with (Z.of_nat (S i) + 1) by lia.
  - cbn [swmr_send_raw_step]. unfold gets, mbind, M_bind. cbn [fst snd].
    rewrite (proj2 (Z.leb_le _ _)) by lia. replace (Z.of_nat (S i) - 1) with (Z.of_nat i) by lia.
    rewrite arr_get_nat, Hv. cbn [defined mret M_ret]. unfold store_data, set_data. cbn [fst snd wm_data wm_pos wm_header].
    rewrite E1. by replace (Z.of_nat (S i) + 1) with (Z.of_nat (S (S i))) by lia.
Qed.

(** The payload and the header. *)
Lemma words_alone w dst mem m todo rcv tr mem' :
  length m = SEQ_PAYLOAD_WORDS ->
  (store_datas (wc_l_pos w) 1 m ≫= fun _ => store_header (wc_l_pos w) (wc_next_seq w)) (w, mem) = (Ret tt, (w, mem')) ->
  swmr_threads reread (replicate 8 Writer) (SwmrRun (WS w dst mem) (Some (m, WWord 1)) todo rcv tr) =
    Some (SwmrRun (WS (wc_set_l_pos (u16 (wc_l_pos w + 1)) (wc_set_next_seq (u64 (wc_next_seq w + 1)) w)) dst mem') None todo rcv (tr ++ [WSent m])).
Proof using Type.
  intros Hm E. unfold store_datas, set_data, mbind, M_bind in E. cbn [fst snd] in E.
  destruct (line_stores (wm_data mem) (wc_l_pos w) 1 m) as [ls|] eqn:Es; [|done].
  change 8%nat with (7 + 1)%nat. rewrite replicate_add, swmr_threads_app. unfold SEQ_PAYLOAD_WORDS in Hm.
  pose proof (stores_alone w dst (wm_pos mem) (wm_header mem) m todo rcv tr m 0 (wm_data mem) ls (drop_0 m) Hm Es) as H.
  rewrite Hm in H. change (Z.of_nat 1) with 1 in H. destruct mem as [pos ls0 hdr]. cbn [wm_pos wm_data wm_header] in *. rewrite H.
  cbn [mbind option_bind replicate swmr_threads]. unfold swmr_thread_step. cbn [sr_sys sr_send ws_src ws_dst ws_mem sr_todo sr_recv sr_trace swmr_send_raw_step].
  unfold gets, mbind, M_bind. change (8 <=? 7) with false. cbn [fst snd]. rewrite E. done.
Qed.

(** A receive. *)
Lemma loads_alone i c src dst mem sd todo tr k : forall j ps rcv vs,
  dst !! i = Some c -> rcv !! i = Some (RWord (Z.of_nat (S j)) ps) -> (j + k = 7)%nat ->
  line_loads (wm_data mem) (wc_l_pos c) (Z.of_nat (S j)) k = Some vs ->
  swmr_threads reread (replicate k (Reader i)) (SwmrRun (WS src dst mem) sd todo rcv tr) =
    Some (SwmrRun (WS src dst mem) sd todo (<[i := RWord 8 (ps ++ vs)]> rcv) tr).
Proof using Type.
  induction k as [|k IH]; intros j ps rcv vs Hc Hr Hj Hl.
  { injection Hl as <-. rewrite app_nil_r. assert (j = 7%nat) as -> by lia. simpl. by rewrite list_insert_id. }
  cbn [line_loads] in Hl. apply bind_Some in Hl as (v & E1 & Hl). apply bind_Some in Hl as (vs1 & E2 & [= <-]).
  cbn [replicate swmr_threads]. unfold swmr_thread_step at 1. cbn [sr_sys sr_send ws_src ws_dst ws_mem sr_todo sr_recv sr_trace].
  rewrite Hc. cbn [mbind option_bind]. rewrite Hr. cbn [mbind option_bind swmr_receive_step].
  unfold gets, mbind, M_bind. cbn [fst snd]. rewrite (proj2 (Z.leb_le _ _)) by lia.
  unfold load_data. cbn [fst snd]. rewrite E1. cbn [defined mret M_ret option_bind]. rewrite list_insert_id, app_nil_r by done.
  pose proof (lookup_lt_Some _ _ _ Hr).
  rewrite (IH (S j) (ps ++ [v]) _ vs1); [by rewrite list_insert_insert_eq, <- app_assoc|done| |lia|].
  - rewrite list_lookup_insert_eq by done. by replace (Z.of_nat (S j) + 1) with (Z.of_nat (S (S j))) by lia.
  - by replace (Z.of_nat (S (S j))) with (Z.of_nat (S j) + 1) by lia.
Qed.
Lemma load_header_same l c mem o s : load_header l (c, mem) = (o, s) -> s = (c, mem).
Proof using Type. unfold load_header, defined. by destruct (line_load _ _ _); intros [= _ <-]. Qed.

Lemma receive_alone i c src dst mem sd todo rcv tr m c' mem' :
  dst !! i = Some c -> rcv !! i = Some RCheck ->
  swmr_receive_non_blocking (c, mem) = (Ret (Some m), (c', mem')) ->
  swmr_threads reread (replicate 9 (Reader i)) (SwmrRun (WS src dst mem) sd todo rcv tr) =
    Some (SwmrRun (WS src (<[i := c']> dst) mem') sd todo rcv (tr ++ [WGot i m])).
Proof using Type.
  intros Hc Hr E. unfold swmr_receive_non_blocking, gets, mbind, M_bind in E. cbn [fst] in E.
  destruct (load_header (wc_l_pos c) (c, mem)) as [[v| | |] s0] eqn:El; try done.
  apply load_header_same in El as Es. subst s0. destruct (wc_next_seq c =? v) eqn:Ev; [|done].
  destruct (load_datas (wc_l_pos c) 1 7 (c, mem)) as [[vs| | |] s1] eqn:Ed; try done.
  unfold load_datas in Ed. cbn [fst snd] in Ed. destruct (line_loads (wm_data mem) (wc_l_pos c) 1 7) as [vs'|] eqn:Ell; [|done].
  injection Ed as -> <-. destruct (swmr_consume (c, mem)) as [[[]| | |] [c1 mem1]] eqn:Eco; try done. injection E as -> -> ->.
  change 9%nat with (1 + (7 + 1))%nat. rewrite !replicate_add, !swmr_threads_app.
  assert (E1 : swmr_threads reread (replicate 1 (Reader i)) (SwmrRun (WS src dst mem) sd todo rcv tr) =
    Some (SwmrRun (WS src dst mem) sd todo (<[i := RWord 1 []]> rcv) tr)).
  { cbn [replicate swmr_threads]. unfold swmr_thread_step. cbn [sr_sys sr_send ws_src ws_dst ws_mem sr_todo sr_recv sr_trace].
    rewrite Hc. cbn [mbind option_bind]. rewrite Hr. cbn [mbind option_bind swmr_receive_step]. unfold gets, mbind, M_bind. cbn [fst].
    rewrite El, Ev. cbn [mret M_ret option_bind]. by rewrite list_insert_id, app_nil_r. }
  rewrite E1. cbn [mbind option_bind]. pose proof (lookup_lt_Some _ _ _ Hr) as Hlt. rewrite swmr_threads_app.
  rewrite (loads_alone i c src dst mem sd todo tr 7 0 [] _ m Hc) by (done || by rewrite list_lookup_insert_eq).
  cbn [mbind option_bind replicate swmr_threads]. unfold swmr_thread_step. cbn [sr_sys sr_send ws_src ws_dst ws_mem sr_todo sr_recv sr_trace].
  rewrite Hc. cbn [mbind option_bind]. rewrite !list_insert_insert_eq, list_lookup_insert_eq by done. cbn [mbind option_bind swmr_receive_step].
  unfold gets, mbind, M_bind. change (8 <=? 7) with false. cbn [fst]. rewrite Eco. cbn [mret M_ret option_bind].
  by rewrite list_insert_insert_eq, (list_insert_id rcv).
Qed.
Lemma nothing_alone i c src dst mem sd todo rcv tr v :
  dst !! i = Some c -> rcv !! i = Some RCheck -> load_header (wc_l_pos c) (c, mem) = (Ret v, (c, mem)) -> wc_next_seq c <> v ->
  swmr_thread_step reread (Reader i) (SwmrRun (WS src dst mem) sd todo rcv tr) =
    Some (SwmrRun (WS src dst mem) sd todo rcv (tr ++ [WNothing i])).
Proof using Type.
  intros Hc Hr El Hv. unfold swmr_thread_step. cbn [sr_sys sr_send ws_src ws_dst ws_mem sr_todo sr_recv sr_trace].
  rewrite Hc. cbn [mbind option_bind]. rewrite Hr. cbn [mbind option_bind swmr_receive_step]. unfold gets, mbind, M_bind. cbn [fst].
  rewrite El, (proj2 (Z.eqb_neq _ _)) by done. cbn [mret M_ret option_bind]. by rewrite !list_insert_id.
Qed.
End alone.

(** ** A writer that its synchronisation point keeps from nothing *)
Section released.
Context (N : nat) (sep reread : bool) (HN : (2 <= N)%nat) (HN16 : Z.of_nat N <= 65535).

(** The writer has sent [s] messages and next synchronises at [sync]. *)
Record released (w : swmr_context) (s : nat) (sync : Z) : Prop := {
  re_slots : wc_num_slots w = Z.of_nat N;
  re_pos : seq_lpos N (wc_l_pos w) s;
  re_seq : wc_next_seq w = Z.of_nat (S s);
  re_sep : sep_header_of w = sep;
  re_sync : wc_next_sync w = sync;
}.

Lemma word_sends w dst mem m todo rcv tr sent pubs sync :
  released w (length sent) sync -> wc_l_pos w = Z.of_nat (length sent mod N) -> mem_ok N sep mem sent pubs ->
  length m = SEQ_PAYLOAD_WORDS -> Z.of_nat (S (S (length sent))) < 2 ^ 64 ->
  exists w' mem', swmr_threads reread (replicate 8 Writer) (SwmrRun (WS w dst mem) (Some (m, WWord 1)) todo rcv tr) =
      Some (SwmrRun (WS w' dst mem') None todo rcv (tr ++ [WSent m])) /\
    released w' (S (length sent)) sync /\ mem_ok N sep mem' (sent ++ [m]) pubs.
Proof using HN HN16.
  intros W Hp I Hm Hb. pose proof (ring_lt N ltac:(lia) (length sent)) as Lp.
  destruct (store_message_spec N sep w mem sent pubs _ m (Z.of_nat (S (length sent))) I Lp (re_sep _ _ _ W) Hm)
    as (mem' & E & Ep & H1 & H2 & H3 & H4 & H5 & H6 & H7).
  rewrite <- Hp, <- (re_seq _ _ _ W) in E. rewrite (words_alone reread w dst mem m todo rcv tr mem' Hm E).
  eexists _, mem'. split; [done|]. split; [|by apply (mem_ok_append N sep HN HN16 mem); try done; lia].
  destruct W as [Ws Wp Wq We Wy]. constructor; cbn [wc_set_l_pos wc_set_next_seq wc_num_slots wc_l_pos wc_next_seq wc_next_sync]; try done.
  - rewrite Hp. apply lpos_next; lia.
  - rewrite Wq, wrap_small by lia. lia.
Qed.

Lemma sends todo : forall w dst mem rcv tr sent pubs sync,
  released w (length sent) sync -> mem_ok N sep mem sent pubs -> Forall (fun m => length m = SEQ_PAYLOAD_WORDS) todo ->
  Z.of_nat (length sent + length todo) < sync -> sync < 2 ^ 63 ->
  exists w' mem', swmr_threads reread (replicate (10 * length todo) Writer) (SwmrRun (WS w dst mem) None todo rcv tr) =
      Some (SwmrRun (WS w' dst mem') None [] rcv (tr ++ (WSent <$> todo))) /\
    released w' (length (sent ++ todo)) sync /\ mem_ok N sep mem' (sent ++ todo) pubs.
Proof using HN HN16.
  induction todo as [|m todo IH]; intros w dst mem rcv tr sent pubs sync W I Hf Hs Hb.
  { exists w, mem. rewrite !app_nil_r. by split. }
  apply Forall_cons in Hf as [Hm Hf]. cbn [length] in *. replace (10 * S (length todo))%nat with (1 + (1 + (8 + 10 * length todo)))%nat by lia.
  rewrite !replicate_add, !swmr_threads_app. set (w1 := wc_set_l_pos (Z.of_nat (length sent mod N)) w).
  assert (E1 : swmr_threads reread (replicate 1 Writer) (SwmrRun (WS w dst mem) None (m :: todo) rcv tr) =
    Some (SwmrRun (WS w dst mem) (Some (m, WStart)) todo rcv tr)) by done.
  assert (E2 : swmr_threads reread (replicate 1 Writer) (SwmrRun (WS w dst mem) (Some (m, WStart)) todo rcv tr) =
    Some (SwmrRun (WS w1 dst mem) (Some (m, WWord 1)) todo rcv tr)).
  { cbn [replicate swmr_threads]. rewrite (writer_step_run reread m _ w mem w1 mem (WWord 1)); [done|].
    cbn [swmr_send_raw_step]. unfold swmr_reset_pos, on_wc, modify, gets, mbind, M_bind. cbn [fst snd].
    rewrite (re_slots _ _ _ W), (lpos_reset_spec N _ (length sent)) by (lia || apply (re_pos _ _ _ W)).
    cbn [wc_set_l_pos wc_next_seq wc_next_sync]. rewrite (re_seq _ _ _ W), (re_sync _ _ _ W), (proj2 (Z.eqb_neq _ _)) by lia. done. }
  rewrite E1. cbn [mbind option_bind]. rewrite swmr_threads_app, E2. cbn [mbind option_bind]. rewrite swmr_threads_app.
  assert (W1 : released w1 (length sent) sync) by (destruct W; constructor; try done; by left).
  destruct (word_sends w1 dst mem m todo rcv tr sent pubs sync W1 eq_refl I Hm) as (w2 & mem2 & E3 & W2 & I2); [lia|].
  rewrite E3. cbn [mbind option_bind].
  destruct (IH w2 dst mem2 rcv (tr ++ [WSent m]) (sent ++ [m]) pubs sync) as (w3 & mem3 & E4 & W3 & I3); try done.
  - by rewrite length_app, Nat.add_1_r.
  - rewrite length_app. simpl. lia.
  - exists w3, mem3. rewrite E4, <- !app_assoc in *. done.
Qed.

(** A reader that the writer has overtaken finds nothing, for ever. *)
Lemma overtaken_nothing i src c dst mem sd todo rcv sent pubs r x : forall tr,
  mem_ok N sep mem sent pubs -> wc_l_pos c = Z.of_nat (r mod N) -> wc_next_seq c = Z.of_nat (S r) -> sep_header_of c = sep ->
  dst !! i = Some c -> rcv !! i = Some RCheck ->
  (r + N < length sent)%nat -> (length sent <= r + 2 * N)%nat -> Z.of_nat (length sent) < 2 ^ 64 ->
  swmr_threads reread (replicate x (Reader i)) (SwmrRun (WS src dst mem) sd todo rcv tr) =
    Some (SwmrRun (WS src dst mem) sd todo rcv (tr ++ replicate x (WNothing i))).
Proof using HN HN16.
  induction x as [|x IH]; intros tr I Hp Hq Hsep Hc Hr H1 H2 H3; [by rewrite app_nil_r|].
  destruct (lookup_lt_is_Some_2 sent (r + N)) as [m Hm]; [lia|].
  destruct (sr_slots _ _ _ _ (mo_ring _ _ _ _ _ I) _ _ Hm) as [Hh _]; [lia|].
  destruct (ring_add_period N ltac:(lia) r) as [Ep _]. rewrite Ep, wrap_small in Hh by lia.
  cbn [replicate swmr_threads]. rewrite (nothing_alone reread i c src dst mem sd todo rcv tr (Z.of_nat (S (r + N)))); try done.
  - cbn [mbind option_bind]. rewrite IH by done. by rewrite <- app_assoc.
  - unfold load_header. cbn [fst snd]. rewrite Hsep, Hp. unfold wm_hd in Hh. apply bind_Some in Hh as (l & Hl & Hv).
    change 0 with (Z.of_nat 0). by rewrite (line_load_run _ _ _ l _ Hl Hv).
  - rewrite Hq. lia.
Qed.
End released.

(** ** Two readers *)
Lemma published_unique r a b : published r a -> published r b -> a = b.
Proof. unfold published. intros (H1 & H2 & H3) (G1 & G2 & G3). destruct (decide (S r mod 64 < 32)%nat); lia. Qed.

Section race.
Context (N : nat) (sep : bool) (HN : (2 <= N)%nat) (HN16 : Z.of_nat N <= 65535).

(** A reader receives [k] messages. *)
Lemma receives_alone n i src sd todo rcv sent k : forall dst mem tr rs r,
  swmr_inv N n sep (WS src dst mem) sent rs -> rs !! i = Some r -> rcv !! i = Some RCheck -> (r + k <= length sent)%nat ->
  exists dst' mem', swmr_threads true (concat (replicate k (replicate 9 (Reader i)))) (SwmrRun (WS src dst mem) sd todo rcv tr) =
      Some (SwmrRun (WS src dst' mem') sd todo rcv (tr ++ (WGot i <$> take k (drop r sent)))) /\
    swmr_inv N n sep (WS src dst' mem') sent (<[i := (r + k)%nat]> rs).
Proof using HN HN16.
  induction k as [|k IH]; intros dst mem tr rs r Inv Hr Hrc Hk.
  { exists dst, mem. rewrite Nat.add_0_r, take_0, app_nil_r, list_insert_id by done. by split. }
  destruct (lookup_lt_is_Some_2 dst i) as [c Hc].
  { pose proof (wi_dst _ _ _ _ _ _ Inv) as Hd. cbn [ws_dst] in Hd. rewrite Hd, <- (wi_rs _ _ _ _ _ _ Inv). by eapply lookup_lt_Some. }
  destruct (swmr_recv_spec N n sep HN HN16 _ _ _ _ _ _ Inv Hc Hr) as (c' & mem' & E & Inv').
  destruct (lookup_lt_is_Some_2 sent r) as [m Hm]; [lia|]. rewrite Hm in E. rewrite decide_True in Inv' by lia.
  cbn [ws_src ws_dst ws_mem] in *. cbn [replicate concat]. rewrite swmr_threads_app.
  change (Reader i :: _) with (replicate 9 (Reader i)).
  rewrite (receive_alone true i c src dst mem sd todo rcv tr m c' mem' Hc Hrc E). cbn [mbind option_bind].
  pose proof (lookup_lt_Some _ _ _ Hr) as Hlt.
  destruct (IH (<[i := c']> dst) mem' (tr ++ [WGot i m]) (<[i := S r]> rs) (S r) Inv') as (dst2 & mem2 & E2 & Inv2);
    [by apply list_lookup_insert_eq|done|lia|].
  exists dst2, mem2. rewrite E2, (drop_S _ m r) by done. rewrite list_insert_insert_eq in Inv2.
  replace (S r + k)%nat with (r + S k)%nat in Inv2 by lia. by rewrite <- app_assoc.
Qed.

Lemma inv_reader n st sent rs i r :
  swmr_inv N n sep st sent rs -> rs !! i = Some r ->
  exists c a, ws_dst st !! i = Some c /\ reader_ok N sep sent i c r a /\ wm_pos (ws_mem st) !! i = Some (Z.of_nat a) /\
    (length sent + 2 <= a + N)%nat.
Proof using HN HN16.
  intros [(pubs & Hn & W & I & R) Hd Hrs] Hr. pose proof (lookup_lt_Some _ _ _ Hr).
  destruct (lookup_lt_is_Some_2 pubs i) as [a Ha]; [lia|]. destruct (lookup_lt_is_Some_2 (ws_dst st) i) as [c Hc]; [lia|].
  exists c, a. split; [done|]. split; [by apply R|]. split; [by apply I|]. by apply (writer_ahead N n sep HN HN16 _ _ _ i a W).
Qed.

(** The scan reads the first position twice, then the second one. *)
Lemma scan_overtaken w l dst mem m todo rcv tr (p0 p1 : Z) :
  wc_num_readers w = 2 -> wc_next_seq w = wc_next_sync w -> lpos_reset (wc_l_pos w) (wc_num_slots w) = l ->
  wm_pos mem !! 0%nat = Some p0 -> wm_pos mem !! 1%nat = Some p1 -> p1 < p0 -> p0 < 4294967295 ->
  swmr_threads true (replicate 5 Writer) (SwmrRun (WS w dst mem) None (m :: todo) rcv tr) =
    Some (SwmrRun (WS (wc_set_l_pos l w) dst mem) (Some (m, WAgain 1)) todo rcv tr).
Proof using Type.
  clear HN HN16. intros Hn Hy Hl H0 H1 H10 Hb.
  change (swmr_threads true (replicate 4 Writer) (SwmrRun (WS w dst mem) (Some (m, WStart)) todo rcv tr) =
    Some (SwmrRun (WS (wc_set_l_pos l w) dst mem) (Some (m, WAgain 1)) todo rcv tr)). cbn [replicate swmr_threads].
  set (w1 := wc_set_l_pos l w). assert (Hn1 : wc_num_readers w1 = 2) by done.
  assert (L0 : load_pos 0 (w1, mem) = (Ret p0, (w1, mem))) by (unfold load_pos; change 0 with (Z.of_nat 0); by rewrite arr_get_nat; cbn [snd]; rewrite H0).
  assert (L1 : load_pos 1 (w1, mem) = (Ret p1, (w1, mem))) by (unfold load_pos; change 1 with (Z.of_nat 1); by rewrite arr_get_nat; cbn [snd]; rewrite H1).
  rewrite (writer_step_run true m WStart w mem w1 mem (WScan 0 4294967295)); cbn [mbind option_bind].
  2: { cbn [swmr_send_raw_step]. unfold swmr_reset_pos, on_wc, modify, gets, mbind, M_bind. cbn [fst snd]. rewrite Hl.
       cbn [wc_set_l_pos wc_next_seq wc_next_sync]. by rewrite Hy, Z.eqb_refl. }
  rewrite (writer_step_run true m _ w1 mem w1 mem (WAgain 0)); cbn [mbind option_bind].
  2: { cbn [swmr_send_raw_step]. unfold scan_step, fmap, M_fmap, gets, mbind, M_bind. cbn [fst snd]. rewrite Hn1.
       change (0 <? 2) with true. cbn beta iota. rewrite L0, (proj2 (Z.ltb_lt _ _)) by lia. done. }
  rewrite (writer_step_run true m _ w1 mem w1 mem (WScan 1 p0)); cbn [mbind option_bind].
  2: { cbn [swmr_send_raw_step]. unfold mbind, M_bind. by rewrite L0. }
  rewrite (writer_step_run true m _ w1 mem w1 mem (WAgain 1)); [done|].
  cbn [swmr_send_raw_step]. unfold scan_step, fmap, M_fmap, gets, mbind, M_bind. cbn [fst snd]. rewrite Hn1.
  change (1 <? 2) with true. cbn beta iota. rewrite L1, (proj2 (Z.ltb_lt _ _)) by lia. done.
Qed.

(** ... and takes what the second reader has published in between. *)
Lemma scan_raised w dst mem m todo rcv tr (p : Z) :
  wc_num_readers w = 2 -> wc_num_slots w = Z.of_nat N -> wm_pos mem !! 1%nat = Some p ->
  0 <= p < 2 ^ 63 -> wc_next_seq w <> p + Z.of_nat N - 1 ->
  swmr_threads true (replicate 2 Writer) (SwmrRun (WS w dst mem) (Some (m, WAgain 1)) todo rcv tr) =
    Some (SwmrRun (WS (wc_set_next_sync (p + Z.of_nat N - 1) w) dst mem) (Some (m, WWord 1)) todo rcv tr).
Proof using HN HN16.
  intros Hn Hs H1 Hp Hq. cbn [replicate swmr_threads].
  rewrite (writer_step_run true m _ w mem w mem (WScan 2 p)); cbn [mbind option_bind].
  2: { cbn [swmr_send_raw_step]. unfold load_pos, mbind, M_bind. change 1 with (Z.of_nat 1) at 1. rewrite arr_get_nat. cbn [snd]. by rewrite H1. }
  rewrite (writer_step_run true m _ w mem (wc_set_next_sync (p + Z.of_nat N - 1) w) mem (WWord 1)); [done|].
  cbn [swmr_send_raw_step]. unfold scan_step, fmap, M_fmap, on_wc, modify, gets, mbind, M_bind. cbn [fst snd]. rewrite Hn, Hs.
  change (2 <? 2) with false. cbn beta iota. rewrite wrap_add_r, wrap_small by (pow_consts; lia).
  replace (p + (Z.of_nat N - 1)) with (p + Z.of_nat N - 1) by lia. by rewrite (proj2 (Z.eqb_neq _ _)).
Qed.

Definition race_sched (k sends : nat) : list thread :=
  replicate 5 Writer ++ concat (replicate k (replicate 9 (Reader 1))) ++ replicate (10 * sends) Writer.

Lemma race_runs st m todo tr sent r0 r1 p0 p1 k :
  swmr_inv N 2 sep st sent [r0; r1] -> Z.of_nat (length sent) < 4294967295 ->
  wc_next_seq (ws_src st) = wc_next_sync (ws_src st) ->
  wm_pos (ws_mem st) !! 0%nat = Some p0 -> wm_pos (ws_mem st) !! 1%nat = Some p1 -> p1 < p0 ->
  (r1 + k <= length sent)%nat -> (S (r1 + k) mod 64 < 32)%nat ->
  Forall (fun m => length m = SEQ_PAYLOAD_WORDS) (m :: todo) -> (length sent + S (length todo) + 2 <= r1 + k + N)%nat ->
  exists w dst mem c a0,
    swmr_threads true (race_sched k (length (m :: todo))) (SwmrRun st None (m :: todo) [RCheck; RCheck] tr) =
      Some (SwmrRun (WS w dst mem) None [] [RCheck; RCheck] (tr ++ (WGot 1 <$> take k (drop r1 sent)) ++ (WSent <$> m :: todo))) /\
    mem_ok N sep mem (sent ++ m :: todo) [a0; (r1 + k)%nat] /\ wc_next_sync w = Z.of_nat (r1 + k) + Z.of_nat N - 1 /\
    dst !! 0%nat = Some c /\ reader_ok N sep sent 0 c r0 a0 /\ p0 = Z.of_nat a0 /\ (length sent + 2 <= r0 + N)%nat.
Proof using HN HN16.
  intros Inv Hb Hy H0 H1 H10 Hk Hpub Hf Hlen. apply Forall_cons in Hf as [Hm Hf].
  destruct (inv_reader _ _ _ _ 0 r0 Inv eq_refl) as (c0 & a0 & Hc0 & R0 & Ha0 & Hah). rewrite Ha0 in H0. injection H0 as <-.
  pose proof (rd_le _ _ _ _ _ _ _ R0). pose proof (rd_pub _ _ _ _ _ _ _ R0) as P0. pose proof P0 as [? _].
  destruct st as [w dst mem]. cbn [ws_src ws_dst ws_mem] in *.
  pose proof Inv as [(pubs & Hn & W & _) _ _]. cbn [ws_src] in W. set (l := Z.of_nat (length sent mod N)) in *.
  assert (Hl : lpos_reset (wc_l_pos w) (wc_num_slots w) = l)
    by (rewrite (wr_slots _ _ _ _ _ _ W); apply lpos_reset_spec; [lia|apply (wr_pos _ _ _ _ _ _ W)]).
  unfold race_sched. rewrite swmr_threads_app.
  rewrite (scan_overtaken w l dst mem m todo _ tr _ _ (wr_readers _ _ _ _ _ _ W) Hy Hl Ha0 H1 H10) by lia. cbn [mbind option_bind].
  set (w1 := wc_set_l_pos l w).
  assert (Inv1 : swmr_inv N 2 sep (WS w1 dst mem) sent [r0; r1]).
  { destruct Inv as [(pubs' & Hn' & W' & ?) Hd Hr]. split; try done. exists pubs'. split; [done|]. split; [|done]. by apply writer_set_pos. }
  rewrite swmr_threads_app.
  destruct (receives_alone 2 1 w1 (Some (m, WAgain 1)) todo [RCheck; RCheck] sent k dst mem tr [r0; r1] r1 Inv1 eq_refl eq_refl Hk)
    as (dst2 & mem2 & E2 & Inv2). rewrite E2. cbn [mbind option_bind].
  cbn [length]. replace (10 * S (length todo))%nat with (2 + (8 + 10 * length todo))%nat by lia.
  destruct (inv_reader _ _ _ _ 1 (r1 + k) Inv2 eq_refl) as (c1 & a1 & _ & R1 & Ha1 & _).
  destruct (rd_pub _ _ _ _ _ _ _ R1) as (_ & Hp1 & _). rewrite (Hp1 Hpub) in *.
  destruct (inv_reader _ _ _ _ 0 r0 Inv2 eq_refl) as (c & a & Hc & R & Ha & _).
  pose proof (published_unique _ _ _ (rd_pub _ _ _ _ _ _ _ R) P0). subst a. cbn [ws_src ws_dst ws_mem] in *.
  rewrite replicate_add, swmr_threads_app.
  rewrite (scan_raised w1 dst2 mem2 m todo _ _ _ (wr_readers _ _ _ _ _ _ W) (wr_slots _ _ _ _ _ _ W) Ha1);
    [|lia|change (wc_next_seq w1) with (wc_next_seq w); rewrite (wr_seq _ _ _ _ _ _ W); lia].
  cbn [mbind option_bind]. set (w2 := wc_set_next_sync _ w1).
  assert (I2 : mem_ok N sep mem2 sent [a0; (r1 + k)%nat]).
  { destruct Inv2 as [(pubs2 & Hn2 & _ & I2 & _) _ _]. cbn [ws_mem] in I2. constructor; try apply I2.
    intros [|[|i]] x Hx; simplify_eq/=; done. }
  assert (W2 : released N sep w2 (length sent) (Z.of_nat (r1 + k) + Z.of_nat N - 1)).
  { destruct W. constructor; try done. by left. }
  rewrite replicate_add, swmr_threads_app.
  destruct (word_sends N sep true HN HN16 w2 dst2 mem2 m todo [RCheck; RCheck] (tr ++ (WGot 1 <$> take k (drop r1 sent))) sent _ _ W2 eq_refl I2 Hm)
    as (w3 & mem3 & E3 & W3 & I3); [pow_consts; lia|]. rewrite E3. cbn [mbind option_bind].
  destruct (sends N sep true HN HN16 todo w3 dst2 mem3 [RCheck; RCheck] ((tr ++ (WGot 1 <$> take k (drop r1 sent))) ++ [WSent m]) (sent ++ [m]) [a0; (r1 + k)%nat]
    (Z.of_nat (r1 + k) + Z.of_nat N - 1)) as (w4 & mem4 & E4 & W4 & I4); [by rewrite length_app, Nat.add_1_r|exact I3|done| | |].
  - rewrite length_app. simpl. lia.
  - lia.
  - exists w4, dst2, mem4, c, a0. rewrite E4, <- !app_assoc in *. split; [done|]. split; [exact I4|].
    split; [apply (re_sync _ _ _ _ _ W4)|]. split; [done|]. split; [done|]. split; [done|lia].
Qed.
End race.

(** ** Traces *)
Lemma bcast_run_length cap low b tr b' : bcast_run cap low b tr b' -> (length b'.1 <= length b.1 + length tr)%nat.
Proof.
  induction 1 as [|b e b1 tr b2 St R IH]; simpl; [lia|].
  assert (length b1.1 <= S (length b.1))%nat by (inversion St; subst; simpl; rewrite ?length_app; simpl; lia). lia.
Qed.
Lemma swmr_exec_length cs : forall st tr st', swmr_exec cs st = (Ret tr, st') -> length tr = length cs.
Proof.
  induction cs as [|c cs IH]; intros st tr st' E; [by injection E as <- <-|].
  apply bind_ret_inv in E as (e & st1 & _ & E). apply bind_ret_inv in E as (tr1 & st2 & E & Er).
  injection Er as <- _. simpl. by rewrite (IH _ _ _ E).
Qed.
Lemma bcast_sent_of_app t1 t2 : bcast_sent_of (t1 ++ t2) = bcast_sent_of t1 ++ bcast_sent_of t2.
Proof. apply omap_app. Qed.
Lemma bcast_got_of_app i t1 t2 : bcast_got_of i (t1 ++ t2) = bcast_got_of i t1 ++ bcast_got_of i t2.
Proof. apply omap_app. Qed.
Lemma bcast_sent_of_sent ms : bcast_sent_of (WSent <$> ms) = ms.
Proof. induction ms as [|m ms IH]; [done|]. change (m :: bcast_sent_of (WSent <$> ms) = m :: ms). by rewrite IH. Qed.
Lemma bcast_sent_of_got i ms : bcast_sent_of (WGot i <$> ms) = [].
Proof. by induction ms. Qed.
Lemma bcast_got_of_self i ms : bcast_got_of i (WGot i <$> ms) = ms.
Proof.
  induction ms as [|m ms IH]; [done|]. transitivity (m :: bcast_got_of i (WGot i <$> ms)); [|by rewrite IH].
  unfold bcast_got_of. simpl. by rewrite decide_True.
Qed.
Lemma bcast_got_of_sent i ms : bcast_got_of i (WSent <$> ms) = [].
Proof. by induction ms. Qed.
Lemma bcast_got_of_other i j ms : i <> j -> bcast_got_of i (WGot j <$> ms) = [].
Proof.
  intros Hij. induction ms as [|m ms IH]; [done|]. etransitivity; [|exact IH]. unfold bcast_got_of. simpl. by rewrite decide_False.
Qed.

(** ** Property *)

(** [C6] With two readers the second read of a position in [swmr_get_next_sync] loses messages.
    Take any run of calls after which the writer is at its synchronisation point and reader 1
    has published less than reader 0 ([p1 < p0]).  The writer's next send scans the positions,
    finds [p0] and then [p1], and before it reads the latter again reader 1 receives [k]
    messages more, up to a position it publishes.  Then the writer takes that position for
    the minimum - although reader 0's is still [p0] - and sends without waiting all of [todo],
    up to [N - 2] messages past it.  Each message number [j] that reader 0 has not received is
    replaced by number [j + N] if that one is sent; and if this happens to the first of them,
    reader 0 is told that there is nothing to receive, however often it tries. *)
Theorem swmr_min_race alloc sep cs q mem tr st p0 p1 k todo :
  let N := swmr_ring_size 2 in
  let sent := bcast_sent_of tr in
  let r0 := length (bcast_got_of 0 tr) in
  let r1 := length (bcast_got_of 1 tr) in
  (forall b, is_Some (alloc b)) -> swmr_queue_create alloc 2 2 sep = Ret (q, mem) ->
  Forall (swmr_valid 2) cs -> Z.of_nat (length cs) < 4294967295 ->
  swmr_exec cs (WS (wq_src q) (wq_dst q) mem) = (Ret tr, st) ->
  wc_next_seq (ws_src st) = wc_next_sync (ws_src st) ->
  wm_pos (ws_mem st) !! 0%nat = Some p0 -> wm_pos (ws_mem st) !! 1%nat = Some p1 -> p1 < p0 ->
  (r1 + k <= length sent)%nat -> (S (r1 + k) mod 64 < 32)%nat ->
  todo <> [] -> Forall (fun m => length m = SEQ_PAYLOAD_WORDS) todo -> (length sent + length todo + 2 <= r1 + k + N)%nat ->
  exists s,
    swmr_threads true (race_sched k (length todo)) (SwmrRun st None todo [RCheck; RCheck] tr) = Some s /\
    bcast_sent_of (sr_trace s) = sent ++ todo /\
    bcast_got_of 0 (sr_trace s) = take r0 sent /\ bcast_got_of 1 (sr_trace s) = take (r1 + k) sent /\
    wc_next_sync (ws_src (sr_sys s)) = Z.of_nat (r1 + k) + Z.of_nat N - 1 /\ wm_pos (ws_mem (sr_sys s)) !! 0%nat = Some p0 /\
    (forall j m, (r0 <= j)%nat -> (sent ++ todo) !! (j + N)%nat = Some m -> wm_pl (ws_mem (sr_sys s)) (j mod N)%nat = Some m) /\
    ((r0 + N < length sent + length todo)%nat -> forall x, exists s',
       swmr_threads true (replicate x (Reader 0)) s = Some s' /\ sr_trace s' = sr_trace s ++ replicate x (WNothing 0)).
Proof.
  intros N sent r0 r1 Ha Hq Hv Hcs Hex Hy H0 H1 H10 Hk Hpub Hne Hf Hlen.
  destruct (swmr_create_inv alloc 2 sep ltac:(lia) Ha) as (q' & mem' & E & _ & HN & Inv0). fold N in HN, Inv0.
  change (Z.of_nat 2) with 2 in E. rewrite Hq in E. injection E as <- <-.
  destruct (swmr_exec_refines N 2 sep ltac:(lia) ltac:(lia) cs _ _ _ Inv0 Hv ltac:(simpl; lia)) as (tr' & st' & sent' & rs & Ex & B & Inv).
  rewrite Hex in Ex. injection Ex as <- <-.
  destruct (bcast_run_order _ _ _ _ _ _ _ 0 0 B eq_refl) as (s0 & Hs0 & Es & O0).
  destruct (bcast_run_order _ _ _ _ _ _ _ 1 0 B eq_refl) as (s1 & Hs1 & _ & O1).
  destruct O0 as [O0 L0]; [simpl; lia|]. destruct O1 as [O1 L1]; [simpl; lia|]. change (sent' = sent) in Es. subst sent'.
  pose proof (bcast_run_length _ _ _ _ _ B) as Bl. rewrite (swmr_exec_length _ _ _ _ Hex) in Bl. simpl in Bl, O0, O1.
  assert (s0 = r0) as -> by (unfold r0; rewrite <- O0, length_take; lia).
  assert (s1 = r1) as -> by (unfold r1; rewrite <- O1, length_take; lia).
  assert (rs = [r0; r1]) as -> by (pose proof (wi_rs _ _ _ _ _ _ Inv); destruct rs as [|? [|? [|]]]; simplify_eq/=; done).
  destruct todo as [|m todo]; [done|].
  destruct (race_runs N sep ltac:(lia) ltac:(lia) st m todo tr sent r0 r1 p0 p1 k Inv) as (w & dst & mem2 & c & a0 & E & I & Hsy & Hc & R & -> & Hah);
    [lia|done|done|done|done|done|done|done|simpl in Hlen; lia|].
  clearbody N. set (all := sent ++ m :: todo) in *.
  assert (Hall : length all = (length sent + length (m :: todo))%nat) by apply length_app.
  eexists. split; [exact E|]. cbn [sr_trace sr_sys ws_src ws_mem].
  split; [by rewrite !bcast_sent_of_app, bcast_sent_of_got, bcast_sent_of_sent|].
  split; [by rewrite !bcast_got_of_app, bcast_got_of_other, bcast_got_of_sent, app_nil_r|].
  split; [|split; [done|split; [by apply (mo_pos _ _ _ _ _ I)|split]]].
  - rewrite !bcast_got_of_app, bcast_got_of_sent, <- O1, app_nil_r, (bcast_got_of_self 1). apply take_take_drop.
  - intros j x Hj Hx. assert (Hal : (length all <= (j + N) + N)%nat) by lia.
    destruct (seq_read N ltac:(lia) ltac:(lia) _ _ _ _ x (mo_ring _ _ _ _ _ I) Hx Hal) as (d & Hd & Hl & Ht).
    destruct (ring_add_period N ltac:(lia) j) as [<- _].
    pose proof (Forall_lookup_1 _ _ _ _ (mo_words _ _ _ _ _ I) Hx) as Hw. cbv beta in Hw. rewrite take_ge in Ht by lia. by subst d.
  - intros Hlt x. eexists. split.
    + apply (overtaken_nothing N sep true ltac:(lia) ltac:(lia) 0 w c dst mem2 None [] [RCheck; RCheck] all [a0; (r1 + k)%nat] r0 x _ I); try apply R; try done;
        pow_consts; lia.
    + done.
Qed.

(** 59 messages sent, 10 and 5 received; reader 1 takes 25 more and 30 more are sent: messages
    10 to 27 are lost. *)
Definition race_cmds : list swmr_cmd :=
  (WSend ∘ words_of <$> seq 0 59) ++ replicate 10 (WRecv 0) ++ replicate 5 (WRecv 1).
Lemma swmr_min_race_witness :
  exists q mem tr st s s',
    swmr_queue_create (fun _ => Some 4096) 2 2 false = Ret (q, mem) /\
    swmr_exec race_cmds (WS (wq_src q) (wq_dst q) mem) = (Ret tr, st) /\
    swmr_threads true (race_sched 25 30) (SwmrRun st None (words_of <$> seq 59 30) [RCheck; RCheck] tr) = Some s /\
    bcast_sent_of (sr_trace s) = words_of <$> seq 0 89 /\ bcast_got_of 0 (sr_trace s) = words_of <$> seq 0 10 /\
    (forall j, (10 <= j < 28)%nat -> wm_pl (ws_mem (sr_sys s)) j = Some (words_of (j + 61))) /\
    swmr_threads true (replicate 100 (Reader 0)) s = Some s' /\ sr_trace s' = sr_trace s ++ replicate 100 (WNothing 0).
Proof.
  assert (H : match swmr_queue_create (fun _ => Some 4096) 2 2 false with
    | Ret (q, mem) =>
        match swmr_exec race_cmds (WS (wq_src q) (wq_dst q) mem) with
        | (Ret tr, st) => wc_next_seq (ws_src st) = wc_next_sync (ws_src st) /\
            wm_pos (ws_mem st) !! 0%nat = Some 10 /\ wm_pos (ws_mem st) !! 1%nat = Some 5 /\
            bcast_sent_of tr = words_of <$> seq 0 59 /\ bcast_got_of 0 tr = words_of <$> seq 0 10 /\ bcast_got_of 1 tr = words_of <$> seq 0 5
        | _ => False
        end
    | _ => False
    end) by (vm_compute; repeat split).
  destruct (swmr_queue_create _ _ _ _) as [[q mem]| | |] eqn:Eq; try done.
  destruct (swmr_exec _ _) as [[tr| | |] st] eqn:Ex; try done. destruct H as (Hy & H0 & H1 & Hs & Hg0 & Hg1).
  pose proof (swmr_min_race (fun _ => Some 4096) false race_cmds q mem tr st 10 5 25 (words_of <$> seq 59 30)) as R.
  cbv zeta in R. rewrite Hs, Hg0, Hg1 in R. change (swmr_ring_size 2) with 61%nat in R. rewrite !length_fmap, !length_seq in R.
  destruct R as (s & E & Rs & R0 & _ & _ & _ & Rl & Rn); try done; try lia; try by (eexists).
  - unfold race_cmds. rewrite !Forall_app. split; [|split]; [|apply Forall_replicate; simpl; lia..].
    apply Forall_fmap, Forall_true. done.
  - apply (Nat.ltb_lt _ 32). reflexivity.
  - apply Forall_fmap, Forall_true. done.
  - destruct (Rn ltac:(lia) 100%nat) as (s' & E' & T'). exists q, mem, tr, st, s, s'. split; [done|]. split; [done|]. split; [done|].
    split; [by rewrite Rs, <- fmap_app|]. split; [by rewrite R0|]. split; [|by split]. intros j Hj. rewrite <- (Rl j (words_of (j + 61))).
    + by rewrite Nat.mod_small by lia.
    + lia.
    + rewrite <- fmap_app, list_lookup_fmap. change (seq 0 59 ++ seq 59 30) with (seq 0 89). by rewrite lookup_seq_lt by lia.
Defined.
