(* ===== verification/Queuepair.v ===== *)
(** Queue pairs ([inc/smlt_queuepair.h], [src/queuepair.c]): a table of functions
    over one of three backends, blocking loops around the non-blocking calls, and
    creation.  The table is a record of operations on the state of its backend;
    the type of that state depends on [smlt_qp_type_t] as the unions of
    [struct smlt_qp] do. *)
From S2P Require Import Prelude Errors Message Platform Fifo Pair UmpQueue UmpQueuepair.
From S2P Require Import Ffq SeqRing Shm.

(** ** Data *)
Inductive smlt_qp_type_t :=
| SMLT_QP_TYPE_INVALID
| SMLT_QP_TYPE_UMP
| SMLT_QP_TYPE_FFQ
| SMLT_QP_TYPE_SHM.
#[export] Instance smlt_qp_type_eq_dec : EqDecision smlt_qp_type_t.
Proof. solve_decision. Defined.

(** The member of the unions a type uses, and the memory it shares. *)
Definition qp_queue (t : smlt_qp_type_t) : Type :=
  match t with
  | SMLT_QP_TYPE_INVALID => unit
  | SMLT_QP_TYPE_UMP => smlt_ump_queuepair
  | SMLT_QP_TYPE_FFQ => smlt_ffq_queuepair
  | SMLT_QP_TYPE_SHM => shm_queues
  end.
Definition qp_ring (t : smlt_qp_type_t) : Type :=
  match t with
  | SMLT_QP_TYPE_INVALID => unit
  | SMLT_QP_TYPE_UMP => ump_ring
  | SMLT_QP_TYPE_FFQ => ffq_ring
  | SMLT_QP_TYPE_SHM => shm_mem
  end.
Abbreviation qp_st t := (endp (qp_queue t) (qp_ring t)).

(** [f], the table of function pointers. *)
Record smlt_qp_f (St : Type) := QPF {
  f_try_send : smlt_msg -> M St Z;
  f_send_notify : M St Z;
  f_can_send : M St bool;
  f_try_recv : smlt_msg -> M St (Z * smlt_msg);
  f_can_recv : M St bool;
  f_recv_notify : M St Z;
}.
Arguments QPF {St}.
Arguments f_try_send {St}.
Arguments f_send_notify {St}.
Arguments f_can_send {St}.
Arguments f_try_recv {St}.
Arguments f_can_recv {St}.
Arguments f_recv_notify {St}.

Definition ump_f : smlt_qp_f ump_st :=
  QPF smlt_ump_queuepair_try_send smlt_ump_queuepair_notify smlt_ump_queuepair_can_send
      smlt_ump_queuepair_try_recv smlt_ump_queuepair_can_recv smlt_ump_queuepair_recv_notify.
Definition ffq_f : smlt_qp_f ffq_st :=
  QPF smlt_ffq_queuepair_send smlt_ffq_queuepair_notify smlt_ffq_queuepair_can_send
      smlt_ffq_queuepair_recv smlt_ffq_queuepair_can_recv smlt_ffq_queuepair_recv_notify.
Definition shm_f : smlt_qp_f shm_st :=
  QPF smlt_shm_send smlt_shm_send0 smlt_shm_can_send
      smlt_shm_recv smlt_shm_can_recv smlt_shm_recv0.

(** The table [smlt_queuepair_create] installs; none for an invalid type. *)
Definition qp_table (t : smlt_qp_type_t) : option (smlt_qp_f (qp_st t)) :=
  match t with
  | SMLT_QP_TYPE_INVALID => None
  | SMLT_QP_TYPE_UMP => Some ump_f
  | SMLT_QP_TYPE_FFQ => Some ffq_f
  | SMLT_QP_TYPE_SHM => Some shm_f
  end.

(** ** Operations *)
Section ops.
Context {St : Type} (f : option (smlt_qp_f St)).

(** A call through a function pointer, undefined when it is null. *)
Definition call {A} (k : smlt_qp_f St -> M St A) : M St A :=
  match f with Some t => k t | None => undef end.

Definition smlt_queuepair_try_send (msg : smlt_msg) : M St Z := call (fun t => f_try_send t msg).
(** [do { err = try_send } while (err == SMLT_ERR_QUEUE_FULL)] *)
Definition smlt_queuepair_send (msg : smlt_msg) : M St Z :=
  err ← smlt_queuepair_try_send msg;
  if err =? err_value SMLT_ERR_QUEUE_FULL then spin else mret err.
Definition smlt_queuepair_notify : M St Z := call f_send_notify.
Definition smlt_queuepair_can_send : M St bool := call f_can_send.
Definition smlt_queuepair_try_recv (msg : smlt_msg) : M St (Z * smlt_msg) :=
  call (fun t => f_try_recv t msg).
(** [do { err = try_recv } while (err == SMLT_ERR_QUEUE_EMPTY)] *)
Definition smlt_queuepair_recv (msg : smlt_msg) : M St (Z * smlt_msg) :=
  r ← smlt_queuepair_try_recv msg;
  if r.1 =? err_value SMLT_ERR_QUEUE_EMPTY then spin else mret r.
Definition smlt_queuepair_recv0 : M St Z := call f_recv_notify.
Definition smlt_queuepair_can_recv : M St bool := call f_can_recv.
End ops.

(** ** Creation *)
Record qp_world := QW {
  qw_alloc : alloc_st;
  qw_ump : rings;
  qw_ffq : ffq_rings;
  qw_shm : gmap Z shm_mem;
}.
Definition qw_on_alloc {A} : M alloc_st A -> M qp_world A :=
  zoom qw_alloc (fun a s => QW a (qw_ump s) (qw_ffq s) (qw_shm s)).
Definition qw_on_ump {A} : M ump_init_st A -> M qp_world A :=
  zoom (fun s => UIS (qw_alloc s) (qw_ump s))
       (fun u s => QW (ui_alloc u) (ui_rings u) (qw_ffq s) (qw_shm s)).
Definition qw_on_ffq {A} : M ffq_init_st A -> M qp_world A :=
  zoom (fun s => FIS (qw_alloc s) (qw_ffq s))
       (fun u s => QW (fi_alloc u) (qw_ump s) (fi_rings u) (qw_shm s)).
Definition qw_add_shm (b : option shm_block) : M qp_world unit :=
  match b with
  | Some b => modify (fun s => QW (qw_alloc s) (qw_ump s) (qw_ffq s)
                                 (<[sb_addr b := sb_mem b]> (qw_shm s)))
  | None => mret tt
  end.
Definition of_outcome {S A} (o : outcome A) : M S A := fun s => (o, s).

Definition zero_ffq : smlt_ffq_queuepair :=
  FQP (FQ 0 0 0 SMLT_FFQ_DIRECTION_SEND) (FQ 0 0 0 SMLT_FFQ_DIRECTION_SEND).

Section create.
Context (numa_alloc_onnode : Z -> Z -> option shm_block) (numa_node_of_cpu : Z -> Z)
  (malloc_ok : bool) (ctx_alloc_ok : Z -> bool).

(** The backend's part: the error and the two ends' queues. *)
Definition qp_init (t : smlt_qp_type_t) (qp_src qp_dst core_src core_dst : Z)
  : M qp_world (Z * (qp_queue t * qp_queue t)) :=
  match t return M qp_world (Z * (qp_queue t * qp_queue t)) with
  | SMLT_QP_TYPE_UMP =>
      qw_on_ump (smlt_ump_queuepair_init qp_src qp_dst SMLT_UMP_DEFAULT_SLOTS
                   zero_queuepair zero_queuepair)
  | SMLT_QP_TYPE_FFQ =>
      qw_on_ffq (smlt_ffq_queuepair_init SMLT_FFQ_DEFAULT_SLOTS zero_ffq zero_ffq)
  | SMLT_QP_TYPE_SHM =>
      tx ← of_outcome (shm_queuepair_create numa_alloc_onnode numa_node_of_cpu malloc_ok
                         ctx_alloc_ok core_src core_dst);
      _ ← qw_add_shm tx.2;
      rx ← of_outcome (shm_queuepair_create numa_alloc_onnode numa_node_of_cpu malloc_ok
                         ctx_alloc_ok core_dst core_src);
      _ ← qw_add_shm rx.2;
      mret (err_value SMLT_SUCCESS, (SQS tx.1 rx.1, SQS rx.1 tx.1))
  | SMLT_QP_TYPE_INVALID => mret (err_value SMLT_SUCCESS, (tt, tt))
  end.

(** [None]: [*qp1] and [*qp2] are not written. *)
Definition smlt_queuepair_create (t : smlt_qp_type_t) (core_src core_dst : Z)
  : M qp_world (Z * option (qp_queue t * qp_queue t)) :=
  qp_src ← qw_on_alloc al_alloc;
  match qp_src with
  | None => mret (err_value SMLT_ERR_MALLOC_FAIL, None)
  | Some qp_src =>
    qp_dst ← qw_on_alloc al_alloc;
    match qp_dst with
    | None => mret (err_value SMLT_ERR_MALLOC_FAIL, None)
    | Some qp_dst =>
      r ← qp_init t qp_src qp_dst core_src core_dst;
      if smlt_err_is_fail r.1 then mret (r.1, None)
      else mret (err_value SMLT_SUCCESS, Some r.2)
    end
  end.
End create.

Definition smlt_queuepair_destroy (t : smlt_qp_type_t) : Z :=
  match t with
  | SMLT_QP_TYPE_UMP => err_value SMLT_ERR_DESTROY_UMP
  | _ => err_value SMLT_SUCCESS
  end.

(** The connected pair a successful creation leaves: its rings are found through
    the addresses in the sending queues. *)
Definition mk_qp_pair (t : smlt_qp_type_t) :
  qp_queue t * qp_queue t -> qp_world -> pair (qp_queue t) (qp_ring t) :=
  match t with
  | SMLT_QP_TYPE_INVALID => fun _ _ => Pair tt tt tt tt
  | SMLT_QP_TYPE_UMP => fun sd w => mk_pair sd (qw_ump w)
  | SMLT_QP_TYPE_FFQ => fun sd w => mk_ffq_pair sd (qw_ffq w)
  | SMLT_QP_TYPE_SHM => fun sd w =>
      Pair sd.1 sd.2
        (default (SM 0 []) (qw_shm w !! sc_shm (shm_src (queue_tx sd.1))))
        (default (SM 0 []) (qw_shm w !! sc_shm (shm_src (queue_tx sd.2))))
  end.

(** ** The blocking calls as a FIFO client sees them

    A send that spins in the current state has not accepted its message; an error
    is not an outcome the client expects. *)
Definition qp_send {St} (f : option (smlt_qp_f St)) (m : list Z) : M St bool := fun s =>
  match smlt_queuepair_send f (msg_of m) s with
  | (Ret e, s') => if smlt_err_is_ok e then (Ret true, s') else (Panic, s')
  | (Spin, s') => (Ret false, s')
  | (Panic, s') => (Panic, s')
  | (Undef, s') => (Undef, s')
  end.
Definition qp_recv {St} (f : option (smlt_qp_f St)) (w : nat) : M St (option (list Z)) := fun s =>
  match smlt_queuepair_recv f (msg_buf w) s with
  | (Ret r, s') => if smlt_err_is_ok r.1 then (Ret (Some (msg_data r.2)), s') else (Panic, s')
  | (Spin, s') => (Ret None, s')
  | (Panic, s') => (Panic, s')
  | (Undef, s') => (Undef, s')
  end.

Definition qp_cap (t : smlt_qp_type_t) : nat :=
  match t with
  | SMLT_QP_TYPE_INVALID => 0 | SMLT_QP_TYPE_UMP => 63 | SMLT_QP_TYPE_FFQ => 64
  | SMLT_QP_TYPE_SHM => 61
  end.
(** The message lengths a type carries. *)
Definition qp_words (t : smlt_qp_type_t) (w : nat) : bool :=
  match t with
  | SMLT_QP_TYPE_INVALID => false
  | SMLT_QP_TYPE_UMP => bool_decide (w <= 7)%nat
  | SMLT_QP_TYPE_FFQ => bool_decide (1 <= w <= 8)%nat
  | SMLT_QP_TYPE_SHM => bool_decide (w = 7)%nat
  end.
(** FastForward cannot carry a message whose first word is its empty marker. *)
Definition qp_word (t : smlt_qp_type_t) (w : nat) (m : list Z) : Prop :=
  length m = w /\
  match t with SMLT_QP_TYPE_FFQ => head m <> Some SMLT_FFQ_SLOT_EMPTY | _ => True end.

Definition qp_dinv (t : smlt_qp_type_t) (w : nat) :
  qp_queue t -> qp_ring t -> qp_queue t -> list (list Z) -> Prop :=
  match t with
  | SMLT_QP_TYPE_INVALID => fun _ _ _ _ => False
  | SMLT_QP_TYPE_UMP => ump_dinv 63 w
  | SMLT_QP_TYPE_FFQ => ffq_dinv 64 w
  | SMLT_QP_TYPE_SHM => shm_dinv 63
  end.

(** ** Error values of the backends *)
Lemma ump_try_send_errs msg s e s' :
  smlt_ump_queuepair_try_send msg s = (Ret e, s') ->
  e = err_value SMLT_SUCCESS \/ e = err_value SMLT_ERR_QUEUE_FULL.
Proof.
  unfold smlt_ump_queuepair_try_send, mbind, M_bind.
  destruct (smlt_ump_queuepair_prepare_send s) as [[r| | |] s1]; try done.
  destruct (smlt_err_is_fail r.1); [intros [= <- <-]; by right|].
  destruct (on_tx (fill_slot r.2 msg) s1) as [[[]| | |] s2]; try done.
  unfold smlt_ump_queuepair_send_raw, mbind, M_bind, gets, modify. simpl.
  destruct (on_tx _ _) as [[[]| | |] s3]; try done. intros [= <- <-]. by left.
Qed.

Lemma ump_try_recv_errs msg s r s' :
  smlt_ump_queuepair_try_recv msg s = (Ret r, s') ->
  r.1 = err_value SMLT_SUCCESS \/ r.1 = err_value SMLT_ERR_QUEUE_EMPTY.
Proof.
  unfold smlt_ump_queuepair_try_recv, mbind, M_bind.
  destruct (smlt_ump_queuepair_recv_raw s) as [[x| | |] s1] eqn:E; try done.
  destruct (smlt_err_is_fail x.1) eqn:F.
  - intros [= <- <-]. simpl. revert E F.
    unfold smlt_ump_queuepair_recv_raw, mbind, M_bind.
    destruct (smlt_ump_queuepair_can_recv_raw s) as [[[]| | |] s2]; try done; simpl.
    + unfold on_rx, zoom, smlt_ump_queue_recv_raw, mbind, M_bind. simpl.
      destruct (ring_slot _ _) as [[slot| | |] s3]; try done; simpl.
      destruct (negb _); [intros [= <- <-]; by right|].
      destruct (uq_pos _ =? _); simpl; destruct (u16 _ =? _); simpl; intros [= <- <-] F; vm_compute in F; done.
    + intros [= <- <-] _. by right.
  - destruct (on_rx (read_slot x.2 msg) s1) as [[m| | |] s2]; try done.
    intros [= <- <-]. by left.
Qed.

Lemma ffq_send_errs msg s e s' :
  smlt_ffq_queuepair_send msg s = (Ret e, s') ->
  e = err_value SMLT_SUCCESS \/ e = err_value SMLT_ERR_QUEUE_FULL.
Proof.
  unfold smlt_ffq_queuepair_send, smlt_ffq_queuepair_send_raw, on_ftx, zoom,
    smlt_ffq_queue_send_raw, mbind, M_bind.
  destruct (smlt_ffq_queue_can_send _) as [[[]| | |] s1]; try done; simpl;
    [|intros [= <- <-]; by right].
  out_cases; intros [= <- <-]. by left.
Qed.

Lemma ffq_recv_errs msg s r s' :
  smlt_ffq_queuepair_recv msg s = (Ret r, s') ->
  r.1 = err_value SMLT_SUCCESS \/ r.1 = err_value SMLT_ERR_QUEUE_EMPTY.
Proof.
  unfold smlt_ffq_queuepair_recv, smlt_ffq_queuepair_recv_raw, on_frx, zoom,
    smlt_ffq_queue_recv_raw, mbind, M_bind, fmap, M_fmap.
  out_cases; intros [= <- <-]; auto.
Qed.

(** ** The blocking calls inherit the laws of the non-blocking ones *)
Section lift.
Context {QP R : Type} (f : smlt_qp_f (endp QP R)) (dinv : QP -> R -> QP -> list (list Z) -> Prop)
  (cap w : nat) (valid : list Z -> Prop).

Lemma qp_end_send :
  (forall msg s e s', f_try_send f msg s = (Ret e, s') ->
     e = err_value SMLT_SUCCESS \/ e = err_value SMLT_ERR_QUEUE_FULL) ->
  end_send_law dinv cap valid (fun m => smlt_err_is_ok <$> f_try_send f (msg_of m)) ->
  end_send_law dinv cap valid (qp_send (Some f)).
Proof using Type.
  intros He HL e rxq q m Hd Hv.
  destruct (HL e rxq q m Hd Hv) as (b & e' & E & Hrx & Hfr & Hb).
  exists b, e'. split; [|done]. unfold fmap, M_fmap in E.
  unfold qp_send, smlt_queuepair_send, smlt_queuepair_try_send, call, mbind, M_bind.
  destruct (f_try_send f (msg_of m) e) as [[x| | |] s1] eqn:E1; try done.
  simplify_eq. destruct (He _ _ _ _ E1) as [-> | ->]; done.
Qed.

Lemma qp_end_recv :
  (forall msg s r s', f_try_recv f msg s = (Ret r, s') ->
     r.1 = err_value SMLT_SUCCESS \/ r.1 = err_value SMLT_ERR_QUEUE_EMPTY) ->
  end_recv_law dinv (fun s => match f_try_recv f (msg_buf w) s with
    | (Ret r, s') => (Ret (if smlt_err_is_ok r.1 then Some (msg_data r.2) else None), s')
    | (Spin, s') => (Spin, s') | (Panic, s') => (Panic, s') | (Undef, s') => (Undef, s') end) ->
  end_recv_law dinv (qp_recv (Some f) w).
Proof using Type.
  intros He HL e txq q Hd.
  destruct (HL e txq q Hd) as (o & e' & E & Htx & Hfr & Ho).
  exists o, e'. split; [|done].
  unfold qp_recv, smlt_queuepair_recv, smlt_queuepair_try_recv, call, mbind, M_bind.
  destruct (f_try_recv f (msg_buf w) e) as [[x| | |] s1] eqn:E1; try done.
  simplify_eq. destruct x as [err m]. destruct (He _ _ _ _ E1) as [Hx|Hx]; simpl in Hx; by subst err.
Qed.
End lift.

(** The three backends behind the same interface. *)
Lemma qp_laws t w d qo :
  qp_words t w = true ->
  @SpscLaws (pair (qp_queue t) (qp_ring t)) (list Z)
    (link_spsc (qp_send (qp_table t)) (qp_recv (qp_table t) w) d)
    (qp_cap t) (qp_word t w) (link_inv (qp_dinv t w) d qo).
Proof.
  intros Hw. apply link_laws.
  - destruct t; simpl in *; [done| | |]; apply bool_decide_eq_true in Hw.
    + apply qp_end_send; [apply ump_try_send_errs|].
      intros e rxq q m Hd [Hm _].
      apply (ump_end_send 63 ltac:(lia) ltac:(lia) w Hw e rxq q m Hd Hm).
    + apply qp_end_send; [apply ffq_send_errs|].
      intros e rxq q m Hd [Hm Hh].
      apply (ffq_end_send 64 ltac:(lia) ltac:(lia) w e rxq q m Hd).
      split; [split; [|done]|done]. unfold SMLT_FFQ_MSG_WORDS. lia.
    + subst w. intros e rxq q m Hd [Hm _].
      destruct (shm_end_send 63 ltac:(lia) ltac:(lia) e rxq q m Hd Hm) as (b & e' & E & H).
      exists b, e'. split; [|done]. revert E. unfold shm_send, completes, qp_send,
        smlt_queuepair_send, smlt_queuepair_try_send, call, mbind, M_bind. simpl.
      do 8 (destruct m as [|? m]; try done).
      unfold smlt_shm_send, mbind, M_bind. simpl.
      by destruct (on_stx _ e) as [[[]| | |] s1].
  - destruct t; simpl in *; [done| | |]; apply bool_decide_eq_true in Hw.
    + apply qp_end_recv; [apply ump_try_recv_errs|].
      apply (ump_end_recv 63 ltac:(lia) ltac:(lia) w Hw).
    + apply qp_end_recv; [apply ffq_recv_errs|].
      apply (ffq_end_recv 64 ltac:(lia) ltac:(lia) w Hw).
    + subst w. intros e txq q Hd.
      destruct (shm_end_recv 63 ltac:(lia) ltac:(lia) e txq q Hd) as (o & e' & E & H).
      exists o, e'. split; [|done]. revert E. unfold shm_recv, qp_recv,
        smlt_queuepair_recv, smlt_queuepair_try_recv, call, mbind, M_bind. simpl.
      destruct (smlt_shm_recv (msg_buf 7) e) as [[r| | |] s1] eqn:Er; try done.
      assert (Hr : r.1 = err_value SMLT_SUCCESS).
      { revert Er. unfold smlt_shm_recv, mbind, M_bind.
        destruct (on_srx _ _) as [[x| | |] s2]; try done.
        destruct (defined _ s2) as [[y| | |] s3]; try done. by intros [= <- <-]. }
      destruct r as [err m]. simpl in Hr. by subst err.
Qed.

(** ** Creation *)
Section create_spec.
Context (numa : Z -> Z -> option shm_block) (node_of : Z -> Z) (ctx_ok : Z -> bool).
Context (Hctx : forall n, ctx_ok n = true).
Context (core_src core_dst : Z) (bf bb : shm_block).
Context (Hbf : numa sizeof_SHM_SIZE (node_of core_dst) = Some bf)
  (Hbb : numa sizeof_SHM_SIZE (node_of core_src) = Some bb)
  (Hfm : sb_mem bf = SM 0 (zero_lines 63)) (Hbm : sb_mem bb = SM 0 (zero_lines 63))
  (Hne : sb_addr bf <> sb_addr bb).

Lemma shm_create_run src dst b :
  numa sizeof_SHM_SIZE (node_of dst) = Some b ->
  shm_queuepair_create numa node_of true ctx_ok src dst =
    Ret (SQP (shm_ctx_init (sb_addr b)) (shm_ctx_init (sb_addr b)), Some b).
Proof using Hctx.
  intros Hb. unfold shm_queuepair_create, shm_init_context. by rewrite Hb, !Hctx.
Qed.

(** With both structures and both rings allocated, creation succeeds for every
    type and leaves a pair that holds no message. *)
Lemma qp_create_ok t w p1 p2 a b an live ur fr sr :
  qp_words t w = true -> good_buf a -> good_buf b -> a <> b ->
  exists sd s',
    smlt_queuepair_create numa node_of true ctx_ok t core_src core_dst
      (QW (AllocSt (Some p1 :: Some p2 :: Some a :: Some b :: an) live) ur fr sr) =
      (Ret (err_value SMLT_SUCCESS, Some sd), s') /\
    forall d, link_inv (qp_dinv t w) d [] (mk_qp_pair t sd s') [].
Proof using Type*.
  intros Hw Ga Gb Hab. unfold smlt_queuepair_create, qw_on_alloc, zoom, mbind, M_bind. simpl.
  destruct t; simpl in *; [done| | |].
  - destruct (init_ok p1 p2 64 zero_queuepair zero_queuepair ltac:(lia) a b an
      (p2 :: p1 :: live) ur Ga Gb Hab) as (sd & rs' & E & _ & _ & I).
    unfold qw_on_ump, zoom. simpl. change SMLT_UMP_DEFAULT_SLOTS with 64. rewrite E. simpl.
    eexists _, _. split; [reflexivity|]. intros d. apply (I w d).
  - destruct (ffq_init_ok w 64 zero_ffq zero_ffq a b an (p2 :: p1 :: live) fr ltac:(lia) Hab)
      as (sd & rs' & E & I).
    unfold qw_on_ffq, zoom. simpl. change SMLT_FFQ_DEFAULT_SLOTS with (Z.of_nat 64).
    rewrite E. simpl. eexists _, _. split; [reflexivity|]. apply I.
  - unfold of_outcome, mbind, M_bind. rewrite (shm_create_run _ _ _ Hbf). simpl.
    rewrite (shm_create_run _ _ _ Hbb). simpl.
    eexists _, _. split; [reflexivity|]. intros d. simpl.
    rewrite lookup_insert_ne by done. rewrite !lookup_insert_eq, Hfm, Hbm. simpl.
    destruct d; split; exists [], 0%nat; (split; [apply shm_fresh_inv|done]).
Qed.
End create_spec.

(** ** Main properties *)

(** [C24] The queue pairs the library creates are FIFOs behind one interface: for
    each of the three backends, after [smlt_queuepair_create], in either direction
    and for every interleaving of the blocking calls [smlt_queuepair_send] and
    [smlt_queuepair_recv], a call either completes or waits for the other end, what
    was received followed by what is in flight is what was sent, and at most 63
    (UMP), 64 (FastForward) or 61 (shared memory) messages are in flight.  Messages have up
    to 7 words (UMP), 1 to 8 words the first of which is not the empty marker (FastForward)
    or 7 words (shared memory). *)
Theorem qp_fifo numa node_of ctx_ok core_src core_dst bf bb t w d p1 p2 a b an live ur fr sr cs :
  (forall n, ctx_ok n = true) ->
  numa sizeof_SHM_SIZE (node_of core_dst) = Some bf -> sb_mem bf = SM 0 (zero_lines 63) ->
  numa sizeof_SHM_SIZE (node_of core_src) = Some bb -> sb_mem bb = SM 0 (zero_lines 63) ->
  sb_addr bf <> sb_addr bb ->
  good_buf a -> good_buf b -> a <> b ->
  qp_words t w = true -> Forall (valid_cmd (valid := qp_word t w)) cs ->
  exists sd s' st tr q,
    smlt_queuepair_create numa node_of true ctx_ok t core_src core_dst
      (QW (AllocSt (Some p1 :: Some p2 :: Some a :: Some b :: an) live) ur fr sr) =
      (Ret (err_value SMLT_SUCCESS, Some sd), s') /\
    exec (SpscQueue0 := link_spsc (qp_send (qp_table t)) (qp_recv (qp_table t) w) d) cs
      (mk_qp_pair t sd s') = (Ret tr, st) /\
    fifo_run (qp_cap t) [] tr q /\ sent_of tr = recv_of tr ++ q /\ (length q <= qp_cap t)%nat.
Proof.
  intros Hc Hf Hfm Hb Hbm Hne Ga Gb Hab Hw Hcs.
  destruct (qp_create_ok numa node_of ctx_ok Hc core_src core_dst bf bb Hf Hb Hfm Hbm Hne
    t w p1 p2 a b an live ur fr sr Hw Ga Gb Hab) as (sd & s' & E & I).
  pose proof (qp_laws t w d [] Hw) as L.
  destruct (exec_refines (SpscLaws0 := L) cs _ _ (I d) Hcs) as (tr & st & q & E' & R & _).
  exists sd, s', st, tr, q. split; [done|]. split; [done|]. split; [done|].
  split; [by rewrite <- (fifo_run_order _ _ _ _ R)|].
  apply (fifo_run_cap _ _ _ _ R). simpl. lia.
Qed.

Lemma qp_fifo_witness :
  exists sd s' st tr q,
    smlt_queuepair_create numa_pages (fun c => c) true (fun _ => true) SMLT_QP_TYPE_UMP 0 1
      (QW (AllocSt [Some 64; Some 320; Some 4096; Some 12288] []) ∅ ∅ ∅) =
      (Ret (err_value SMLT_SUCCESS, Some sd), s') /\
    exec (SpscQueue0 := link_spsc (qp_send (qp_table SMLT_QP_TYPE_UMP))
                          (qp_recv (qp_table SMLT_QP_TYPE_UMP) 2) Dst)
      [CSend [1; 2]; CRecv; CRecv] (mk_qp_pair SMLT_QP_TYPE_UMP sd s') = (Ret tr, st) /\
    fifo_run (qp_cap SMLT_QP_TYPE_UMP) [] tr q /\ sent_of tr = recv_of tr ++ q /\
    (length q <= qp_cap SMLT_QP_TYPE_UMP)%nat.
Proof.
  apply (qp_fifo numa_pages (fun c => c) (fun _ => true) 0 1
    (SB 8192 (SM 0 (zero_lines 63))) (SB 4096 (SM 0 (zero_lines 63)))); try done.
  repeat constructor.
Defined.

(** A failed creation leaks what it had allocated: when the second structure
    cannot be allocated the first stays live, and when the backend fails both do. *)
Lemma qp_create_leaks numa node_of mal ctx_ok core_src core_dst t p1 p2 an live ur fr sr :
  t = SMLT_QP_TYPE_UMP \/ t = SMLT_QP_TYPE_FFQ ->
  let create answers := smlt_queuepair_create numa node_of mal ctx_ok t core_src core_dst
    (QW (AllocSt answers live) ur fr sr) in
  (create (Some p1 :: None :: an)).1 = Ret (err_value SMLT_ERR_MALLOC_FAIL, None) /\
  al_live (qw_alloc (create (Some p1 :: None :: an)).2) = p1 :: live /\
  (create (Some p1 :: Some p2 :: None :: an)).1 = Ret (err_value SMLT_ERR_MALLOC_FAIL, None) /\
  al_live (qw_alloc (create (Some p1 :: Some p2 :: None :: an)).2) = p2 :: p1 :: live.
Proof. intros [-> | ->]; repeat split. Qed.

