(* ===== verification/Channel.v ===== *)
(** Channels ([inc/smlt_channel.h], [src/channel.c]): a 1:1 channel is one UMP
    queue pair; a 1:n channel broadcasts through a single-writer multiple-reader
    queue and collects through one queue pair per destination. *)
From S2P Require Import Prelude Errors Message Platform Fifo Pair UmpQueue UmpQueuepair.
From S2P Require Import Ffq SeqRing Shm Swmr Queuepair.

(** ** Data *)

(** The union [c], with the memory its queues share.  In [CMp], [mp.send] is the
    [Src] end and [mp.recv] the [Dst] end of the pair.  In [CShm], [recv[i]] is the
    [Src] end and [recv_owner[i]] the [Dst] end of pair [i].  [CNull] is the union of a
    zeroed channel, whose pointers are NULL. *)
Inductive chan_c :=
| CMp (p : ump_pair)
| CShm (q : swmr_sys) (dst : list Z) (qps : list ump_pair)
| CNull.

Record smlt_channel := Chan {
  ch_owner : Z;
  ch_trg : Z;
  ch_m : Z;
  ch_n : Z;
  ch_use_shm : bool;
  ch_c : chan_c;
}.
Definition ch_set_c (c : chan_c) (ch : smlt_channel) : smlt_channel :=
  Chan (ch_owner ch) (ch_trg ch) (ch_m ch) (ch_n ch) (ch_use_shm ch) c.
Definition num_chan_of (ch : smlt_channel) : Z := if ch_n ch <? ch_m ch then ch_m ch else ch_n ch.

(** An operation on [c.mp.send[i]] or [c.mp.recv[i]]: one structure each. *)
Definition on_mp {A} (i : Z) (d : side) (m : M ump_st A) : M smlt_channel A := fun s =>
  match ch_c s with
  | CMp p => if i =? 0 then let '(o, p') := at_side d m p in (o, ch_set_c (CMp p') s)
             else (Undef, s)
  | CShm _ _ _ | CNull => (Undef, s)
  end.

(** An operation on [c.shm.send_owner.src]. *)
Definition on_send_owner {A} (m : M wc_state A) : M smlt_channel A := fun s =>
  match ch_c s with
  | CMp _ | CNull => (Undef, s)
  | CShm q dst qps =>
      let '(o, t) := m (ws_src q, ws_mem q) in
      (o, ch_set_c (CShm (WS t.1 (ws_dst q) t.2) dst qps) s)
  end.

(** An operation on [c.shm.send_owner.dst[i]]. *)
Definition on_reader {A} (i : Z) (m : M wc_state A) : M smlt_channel A := fun s =>
  match ch_c s with
  | CMp _ | CNull => (Undef, s)
  | CShm q dst qps =>
      match arr_get (ws_dst q) i with
      | None => (Undef, s)
      | Some c =>
          let '(o, t) := m (c, ws_mem q) in
          (o, ch_set_c (CShm (WS (ws_src q) (<[Z.to_nat i := t.1]> (ws_dst q)) t.2) dst qps) s)
      end
  end.

(** An operation on [*c.shm.recv[i]] or [*c.shm.recv_owner[i]]. *)
Definition on_shm_qp {A} (i : Z) (d : side) (m : M ump_st A) : M smlt_channel A := fun s =>
  match ch_c s with
  | CMp _ | CNull => (Undef, s)
  | CShm q dst qps =>
      match arr_get qps i with
      | None => (Undef, s)
      | Some p => let '(o, p') := at_side d m p in
                  (o, ch_set_c (CShm q dst (<[Z.to_nat i := p']> qps)) s)
      end
  end.

Definition chan_dst (i : Z) : M smlt_channel Z := fun s =>
  match ch_c s with
  | CMp _ | CNull => (Undef, s)
  | CShm _ dst _ => defined (arr_get dst i) s
  end.

(** The queue pairs of a channel are UMP queue pairs. *)
Abbreviation uf := (Some ump_f).

Section ops.
(** [smlt_node_self_id] of the calling thread. *)
Context (self : Z).

Definition mp_side (ch : smlt_channel) : side := if ch_owner ch =? self then Src else Dst.

(** ** Sending *)
Definition smlt_channel_send (msg : smlt_msg) : M smlt_channel Z :=
  chan ← get;
  if negb (ch_use_shm chan) then
    o ← mfor_ret (Z.to_nat (num_chan_of chan)) 0 (fun i =>
          err ← on_mp i (mp_side chan) (smlt_queuepair_send uf msg);
          mret (if smlt_err_is_fail err then Some (smlt_err_push err SMLT_ERR_SEND) else None));
    mret (default (err_value SMLT_SUCCESS) o)
  else if ch_owner chan =? self then
    _ ← on_send_owner (smlt_swmr_send msg);
    mret (err_value SMLT_SUCCESS)
  else
    _ ← mfor (Z.to_nat (ch_m chan)) 0 (fun i =>
          d ← chan_dst i;
          if d =? self then _ ← on_shm_qp i Src (smlt_queuepair_send uf msg); mret tt
          else mret tt);
    mret (err_value SMLT_SUCCESS).

Definition smlt_channel_notify : M smlt_channel Z :=
  chan ← get;
  if negb (ch_use_shm chan) then
    o ← mfor_ret (Z.to_nat (num_chan_of chan)) 0 (fun i =>
          err ← on_mp i (mp_side chan) (smlt_queuepair_notify uf);
          mret (if smlt_err_is_fail err then Some (smlt_err_push err SMLT_ERR_SEND) else None));
    mret (default (err_value SMLT_SUCCESS) o)
  else if ch_owner chan =? self then
    _ ← on_send_owner smlt_swmr_send0;
    mret (err_value SMLT_SUCCESS)
  else
    _ ← mfor (Z.to_nat (ch_m chan)) 0 (fun i =>
          d ← chan_dst i;
          if d =? self then _ ← on_shm_qp i Src (smlt_queuepair_notify uf); mret tt
          else mret tt);
    mret (err_value SMLT_SUCCESS).

(** Looks at [c.mp] whatever the kind of the channel. *)
Fixpoint can_send_loop (n : nat) (i : Z) (d : side) (result : bool) : M smlt_channel bool :=
  match n with
  | O => mret result
  | S n' =>
      b ← on_mp i d (smlt_queuepair_can_send uf);
      can_send_loop n' (i + 1) d (if b : bool then result else false)
  end.
Definition smlt_channel_can_send : M smlt_channel bool :=
  chan ← get;
  can_send_loop (Z.to_nat (num_chan_of chan)) 0 (mp_side chan) true.

(** ** Receiving *)

(** The owner's polling loop over [recv_owner]: a flag per destination, until
    every destination has been received from once.  In a state the other threads
    do not change, a pass without progress repeats for ever: [Spin] when the fuel
    is used up. *)
Fixpoint collect (fuel : nat) (m : Z) (recv : list bool) (num_recv i : Z) (err : Z)
  : M smlt_channel Z :=
  if m <=? num_recv then mret err else
  match fuel with
  | O => spin
  | S fuel' =>
      r ← defined (arr_get recv i);
      b ← (if r : bool then mret false else on_shm_qp i Dst (smlt_queuepair_can_recv uf));
      let i' := if u32 (i + 1) =? m then 0 else u32 (i + 1) in
      if b : bool then
        e ← on_shm_qp i Dst (smlt_queuepair_recv0 uf);
        if smlt_err_is_fail e then mret e else
        recv' ← defined (arr_set recv i true);
        collect fuel' m recv' (num_recv + 1) i' e
      else collect fuel' m recv num_recv i' err
  end.
Definition collect_all (chan : smlt_channel) : M smlt_channel Z :=
  collect (Z.to_nat (ch_m chan)) (ch_m chan) (replicate (Z.to_nat (ch_m chan)) false) 0 0
    (err_value SMLT_SUCCESS).

(** [smlt_swmr_recv] on every entry of [dst] that names this node. *)
Fixpoint recv_as (n : nat) (i : Z) (msg : smlt_msg) : M smlt_channel smlt_msg :=
  match n with
  | O => mret msg
  | S n' =>
      d ← chan_dst i;
      if d =? self then
        r ← on_reader i (smlt_swmr_recv msg);
        recv_as n' (i + 1) r.2
      else recv_as n' (i + 1) msg
  end.

Definition smlt_channel_recv (msg : smlt_msg) : M smlt_channel (Z * smlt_msg) :=
  chan ← get;
  if ch_n chan =? ch_m chan then on_mp 0 (mp_side chan) (smlt_queuepair_recv uf msg)
  else if ch_owner chan =? self then
    e ← collect_all chan; mret (e, msg)
  else
    msg' ← recv_as (Z.to_nat (ch_m chan)) 0 msg;
    mret (err_value SMLT_SUCCESS, msg').

Fixpoint recv_index_loop (n : nat) (i : Z) (err : Z) (msg : smlt_msg)
  : M smlt_channel (Z * smlt_msg) :=
  match n with
  | O => mret (err, msg)
  | S n' =>
      r ← on_shm_qp i Dst (smlt_queuepair_recv uf msg);
      recv_index_loop n' (i + 1) r.1 r.2
  end.
Definition smlt_channel_recv_index (msg : smlt_msg) (index : Z) : M smlt_channel (Z * smlt_msg) :=
  chan ← get;
  if ch_n chan =? ch_m chan then on_mp 0 (mp_side chan) (smlt_queuepair_recv uf msg)
  else if ch_owner chan =? self then
    recv_index_loop (Z.to_nat (ch_m chan)) 0 (err_value SMLT_SUCCESS) msg
  else
    r ← on_reader index (smlt_swmr_recv msg);
    mret (err_value SMLT_SUCCESS, r.2).

Fixpoint can_recv_loop (n : nat) (i : Z) (d : side) (result : bool) : M smlt_channel bool :=
  match n with
  | O => mret result
  | S n' =>
      b ← on_mp i d (smlt_queuepair_can_recv uf);
      can_recv_loop n' (i + 1) d (if b : bool then result else false)
  end.
Definition smlt_channel_can_recv : M smlt_channel bool :=
  chan ← get;
  if ch_use_shm chan && (0 <? num_chan_of chan) then mret true
  else can_recv_loop (Z.to_nat (num_chan_of chan)) 0 (mp_side chan) true.

Definition smlt_channel_recv_notification : M smlt_channel Z :=
  chan ← get;
  if ch_n chan =? ch_m chan then on_mp 0 (mp_side chan) (smlt_queuepair_recv0 uf)
  else if ch_owner chan =? self then collect_all chan
  else
    _ ← mfor (Z.to_nat (ch_m chan)) 0 (fun i =>
          d ← chan_dst i;
          if d =? self then _ ← on_reader i smlt_swmr_recv0; mret tt else mret tt);
    mret (err_value SMLT_SUCCESS).
End ops.

(** ** Creation and destruction *)
Section create.
(** Allocation of the blocks other than the UMP queue pairs'. *)
Context (alloc_on_node : Z -> option Z).
Context (numa_alloc_onnode : Z -> Z -> option shm_block) (numa_node_of_cpu : Z -> Z)
  (malloc_ok : bool) (ctx_alloc_ok : Z -> bool).

Abbreviation qp_create :=
  (smlt_queuepair_create numa_alloc_onnode numa_node_of_cpu malloc_ok ctx_alloc_ok SMLT_QP_TYPE_UMP).

(** The queue pairs of a 1:n channel, or the error of the first that fails. *)
Fixpoint create_qps (n : nat) (i : Z) (src0 : Z) (dst : list Z) (acc : list (smlt_ump_queuepair * smlt_ump_queuepair))
  : M qp_world (Z * list (smlt_ump_queuepair * smlt_ump_queuepair)) :=
  match n with
  | O => mret (err_value SMLT_SUCCESS, acc)
  | S n' =>
      d ← defined (arr_get dst i);
      r ← qp_create src0 d;
      if smlt_err_is_fail r.1 then mret (smlt_err_push r.1 SMLT_ERR_CHAN_CREATE, acc) else
      sd ← defined r.2;
      create_qps n' (i + 1) src0 dst (acc ++ [sd])
  end.

(** The error and, on success, the channel: its queues refer to rings of the world. *)
Definition smlt_channel_create (src dst : list Z) (count_src count_dst : Z)
  : M qp_world (Z * option smlt_channel) :=
  let num_chan := if count_dst <? count_src then count_src else count_dst in
  _ ← assert_ (negb ((1 <? count_src) && (1 <? count_dst)));
  src0 ← defined (arr_get src 0);
  if count_dst =? 1 then
    dst0 ← defined (arr_get dst 0);
    r ← qp_create src0 dst0;
    if smlt_err_is_fail r.1 then mret (smlt_err_push r.1 SMLT_ERR_CHAN_CREATE, None) else
    sd ← defined r.2;
    w ← get;
    mret (err_value SMLT_SUCCESS,
          Some (Chan src0 dst0 count_dst count_src false (CMp (mk_qp_pair SMLT_QP_TYPE_UMP sd w))))
  else
    q ← of_outcome (swmr_queue_create alloc_on_node 2 num_chan false);
    r ← create_qps (Z.to_nat num_chan) 0 src0 dst [];
    if smlt_err_is_fail r.1 then mret (r.1, None) else
    w ← get;
    mret (err_value SMLT_SUCCESS,
          Some (Chan src0 0 count_dst count_src true
            (CShm (WS (wq_src q.1) (wq_dst q.1) q.2) (take (Z.to_nat count_dst) dst)
               ((fun sd => mk_qp_pair SMLT_QP_TYPE_UMP sd w) <$> r.2)))).
End create.

(** The loop reads [c.mp.send[i]] and frees both structures at every iteration;
    the queue pair's own destruction comes first. *)
Definition smlt_channel_destroy : M smlt_channel Z :=
  chan ← get;
  o ← mfor_ret (Z.to_nat (num_chan_of chan)) 0 (fun i =>
        match ch_c chan with
        | CShm _ _ _ | CNull => undef
        | CMp _ =>
            if i =? 0 then
              let err := smlt_queuepair_destroy SMLT_QP_TYPE_UMP in
              if smlt_err_is_fail err then mret (Some (smlt_err_push err SMLT_ERR_CHAN_DESTROY))
              else mret None
            else undef
        end);
  mret (default (err_value SMLT_SUCCESS) o).

(** ** The 1:1 channel *)

(** A thread's blocking calls; an error would be a [Panic] of the client. *)
Definition chan_send (self : Z) (m : list Z) : M smlt_channel bool := fun s =>
  match smlt_channel_send self (msg_of m) s with
  | (Ret e, s') => if smlt_err_is_ok e then (Ret true, s') else (Panic, s')
  | (Spin, s') => (Ret false, s')
  | (Panic, s') => (Panic, s')
  | (Undef, s') => (Undef, s')
  end.
Definition chan_recv (w : nat) (self : Z) : M smlt_channel (option (list Z)) := fun s =>
  match smlt_channel_recv self (msg_buf w) s with
  | (Ret r, s') => if smlt_err_is_ok r.1 then (Ret (Some (msg_data r.2)), s') else (Panic, s')
  | (Spin, s') => (Ret None, s')
  | (Panic, s') => (Panic, s')
  | (Undef, s') => (Undef, s')
  end.

(** Messages from thread [a] to thread [b]. *)
Definition chan_spsc (w : nat) (a b : Z) : SpscQueue smlt_channel (list Z) :=
  {| q_send := chan_send a; q_recv := chan_recv w b |}.

Definition chan_repr (w : nat) (owner : Z) (d : side) (qo : list (list Z))
    (ch : smlt_channel) (q : list (list Z)) : Prop :=
  exists p, ch_c ch = CMp p /\ ch_owner ch = owner /\ ch_m ch = 1 /\ ch_n ch = 1 /\
    ch_use_shm ch = false /\ link_inv (qp_dinv SMLT_QP_TYPE_UMP w) d qo p q.

(** The end of the pair that a thread uses. *)
Definition chan_end (owner a : Z) : side := if owner =? a then Src else Dst.

Section one_to_one.
Context (w : nat) (Hw : (w <= 7)%nat) (owner a b : Z) (Hab : chan_end owner b = peer (chan_end owner a)).

Abbreviation qsend := (qp_send (qp_table SMLT_QP_TYPE_UMP)).
Abbreviation qrecv := (qp_recv (qp_table SMLT_QP_TYPE_UMP) w).

Lemma chan_send_run self ch p m :
  ch_c ch = CMp p -> ch_owner ch = owner -> ch_m ch = 1 -> ch_n ch = 1 -> ch_use_shm ch = false ->
  forall r p', at_side (chan_end owner self) (qsend m) p = (Ret r, p') ->
  chan_send self m ch = (Ret r, ch_set_c (CMp p') ch).
Proof using Type.
  intros Hc Ho Hm Hn Hu r p' E. unfold chan_send, smlt_channel_send, get, num_chan_of, mbind, M_bind.
  rewrite Hu, Hm, Hn. simpl. unfold on_mp, mp_side, mbind, M_bind. rewrite Hc, Ho. simpl.
  fold (chan_end owner self). revert E. unfold at_side, zoom, qp_send. simpl.
  destruct (smlt_queuepair_send _ _ _) as [[e| | |] e'].
  2: by intros [= <- <-].
  2, 3: done.
  destruct (smlt_err_is_ok e) eqn:K; [|done]. intros [= <- <-].
  rewrite err_is_fail_ok, K. simpl. done.
Qed.

Lemma chan_recv_run self ch p :
  ch_c ch = CMp p -> ch_owner ch = owner -> ch_m ch = 1 -> ch_n ch = 1 ->
  forall r p', at_side (chan_end owner self) qrecv p = (Ret r, p') ->
  chan_recv w self ch = (Ret r, ch_set_c (CMp p') ch).
Proof using Type.
  intros Hc Ho Hm Hn r p' E. unfold chan_recv, smlt_channel_recv, get, mbind, M_bind.
  rewrite Hm, Hn. simpl. unfold on_mp, mp_side. rewrite Hc, Ho. simpl.
  fold (chan_end owner self). revert E. unfold at_side, zoom, qp_recv. simpl.
  destruct (smlt_queuepair_recv _ _ _) as [[e| | |] e'].
  2: by intros [= <- <-].
  2, 3: done.
  destruct (smlt_err_is_ok e.1) eqn:K; [|done]. intros [= <- <-]. done.
Qed.

Lemma chan_laws qo :
  @SpscLaws smlt_channel (list Z) (chan_spsc w a b) 63 (fun m => length m = w)
    (chan_repr w owner (chan_end owner a) qo).
Proof using Type*.
  assert (Hq : qp_words SMLT_QP_TYPE_UMP w = true) by (by apply bool_decide_true).
  pose proof (qp_laws SMLT_QP_TYPE_UMP w (chan_end owner a) qo Hq) as L.
  split; simpl.
  - intros ch q m (p & Hc & Ho & Hm & Hn & Hu & I) Hv.
    destruct (q_send_law (SpscLaws := L) p q m I (conj Hv Logic.I)) as (r & p' & E & H). simpl in E.
    exists r, (ch_set_c (CMp p') ch). split; [by eapply chan_send_run|].
    destruct r; destruct H; (split; [done|]); by exists p'.
  - intros ch q (p & Hc & Ho & Hm & Hn & Hu & I).
    destruct (q_recv_law (SpscLaws := L) p q I) as (o & p' & E & H). simpl in E.
    exists o, (ch_set_c (CMp p') ch). split.
    { eapply chan_recv_run; [done..|]. by rewrite Hab. }
    destruct o as [m|].
    + destruct H as (q' & -> & I'). exists q'. split; [done|]. by exists p'.
    + destruct H as [-> I']. split; [done|]. by exists p'.
Qed.
End one_to_one.

(** ** Collecting from the destinations of a 1:n channel *)
Section gather.
Context (w : nat) (self : Z).

(** Pair [i] holds [qs !! i] on its way to the owner. *)
Definition up_ok (p : ump_pair) (q : list (list Z)) : Prop := link_dir (ump_dinv 63 w) Src p q.

Definition gather_state (ch : smlt_channel) (qps : list ump_pair) : smlt_channel :=
  match ch_c ch with
  | CMp _ | CNull => ch
  | CShm q dst _ => ch_set_c (CShm q dst qps) ch
  end.

Lemma on_shm_qp_run {A} i d (m : M ump_st A) ch q dst qps p o p' :
  ch_c ch = CShm q dst qps -> qps !! i = Some p -> at_side d m p = (o, p') ->
  on_shm_qp (Z.of_nat i) d m ch = (o, gather_state ch (<[i := p']> qps)).
Proof using Type.
  intros Hc Hp E. unfold on_shm_qp, gather_state. rewrite Hc, arr_get_nat, Hp, E.
  by rewrite Nat2Z.id.
Qed.

Lemma gather_state_id ch q dst qps : ch_c ch = CShm q dst qps -> gather_state ch qps = ch.
Proof using Type. intros Hc. unfold gather_state. rewrite Hc. destruct ch. by simplify_eq/=. Qed.

Lemma gather_state_c ch q dst qps qps' :
  ch_c ch = CShm q dst qps -> ch_c (gather_state ch qps') = CShm q dst qps'.
Proof using Type. intros Hc. unfold gather_state. by rewrite Hc. Qed.

Lemma gather_state_twice ch q dst qps x y :
  ch_c ch = CShm q dst qps -> gather_state (gather_state ch x) y = gather_state ch y.
Proof using Type. intros Hc. unfold gather_state. by rewrite Hc. Qed.

(** Polling and receiving on one pair. *)
Lemma up_can_recv p q :
  up_ok p q -> at_side Dst (smlt_queuepair_can_recv uf) p = (Ret (negb (bool_decide (q = []))), p).
Proof using Type.
  intros [H _]. unfold at_side, zoom, smlt_queuepair_can_recv, call. simpl.
  rewrite (ump_dir_can_recv 63 ltac:(lia) ltac:(lia) _ (p_src p) q) by exact H.
  by destruct p.
Qed.

Lemma up_recv0 p m q :
  up_ok p (m :: q) -> exists p', at_side Dst (smlt_queuepair_recv0 uf) p =
    (Ret (err_value SMLT_SUCCESS), p') /\ up_ok p' q.
Proof using Type.
  intros [H Hw]. unfold at_side, zoom, smlt_queuepair_recv0, call.
  destruct (ump_dir_recv0 63 ltac:(lia) ltac:(lia) (end_of Dst p) (p_src p) (m :: q) H)
    as (o & e' & E & _ & -> & Hd).
  simpl in *. rewrite E. eexists. split; [reflexivity|].
  unfold up_ok, link_dir. apply Forall_cons in Hw as [_ Hw]. by split.
Qed.

Definition next_index (m i : Z) : Z := if u32 (i + 1) =? m then 0 else u32 (i + 1).

(** One iteration of the owner's loop: take a message, *)
Lemma collect_take fuel m recv recv' n i err ch ch' :
  n < m -> arr_get recv i = Some false ->
  on_shm_qp i Dst (smlt_queuepair_can_recv uf) ch = (Ret true, ch) ->
  on_shm_qp i Dst (smlt_queuepair_recv0 uf) ch = (Ret (err_value SMLT_SUCCESS), ch') ->
  arr_set recv i true = Some recv' ->
  collect (S fuel) m recv n i err ch =
    collect fuel m recv' (n + 1) (next_index m i) (err_value SMLT_SUCCESS) ch'.
Proof using Type.
  intros Hn Hr Hc Hv Hs. cbn [collect]. destruct (Z.leb_spec m n); [lia|].
  rewrite Hr, (bind_ret (defined (Some false)) _ ch false ch eq_refl). cbn iota beta.
  rewrite (bind_ret _ _ _ _ _ Hc). cbn iota beta. rewrite (bind_ret _ _ _ _ _ Hv).
  change (smlt_err_is_fail (err_value SMLT_SUCCESS)) with false. cbn iota beta.
  by rewrite Hs, (bind_ret (defined (Some recv')) _ ch' recv' ch' eq_refl).
Qed.

(** or pass over a pair already served or without a message. *)
Lemma collect_skip fuel m recv n i err ch b :
  n < m -> arr_get recv i = Some b ->
  (b = false -> on_shm_qp i Dst (smlt_queuepair_can_recv uf) ch = (Ret false, ch)) ->
  collect (S fuel) m recv n i err ch = collect fuel m recv n (next_index m i) err ch.
Proof using Type.
  intros Hn Hr Hc. cbn [collect]. destruct (Z.leb_spec m n); [lia|].
  rewrite Hr, (bind_ret (defined (Some b)) _ ch b ch eq_refl).
  destruct b; cbn iota beta; [done|]. by rewrite (bind_ret _ _ _ _ _ (Hc eq_refl)).
Qed.

Lemma poll_run ch q dst qps i p x :
  ch_c ch = CShm q dst qps -> qps !! i = Some p -> up_ok p x ->
  on_shm_qp (Z.of_nat i) Dst (smlt_queuepair_can_recv uf) ch =
    (Ret (negb (bool_decide (x = []))), ch).
Proof using Type.
  intros Hc Hp Hup. rewrite (on_shm_qp_run i Dst _ ch q dst qps p _ _ Hc Hp (up_can_recv p x Hup)).
  by rewrite list_insert_id, (gather_state_id _ _ _ _ Hc) by done.
Qed.

(** The first pass takes one message from every destination that has one. *)
Lemma collect_pass k : forall ch q dst qps (qs : list (list (list Z))) i fuel err,
  ch_c ch = CShm q dst qps -> length qps = (i + k)%nat -> length qs = (i + k)%nat ->
  (k <= fuel)%nat -> Z.of_nat (i + k) < 2 ^ 32 -> (k = 0%nat -> err = err_value SMLT_SUCCESS) ->
  (forall j p x, (i <= j)%nat -> qps !! j = Some p -> qs !! j = Some x -> up_ok p x /\ x <> []) ->
  exists qps', collect fuel (Z.of_nat (i + k)) (replicate i true ++ replicate k false)
      (Z.of_nat i) (if decide (k = 0)%nat then 0 else Z.of_nat i) err ch =
      (Ret (err_value SMLT_SUCCESS), gather_state ch qps') /\
    length qps' = length qps /\
    (forall j, (j < i)%nat -> qps' !! j = qps !! j) /\
    (forall j p x, (i <= j)%nat -> qps' !! j = Some p -> qs !! j = Some x -> up_ok p (tail x)).
Proof using Type.
  induction k as [|k IH]; intros ch q dst qps qs i fuel err Hc Hl Hq Hf H32 Herr Hok.
  - exists qps. rewrite (gather_state_id _ _ _ _ Hc), Herr by done. split.
    { destruct fuel; simpl; rewrite Nat.add_0_r; by rewrite Z.leb_refl. }
    split; [done|]. split; [done|]. intros j p x Hj Hp. apply lookup_lt_Some in Hp. lia.
  - destruct fuel as [|fuel]; [lia|].
    destruct (lookup_lt_is_Some_2 qps i) as [p Hp]; [lia|].
    destruct (lookup_lt_is_Some_2 qs i) as [x Hx]; [lia|].
    destruct (Hok i p x ltac:(lia) Hp Hx) as [Hup Hne]. destruct x as [|m x]; [done|].
    destruct (up_recv0 p m x Hup) as (p' & Er & Hup').
    pose proof (lookup_lt_Some _ _ _ Hp) as Hip.
    set (recv' := replicate (S i) true ++ replicate k false).
    rewrite decide_False by lia.
    rewrite (collect_take fuel _ _ recv' _ _ _ ch (gather_state ch (<[i := p']> qps))).
    2: lia.
    2: { rewrite arr_get_nat, lookup_app_r, length_replicate, Nat.sub_diag
           by (rewrite length_replicate; lia). done. }
    2: by apply (poll_run ch q dst qps i p (m :: x)).
    2: by apply (on_shm_qp_run i Dst _ ch q dst qps p).
    2: { rewrite arr_set_nat by (rewrite length_app, !length_replicate; lia). f_equal.
         rewrite insert_app_r_alt, length_replicate, Nat.sub_diag by (rewrite length_replicate; lia).
         unfold recv'. by rewrite (replicate_S_end i), <- app_assoc. }
    destruct (IH (gather_state ch (<[i := p']> qps)) q dst (<[i := p']> qps) qs (S i) fuel
      (err_value SMLT_SUCCESS)) as (qps' & E & Hlen & Hlt & Hge); rewrite ?length_insert; try done; try lia.
    { by eapply gather_state_c. }
    { intros j pj xj Hj Hpj Hxj. rewrite list_lookup_insert_ne in Hpj by lia.
      apply (Hok j); [lia|done|done]. }
    exists qps'. rewrite length_insert in Hlen. split.
    { replace (i + S k)%nat with (S i + k)%nat by lia.
      replace (Z.of_nat i + 1) with (Z.of_nat (S i)) by lia.
      rewrite (gather_state_twice _ _ _ _ _ _ Hc) in E. rewrite <- E. f_equal.
      unfold next_index. rewrite wrap_small by (pow_consts; lia).
      destruct (Z.eqb_spec (Z.of_nat i + 1) (Z.of_nat (S i + k))), (decide (k = 0)%nat); lia. }
    split; [done|]. split.
    { intros j Hj. rewrite Hlt, list_lookup_insert_ne by lia. done. }
    intros j pj xj Hj Hpj Hxj. destruct (decide (j = i)) as [->|].
    + rewrite Hlt, list_lookup_insert_eq in Hpj by lia. by simplify_eq.
    + apply (Hge j); [lia|done|done].
Qed.

(** While one destination has nothing to deliver the loop does not end. *)
Lemma collect_waits fuel : forall ch q dst qps (qs : list (list (list Z))) recv i n err,
  ch_c ch = CShm q dst qps -> length qs = length qps -> length recv = length qps ->
  (i < length qps)%nat -> Z.of_nat (length qps) < 2 ^ 32 ->
  n + Z.of_nat (unserved recv) = Z.of_nat (length qps) ->
  (forall j p x, qps !! j = Some p -> qs !! j = Some x -> up_ok p x) ->
  (exists j, recv !! j = Some false /\ qs !! j = Some []) ->
  (collect fuel (Z.of_nat (length qps)) recv n (Z.of_nat i) err ch).1 = Spin.
Proof using Type.
  induction fuel as [|fuel IH]; intros ch q dst qps qs recv i n err Hc Hq Hr Hi H32 Hn Hok Hj.
  all: assert (Hlt : n < Z.of_nat (length qps))
    by (destruct Hj as (j & Hj & _); rewrite (unserved_take _ _ Hj) in Hn; lia).
  { cbn [collect]. by destruct (Z.leb_spec (Z.of_nat (length qps)) n); [lia|]. }
  assert (Hni : exists i', next_index (Z.of_nat (length qps)) (Z.of_nat i) = Z.of_nat i' /\
                  (i' < length qps)%nat).
  { unfold next_index. rewrite wrap_small by (pow_consts; lia).
    destruct (Z.eqb_spec (Z.of_nat i + 1) (Z.of_nat (length qps))).
    - exists 0%nat. lia.
    - exists (S i). lia. }
  destruct Hni as (i' & Ei & Hi').
  destruct (lookup_lt_is_Some_2 qps i Hi) as [p Hp].
  destruct (lookup_lt_is_Some_2 qs i) as [x Hx]; [lia|].
  destruct (lookup_lt_is_Some_2 recv i) as [b Hb]; [lia|].
  pose proof (Hok i p x Hp Hx) as Hup.
  assert (Hskip : (b = false -> x = []) ->
    (collect (S fuel) (Z.of_nat (length qps)) recv n (Z.of_nat i) err ch).1 = Spin).
  { intros Hbx. rewrite (collect_skip fuel _ _ _ _ _ _ b); [by rewrite Ei; eapply IH|lia| |].
    - by rewrite arr_get_nat.
    - intros ->. rewrite (poll_run ch q dst qps i p x) by done. by rewrite Hbx. }
  destruct b; [by apply Hskip|]. destruct x as [|m x]; [by apply Hskip|].
  destruct (up_recv0 p m x Hup) as (p' & Er & Hup').
  rewrite (collect_take fuel _ _ (<[i := true]> recv) _ _ _ ch (gather_state ch (<[i := p']> qps))).
  2: lia.
  2: by rewrite arr_get_nat.
  2: by apply (poll_run ch q dst qps i p (m :: x)).
  2: by apply (on_shm_qp_run i Dst _ ch q dst qps p).
  2: by rewrite arr_set_nat by lia.
  rewrite Ei. replace (length qps) with (length (<[i := p']> qps)) by apply length_insert.
  apply (IH _ q dst (<[i := p']> qps) (<[i := x]> qs)); rewrite ?length_insert; try done.
  - by eapply gather_state_c.
  - rewrite (unserved_take _ _ Hb) in Hn. lia.
  - intros j pj xj Hpj Hxj. destruct (decide (i = j)) as [<-|Hne].
    + rewrite list_lookup_insert_eq in Hpj by done. rewrite list_lookup_insert_eq in Hxj by lia.
      by simplify_eq.
    + rewrite list_lookup_insert_ne in Hpj by done. rewrite list_lookup_insert_ne in Hxj by done. eauto.
  - destruct Hj as (j & Hrj & Hqj). exists j.
    assert (i <> j) by (intros ->; rewrite Hx in Hqj; simplify_eq).
    by rewrite !list_lookup_insert_ne by done.
Qed.
End gather.

(** ** Main properties *)

(** [C9] A 1:1 channel is a FIFO in both directions: after [smlt_channel_create]
    with one source and one destination, for the owner sending to the other thread
    or the other way round, every interleaving of [smlt_channel_send] and
    [smlt_channel_recv] delivers exactly what was sent, in order, with at most 63
    messages in flight. *)
Theorem chan_fifo numa node_of mal ctx_ok alloc src0 dst0 a b w p1 p2 r1 r2 an live ur fr sr cs :
  good_buf r1 -> good_buf r2 -> r1 <> r2 -> (w <= 7)%nat ->
  chan_end src0 b = peer (chan_end src0 a) ->
  Forall (valid_cmd (valid := fun m => length m = w)) cs ->
  exists ch s' st tr q,
    smlt_channel_create alloc numa node_of mal ctx_ok [src0] [dst0] 1 1
      (QW (AllocSt (Some p1 :: Some p2 :: Some r1 :: Some r2 :: an) live) ur fr sr) =
      (Ret (err_value SMLT_SUCCESS, Some ch), s') /\
    exec (SpscQueue0 := chan_spsc w a b) cs ch = (Ret tr, st) /\
    fifo_run 63 [] tr q /\ sent_of tr = recv_of tr ++ q /\ (length q <= 63)%nat.
Proof.
  intros G1 G2 Hne Hw Hab Hcs.
  destruct (init_ok p1 p2 64 zero_queuepair zero_queuepair ltac:(lia) r1 r2 an
    (p2 :: p1 :: live) ur G1 G2 Hne) as (sd & rs' & E & _ & _ & I).
  pose proof (chan_laws w Hw src0 a b Hab []) as L.
  set (ch := Chan src0 dst0 1 1 false (CMp (mk_pair sd rs'))).
  assert (R : chan_repr w src0 (chan_end src0 a) [] ch []).
  { exists (mk_pair sd rs'). repeat (split; [done|]). apply I. }
  destruct (exec_refines (SpscLaws0 := L) cs _ _ R Hcs) as (tr & st & q & E' & Rn & _).
  eexists ch, _, st, tr, q. split.
  { unfold smlt_channel_create, smlt_queuepair_create, qp_init, qw_on_alloc, qw_on_ump, zoom,
      assert_, get, mbind, M_bind. simpl.
    change SMLT_UMP_DEFAULT_SLOTS with 64. rewrite E. simpl. reflexivity. }
  split; [done|]. split; [done|]. split; [by rewrite <- (fifo_run_order _ _ _ _ Rn)|].
  apply (fifo_run_cap _ _ _ _ Rn). simpl. lia.
Qed.

Lemma chan_fifo_witness :
  exists ch s' st tr q,
    smlt_channel_create (fun _ => None) numa_pages (fun c => c) true (fun _ => true) [3] [5] 1 1
      (QW (AllocSt [Some 64; Some 320; Some 4096; Some 12288] []) ∅ ∅ ∅) =
      (Ret (err_value SMLT_SUCCESS, Some ch), s') /\
    exec (SpscQueue0 := chan_spsc 2 5 3) [CSend [1; 2]; CRecv; CRecv] ch = (Ret tr, st) /\
    fifo_run 63 [] tr q /\ sent_of tr = recv_of tr ++ q /\ (length q <= 63)%nat.
Proof.
  apply (chan_fifo numa_pages (fun c => c) true (fun _ => true) (fun _ => None) 3 5 5 3 2);
    try done; try lia. repeat constructor.
Defined.

(** The owner of a 1:n channel receives from everybody: the call takes exactly
    one message from each destination, in whatever order they arrive, and does not
    return while one of them has sent nothing.  Only the arrival is received: the
    message buffer of [smlt_channel_recv] is left as it was. *)
Lemma chan_gather w self ch q dst qps qs msg :
  ch_c ch = CShm q dst qps -> ch_owner ch = self -> ch_m ch = Z.of_nat (length qps) ->
  ch_n ch <> ch_m ch -> Z.of_nat (length qps) < 2 ^ 32 -> length qs = length qps ->
  (forall j p x, qps !! j = Some p -> qs !! j = Some x -> up_ok w p x) ->
  (Forall (fun x => x <> []) qs ->
     exists qps', smlt_channel_recv self msg ch =
       (Ret (err_value SMLT_SUCCESS, msg), gather_state ch qps') /\
       length qps' = length qps /\
       forall j p x, qps' !! j = Some p -> qs !! j = Some x -> up_ok w p (tail x)) /\
  ([] ∈ qs -> (smlt_channel_recv self msg ch).1 = Spin).
Proof.
  intros Hc Ho Hm Hn H32 Hq Hok.
  assert (E : smlt_channel_recv self msg ch = (e ← collect_all ch; mret (e, msg)) ch).
  { unfold smlt_channel_recv, get, mbind, M_bind. rewrite Ho, Z.eqb_refl.
    by destruct (Z.eqb_spec (ch_n ch) (ch_m ch)). }
  unfold collect_all in E. rewrite Hm, Nat2Z.id in E. split.
  - intros Hall.
    destruct (collect_pass w (length qps) ch q dst qps qs 0 (length qps) (err_value SMLT_SUCCESS)
      Hc eq_refl Hq (le_n _) H32 (fun _ => eq_refl)) as (qps' & Ec & Hl & _ & Ht).
    { intros j p x _ Hp Hx. split; [eauto|]. by apply (Forall_lookup_1 _ _ _ _ Hall Hx). }
    exists qps'. split; [|split; [done|intros j p x; apply Ht; lia]].
    rewrite E. change (Z.of_nat 0) with 0 in Ec.
    replace (if decide (length qps = 0%nat) then 0 else 0) with 0 in Ec by (by case_decide).
    by rewrite (bind_ret _ _ _ _ _ Ec).
  - intros Hin. apply list_elem_of_lookup in Hin as [j Hj].
    assert (Hw : (collect (length qps) (Z.of_nat (length qps)) (replicate (length qps) false) 0 0
      (err_value SMLT_SUCCESS) ch).1 = Spin).
    { pose proof (lookup_lt_Some _ _ _ Hj).
      apply (collect_waits w (length qps) ch q dst qps qs _ 0); rewrite ?length_replicate; try done; try lia.
      - rewrite unserved_none. lia.
      - exists j. split; [|done]. by apply lookup_replicate_2; lia. }
    rewrite E. unfold mbind, M_bind. by destruct (collect _ _ _ _ _ _ _) as [[]].
Qed.


(** ** Broadcasting on a 1:n channel *)
Section broadcast.
Context (N n : nat) (sep : bool) (HN : (35 <= N)%nat) (HN16 : Z.of_nat N <= 65535).
Context (dst : list Z) (Hdst : NoDup dst) (Hlen : length dst = n).

Record bcast_chan (ch : smlt_channel) (q : swmr_sys) (qps : list ump_pair) : Prop := {
  bc_c : ch_c ch = CShm q dst qps;
  bc_m : ch_m ch = Z.of_nat n;
  bc_n : ch_n ch <> ch_m ch;
  bc_shm : ch_use_shm ch = true;
  bc_owner : ch_owner ch ∉ dst;
}.

Lemma bcast_chan_set ch q q' qps :
  bcast_chan ch q qps -> bcast_chan (ch_set_c (CShm q' dst qps) ch) q' qps.
Proof using Type. intros []. by constructor. Qed.

Lemma recv_as_skip self k : forall ch q qps j msg,
  ch_c ch = CShm q dst qps -> (j + k = n)%nat ->
  (forall i, (j <= i)%nat -> dst !! i <> Some self) ->
  recv_as self k (Z.of_nat j) msg ch = (Ret msg, ch).
Proof using HN Hlen Hdst.
  induction k as [|k IH]; intros ch q qps j msg Hc Hj Hno; [done|]. cbn [recv_as].
  destruct (lookup_lt_is_Some_2 dst j) as [d Hd]; [lia|].
  assert (E : chan_dst (Z.of_nat j) ch = (Ret d, ch)).
  { unfold chan_dst. by rewrite Hc, arr_get_nat, Hd. }
  rewrite (bind_ret _ _ _ _ _ E).
  destruct (Z.eqb_spec d self) as [->|]; [by destruct (Hno j (le_n _))|].
  replace (Z.of_nat j + 1) with (Z.of_nat (S j)) by lia.
  eapply IH; [done|lia|]. intros i Hi. apply Hno. lia.
Qed.

Lemma recv_as_run self i k : forall ch q qps j msg r ch',
  ch_c ch = CShm q dst qps -> (j + k = n)%nat -> (j <= i)%nat -> dst !! i = Some self ->
  on_reader (Z.of_nat i) (smlt_swmr_recv msg) ch = (Ret r, ch') ->
  (exists q', ch_c ch' = CShm q' dst qps) ->
  recv_as self k (Z.of_nat j) msg ch = (Ret r.2, ch').
Proof using HN Hlen Hdst.
  induction k as [|k IH]; intros ch q qps j msg r ch' Hc Hj Hji Hi E Hc'.
  { apply lookup_lt_Some in Hi. lia. }
  cbn [recv_as]. destruct (lookup_lt_is_Some_2 dst j) as [d Hd]; [lia|].
  assert (Ed : chan_dst (Z.of_nat j) ch = (Ret d, ch)).
  { unfold chan_dst. by rewrite Hc, arr_get_nat, Hd. }
  rewrite (bind_ret _ _ _ _ _ Ed). replace (Z.of_nat j + 1) with (Z.of_nat (S j)) by lia.
  destruct (Z.eqb_spec d self) as [->|Hne].
  - assert (j = i) as -> by (by eapply NoDup_lookup). rewrite (bind_ret _ _ _ _ _ E).
    destruct Hc' as (q' & Hc'). eapply recv_as_skip; [done|lia|].
    intros i' Hi' Hs. assert (i' = i) by (by eapply NoDup_lookup). lia.
  - assert (j <> i) by (intros ->; rewrite Hd in Hi; by simplify_eq).
    eapply IH; done || lia.
Qed.

(** A destination receives the next message of the broadcast. *)
Lemma chan_child_recv ch q qps sent rs i self r m :
  bcast_chan ch q qps -> swmr_inv N n sep q sent rs ->
  dst !! i = Some self -> rs !! i = Some r -> sent !! r = Some m ->
  exists q', chan_recv 7 self ch = (Ret (Some m), ch_set_c (CShm q' dst qps) ch) /\
    swmr_inv N n sep q' sent (<[i := S r]> rs).
Proof using Type*.
  intros B Inv Hi Hr Hm. pose proof (lookup_lt_Some _ _ _ Hi) as Hil.
  destruct (lookup_lt_is_Some_2 (ws_dst q) i) as [c Hc]; [rewrite (wi_dst _ _ _ _ _ _ Inv); lia|].
  destruct (swmr_recv_spec N n sep ltac:(lia) HN16 _ _ _ _ _ _ Inv Hc Hr) as (c' & mem' & E & Inv').
  rewrite decide_True in Inv' by (by eapply lookup_lt_Some). rewrite Hm in E.
  destruct Inv as [(pubs & _ & _ & I & _) _ _].
  pose proof (Forall_lookup_1 _ _ _ _ (mo_words _ _ _ _ _ I) Hm) as Hl. simpl in Hl.
  exists (WS (ws_src q) (<[i := c']> (ws_dst q)) mem'). split; [|done].
  assert (Er : on_reader (Z.of_nat i) (smlt_swmr_recv (msg_buf 7)) ch =
    (Ret (err_value SMLT_SUCCESS, msg_of m), ch_set_c (CShm (WS (ws_src q) (<[i := c']> (ws_dst q)) mem') dst qps) ch)).
  { unfold on_reader. rewrite (bc_c _ _ _ B), arr_get_nat, Hc.
    unfold smlt_swmr_recv, swmr_receive_raw, mbind, M_bind. simpl. rewrite E, Nat2Z.id.
    by do 8 (destruct m as [|? m]; try done). }
  unfold chan_recv, smlt_channel_recv, get. rewrite (bind_ret (fun s => (Ret s, s)) _ ch ch ch eq_refl).
  destruct (Z.eqb_spec (ch_n ch) (ch_m ch)); [by destruct (bc_n _ _ _ B)|].
  destruct (Z.eqb_spec (ch_owner ch) self) as [Ho|].
  { destruct (bc_owner _ _ _ B). rewrite Ho. by eapply list_elem_of_lookup_2. }
  rewrite (bc_m _ _ _ B), Nat2Z.id. change 0 with (Z.of_nat 0).
  rewrite (bind_ret _ _ _ _ _ (recv_as_run self i n ch q qps 0 (msg_buf 7) _ _ (bc_c _ _ _ B)
    eq_refl (Nat.le_0_l _) Hi Er (ex_intro _ _ eq_refl))). done.
Qed.

Lemma chan_children_recv m sent ord : forall ch q qps rs,
  bcast_chan ch q qps -> swmr_inv N n sep q sent rs -> NoDup ord -> Forall (fun i => (i < n)%nat) ord ->
  (forall i, i ∈ ord -> exists r, rs !! i = Some r /\ sent !! r = Some m) ->
  exists ch', mapM (chan_recv 7) ((fun i => default 0 (dst !! i)) <$> ord) ch =
    (Ret (replicate (length ord) (Some m)), ch').
Proof using Type*.
  induction ord as [|i ord IH]; intros ch q qps rs B Inv Hnd Hlt Hall; [by exists ch|].
  apply NoDup_cons in Hnd as [Hni Hnd]. apply Forall_cons in Hlt as [Hi Hlt].
  destruct (Hall i) as (r & Hr & Hm); [by left|].
  destruct (lookup_lt_is_Some_2 dst i) as [self Hs]; [lia|].
  destruct (chan_child_recv ch q qps sent rs i self r m B Inv Hs Hr Hm) as (q' & E & Inv').
  simpl. rewrite Hs. simpl. rewrite (bind_ret _ _ _ _ _ E).
  destruct (IH _ q' qps _ (bcast_chan_set _ _ q' _ B) Inv' Hnd Hlt) as (ch' & E').
  { intros j Hj. assert (j <> i) by (by intros ->). rewrite list_lookup_insert_ne by done.
    apply Hall. by right. }
  exists ch'. by rewrite (bind_ret _ _ _ _ _ E').
Qed.
End broadcast.

(** [C23] A broadcast round on a 1:n channel: when every destination has received
    everything sent so far, the owner's [smlt_channel_send] of a seven-word message
    completes, and then the destinations, in any order, each receive exactly that
    message. *)
Theorem chan_broadcast_round N n sep dst ch q qps sent rs m ord :
  (35 <= N)%nat -> Z.of_nat N <= 65535 -> NoDup dst -> length dst = n ->
  bcast_chan n dst ch q qps -> swmr_inv N n sep q sent rs ->
  Forall (fun r => r = length sent) rs -> Z.of_nat (length sent) < 4294967295 ->
  length m = SEQ_PAYLOAD_WORDS -> NoDup ord -> Forall (fun i => (i < n)%nat) ord ->
  exists ch' ch'',
    smlt_channel_send (ch_owner ch) (msg_of m) ch = (Ret (err_value SMLT_SUCCESS), ch') /\
    mapM (chan_recv 7) ((fun i => default 0 (dst !! i)) <$> ord) ch' =
      (Ret (replicate (length ord) (Some m)), ch'').
Proof.
  intros HN H16 Hnd Hl B Inv Hdr H32 Hm His Hin.
  do 8 (destruct m as [|? m]; try done).
  match goal with |- context [msg_of [?a; ?b; ?c; ?d; ?e; ?f; ?g]] =>
    destruct (swmr_send_spec N n sep ltac:(lia) H16 _ _ _ a b c d e f g Inv H32)
      as (o & w' & mem' & E & _ & H) end.
  destruct H as [(-> & _ & Inv')|(_ & (i & r & Hr & Hlag) & _)].
  2: { pose proof (Forall_lookup_1 _ _ _ _ Hdr Hr) as Hr'. simpl in Hr'. lia. }
  match type of Inv' with swmr_inv _ _ _ ?q' (sent ++ [?m]) _ =>
    destruct (chan_children_recv N n sep HN H16 dst Hnd Hl m (sent ++ [m]) ord
      (ch_set_c (CShm q' dst qps) ch) q' qps rs) as (ch'' & E''); try done end.
  { by eapply bcast_chan_set. }
  { intros i Hi. rewrite Forall_forall in Hin. pose proof (Hin i Hi) as Hi'.
    destruct (lookup_lt_is_Some_2 rs i) as [r Hr]; [rewrite (wi_rs _ _ _ _ _ _ Inv); lia|].
    exists r. split; [done|]. pose proof (Forall_lookup_1 _ _ _ _ Hdr Hr) as ->.
    apply lookup_snoc_eq. }
  eexists _, ch''. split; [|exact E''].
  unfold smlt_channel_send, get, on_send_owner, smlt_swmr_send, mbind, M_bind. simpl.
  rewrite (bc_shm _ _ _ _ _ B), Z.eqb_refl. simpl. rewrite (bc_c _ _ _ _ _ B), E. done.
Qed.

Lemma chan_broadcast_round_witness :
  exists ch ch' ch'',
    smlt_channel_send (ch_owner ch) (msg_of [1;2;3;4;5;6;7]) ch =
      (Ret (err_value SMLT_SUCCESS), ch') /\
    mapM (chan_recv 7) ((fun i => default 0 ([8; 9] !! i)) <$> [1%nat; 0%nat]) ch' =
      (Ret (replicate 2 (Some [1;2;3;4;5;6;7])), ch'').
Proof.
  destruct swmr_fresh_witness as (q & mem & _ & _ & _ & Inv).
  exists (Chan 7 0 2 1 true (CShm (WS (wq_src q) (wq_dst q) mem) [8; 9] [])).
  apply (chan_broadcast_round 61 2 false [8; 9] _ (WS (wq_src q) (wq_dst q) mem) [] []
    (replicate 2 0%nat)); try done; try lia.
  - apply NoDup_cons. split; [|by apply NoDup_singleton]. by rewrite list_elem_of_singleton.
  - constructor; try done. simpl. intros H. by repeat (apply elem_of_cons in H as [H|H]; [done|]); apply elem_of_nil in H.
  - by repeat constructor.
  - apply NoDup_cons. split; [|by apply NoDup_singleton]. by rewrite list_elem_of_singleton.
  - repeat constructor; lia.
Defined.
