(* ===== verification/Topology.v ===== *)
(** Topologies ([src/topology.c], [inc/smlt_topology.h], the model structure of
    [inc/smlt_generator.h]): the node array, the built-in binary tree, the parser
    of the matrix the generator returns, and the accessors.

    A pointer to a node is its index in [all_nodes].  The abstract contract is
    [topo_repr]: the node array represents an ordered tree.  Both ways of creating
    a topology are shown to meet it, and the context is built on it. *)
From stdpp Require Import strings.
From S2P Require Import Prelude Errors.

(** ** Data *)
Record smlt_topology_node := TNode {
  tn_topology : bool;                     (** the back pointer is set *)
  tn_parent : option Z;
  tn_children : option (list (option Z));
  tn_node_id : Z;
  tn_array_index : Z;
  tn_num_children : Z;
  tn_is_leaf : bool;
  tn_use_shm : bool;
  tn_array_index_shm : Z;
  tn_num_children_shm : Z;
  tn_children_shm : option (list (option Z));
}.

#[export] Instance smlt_topology_node_eq_dec : EqDecision smlt_topology_node.
Proof. solve_decision. Defined.

(** Zeroed memory. *)
Definition zero_node : smlt_topology_node :=
  TNode false None None 0 0 0 false false 0 0 None.

Record smlt_topology := Topo {
  tp_name : string;
  tp_root : Z;
  tp_num_nodes : Z;
  tp_all_nodes : list smlt_topology_node;
}.

(** The generator's result: a [len] by [len] matrix of 16-bit entries. *)
Record smlt_generated_model := Model {
  gm_ncores : Z;
  gm_len : Z;
  gm_root : Z;
  gm_model : list Z;
  gm_num_leafs : Z;
  gm_leafs : list Z;
}.

Definition TOPO_MATRIX_PARENT : Z := 99.
Definition TOPO_MATRIX_MAX_MP : Z := 98.
Definition TOPO_MATRIX_SHM_MAX : Z := 20.
Definition TOPO_MATRIX_SHM_SLAVE_START : Z := 150.
Definition TOPO_MATRIX_SHM_SLAVE_MAX : Z := TOPO_MATRIX_SHM_SLAVE_START + TOPO_MATRIX_SHM_MAX - 1.
Definition TOPO_MATRIX_SHM_MASTER_START : Z := TOPO_MATRIX_SHM_SLAVE_START + TOPO_MATRIX_SHM_MAX.
Definition TOPO_MATRIX_SHM_MASTER_MAX : Z := TOPO_MATRIX_SHM_MASTER_START + TOPO_MATRIX_SHM_MAX - 1.

(** Field updates. *)
Definition tn_set_topology (b : bool) (n : smlt_topology_node) :=
  TNode b (tn_parent n) (tn_children n) (tn_node_id n) (tn_array_index n) (tn_num_children n)
    (tn_is_leaf n) (tn_use_shm n) (tn_array_index_shm n) (tn_num_children_shm n) (tn_children_shm n).
Definition tn_set_parent (p : option Z) (n : smlt_topology_node) :=
  TNode (tn_topology n) p (tn_children n) (tn_node_id n) (tn_array_index n) (tn_num_children n)
    (tn_is_leaf n) (tn_use_shm n) (tn_array_index_shm n) (tn_num_children_shm n) (tn_children_shm n).
Definition tn_set_children (c : option (list (option Z))) (n : smlt_topology_node) :=
  TNode (tn_topology n) (tn_parent n) c (tn_node_id n) (tn_array_index n) (tn_num_children n)
    (tn_is_leaf n) (tn_use_shm n) (tn_array_index_shm n) (tn_num_children_shm n) (tn_children_shm n).
Definition tn_set_node_id (i : Z) (n : smlt_topology_node) :=
  TNode (tn_topology n) (tn_parent n) (tn_children n) i (tn_array_index n) (tn_num_children n)
    (tn_is_leaf n) (tn_use_shm n) (tn_array_index_shm n) (tn_num_children_shm n) (tn_children_shm n).
Definition tn_set_array_index (i : Z) (n : smlt_topology_node) :=
  TNode (tn_topology n) (tn_parent n) (tn_children n) (tn_node_id n) i (tn_num_children n)
    (tn_is_leaf n) (tn_use_shm n) (tn_array_index_shm n) (tn_num_children_shm n) (tn_children_shm n).
Definition tn_set_num_children (k : Z) (n : smlt_topology_node) :=
  TNode (tn_topology n) (tn_parent n) (tn_children n) (tn_node_id n) (tn_array_index n) k
    (tn_is_leaf n) (tn_use_shm n) (tn_array_index_shm n) (tn_num_children_shm n) (tn_children_shm n).
Definition tn_set_is_leaf (b : bool) (n : smlt_topology_node) :=
  TNode (tn_topology n) (tn_parent n) (tn_children n) (tn_node_id n) (tn_array_index n)
    (tn_num_children n) b (tn_use_shm n) (tn_array_index_shm n) (tn_num_children_shm n)
    (tn_children_shm n).
Definition tn_set_use_shm (b : bool) (n : smlt_topology_node) :=
  TNode (tn_topology n) (tn_parent n) (tn_children n) (tn_node_id n) (tn_array_index n)
    (tn_num_children n) (tn_is_leaf n) b (tn_array_index_shm n) (tn_num_children_shm n)
    (tn_children_shm n).
Definition tn_set_children_shm (c : option (list (option Z))) (k : Z) (n : smlt_topology_node) :=
  TNode (tn_topology n) (tn_parent n) (tn_children n) (tn_node_id n) (tn_array_index n)
    (tn_num_children n) (tn_is_leaf n) (tn_use_shm n) (tn_array_index_shm n) k c.

(** ** Creation *)

(** The node array being filled, the root, and the number of allocations made. *)
Record topo_st := TS {
  ts_allocs : nat;
  ts_root : Z;
  ts_nodes : list smlt_topology_node;
}.
Definition ts_set_root (r : Z) (s : topo_st) : topo_st := TS (ts_allocs s) r (ts_nodes s).

Definition ts_node (i : Z) : M topo_st smlt_topology_node := fun s =>
  match arr_get (ts_nodes s) i with Some n => (Ret n, s) | None => (Undef, s) end.
Definition ts_upd (i : Z) (f : smlt_topology_node -> smlt_topology_node) : M topo_st unit := fun s =>
  match arr_get (ts_nodes s) i with
  | Some n => (Ret tt, TS (ts_allocs s) (ts_root s) (<[Z.to_nat i := f n]> (ts_nodes s)))
  | None => (Undef, s)
  end.
(** [node->children[k] = &all_nodes[c]]. *)
Definition ts_set_child (i k c : Z) : M topo_st unit :=
  n ← ts_node i;
  a ← defined (tn_children n);
  a' ← defined (arr_set a k (Some c));
  ts_upd i (tn_set_children (Some a')).

Section create.
(** Whether the k-th allocation succeeds. *)
Context (alloc_ok : nat -> bool).

(** [smlt_platform_alloc] of a zeroed array of pointers. *)
Definition alloc_ptrs (n : Z) : M topo_st (option (list (option Z))) := fun s =>
  (Ret (if alloc_ok (ts_allocs s) then Some (replicate (Z.to_nat n) None) else None),
   TS (S (ts_allocs s)) (ts_root s) (ts_nodes s)).

Definition binary_tree_node (num_threads i : Z) : M topo_st unit :=
  _ ← ts_upd i (tn_set_topology true);
  _ ← ts_upd i (tn_set_use_shm false);
  _ ← (if i =? 0 then
         _ ← ts_upd i (tn_set_parent None);
         ts_upd i (tn_set_node_id 0)
       else if i mod 2 =? 0 then
         _ ← ts_upd i (tn_set_parent (Some (u32 (i / 2 - 1))));
         ts_upd i (tn_set_array_index 1)
       else
         _ ← ts_upd i (tn_set_parent (Some (i / 2)));
         ts_upd i (tn_set_array_index 0));
  if u32 (i * 2 + 1) <? num_threads then
    a ← alloc_ptrs 2;
    _ ← ts_upd i (tn_set_children a);
    _ ← ts_set_child i 0 (u32 (i * 2 + 1));
    _ ← ts_upd i (tn_set_node_id i);
    _ ← ts_upd i (tn_set_num_children 1);
    if u32 (i * 2 + 2) <? num_threads then
      _ ← ts_set_child i 1 (u32 (i * 2 + 2));
      ts_upd i (tn_set_num_children 2)
    else mret tt
  else
    _ ← ts_upd i (tn_set_children None);
    _ ← ts_upd i (tn_set_num_children 0);
    _ ← ts_upd i (tn_set_node_id i);
    ts_upd i (tn_set_is_leaf true).

Definition smlt_topology_create_binary_tree (num_threads : Z) : M topo_st unit :=
  _ ← modify (ts_set_root 0);
  mfor (Z.to_nat num_threads) 0 (binary_tree_node num_threads).

Section parse.
Context (model : smlt_generated_model).

(** [model->model[x*model->len+y]]. *)
Definition entry (x y : Z) : M topo_st Z :=
  defined (arr_get (gm_model model) (u32 (u32 (x * gm_len model) + y))).

Fixpoint row_max_child (n : nat) (x y : Z) (max_child : Z) : M topo_st Z :=
  match n with
  | O => mret max_child
  | S n' =>
      tmp ← entry x y;
      row_max_child n' x (y + 1)
        (if (max_child <? tmp) && (tmp <=? TOPO_MATRIX_MAX_MP) then tmp else max_child)
  end.

Fixpoint row_shm_children (n : nat) (x z : Z) (shm_children : Z) : M topo_st Z :=
  match n with
  | O => mret shm_children
  | S n' =>
      val ← entry x z;
      row_shm_children n' x (z + 1)
        (if (val <=? TOPO_MATRIX_SHM_SLAVE_MAX) && (TOPO_MATRIX_SHM_SLAVE_START <=? val)
         then shm_children + 1 else shm_children)
  end.

Definition parse_entry (x y : Z) : M topo_st unit :=
  val ← entry x y;
  if 0 <? val then
    if val =? TOPO_MATRIX_PARENT then
      _ ← ts_upd x (tn_set_parent (Some y));
      val' ← entry y x;
      assert_ ((0 <? val') && (val' <? TOPO_MATRIX_MAX_MP))
    else if val <=? TOPO_MATRIX_MAX_MP then
      _ ← ts_upd x (tn_set_topology true);
      _ ← ts_set_child x (val - 1) y;
      _ ← ts_upd x (tn_set_node_id x);
      ts_upd y (tn_set_array_index (val - 1))
    else if (TOPO_MATRIX_SHM_MASTER_START <=? val) && (val <=? TOPO_MATRIX_SHM_MASTER_MAX) then
      panic
    else if (val <=? TOPO_MATRIX_SHM_SLAVE_MAX) && (TOPO_MATRIX_SHM_SLAVE_START <=? val) then
      ts_upd x (tn_set_parent (Some y))
    else panic
  else if val =? 0 then mret tt
  else panic.

Definition parse_row (x : Z) : M topo_st unit :=
  max_child ← row_max_child (Z.to_nat (gm_len model)) x 0 0;
  _ ← ts_upd x (tn_set_node_id x);
  a ← alloc_ptrs max_child;
  _ ← ts_upd x (tn_set_children a);
  _ ← assert_ (bool_decide (is_Some a));
  _ ← ts_upd x (tn_set_num_children max_child);
  shm_children ← row_shm_children (Z.to_nat (gm_len model)) x 0 0;
  b ← alloc_ptrs shm_children;
  _ ← ts_upd x (tn_set_children_shm b 0);
  _ ← assert_ (bool_decide (is_Some b));
  _ ← ts_upd x (tn_set_children_shm b shm_children);
  _ ← mfor (Z.to_nat (gm_len model)) 0 (parse_entry x);
  ts_upd x (tn_set_num_children max_child).

Definition mark_leaf (i j : Z) : M topo_st unit :=
  l ← defined (arr_get (gm_leafs model) j);
  if (l =? i) && negb (i =? 0) then ts_upd i (tn_set_is_leaf true) else mret tt.

Definition smlt_topology_parse_model : M topo_st unit :=
  _ ← modify (ts_set_root (gm_root model));
  _ ← ts_upd (gm_root model) (tn_set_parent None);
  _ ← mfor (Z.to_nat (gm_len model)) 0 parse_row;
  mfor (Z.to_nat (gm_len model)) 0 (fun i =>
    mfor (Z.to_nat (gm_num_leafs model)) 0 (mark_leaf i)).
End parse.

(** The structure itself is the first allocation; when it fails the code writes
    through the null pointer. *)
Definition smlt_topology_create (num_proc : Z) (model : option smlt_generated_model)
    (name : string) : outcome (Z * smlt_topology) :=
  let len := match model with None => num_proc | Some m => gm_len m end in
  if negb (alloc_ok 0%nat) then Undef else
  let s0 := TS 1 0 (replicate (Z.to_nat len) zero_node) in
  match (match model with
         | None => smlt_topology_create_binary_tree num_proc
         | Some m => smlt_topology_parse_model m
         end) s0 with
  | (Ret _, s) => Ret (err_value SMLT_SUCCESS, Topo name (ts_root s) len (ts_nodes s))
  | (Spin, _) => Spin
  | (Panic, _) => Panic
  | (Undef, _) => Undef
  end.
End create.

(** ** Accessors *)
Definition smlt_topology_get_root_id (t : smlt_topology) : option Z :=
  tn_node_id <$> arr_get (tp_all_nodes t) (tp_root t).
Definition smlt_topology_get_first_node (t : smlt_topology) : Z := 0.
Definition smlt_topology_node_next (node : Z) : Z := node + 1.
Definition smlt_topology_node_by_id (t : smlt_topology) (id : Z) : Z := id.
Definition smlt_topology_node_parent (n : smlt_topology_node) : option Z := tn_parent n.
Definition smlt_topology_node_children (n : smlt_topology_node) : option (list (option Z)) * Z :=
  (tn_children n, tn_num_children n).
Definition smlt_topology_node_children_shm (n : smlt_topology_node) : option (list (option Z)) * Z :=
  (tn_children_shm n, tn_num_children_shm n).

(** [result[i] = node->children[i]->node_id]. *)
Definition smlt_topology_node_children_ids (t : smlt_topology) (n : smlt_topology_node)
  : option (list Z * Z) :=
  ids ← mapM (fun i => a ← tn_children n; c ← a !! i; c' ← c;
                       tn_node_id <$> arr_get (tp_all_nodes t) c')
        (seq 0 (Z.to_nat (tn_num_children n)));
  mret (ids, tn_num_children n).

(** [None]: the back pointer is NULL. *)
Definition smlt_topology_node_is_last (t : smlt_topology) (i : Z) : option bool :=
  n ← arr_get (tp_all_nodes t) i;
  if tn_topology n then Some (i =? u32 (tp_num_nodes t - 1)) else None.
Definition smlt_topology_node_is_root (n : smlt_topology_node) : bool :=
  bool_decide (tn_parent n = None).
Definition smlt_topology_node_is_leaf (n : smlt_topology_node) : bool :=
  (tn_num_children n =? 0) && (tn_num_children_shm n =? 0).
Definition smlt_topology_node_get_child_idx (n : smlt_topology_node) : Z := tn_array_index n.
Definition smlt_topology_node_get_child_idx_shm (n : smlt_topology_node) : Z := tn_array_index_shm n.
Definition smlt_topology_node_get_num_children (n : smlt_topology_node) : Z := tn_num_children n.
Definition smlt_topology_node_get_num_children_shm (n : smlt_topology_node) : Z :=
  tn_num_children_shm n.
Definition smlt_topology_node_get_id (n : smlt_topology_node) : Z := tn_node_id n.
Definition smlt_topology_node_use_shm (n : smlt_topology_node) : bool := tn_use_shm n.
Definition smlt_topology_get_num_nodes (t : smlt_topology) : Z := tp_num_nodes t.
Definition smlt_topo_is_model_leaf (n : smlt_topology_node) : bool := tn_is_leaf n.

(** ** The contract: an ordered tree *)
Record tree := Tree {
  t_len : nat;
  t_root : nat;
  t_kids : nat -> list nat;                (** ordered children *)
  t_par : nat -> option (nat * nat);       (** parent and position among its children *)
}.

Record tree_wf (tr : tree) : Prop := {
  tw_root : (t_root tr < t_len tr)%nat;
  tw_kids : forall x k y, (x < t_len tr)%nat ->
    t_kids tr x !! k = Some y <-> (y < t_len tr)%nat /\ t_par tr y = Some (x, k);
  tw_par_root : t_par tr (t_root tr) = None;
  tw_par : forall y, (y < t_len tr)%nat -> y <> t_root tr ->
    exists x k, t_par tr y = Some (x, k) /\ (x < t_len tr)%nat;
  tw_acyclic : exists rank : nat -> nat, forall x k y,
    t_par tr y = Some (x, k) -> (rank x < rank y)%nat;
}.

(** Some of the nodes may stand alone: cores of the machine that are not used. *)
Record forest_wf (tr : tree) : Prop := {
  fw_root : (t_root tr < t_len tr)%nat;
  fw_kids : forall x k y, (x < t_len tr)%nat ->
    t_kids tr x !! k = Some y <-> (y < t_len tr)%nat /\ t_par tr y = Some (x, k);
  fw_par_root : t_par tr (t_root tr) = None;
  fw_par : forall y x k, (y < t_len tr)%nat -> t_par tr y = Some (x, k) -> (x < t_len tr)%nat;
  fw_acyclic : exists rank : nat -> nat, forall x k y,
    t_par tr y = Some (x, k) -> (rank x < rank y)%nat;
}.

Lemma tree_wf_forest tr : tree_wf tr -> forest_wf tr.
Proof.
  intros [H1 H2 H3 H4 H5]. split; try done. intros y x k Hy E.
  destruct (decide (y = t_root tr)) as [->|D]; [by rewrite H3 in E|].
  destruct (H4 y Hy D) as (x' & k' & E' & Hx). rewrite E in E'. by injection E' as -> ->.
Qed.

Record node_repr (tr : tree) (i : nat) (n : smlt_topology_node) : Prop := {
  nr_id : tn_node_id n = Z.of_nat i;
  nr_parent : tn_parent n = (fun p => Z.of_nat p.1) <$> t_par tr i;
  nr_index : forall p k, t_par tr i = Some (p, k) -> tn_array_index n = Z.of_nat k;
  nr_num : tn_num_children n = Z.of_nat (length (t_kids tr i));
  nr_children : take (length (t_kids tr i)) (default [] (tn_children n)) =
    (fun c => Some (Z.of_nat c)) <$> t_kids tr i;
  nr_shm : tn_use_shm n = false;
  nr_num_shm : tn_num_children_shm n = 0;
}.

Record topo_repr (tr : tree) (t : smlt_topology) : Prop := {
  tr_wf : tree_wf tr;
  tr_length : length (tp_all_nodes t) = t_len tr;
  tr_num : tp_num_nodes t = Z.of_nat (t_len tr);
  tr_root : tp_root t = Z.of_nat (t_root tr);
  tr_nodes : forall i n, tp_all_nodes t !! i = Some n -> node_repr tr i n;
}.

Record forest_repr (tr : tree) (t : smlt_topology) : Prop := {
  fr_length : length (tp_all_nodes t) = t_len tr;
  fr_num : tp_num_nodes t = Z.of_nat (t_len tr);
  fr_root : tp_root t = Z.of_nat (t_root tr);
  fr_nodes : forall i n, tp_all_nodes t !! i = Some n -> node_repr tr i n;
}.

(** ** Running the updates *)


Ltac tn_simpl :=
  unfold tn_set_topology, tn_set_parent, tn_set_children, tn_set_node_id, tn_set_array_index,
    tn_set_num_children, tn_set_is_leaf, tn_set_use_shm, tn_set_children_shm;
  cbn [tn_topology tn_parent tn_children tn_node_id tn_array_index tn_num_children tn_is_leaf
       tn_use_shm tn_array_index_shm tn_num_children_shm tn_children_shm zero_node
       fmap option_fmap option_map fst snd default from_option id].

Section runs.
Context (a : nat) (r : Z) (l : list smlt_topology_node).

Lemma ts_upd_run i x g :
  l !! i = Some x ->
  ts_upd (Z.of_nat i) g (TS a r l) = (Ret tt, TS a r (<[i := g x]> l)).
Proof using Type. intros E. unfold ts_upd. simpl. by rewrite arr_get_nat, E, Nat2Z.id. Qed.

(** A second update of the same node replaces the first. *)
Lemma ts_upd_again i x g :
  (i < length l)%nat ->
  ts_upd (Z.of_nat i) g (TS a r (<[i := x]> l)) = (Ret tt, TS a r (<[i := g x]> l)).
Proof using Type.
  intros Hi. unfold ts_upd. simpl. rewrite arr_get_nat, list_lookup_insert_eq by done.
  by rewrite Nat2Z.id, list_insert_insert_eq.
Qed.

Lemma ts_set_child_again i x k c ch :
  (i < length l)%nat -> tn_children x = Some ch -> (k < length ch)%nat ->
  ts_set_child (Z.of_nat i) (Z.of_nat k) c (TS a r (<[i := x]> l)) =
    (Ret tt, TS a r (<[i := tn_set_children (Some (<[k := Some c]> ch)) x]> l)).
Proof using Type.
  intros Hi Hc Hk. unfold ts_set_child, mbind, M_bind, ts_node. simpl.
  rewrite arr_get_nat, list_lookup_insert_eq by done. rewrite Hc. simpl.
  rewrite arr_set_nat by done. simpl. by apply ts_upd_again.
Qed.
End runs.

Lemma alloc_ptrs_run alloc_ok k a r l :
  alloc_ok a = true ->
  alloc_ptrs alloc_ok k (TS a r l) = (Ret (Some (replicate (Z.to_nat k) None)), TS (S a) r l).
Proof. intros E. unfold alloc_ptrs. simpl. by rewrite E. Qed.

(** ** The binary tree *)
Section binary.
Context (n : nat).

Definition bin_kids (i : nat) : list nat :=
  if decide (2 * i + 2 < n)%nat then [2 * i + 1; 2 * i + 2]%nat
  else if decide (2 * i + 1 < n)%nat then [2 * i + 1]%nat else [].
Definition bin_par (i : nat) : option (nat * nat) :=
  match i with O => None | S j => Some (j / 2, j mod 2)%nat end.
Definition bin_tree : tree := Tree n 0 bin_kids bin_par.

Lemma bin_par_Some x k y :
  bin_par y = Some (x, k) <-> (k < 2 /\ y = 2 * x + 1 + k)%nat.
Proof using Type.
  destruct y as [|j]; cbn [bin_par]; [split; [done|intros; exfalso; lia]|].
  pose proof (Nat.div_mod_eq j 2). pose proof (Nat.mod_upper_bound j 2 ltac:(lia)).
  split; [intros [? ?]%some_pair_inj; lia|]. intros [? ?].
  assert (j / 2 = x)%nat by lia. assert (j mod 2 = k)%nat by lia. congruence.
Qed.

Lemma bin_kids_Some x k y :
  bin_kids x !! k = Some y <-> (k < 2 /\ y = 2 * x + 1 + k /\ y < n)%nat.
Proof using Type.
  unfold bin_kids. split.
  - repeat case_decide; destruct k as [|[|k]]; simpl; rewrite ?lookup_nil; intros [= <-]; lia.
  - intros (Hk & -> & Hy). destruct k as [|[|k]]; [| |lia]; repeat case_decide; simpl; f_equal; lia.
Qed.

Lemma bin_tree_wf : (0 < n)%nat -> tree_wf bin_tree.
Proof using Type.
  intros Hn. split; simpl; [done| | done | |].
  - intros x k y _. rewrite bin_kids_Some, bin_par_Some. lia.
  - intros [|y] Hy Hne; [done|]. exists (y / 2)%nat, (y mod 2)%nat. split; [done|].
    pose proof (Nat.div_mod_eq y 2). lia.
  - exists (fun i => i). intros x k y. rewrite bin_par_Some. intros; lia.
Qed.

(** The node the loop leaves at index [i]. *)
Definition bin_node (i : nat) : smlt_topology_node :=
  TNode true ((fun p => Z.of_nat p.1) <$> bin_par i)
    (if decide (2 * i + 2 < n)%nat then Some [Some (Z.of_nat (2 * i + 1)); Some (Z.of_nat (2 * i + 2))]
     else if decide (2 * i + 1 < n)%nat then Some [Some (Z.of_nat (2 * i + 1)); None] else None)
    (Z.of_nat i) (Z.of_nat (default 0%nat (snd <$> bin_par i))) (Z.of_nat (length (bin_kids i)))
    (bool_decide (n <= 2 * i + 1)%nat) false 0 0 None.

Fixpoint bin_allocs (i : nat) : nat :=
  match i with O => 1%nat | S j => ((if decide (2 * j + 1 < n) then 1 else 0) + bin_allocs j)%nat end.

Context (alloc_ok : nat -> bool) (Halloc : forall k, alloc_ok k = true) (Hn : Z.of_nat n <= 2 ^ 31).

(** The statement that sets the parent. *)
Lemma binary_parent_run i a l :
  length l = n -> (i < length l)%nat ->
  (if Z.of_nat i =? 0 then
     _ ← ts_upd (Z.of_nat i) (tn_set_parent None);
     ts_upd (Z.of_nat i) (tn_set_node_id 0)
   else if Z.of_nat i mod 2 =? 0 then
     _ ← ts_upd (Z.of_nat i) (tn_set_parent (Some (u32 (Z.of_nat i / 2 - 1))));
     ts_upd (Z.of_nat i) (tn_set_array_index 1)
   else
     _ ← ts_upd (Z.of_nat i) (tn_set_parent (Some (Z.of_nat i / 2)));
     ts_upd (Z.of_nat i) (tn_set_array_index 0))
   (TS a 0 (<[i := tn_set_use_shm false (tn_set_topology true zero_node)]> l)) =
  (Ret tt, TS a 0 (<[i := TNode true ((fun p => Z.of_nat p.1) <$> bin_par i) None 0
     (Z.of_nat (default 0%nat (snd <$> bin_par i))) 0 false false 0 0 None]> l)).
Proof using Type*.
  intros Hl Hin. assert (Hd : Z.of_nat n <= 2147483648) by exact Hn.
  destruct i as [|j].
  - change (Z.of_nat 0 =? 0) with true. cbv iota.
    rewrite (bind_ret _ _ _ _ _ (ts_upd_again _ _ _ _ _ _ Hin)), ts_upd_again by done. done.
  - rewrite (proj2 (Z.eqb_neq _ _)) by lia.
    pose proof (Nat.div_mod_eq j 2). pose proof (Nat.mod_upper_bound j 2 ltac:(lia)).
    pose proof (Z.div_mod (Z.of_nat (S j)) 2 ltac:(lia)).
    pose proof (Z.mod_pos_bound (Z.of_nat (S j)) 2 ltac:(lia)).
    destruct (Z.eqb_spec (Z.of_nat (S j) mod 2) 0) as [E|E];
      rewrite (bind_ret _ _ _ _ _ (ts_upd_again _ _ _ _ _ _ Hin)), ts_upd_again by done;
      rewrite ?(wrap_small 32) by (pow_consts; lia); unfold bin_par; tn_simpl.
    + replace (Z.of_nat (S j) / 2 - 1) with (Z.of_nat (j / 2)) by lia.
      by replace (j mod 2)%nat with 1%nat by lia.
    + replace (Z.of_nat (S j) / 2) with (Z.of_nat (j / 2)) by lia.
      by replace (j mod 2)%nat with 0%nat by lia.
Qed.

Lemma binary_tree_node_run i l :
  length l = n -> l !! i = Some zero_node ->
  binary_tree_node alloc_ok (Z.of_nat n) (Z.of_nat i) (TS (bin_allocs i) 0 l) =
    (Ret tt, TS (bin_allocs (S i)) 0 (<[i := bin_node i]> l)).
Proof using Halloc Hn.
  intros Hl Hi. assert (Hin : (i < length l)%nat) by (by eapply lookup_lt_Some).
  assert (Hd : Z.of_nat n <= 2147483648) by (vm_compute (2 ^ 31) in Hn; lia).
  assert (E1 : Z.of_nat (2 * i + 1) = Z.of_nat i * 2 + 1) by lia.
  assert (E2 : Z.of_nat (2 * i + 2) = Z.of_nat i * 2 + 2) by lia.
  unfold binary_tree_node.
  run (ts_upd_run (bin_allocs i) 0 l i zero_node). run ts_upd_again. run binary_parent_run.
  rewrite !(wrap_small 32) by (pow_consts; lia). cbn [bin_allocs]. unfold bin_node, bin_kids.
  destruct (Z.ltb_spec (Z.of_nat i * 2 + 1) (Z.of_nat n)) as [D1|D1].
  - rewrite bool_decide_false, !(decide_True (P := (2 * i + 1 < n)%nat)) by lia.
    run (alloc_ptrs_run alloc_ok 2). run ts_upd_again.
    run (fun a r l i x c => ts_set_child_again a r l i x 0 c).
    run ts_upd_again. run ts_upd_again.
    rewrite (wrap_small 32) by (pow_consts; lia).
    destruct (Z.ltb_spec (Z.of_nat i * 2 + 2) (Z.of_nat n)) as [D2|D2].
    + rewrite !(decide_True (P := (2 * i + 2 < n)%nat)) by lia. run (fun a r l i x c => ts_set_child_again a r l i x 1 c).
      rewrite ts_upd_again by done. tn_simpl.
      by rewrite ?E1, ?E2.
    + rewrite !(decide_False (P := (2 * i + 2 < n)%nat)) by lia. tn_simpl.
      by rewrite ?E1, ?E2.
  - rewrite bool_decide_true, !decide_False by lia.
    run ts_upd_again. run ts_upd_again. run ts_upd_again. rewrite ts_upd_again by done. by tn_simpl.
Qed.

Definition bin_nodes (i : nat) : list smlt_topology_node :=
  tab n (fun j => if decide (j < i)%nat then bin_node j else zero_node).

Lemma binary_tree_run :
  smlt_topology_create_binary_tree alloc_ok (Z.of_nat n) (TS 1 0 (replicate n zero_node)) =
    (Ret tt, TS (bin_allocs n) 0 (bin_nodes n)).
Proof using Halloc Hn.
  unfold smlt_topology_create_binary_tree. rewrite (bind_ret (modify _) _ _ tt _ eq_refl).
  rewrite Nat2Z.id. apply (mfor_run _ (fun i => TS (bin_allocs i) 0 (bin_nodes i))); [|done|].
  - unfold ts_set_root. simpl. by rewrite <- tab_const.
  - intros i Hi. rewrite binary_tree_node_run.
    + do 2 f_equal. unfold bin_nodes. rewrite tab_insert. apply tab_ext. intros j Hj.
      repeat case_decide; try done; try lia. by subst.
    + apply length_tab.
    + unfold bin_nodes. rewrite lookup_tab by done. by rewrite decide_False by lia.
Qed.

Lemma bin_node_repr i : (i < n)%nat -> node_repr bin_tree i (bin_node i).
Proof using Type.
  intros Hi. split; simpl; try done.
  - intros p k. rewrite bin_par_Some. intros [H ->].
    destruct (bin_par (2 * p + 1 + k)) as [[p' k']|] eqn:E.
    + apply bin_par_Some in E. simpl. lia.
    + pose proof (proj2 (bin_par_Some p k _) (conj H eq_refl)). congruence.
  - unfold bin_kids. repeat case_decide; try done; lia.
Qed.
End binary.

Lemma create_binary_tree alloc_ok n name :
  (0 < n)%nat -> Z.of_nat n <= 2 ^ 31 -> (forall k, alloc_ok k = true) ->
  exists t, smlt_topology_create alloc_ok (Z.of_nat n) None name = Ret (err_value SMLT_SUCCESS, t) /\
    topo_repr (bin_tree n) t /\ tp_name t = name.
Proof.
  intros Hn Hb Ha. unfold smlt_topology_create. rewrite Ha, Nat2Z.id. simpl.
  rewrite binary_tree_run by done. simpl. eexists. split; [done|]. split; [|done].
  split; simpl; try done.
  - by apply bin_tree_wf.
  - apply length_tab.
  - intros i x. unfold bin_nodes. rewrite lookup_tab_Some. intros [Hi ->].
    rewrite decide_True by done. by apply bin_node_repr.
Qed.

(** [C28] The default topology is the complete binary tree: for every number of
    processors up to 2^31 and when no allocation fails, [smlt_topology_create]
    without a model succeeds, and the node array it returns represents the tree in
    which node [i] has children [2i+1] and [2i+2] - parent pointers, positions
    among the children, child arrays and counts all agree, every node is reached
    from the root, and there are no cycles. *)
Theorem binary_topology alloc_ok n name :
  (0 < n)%nat -> Z.of_nat n <= 2 ^ 31 -> (forall k, alloc_ok k = true) ->
  exists t, smlt_topology_create alloc_ok (Z.of_nat n) None name = Ret (err_value SMLT_SUCCESS, t) /\
    topo_repr (bin_tree n) t /\ tp_name t = name.
Proof. apply create_binary_tree. Qed.

Lemma binary_topology_witness :
  (exists t, smlt_topology_create (fun _ => true) 5 None "bin" = Ret (err_value SMLT_SUCCESS, t) /\
     topo_repr (bin_tree 5%nat) t /\ tp_name t = "bin"%string) /\
  t_kids (bin_tree 5%nat) 1%nat = [3; 4]%nat.
Proof. split; [|done]. apply (binary_topology (fun _ => true) 5); [lia|done|done]. Defined.

(** ** The matrix of a tree *)

(** The position of [y] among the children of [x]. *)
Definition child_pos (tr : tree) (x y : nat) : option nat :=
  match t_par tr y with
  | Some (p, k) => if decide (p = x) then Some k else None
  | None => None
  end.

(** The encoding the parser reads: the position plus one for a child, 99 for the
    parent, 0 otherwise. *)
Definition encode_entry (tr : tree) (x y : nat) : Z :=
  match child_pos tr x y with
  | Some k => Z.of_nat k + 1
  | None => match child_pos tr y x with Some _ => TOPO_MATRIX_PARENT | None => 0 end
  end.
Definition encode (tr : tree) : list Z :=
  tab (t_len tr * t_len tr) (fun i => encode_entry tr (i / t_len tr) (i mod t_len tr)).
Definition tree_model (tr : tree) (leafs : list nat) : smlt_generated_model :=
  Model (Z.of_nat (t_len tr)) (Z.of_nat (t_len tr)) (Z.of_nat (t_root tr)) (encode tr)
    (Z.of_nat (length leafs)) (Z.of_nat <$> leafs).

Section parse_tree.
Context (tr : tree) (Hwf : forest_wf tr) (leafs : list nat).
Context (Hsize : Z.of_nat (t_len tr * t_len tr) < 2 ^ 32).
Abbreviation len := (t_len tr).
Abbreviation model := (tree_model tr leafs).

Lemma child_pos_Some x y k : child_pos tr x y = Some k <-> t_par tr y = Some (x, k).
Proof using Type*.
  unfold child_pos. destruct (t_par tr y) as [[p k']|]; [|done].
  case_decide; split; intros E; simplify_eq; done.
Qed.

Lemma kids_child_pos x k y :
  (x < len)%nat -> t_kids tr x !! k = Some y <-> (y < len)%nat /\ child_pos tr x y = Some k.
Proof using Type*. intros. rewrite child_pos_Some. by apply fw_kids. Qed.

Lemma child_pos_asym x y k k' : child_pos tr x y = Some k -> child_pos tr y x = Some k' -> False.
Proof using Type*.
  rewrite !child_pos_Some. intros H1 H2. destruct (fw_acyclic _ Hwf) as [rank Hr].
  apply Hr in H1, H2. lia.
Qed.

Lemma child_pos_irrefl x k : child_pos tr x x = Some k -> False.
Proof using Type*. intros H. by eapply child_pos_asym. Qed.

Lemma entry_run x y s :
  (x < len)%nat -> (y < len)%nat ->
  entry model (Z.of_nat x) (Z.of_nat y) s = (Ret (encode_entry tr x y), s).
Proof using Type*.
  intros Hx Hy. unfold entry. simpl.
  assert (Hi : (x * len + y < len * len)%nat) by nia.
  rewrite (wrap_small 32 (_ * _)) by lia. rewrite (wrap_small 32) by lia.
  replace (Z.of_nat x * Z.of_nat len + Z.of_nat y) with (Z.of_nat (x * len + y)) by lia.
  unfold encode. rewrite arr_get_tab by done. simpl.
  rewrite Nat.div_add_l, Nat.div_small, Nat.add_0_r by lia.
  rewrite Nat.add_comm, Nat.Div0.mod_add, Nat.mod_small by lia. done.
Qed.

(** The fan-out the parser supports. *)
Context (Hfan : forall x, (x < len)%nat -> (length (t_kids tr x) <= 97)%nat).

Lemma child_pos_fan x y k :
  (x < len)%nat -> (y < len)%nat -> child_pos tr x y = Some k -> (k < length (t_kids tr x))%nat.
Proof using Type*.
  intros Hx Hy H. apply (lookup_lt_Some _ _ y). by apply kids_child_pos.
Qed.

Lemma encode_entry_range x y :
  (x < len)%nat -> (y < len)%nat -> 0 <= encode_entry tr x y <= 99.
Proof using Type*.
  intros Hx Hy. unfold encode_entry. destruct (child_pos tr x y) as [k|] eqn:E.
  - apply child_pos_fan in E; [|done..]. pose proof (Hfan x Hx). lia.
  - unfold TOPO_MATRIX_PARENT. destruct (child_pos tr y x); lia.
Qed.

Lemma row_max_run n x y acc s :
  (x < len)%nat -> (y + n <= len)%nat -> 0 <= acc ->
  exists v, row_max_child model n (Z.of_nat x) (Z.of_nat y) acc s = (Ret v, s) /\ acc <= v /\
    (forall j k, (y <= j < y + n)%nat -> child_pos tr x j = Some k -> Z.of_nat k + 1 <= v) /\
    (v = acc \/ exists j k, (j < len)%nat /\ child_pos tr x j = Some k /\ v = Z.of_nat k + 1).
Proof using Type*.
  intros Hx. revert y acc. induction n as [|n IH]; intros y acc Hy Ha; simpl.
  { exists acc. repeat split; [lia| intros; lia|by left]. }
  rewrite (bind_ret _ _ _ _ _ (entry_run x y s Hx ltac:(lia))).
  replace (Z.of_nat y + 1) with (Z.of_nat (S y)) by lia.
  match goal with |- context [row_max_child _ n _ _ ?a] => set (acc' := a) end.
  assert (Hacc : acc <= acc' /\ (forall k, child_pos tr x y = Some k -> Z.of_nat k + 1 <= acc') /\
    (acc' = acc \/ exists k, child_pos tr x y = Some k /\ acc' = Z.of_nat k + 1)).
  { unfold acc', encode_entry, TOPO_MATRIX_MAX_MP, TOPO_MATRIX_PARENT.
    destruct (child_pos tr x y) as [k|] eqn:E.
    - pose proof (child_pos_fan x y k Hx ltac:(lia) E) as Hk. pose proof (Hfan x Hx).
      destruct (Z.ltb_spec acc (Z.of_nat k + 1)), (Z.leb_spec (Z.of_nat k + 1) 98); simpl; try lia;
        (split; [lia|]); (split; [intros ? [= <-]; lia|]); [right; by eexists|by left].
    - destruct (child_pos tr y x); simpl; rewrite ?andb_false_r;
        try (destruct (Z.ltb_spec acc 0); [lia|]); simpl; split_and!; try done; by left. }
  destruct (IH (S y) acc' ltac:(lia) ltac:(lia)) as (v & -> & Hv & Hall & Hor).
  exists v. split; [done|]. split; [lia|]. split.
  - intros j k Hj E. destruct (decide (j = y)) as [->|]; [apply Hacc in E; lia|].
    apply (Hall j); [lia|done].
  - destruct Hor as [->|]; [|by right]. destruct Hacc as (_ & _ & [->|(k & E & ->)]); [by left|].
    right. exists y, k. split; [lia|done].
Qed.

Lemma row_max_kids x s :
  (x < len)%nat ->
  row_max_child model len (Z.of_nat x) 0 0 s = (Ret (Z.of_nat (length (t_kids tr x))), s).
Proof using Type*.
  intros Hx. destruct (row_max_run len x 0 0 s Hx ltac:(lia) ltac:(lia)) as (v & E & Hv & Hall & Hor).
  change (Z.of_nat 0) with 0 in E. rewrite E. clear E. do 2 f_equal. destruct Hor as [->|(j & k & Hj & E & ->)].
  - destruct (t_kids tr x) as [|c l] eqn:E; [done|exfalso].
    assert (Hc : t_kids tr x !! 0%nat = Some c) by (by rewrite E).
    apply kids_child_pos in Hc as [Hc Ec]; [|done]. pose proof (Hall c 0%nat ltac:(lia) Ec). lia.
  - pose proof (child_pos_fan x j k Hx Hj E) as Hk.
    destruct (lookup_lt_is_Some_2 (t_kids tr x) (length (t_kids tr x) - 1)) as [c Hc]; [lia|].
    apply kids_child_pos in Hc as [Hc Ec]; [|done]. pose proof (Hall c _ ltac:(lia) Ec). lia.
Qed.

Lemma row_shm_run n x z s :
  (x < len)%nat -> (z + n <= len)%nat ->
  row_shm_children model n (Z.of_nat x) (Z.of_nat z) 0 s = (Ret 0, s).
Proof using Type*.
  intros Hx. revert z. induction n as [|n IH]; intros z Hz; simpl; [done|].
  rewrite (bind_ret _ _ _ _ _ (entry_run x z s Hx ltac:(lia))).
  pose proof (encode_entry_range x z Hx ltac:(lia)).
  rewrite (proj2 (Z.leb_gt TOPO_MATRIX_SHM_SLAVE_START _)) by (unfold TOPO_MATRIX_SHM_SLAVE_START; lia).
  rewrite andb_false_r. replace (Z.of_nat z + 1) with (Z.of_nat (S z)) by lia. apply IH. lia.
Qed.

(** ** The node array while the matrix is read

    Node [j] when the entries of its row below [r] have been read ([None]: the row
    has not been started) and its position among its siblings is [ix]. *)
Definition kid_below (r : nat) (c : option nat) : option Z :=
  match c with Some c => if decide (c < r)%nat then Some (Z.of_nat c) else None | None => None end.
Definition par_below (r : nat) (p : option (nat * nat)) : option Z :=
  match p with Some (p, _) => if decide (p < r)%nat then Some (Z.of_nat p) else None | None => None end.

Definition pnode (j : nat) (r : option nat) (ix : Z) : smlt_topology_node :=
  match r with
  | None => tn_set_array_index ix zero_node
  | Some r =>
      TNode (existsb (fun c => bool_decide (is_Some (child_pos tr j c))) (seq 0 r))
        (par_below r (t_par tr j))
        (Some (tab (length (t_kids tr j)) (fun k => kid_below r (t_kids tr j !! k))))
        (Z.of_nat j) ix (Z.of_nat (length (t_kids tr j))) false false 0 0 (Some [])
  end.

(** Node [j] when the entries of the first [x] rows and the first [y] of row [x] have
    been read. *)
Definition row_of (x y j : nat) : option nat :=
  if decide (j < x)%nat then Some len else if decide (j = x) then Some y else None.
Definition idx_of (x y j : nat) : Z :=
  match t_par tr j with
  | Some (p, k) => if decide (p < x \/ (p = x /\ j < y))%nat then Z.of_nat k else 0
  | None => 0
  end.
Definition row_nodes (x y : nat) : list smlt_topology_node :=
  tab len (fun j => pnode j (row_of x y j) (idx_of x y j)).
Definition rows_nodes (x : nat) : list smlt_topology_node :=
  tab len (fun j => pnode j (if decide (j < x)%nat then Some len else None) (idx_of x 0 j)).

Lemma row_nodes_full x : row_nodes x len = rows_nodes (S x).
Proof using Type*.
  apply tab_ext. intros j Hj. f_equal.
  - unfold row_of. repeat case_decide; try done; lia.
  - unfold idx_of. destruct (t_par tr j) as [[p k]|]; [|done].
    repeat case_decide; try done; lia.
Qed.


Lemma row_of_self x y : row_of x y x = Some y.
Proof using Type*. unfold row_of. rewrite decide_False by lia. by rewrite decide_True. Qed.

Lemma row_of_other x y y' j : j <> x -> row_of x y' j = row_of x y j.
Proof using Type*. intros. unfold row_of. repeat case_decide; done. Qed.

Lemma idx_of_next x y j :
  idx_of x (S y) j =
    if decide (j = y) then match child_pos tr x y with Some k => Z.of_nat k | None => idx_of x y y end
    else idx_of x y j.
Proof using Type*.
  unfold idx_of, child_pos. case_decide as D.
  - subst. destruct (t_par tr y) as [[p k]|]; [|done]. repeat case_decide; try done; lia.
  - destruct (t_par tr j) as [[p k]|]; [|done]. repeat case_decide; try done; lia.
Qed.

Lemma par_below_next x y :
  par_below (S y) (t_par tr x) =
    match child_pos tr y x with Some _ => Some (Z.of_nat y) | None => par_below y (t_par tr x) end.
Proof using Type*.
  unfold par_below, child_pos. destruct (t_par tr x) as [[p k]|]; [|done].
  repeat case_decide; subst; try done; lia.
Qed.

Lemma existsb_next x y :
  existsb (fun c => bool_decide (is_Some (child_pos tr x c))) (seq 0 (S y)) =
    match child_pos tr x y with Some _ => true | None => existsb (fun c => bool_decide (is_Some (child_pos tr x c))) (seq 0 y) end.
Proof using Type*.
  rewrite seq_S, existsb_app. simpl. destruct (child_pos tr x y); simpl.
  - by rewrite orb_true_r.
  - by rewrite !orb_false_r.
Qed.

(** The entry of a child, of another node. *)
Lemma pnode_child x y k ix ch :
  (x < len)%nat -> (y < len)%nat -> child_pos tr x y = Some k ->
  tn_children (pnode x (Some y) ix) = Some ch ->
  tn_set_node_id (Z.of_nat x)
    (tn_set_children (Some (<[k := Some (Z.of_nat y)]> ch))
      (tn_set_topology true (pnode x (Some y) ix))) = pnode x (Some (S y)) ix.
Proof using Type*.
  intros Hx Hy E [= <-]. unfold pnode. rewrite existsb_next, par_below_next, E.
  destruct (child_pos tr y x) eqn:E'; [by edestruct (child_pos_asym x y)|]. tn_simpl. f_equal.
  f_equal. rewrite tab_insert. apply tab_ext. intros i Hi.
  destruct (lookup_lt_is_Some_2 (t_kids tr x) i Hi) as [c Hc]. rewrite Hc. simpl.
  apply kids_child_pos in Hc as [Hc Ec]; [|done]. case_decide as D.
  - subst. rewrite child_pos_Some in E, Ec.
    assert (t_kids tr x !! k = Some y /\ t_kids tr x !! k = Some c) as [G1 G2].
    { split; apply (fw_kids _ Hwf); done. }
    rewrite G1 in G2. injection G2 as ->. by rewrite decide_True by lia.
  - assert (c <> y) by congruence. repeat case_decide; try done; lia.
Qed.

Lemma pnode_not_child x y ix :
  (x < len)%nat -> child_pos tr x y = None ->
  tn_set_parent (match child_pos tr y x with Some _ => Some (Z.of_nat y) | None => par_below y (t_par tr x) end)
    (pnode x (Some y) ix) = pnode x (Some (S y)) ix.
Proof using Type*.
  intros Hx E. unfold pnode. rewrite existsb_next, par_below_next, E. tn_simpl. f_equal.
  f_equal. apply tab_ext. intros i Hi.
  destruct (lookup_lt_is_Some_2 (t_kids tr x) i Hi) as [c Hc]. rewrite Hc. simpl.
  apply kids_child_pos in Hc as [Hc Ec]; [|done].
  assert (c <> y) by congruence. repeat case_decide; try done; lia.
Qed.

Lemma row_nodes_self x y :
  (x < len)%nat -> row_nodes x y !! x = Some (pnode x (Some y) (idx_of x y x)).
Proof using Type*. intros. unfold row_nodes. by rewrite lookup_tab, row_of_self. Qed.

(** A row that changes only its own node. *)
Lemma row_nodes_own x y :
  (x < len)%nat -> child_pos tr x y = None ->
  <[x := pnode x (Some (S y)) (idx_of x y x)]> (row_nodes x y) = row_nodes x (S y).
Proof using Type*.
  intros Hx E. unfold row_nodes. rewrite tab_insert. apply tab_ext. intros j Hj.
  rewrite idx_of_next, E. destruct (decide (j = x)) as [->|D].
  - rewrite row_of_self. by case_decide; subst.
  - rewrite (row_of_other x y (S y)) by done. by case_decide; subst.
Qed.

Lemma pnode_index j r ix ix' : tn_set_array_index ix' (pnode j r ix) = pnode j r ix'.
Proof using Type*. by destruct r. Qed.

(** A row that enters a child. *)
Lemma row_nodes_kid x y k :
  (x < len)%nat -> x <> y -> child_pos tr x y = Some k ->
  <[y := pnode y (row_of x y y) (Z.of_nat k)]>
    (<[x := pnode x (Some (S y)) (idx_of x y x)]> (row_nodes x y)) = row_nodes x (S y).
Proof using Type*.
  intros Hx D E. unfold row_nodes. rewrite !tab_insert. apply tab_ext. intros j Hj.
  rewrite idx_of_next, E. destruct (decide (j = x)) as [->|Dx].
  - rewrite row_of_self. by rewrite !decide_False by done.
  - rewrite (row_of_other x y (S y)) by done. by case_decide; subst.
Qed.

Context (alloc_ok : nat -> bool).

Lemma parse_entry_run a r x y :
  (x < len)%nat -> (y < len)%nat ->
  parse_entry model (Z.of_nat x) (Z.of_nat y) (TS a r (row_nodes x y)) =
    (Ret tt, TS a r (row_nodes x (S y))).
Proof using Type*.
  intros Hx Hy. unfold parse_entry.
  run (entry_run x y). unfold encode_entry, TOPO_MATRIX_PARENT, TOPO_MATRIX_MAX_MP.
  pose proof (row_nodes_self x y Hx) as Hself.
  assert (Hlen : length (row_nodes x y) = len) by apply length_tab.
  destruct (child_pos tr x y) as [k|] eqn:E.
  - pose proof (child_pos_fan x y k Hx Hy E). pose proof (Hfan x Hx).
    rewrite (proj2 (Z.ltb_lt _ _)), (proj2 (Z.eqb_neq _ _)), (proj2 (Z.leb_le _ _)) by lia.
    replace (Z.of_nat k + 1 - 1) with (Z.of_nat k) by lia.
    run (ts_upd_run a r (row_nodes x y) x).
    run (ts_set_child_again a r (row_nodes x y) x); [by rewrite length_tab|].
    run ts_upd_again. erewrite (pnode_child x y k) by done.
    assert (x <> y) by (intros ->; by eapply child_pos_irrefl).
    erewrite ts_upd_run by (rewrite list_lookup_insert_ne by done; by apply lookup_tab).
    rewrite pnode_index. by rewrite row_nodes_kid.
  - destruct (child_pos tr y x) as [k|] eqn:E'.
    + simpl. run (ts_upd_run a r (row_nodes x y) x). run (entry_run y x).
      pose proof (pnode_not_child x y (idx_of x y x) Hx E) as Hp. rewrite E' in Hp. rewrite Hp.
      rewrite row_nodes_own by done. unfold encode_entry. rewrite E'.
      pose proof (child_pos_fan y x k Hy Hx E'). pose proof (Hfan y Hy).
      by rewrite (proj2 (Z.ltb_lt _ _)), (proj2 (Z.ltb_lt _ _)) by lia.
    + simpl. rewrite <- row_nodes_own by done. do 2 f_equal. symmetry.
      pose proof (pnode_not_child x y (idx_of x y x) Hx E) as Hp. rewrite E' in Hp.
      rewrite <- Hp. by apply list_insert_id.
Qed.

(** The row's node when its arrays have been allocated. *)
Lemma row_start x :
  (x < len)%nat ->
  <[x := tn_set_children_shm (Some (replicate (Z.to_nat 0) None)) 0
           (tn_set_children_shm (Some (replicate (Z.to_nat 0) None)) 0
              (tn_set_num_children (Z.of_nat (length (t_kids tr x)))
                 (tn_set_children
                    (Some (replicate (Z.to_nat (Z.of_nat (length (t_kids tr x)))) None))
                    (tn_set_node_id (Z.of_nat x)
                       (pnode x (if decide (x < x)%nat then Some len else None)
                          (idx_of x 0 x))))))]> (rows_nodes x) = row_nodes x 0.
Proof using Type*.
  intros Hx. unfold rows_nodes, row_nodes. rewrite tab_insert. apply tab_ext. intros j Hj.
  unfold row_of. destruct (decide (j = x)) as [->|]; [|by destruct (decide (j < x)%nat)].
  rewrite !decide_False by lia. unfold pnode. tn_simpl. rewrite Nat2Z.id. f_equal.
  - unfold par_below. destruct (t_par tr x) as [[p k]|]; [|done]. by rewrite decide_False by lia.
  - f_equal. rewrite <- tab_const. apply tab_ext. intros k Hk. by destruct (t_kids tr x !! k).
Qed.

Lemma parse_row_run x r :
  (x < len)%nat -> (forall k, alloc_ok k = true) ->
  parse_row alloc_ok model (Z.of_nat x) (TS (1 + 2 * x) r (rows_nodes x)) =
    (Ret tt, TS (1 + 2 * S x) r (rows_nodes (S x))).
Proof using Type*.
  intros Hx Ha. unfold parse_row. change (gm_len model) with (Z.of_nat len). rewrite Nat2Z.id.
  assert (Hin : (x < length (rows_nodes x))%nat) by (unfold rows_nodes; by rewrite length_tab).
  run (row_max_kids x).
  run (ts_upd_run (1 + 2 * x) r (rows_nodes x) x); [by apply lookup_tab|].
  run (alloc_ptrs_run alloc_ok). run ts_upd_again.
  run (@assert_run topo_st).
  run ts_upd_again. run (row_shm_run len x 0).
  run (alloc_ptrs_run alloc_ok). run ts_upd_again.
  run (@assert_run topo_st).
  run ts_upd_again. rewrite row_start by done.
  etransitivity; [eapply bind_ret; apply (mfor_run _ (fun y => TS (3 + 2 * x) r (row_nodes x y)));
                  [done|reflexivity|intros y Hy; by apply parse_entry_run]|].
  rewrite (ts_upd_run _ _ _ _ _ _ (row_nodes_self x len Hx)), row_nodes_full.
  replace (3 + 2 * x)%nat with (1 + 2 * S x)%nat by lia. do 2 f_equal.
  apply list_insert_id. rewrite <- row_nodes_full. by rewrite row_nodes_self.
Qed.

(** ** Marking the leaves *)
Definition leaf_node (i : nat) (l : list nat) : smlt_topology_node :=
  tn_set_is_leaf (bool_decide (i <> 0%nat /\ i ∈ l)) (pnode i (Some len) (idx_of len 0 i)).
(** All rows below [i], and the first [j] entries of the list for node [i]. *)
Definition leaf_nodes (i j : nat) : list smlt_topology_node :=
  tab len (fun x => leaf_node x (if decide (x < i)%nat then leafs
                                 else if decide (x = i) then take j leafs else [])).

Lemma mark_leaf_run i j a r :
  (i < len)%nat -> (j < length leafs)%nat ->
  mark_leaf model (Z.of_nat i) (Z.of_nat j) (TS a r (leaf_nodes i j)) =
    (Ret tt, TS a r (leaf_nodes i (S j))).
Proof using Type*.
  intros Hi Hj. unfold mark_leaf. simpl gm_leafs.
  destruct (lookup_lt_is_Some_2 leafs j Hj) as [l Hl].
  rewrite arr_get_nat, list_lookup_fmap, Hl. cbn [fmap option_fmap option_map].
  assert (Hn : leaf_nodes i (S j) =
    <[i := tn_set_is_leaf (bool_decide (i <> 0%nat /\ (l = i \/ i ∈ take j leafs)))
             (leaf_node i (take j leafs))]> (leaf_nodes i j)).
  { unfold leaf_nodes. rewrite tab_insert. apply tab_ext. intros x Hx.
    destruct (decide (x = i)) as [->|D]; [|repeat case_decide; done].
    rewrite decide_False by lia. unfold leaf_node. rewrite (take_S_r _ _ _ Hl). tn_simpl. f_equal.
    apply bool_decide_ext. rewrite elem_of_app, list_elem_of_singleton. clear. intuition auto. }
  rewrite Hn. assert (Hs : leaf_nodes i j !! i = Some (leaf_node i (take j leafs))).
  { unfold leaf_nodes. rewrite lookup_tab by done. by rewrite decide_False, decide_True by lia. }
  rewrite (bind_ret (defined (Some _)) _ _ (Z.of_nat l) _ eq_refl).
  assert (Hsame : ~ (l = i /\ i <> 0%nat) ->
    <[i := tn_set_is_leaf (bool_decide (i <> 0%nat /\ (l = i \/ i ∈ take j leafs)))
             (leaf_node i (take j leafs))]> (leaf_nodes i j) = leaf_nodes i j).
  { intros Hno. apply list_insert_id. rewrite Hs. f_equal. unfold leaf_node. tn_simpl. f_equal.
    apply bool_decide_ext. clear -Hno. intuition auto. }
  destruct (Z.eqb_spec (Z.of_nat l) (Z.of_nat i)), (Z.eqb_spec (Z.of_nat i) 0); simpl.
  1, 3, 4: rewrite Hsame by lia; done.
  rewrite (ts_upd_run _ _ _ _ _ _ Hs). do 4 f_equal. symmetry. apply bool_decide_true.
  split; [lia|left; lia].
Qed.

Lemma leaf_nodes_next i : leaf_nodes i (length leafs) = leaf_nodes (S i) 0.
Proof using Type*.
  apply tab_ext. intros j Hj. f_equal. rewrite firstn_all, take_0.
  repeat case_decide; try done; lia.
Qed.

Lemma parse_model_run :
  (forall k, alloc_ok k = true) ->
  smlt_topology_parse_model alloc_ok model (TS 1 0 (replicate len zero_node)) =
    (Ret tt, TS (1 + 2 * len) (Z.of_nat (t_root tr)) (leaf_nodes len 0)).
Proof using Type*.
  intros Ha. unfold smlt_topology_parse_model. rewrite (bind_ret (modify _) _ _ tt _ eq_refl).
  unfold ts_set_root. cbn [ts_allocs ts_nodes]. change (gm_root model) with (Z.of_nat (t_root tr)).
  change (gm_len model) with (Z.of_nat len). change (gm_num_leafs model) with (Z.of_nat (length leafs)).
  rewrite !Nat2Z.id.
  run (ts_upd_run 1 (Z.of_nat (t_root tr)) (replicate len zero_node) (t_root tr) zero_node).
  { apply lookup_replicate_2, Hwf. }
  etransitivity; [eapply bind_ret;
    apply (mfor_run _ (fun x => TS (1 + 2 * x) (Z.of_nat (t_root tr)) (rows_nodes x)));
    [|reflexivity|intros x Hx; by apply parse_row_run]|].
  { do 2 f_equal. rewrite <- tab_const, tab_insert. apply tab_ext. intros j Hj.
    rewrite (decide_False (P := (j < 0)%nat)) by lia. unfold idx_of.
    destruct (t_par tr j) as [[p k]|]; [rewrite (decide_False (P := (p < 0 \/ _)%nat)) by lia|];
      by case_decide. }
  apply (mfor_run _ (fun i => TS (1 + 2 * len) (Z.of_nat (t_root tr)) (leaf_nodes i 0))); [| done|].
  { do 2 f_equal. apply tab_ext. intros j Hj. rewrite (decide_True (P := (j < len)%nat)), (decide_False (P := (j < 0)%nat)) by lia.
    unfold leaf_node. rewrite bool_decide_false.
    - by destruct (decide (j = 0%nat)).
    - destruct (decide (j = 0%nat)); intros [? Hin]; [done|]. by apply not_elem_of_nil in Hin. }
  intros i Hi.
  apply (mfor_run _ (fun j => TS (1 + 2 * len) (Z.of_nat (t_root tr)) (leaf_nodes i j))); [done| |].
  - by rewrite leaf_nodes_next.
  - intros j Hj. by apply mark_leaf_run.
Qed.

Lemma leaf_node_repr i l : (i < len)%nat -> node_repr tr i (leaf_node i l).
Proof using Type*.
  intros Hi. unfold leaf_node, pnode. tn_simpl. split; tn_simpl; try done.
  - unfold par_below. destruct (t_par tr i) as [[p k]|] eqn:E; [|done].
    pose proof (fw_par _ Hwf i p k Hi E). by rewrite decide_True by done.
  - intros p k E. unfold idx_of. rewrite E. pose proof (fw_par _ Hwf i p k Hi E).
    by rewrite decide_True by lia.
  - rewrite firstn_all2 by (by rewrite length_tab).
    apply list_eq_same_length with (length (t_kids tr i)); rewrite ?length_tab, ?length_fmap; [done..|].
    intros k a b Hk. rewrite lookup_tab, list_lookup_fmap by done. intros [= <-].
    destruct (t_kids tr i !! k) as [c|] eqn:E; [|done]. intros [= <-]. simpl.
    apply kids_child_pos in E as [Hc _]; [|done]. by rewrite decide_True by done.
Qed.
End parse_tree.

Lemma create_forest_model tr leafs alloc_ok num_proc name :
  forest_wf tr -> Z.of_nat (t_len tr * t_len tr) < 2 ^ 32 ->
  (forall x, (x < t_len tr)%nat -> (length (t_kids tr x) <= 97)%nat) ->
  (forall k, alloc_ok k = true) ->
  exists t, smlt_topology_create alloc_ok num_proc (Some (tree_model tr leafs)) name =
      Ret (err_value SMLT_SUCCESS, t) /\ forest_repr tr t /\
    (forall i n, tp_all_nodes t !! i = Some n ->
       smlt_topo_is_model_leaf n = bool_decide (i <> 0%nat /\ i ∈ leafs)).
Proof.
  intros Hwf Hs Hf Ha. unfold smlt_topology_create. rewrite Ha. simpl negb. cbv iota.
  change (gm_len (tree_model tr leafs)) with (Z.of_nat (t_len tr)). rewrite Nat2Z.id.
  rewrite parse_model_run by done. eexists. split; [done|]. split.
  - split; simpl; try done.
    + apply length_tab.
    + intros i n. unfold leaf_nodes. rewrite lookup_tab_Some. intros [Hi ->].
      by apply leaf_node_repr.
  - simpl. intros i n. unfold leaf_nodes. rewrite lookup_tab_Some. intros [Hi ->].
    by rewrite decide_True by done.
Qed.

Lemma create_tree_model tr leafs alloc_ok num_proc name :
  tree_wf tr -> Z.of_nat (t_len tr * t_len tr) < 2 ^ 32 ->
  (forall x, (x < t_len tr)%nat -> (length (t_kids tr x) <= 97)%nat) ->
  (forall k, alloc_ok k = true) ->
  exists t, smlt_topology_create alloc_ok num_proc (Some (tree_model tr leafs)) name =
      Ret (err_value SMLT_SUCCESS, t) /\ topo_repr tr t /\
    (forall i n, tp_all_nodes t !! i = Some n ->
       smlt_topo_is_model_leaf n = bool_decide (i <> 0%nat /\ i ∈ leafs)).
Proof.
  intros Hwf Hs Hf Ha.
  destruct (create_forest_model tr leafs alloc_ok num_proc name (tree_wf_forest _ Hwf) Hs Hf Ha) as (t & E & [] & Hl).
  exists t. done.
Qed.

(** [C25] Parsing the matrix of a tree gives back that tree: for every ordered tree - over
    all cores, or over some of them - of fan-out at most 97 whose matrix has fewer than
    2^32 entries, and when no allocation fails, [smlt_topology_create] on the encoded model
    succeeds and the node array represents exactly that tree; a node is marked as a leaf
    when the model lists it as one and it is not node 0. *)
Theorem parse_encode tr leafs alloc_ok num_proc name :
  forest_wf tr -> Z.of_nat (t_len tr * t_len tr) < 2 ^ 32 ->
  (forall x, (x < t_len tr)%nat -> (length (t_kids tr x) <= 97)%nat) ->
  (forall k, alloc_ok k = true) ->
  exists t, smlt_topology_create alloc_ok num_proc (Some (tree_model tr leafs)) name =
      Ret (err_value SMLT_SUCCESS, t) /\ forest_repr tr t /\ (tree_wf tr -> topo_repr tr t) /\
    (forall i n, tp_all_nodes t !! i = Some n ->
       smlt_topo_is_model_leaf n = bool_decide (i <> 0%nat /\ i ∈ leafs)).
Proof.
  intros Hwf Hs Hf Ha. destruct (create_forest_model tr leafs alloc_ok num_proc name Hwf Hs Hf Ha) as (t & E & Hr & Hl).
  exists t. split_and!; [done..| |done]. intros Ht. by destruct Hr.
Qed.

(** A tree in which node 2 is the root. *)
Definition small_tree : tree :=
  Tree 4 2 (fun x => match x with 2 => [3; 0] | 0 => [1] | _ => [] end)%nat
    (fun y => match y with 3 => Some (2, 0) | 0 => Some (2, 1) | 1 => Some (0, 0) | _ => None end)%nat.

Lemma small_tree_wf : tree_wf small_tree.
Proof.
  split; simpl; [lia| |done| |].
  - intros x k y Hx.
    destruct x as [|[|[|[|x]]]]; destruct k as [|[|k]]; destruct y as [|[|[|[|y]]]]; simpl;
      rewrite ?lookup_nil; try lia; split;
      first [intros [? H]; first [discriminate H | done | injection H; lia]
            | intros H; first [discriminate H | split; [lia|done] | injection H; lia]].
  - intros y Hy Hne. destruct y as [|[|[|[|y]]]]; try lia; do 2 eexists; (split; [done|lia]).
  - exists (fun y => match y with 2 => 0 | 1 => 2 | _ => 1 end)%nat.
    intros x k y. destruct y as [|[|[|[|y]]]]; try done; intros [= <- <-]; lia.
Qed.

Lemma parse_encode_witness :
  (exists t, smlt_topology_create (fun _ => true) 0 (Some (tree_model small_tree [1; 3]%nat)) "t" =
      Ret (err_value SMLT_SUCCESS, t) /\ forest_repr small_tree t /\ (tree_wf small_tree -> topo_repr small_tree t) /\
    (forall i n, tp_all_nodes t !! i = Some n ->
       smlt_topo_is_model_leaf n = bool_decide (i <> 0%nat /\ i ∈ [1; 3]%nat))) /\
  encode small_tree = [0; 1; 99; 0;  99; 0; 0; 0;  2; 0; 0; 1;  0; 0; 99; 0].
Proof.
  split; [|reflexivity].
  apply (parse_encode small_tree [1; 3]%nat (fun _ => true) 0 "t"); [apply tree_wf_forest, small_tree_wf|done| |done].
  intros x _. destruct x as [|[|[|x]]]; simpl; lia.
Defined.

(** ** What the parser accepts *)
Definition entry_at (m : smlt_generated_model) (x y : Z) : option Z :=
  arr_get (gm_model m) (u32 (u32 (x * gm_len m) + y)).

Lemma entry_inv m x y s v s' : entry m x y s = (Ret v, s') -> entry_at m x y = Some v /\ s' = s.
Proof.
  unfold entry, entry_at. destruct (arr_get _ _); simpl; [|done]. by intros [= -> ->].
Qed.

Definition accepted_entry (m : smlt_generated_model) (x y : Z) : Prop :=
  exists v, entry_at m x y = Some v /\
    (0 <= v <= 98 \/ 150 <= v <= 169 \/
     (v = 99 /\ exists v', entry_at m y x = Some v' /\ 0 < v' < 98)).

Lemma parse_entry_inv m x y s s' : parse_entry m x y s = (Ret tt, s') -> accepted_entry m x y.
Proof.
  unfold parse_entry, TOPO_MATRIX_PARENT, TOPO_MATRIX_MAX_MP, TOPO_MATRIX_SHM_MASTER_START,
    TOPO_MATRIX_SHM_MASTER_MAX, TOPO_MATRIX_SHM_SLAVE_MAX, TOPO_MATRIX_SHM_SLAVE_START, TOPO_MATRIX_SHM_MAX.
  intros H. apply bind_ret_inv in H as (v & s1 & [Hv ->]%entry_inv & H). exists v. split; [done|].
  destruct (Z.ltb_spec 0 v); [|destruct (Z.eqb_spec v 0); [lia|done]].
  destruct (Z.eqb_spec v 99) as [->|].
  - apply bind_ret_inv in H as (? & s2 & _ & H).
    apply bind_ret_inv in H as (v' & s3 & [Hv' ->]%entry_inv & H).
    right; right. split; [done|]. exists v'. split; [done|].
    destruct (Z.ltb_spec 0 v'), (Z.ltb_spec v' 98); simpl in H; try done; lia.
  - destruct (Z.leb_spec v 98); [lia|].
    change TOPO_MATRIX_SHM_MASTER_START with (150 + 20) in H.
    destruct ((150 + 20 <=? v) && (v <=? 150 + 20 + 20 - 1)); [done|].
    destruct (Z.leb_spec v (150 + 20 - 1)), (Z.leb_spec 150 v); simpl in H; try done; lia.
Qed.

(** The parser accepts only matrices it can interpret: when
    [smlt_topology_create] returns for a model, every entry of the [len] by [len]
    matrix was inside the array and was 0, a child position, a shared-memory slave,
    or a parent mark whose mirror entry is a child position below 98.  In every
    other case it panics or fails an assertion. *)
Lemma parse_accepts alloc_ok num_proc m name e t x y :
  smlt_topology_create alloc_ok num_proc (Some m) name = Ret (e, t) ->
  0 <= x < gm_len m -> 0 <= y < gm_len m -> accepted_entry m x y.
Proof.
  unfold smlt_topology_create. destruct (alloc_ok 0%nat); simpl; [|done].
  destruct (smlt_topology_parse_model _ _ _) as [[[]| | |] s] eqn:E; try done. intros _ Hx Hy.
  apply bind_ret_inv in E as (? & ? & _ & E). apply bind_ret_inv in E as (? & ? & _ & E).
  apply bind_ret_inv in E as ([] & ? & E & _).
  apply mfor_ret_inv with (i := x) in E as (s1 & s2 & E); [|lia].
  unfold parse_row in E. do 11 (apply bind_ret_inv in E as (? & ? & _ & E)).
  apply bind_ret_inv in E as ([] & ? & E & _).
  apply mfor_ret_inv with (i := y) in E as (s3 & s4 & E); [|lia].
  by eapply parse_entry_inv.
Qed.


(** The fan-out bound is off by one: [TOPO_MATRIX_MAX_MP] is 98 and an entry of
    98 is accepted as a child, but the symmetry check of the child's own row demands
    an entry below 98, so the model of a tree in which a node has 98 children or more
    is never accepted. *)
Lemma parse_fanout_98 tr leafs alloc_ok num_proc name x e t :
  tree_wf tr -> Z.of_nat (t_len tr * t_len tr) < 2 ^ 32 ->
  (x < t_len tr)%nat -> (98 <= length (t_kids tr x))%nat ->
  ~ smlt_topology_create alloc_ok num_proc (Some (tree_model tr leafs)) name = Ret (e, t).
Proof.
  intros Hwf Hs Hx Hk E.
  destruct (lookup_lt_is_Some_2 (t_kids tr x) 97) as [y Hy]; [lia|].
  pose proof (tree_wf_forest _ Hwf) as Hfw. apply kids_child_pos in Hy as [Hy Ey]; [|done..].
  assert (He : forall u v, (u < t_len tr)%nat -> (v < t_len tr)%nat ->
    entry_at (tree_model tr leafs) (Z.of_nat u) (Z.of_nat v) = Some (encode_entry tr u v)).
  { intros u v Hu Hv. by apply (entry_inv _ _ _ _ _ _ (entry_run tr Hfw leafs Hs u v (TS 0 0 []) Hu Hv)). }
  destruct (parse_accepts _ _ _ _ _ _ (Z.of_nat y) (Z.of_nat x) E) as (v & Hv & Hc); [simpl; lia..|].
  rewrite He in Hv by done. unfold encode_entry at 1 in Hv.
  destruct (child_pos tr y x) eqn:E'; [by eapply child_pos_asym|].
  rewrite Ey in Hv. injection Hv as <-. unfold TOPO_MATRIX_PARENT in Hc.
  destruct Hc as [|[|(_ & v' & Hv & Hb)]]; [lia..|].
  rewrite He in Hv by done. unfold encode_entry in Hv. rewrite Ey in Hv. injection Hv as <-. lia.
Qed.

(** A root with [n] children. *)
Definition star (n : nat) : tree :=
  Tree (S n) 0 (fun x => if decide (x = 0%nat) then seq 1 n else [])
    (fun y => match y with O => None | S j => Some (0, j)%nat end).

Lemma star_wf n : tree_wf (star n).
Proof.
  split; simpl; [lia| |done| |].
  - intros x k y Hx. case_decide as D.
    + subst. rewrite lookup_seq. destruct y as [|j]; split.
      * intros [? ?]. lia.
      * by intros [? ?].
      * intros [[= ->] ?]. split; [lia|done].
      * intros [? [= ->]]. lia.
    + destruct y as [|j]; (split; [done|]); intros [? [=]]. done.
  - intros [|y] Hy Hne; [done|]. exists 0%nat, y. split; [done|lia].
  - exists (fun y => y). intros x k [|y]; [done|]. intros [= <- <-]. lia.
Qed.

