(* ===== verification/Generator.v ===== *)
(** The topology generator ([src/generator.c], [contrib/sim.cpp], [contrib/sim_wrapper.cpp]):
    a model is asked for over the network or read from a file, as a JSON text whose values
    are copied into the structure the topology parser reads.  The text's parser and writer
    (the vendored jsoncpp), the network and the environment are parameters; the accessors
    of a JSON value the code relies on are modelled after [contrib/jsoncpp/jsoncpp.cpp]. *)
From Stdlib Require QArith_base.
From stdpp Require Import strings.
From S2P Require Import Prelude Errors Topology.

(** ** JSON values *)
Inductive json :=
  | JNull
  | JInt (i : Z)
  | JUInt (u : Z)
  | JReal (r : QArith_base.Q)
  | JString (s : string)
  | JBool (b : bool)
  | JArray (l : list json)
  | JObject (l : list (string * json)).

Definition minInt : Z := -2147483648.
Definition maxInt : Z := 2147483647.
(** [None]: an exception is thrown. *)
Definition asInt (v : json) : option Z :=
  match v with
  | JInt i => if (minInt <=? i) && (i <=? maxInt) then Some i else None
  | JUInt u => if u <=? maxInt then Some u else None
  | JReal r =>
      if QArith_base.Qle_bool (QArith_base.inject_Z minInt) r && QArith_base.Qle_bool r (QArith_base.inject_Z maxInt)
      then Some (Z.quot (QArith_base.Qnum r) (Zpos (QArith_base.Qden r))) else None
  | JNull => Some 0
  | JBool b => Some (if b then 1 else 0)
  | JString _ | JArray _ | JObject _ => None
  end.
(** Whether [asString] returns. *)
Definition has_string (v : json) : bool :=
  match v with JArray _ | JObject _ => false | _ => true end.
Definition json_size (v : json) : Z :=
  match v with JArray l => Z.of_nat (length l) | JObject l => Z.of_nat (length l) | _ => 0 end.
Fixpoint json_assoc (key : string) (l : list (string * json)) : option json :=
  match l with
  | [] => None
  | (k, v) :: l' => if decide (k = key) then Some v else json_assoc key l'
  end.
Definition get_key (v : json) (key : string) (defaultValue : json) : option json :=
  match v with
  | JNull => Some defaultValue
  | JObject l => Some (default defaultValue (json_assoc key l))
  | _ => None
  end.
Definition get_index (v : json) (i : Z) (defaultValue : json) : option json :=
  match v with
  | JNull => Some defaultValue
  | JArray l => Some (default defaultValue (arr_get l i))
  | _ => None
  end.
(** What the iterators from [begin] to [end] go through. *)
Definition json_items (v : json) : list json :=
  match v with JArray l => l | JObject l => l.*2 | _ => [] end.

(** ** The output parameters *)

(** [None]: not written yet; [None] in an array: a word of fresh memory. *)
Record tree_out := TreeOut {
  to_root : option Z;
  to_num_leafs : option Z;
  to_leafs : option (list (option Z));
  to_model : option (list (option Z));
  to_len : option Z;
}.
Definition no_out : tree_out := TreeOut None None None None None.
Definition to_set_root (r : Z) (s : tree_out) : tree_out := TreeOut (Some r) (to_num_leafs s) (to_leafs s) (to_model s) (to_len s).
Definition to_set_num_leafs (n : Z) (s : tree_out) : tree_out := TreeOut (to_root s) (Some n) (to_leafs s) (to_model s) (to_len s).
Definition to_set_leafs (l : list (option Z)) (s : tree_out) : tree_out := TreeOut (to_root s) (to_num_leafs s) (Some l) (to_model s) (to_len s).
Definition to_set_model (l : list (option Z)) (s : tree_out) : tree_out := TreeOut (to_root s) (to_num_leafs s) (to_leafs s) (Some l) (to_len s).
Definition to_set_len (n : Z) (s : tree_out) : tree_out := TreeOut (to_root s) (to_num_leafs s) (to_leafs s) (to_model s) (Some n).

(** Code that may throw: [Ret None]. *)
Abbreviation X A := (M tree_out (option A)).
Definition xbind {A B} (m : X A) (k : A -> X B) : X B := o ← m; match o with Some a => k a | None => mret None end.
Definition throws {A} (o : option A) : X A := mret o.
Definition plain {A} (m : M tree_out A) : X A := Some <$> m.
Notation "x <-! m ; k" := (xbind m (fun x => k)) (at level 20, m at level 100, k at level 200, right associativity).

Section generator.
(** Whether an allocation of so many bytes succeeds. *)
Context (alloc_ok : Z -> bool).
(** The value [CharReader::parse] leaves in [root]. *)
Context (json_parse : list Z -> json).

(** ** Parsing *)
Definition malloc_words (bytes n : Z) : X (list (option Z)) :=
  if alloc_ok bytes then mret (Some (replicate (Z.to_nat n) None)) else panic.

Fixpoint store_leafs (leafs_j : json) (n : nat) (i : Z) : X unit :=
  match n with
  | O => mret (Some tt)
  | S n' =>
      v <-! throws (get_index leafs_j i JNull);
      l <-! throws (asInt v);
      _ <-! plain (leafs ← gets to_leafs; leafs' ← defined (leafs ≫= (fun a => arr_set a i (Some (u32 l))));
                   modify (to_set_leafs leafs'));
      store_leafs leafs_j n' (i + 1)
  end.
Fixpoint store_row (size x y : Z) (inner : list json) : X unit :=
  match inner with
  | [] => mret (Some tt)
  | val :: inner' =>
      e <-! throws (asInt val);
      _ <-! plain (a ← gets to_model; a' ← defined (a ≫= (fun a => arr_set a (u32 (u32 (x * size) + y)) (Some (u16 (u32 e)))));
                   modify (to_set_model a'));
      store_row size x (y + 1) inner'
  end.
Fixpoint store_rows (size x : Z) (elem : list json) : X unit :=
  match elem with
  | [] => mret (Some tt)
  | inner :: elem' => _ <-! store_row size x 0 (json_items inner); store_rows size (x + 1) elem'
  end.

Definition parse_values (root : json) : X unit :=
  ln <-! throws (get_key root "root" (JString ""));
  lnval <-! throws (asInt ln);
  _ <-! plain (modify (to_set_root (u32 lnval)));
  git_revision <-! throws (get_key root "git-version" (JString ""));
  if negb (has_string git_revision) then mret None else
  leafs_j <-! throws (get_key root "leaf_nodes" (JString ""));
  _ <-! plain (modify (to_set_num_leafs (json_size leafs_j)));
  leafs <-! malloc_words (4 * json_size leafs_j) (json_size leafs_j);
  _ <-! plain (modify (to_set_leafs leafs));
  _ <-! store_leafs leafs_j (Z.to_nat (json_size leafs_j)) 0;
  elem <-! throws (get_key root "model" (JString ""));
  model <-! malloc_words (2 * json_size elem * json_size elem) (json_size elem * json_size elem);
  _ <-! plain (modify (to_set_model model));
  _ <-! plain (modify (to_set_len (json_size elem)));
  store_rows (json_size elem) 0 (json_items elem).

(** The bytes of a string: up to the first NUL; undefined when there is none. *)
Fixpoint strlen (mem : list Z) : option nat :=
  match mem with
  | [] => None
  | c :: mem' => if c =? 0 then Some 0%nat else S <$> strlen mem'
  end.
(** The end pointer handed to the parser is [json_string + strlen - 1]: the last byte is
    left out.  (An empty string has its end before its beginning.) *)
Definition smlt_tree_parse_wrapper (json_string : list Z) : M tree_out Z :=
  n ← defined (strlen json_string);
  if decide (n = 0%nat) then undef else
  o ← parse_values (json_parse (take (n - 1) json_string));
  mret (match o with Some _ => 0 | None => -1 end).

(** [while (res != 0 && attempts < MAX_ATTEMPTS)]: [attempts] is never incremented, so a
    text that cannot be parsed is tried again for ever. *)
Definition smlt_tree_parse (json_string : list Z) : M tree_out Z :=
  res ← smlt_tree_parse_wrapper json_string;
  if res =? 0 then mret res else spin.

(** ** Asking the generator service *)

(** What the network does with a request: fails, or delivers the answer in pieces, at the
    end of which the connection is closed or an error occurs. *)
Inductive net_result := NetFail | NetReply (pieces : list (list Z)) (closed : bool).
Context (net_exchange : string -> list Z -> net_result) (json_write : json -> list Z).
Context (env : string -> option string) (hostname : string).
Definition get_env_str (envname defaultvalue : string) : string := default defaultvalue (env envname).

(** The bytes before the first NUL of a piece, which is terminated by one. *)
Fixpoint until_nul (mem : list Z) : list Z :=
  match mem with
  | [] => []
  | c :: mem' => if c =? 0 then [] else c :: until_nul mem'
  end.
(** [incomming_data_buffer[bytes_recieved] = 0]: undefined for a piece of 1000 bytes. *)
Fixpoint receive_all (pieces : list (list Z)) (rec : list Z) : option (list Z) :=
  match pieces with
  | [] => Some rec
  | p :: pieces' => if decide (length p < 1000)%nat then receive_all pieces' (rec ++ until_nul p) else None
  end.
Definition smlt_tree_config_request (host : string) (msg : list Z) : M tree_out Z :=
  match net_exchange host msg with
  | NetFail => mret 1
  | NetReply pieces closed =>
      rec ← defined (receive_all pieces []);
      if closed then smlt_tree_parse_wrapper (rec ++ [0]) else mret 1
  end.
(** [strncpy] leaves a name of 1000 characters and more without terminator. *)
Definition tree_request (ncores : Z) (cores : option (list Z)) (tree_name : option string) : option json :=
  let machine := get_env_str "SMLT_MACHINE" "unknown" in
  let thishost := if decide (machine = "unknown") then hostname else machine in
  let topo_name := match tree_name with None => get_env_str "SMLT_TOPO" "adaptivetree-shuffle-sort" | Some n => n end in
  _ ← (if decide (machine = "unknown") then Some tt else guard (String.length machine < 1000)%nat;; Some tt);
  ids ← mapM (fun i => match cores with None => Some (Z.of_nat i) | Some a => arr_get a (Z.of_nat i) end)
          (seq 0 (Z.to_nat ncores));
  Some (JObject [("cores", match ids with [] => JNull | _ => JArray (JUInt <$> ids) end);
                 ("machine", JString thishost); ("topology", JString topo_name)]).
Definition smlt_tree_generate_wrapper (ncores : Z) (cores : option (list Z)) (tree_name : option string) : M tree_out Z :=
  let host := get_env_str "SMLT_HOSTNAME" "" in
  if decide (host = "") then mret 1 else
  root ← defined (tree_request ncores cores tree_name);
  smlt_tree_config_request host (json_write root).

(** ** [src/generator.c] *)

(** The fields of a zeroed [struct smlt_generated_model]; [len_model] is a local variable. *)
Definition gen_start : tree_out := TreeOut (Some 0) (Some 0) None None None.
(** The structure, if all of it was written. *)
Definition generated_model (ncores : Z) (s : tree_out) : option smlt_generated_model :=
  len ← to_len s; root ← to_root s; model ← to_model s; entries ← mapM id model;
  num_leafs ← to_num_leafs s; leafs ← to_leafs s; ids ← mapM id leafs;
  Some (Model ncores len root entries num_leafs ids).

(** The entries the loops print. *)
Definition all_entries (model : option (list (option Z))) (len_model : Z) : option (list (list Z)) :=
  mapM (fun i => mapM (fun j => a ← model; e ← arr_get a (u32 (u32 (Z.of_nat i * len_model) + Z.of_nat j)); e)
    (seq 0 (Z.to_nat len_model))) (seq 0 (Z.to_nat len_model)).
(** The test after the allocation is of the argument, not of the result. *)
Definition smlt_generate_model (nprocs : Z) (cores : option (list Z)) (len : Z) (name : option string) : M tree_out Z :=
  if negb (alloc_ok 40) then undef else
  err ← smlt_tree_generate_wrapper len cores name;
  l ← gets to_len; len_model ← defined l;
  if negb (len_model =? nprocs) then panic else
  m ← gets to_model; rows ← defined (all_entries m len_model);
  mret (if negb (err =? 0) then err_value SMLT_ERR_GENERATOR
        else if forallb (Z.eqb 0) (concat rows) then err_value SMLT_ERR_GENERATOR else err_value SMLT_SUCCESS).

(** [slack]: how many zero bytes follow the buffer in its block of memory. *)
Definition smlt_generate_modal_from_file (slack : nat) (file : option (list Z)) : M tree_out Z :=
  if negb (alloc_ok 40) then panic else
  match file with
  | None => undef
  | Some bytes =>
      if decide (bytes = []) then mret (err_value SMLT_ERR_GENERATOR) else
      if negb (alloc_ok (Z.of_nat (length bytes))) then undef else
      err ← smlt_tree_parse (bytes ++ replicate slack 0);
      mret (if negb (err =? 0) then err_value SMLT_ERR_GENERATOR else err_value SMLT_SUCCESS)
  end.
(** [assert(!NYI)] with NYI a string: not implemented. *)
Definition smlt_generator_update_measurments : M tree_out Z := panic.
End generator.

(** ** A matrix as a JSON value *)
Definition json_ints (l : list Z) : json := JArray (JInt <$> l).
Definition matrix_json (root : Z) (leafs : list Z) (rows : list (list Z)) : json :=
  JObject [("leaf_nodes", json_ints leafs); ("model", JArray (json_ints <$> rows)); ("root", JInt root)].

Lemma as_int_small i : 0 <= i < 2 ^ 31 -> asInt (JInt i) = Some i.
Proof.
  change (2 ^ 31) with 2147483648. intros H. unfold asInt, minInt, maxInt.
  rewrite (proj2 (Z.leb_le _ _)), (proj2 (Z.leb_le _ _)) by lia. done.
Qed.
Lemma written_insert (w : list Z) (v : Z) k :
  <[length w := Some v]> ((Some <$> w) ++ replicate (S k) None) = (Some <$> (w ++ [v])) ++ replicate k (@None Z).
Proof.
  rewrite insert_app_r_alt by (by rewrite length_fmap). rewrite length_fmap, Nat.sub_diag, fmap_app, <- app_assoc. done.
Qed.

Lemma store_row_run size x inner : forall y w k s,
  Forall (fun e => 0 <= e < 2 ^ 16) inner -> x * size + y = Z.of_nat (length w) ->
  0 <= x * size -> 0 <= y -> Z.of_nat (length w + length inner) < 2 ^ 32 ->
  to_model s = Some ((Some <$> w) ++ replicate (length inner + k) None) ->
  store_row size x y (JInt <$> inner) s = (Ret (Some tt), to_set_model ((Some <$> (w ++ inner)) ++ replicate k None) s).
Proof.
  induction inner as [|e inner IH]; intros y w k s Hv Hy Hx Hy0 Hb Hs.
  - simpl. rewrite app_nil_r. unfold to_set_model. simpl in Hs. rewrite <- Hs. by destruct s.
  - apply Forall_cons in Hv as [He Hv].
    cbn [fmap list_fmap store_row]. unfold xbind at 1, throws, mbind, M_bind. rewrite as_int_small by (change (2 ^ 16) with 65536 in He; change (2 ^ 31) with 2147483648; lia).
    cbn [mret M_ret]. unfold xbind, plain, gets, modify, mbind, M_bind, fmap, M_fmap. rewrite Hs. cbn [mbind option_bind].
    rewrite (wrap_small 32 (x * size)), wrap_small by (simpl in Hb; lia). rewrite Hy, arr_set_nat.
    2: { rewrite length_app, length_fmap, length_replicate. simpl. lia. }
    cbn [defined mret M_ret]. rewrite (wrap_small 32 e), (wrap_small 16 e) by (pow_consts; change (2 ^ 16) with 65536 in He; lia).
    change (length (e :: inner) + k)%nat with (S (length inner + k)). rewrite written_insert.
    rewrite (IH (y + 1) (w ++ [e]) k); try done; rewrite ?length_app; simpl in *; try lia.
    by rewrite <- app_assoc.
Qed.
Lemma store_rows_run size rows : forall x w s n,
  Forall (fun row => length row = n /\ Forall (fun e => 0 <= e < 2 ^ 16) row) rows -> size = Z.of_nat n -> 0 <= x ->
  x * size = Z.of_nat (length w) -> Z.of_nat (length w + n * length rows) < 2 ^ 32 ->
  to_model s = Some ((Some <$> w) ++ replicate (n * length rows) None) ->
  store_rows size x (json_ints <$> rows) s = (Ret (Some tt), to_set_model (Some <$> (w ++ concat rows)) s).
Proof.
  induction rows as [|row rows IH]; intros x w s n Hv Hsz Hx0 Hx Hb Hs.
  - simpl. rewrite app_nil_r. rewrite Nat.mul_0_r in Hs. simpl in Hs. rewrite app_nil_r in Hs. unfold to_set_model. rewrite <- Hs. by destruct s.
  - apply Forall_cons in Hv as [[Hl He] Hv]. simpl in Hb.
    cbn [fmap list_fmap store_rows]. unfold xbind, mbind, M_bind. change (json_items (json_ints row)) with (JInt <$> row).
    rewrite (store_row_run size x row 0 w (n * length rows)); try done; try lia.
    2: { rewrite Hs. do 3 f_equal. simpl. lia. }
    rewrite (IH (x + 1) (w ++ row) _ n); try done; rewrite ?length_app; try lia.
    by rewrite <- app_assoc.
Qed.
Lemma store_leafs_run ls : forall pre w s,
  Forall (fun e => 0 <= e < 2 ^ 31) ls -> length pre = length w ->
  to_leafs s = Some ((Some <$> w) ++ replicate (length ls) None) ->
  store_leafs (json_ints (pre ++ ls)) (length ls) (Z.of_nat (length w)) s = (Ret (Some tt), to_set_leafs (Some <$> (w ++ ls)) s).
Proof.
  induction ls as [|l ls IH]; intros pre w s Hv Hl Hs.
  - simpl. rewrite app_nil_r. simpl in Hs. rewrite app_nil_r in Hs. unfold to_set_leafs. rewrite <- Hs. by destruct s.
  - apply Forall_cons in Hv as [He Hv]. cbn [length store_leafs]. unfold json_ints at 1, get_index. rewrite <- Hl, arr_get_nat, list_lookup_fmap, list_lookup_middle by done.
    cbn [fmap option_fmap option_map default]. unfold xbind, throws, plain, gets, modify, mbind, M_bind, fmap, M_fmap. cbn [mret M_ret].
    unfold id. rewrite as_int_small by done. rewrite Hs. cbn [mbind option_bind]. rewrite !Hl, arr_set_nat.
    2: { rewrite length_app, length_fmap, length_replicate. simpl. lia. }
    cbn [defined mret M_ret length]. rewrite (wrap_small 32 l) by (change (2 ^ 31) with 2147483648 in He; pow_consts; lia).
    rewrite written_insert. replace (Z.of_nat (length w) + 1) with (Z.of_nat (length (w ++ [l]))) by (rewrite length_app; simpl; lia).
    replace (pre ++ l :: ls) with ((pre ++ [l]) ++ ls) by (by rewrite <- app_assoc).
    rewrite (IH (pre ++ [l]) (w ++ [l])); try done; [|by rewrite !length_app, Hl].
    by rewrite <- app_assoc.
Qed.

(** The whole value. *)
Lemma parse_matrix alloc_ok r ls rows s :
  (forall b, alloc_ok b = true) -> 0 <= r < 2 ^ 31 -> Forall (fun e => 0 <= e < 2 ^ 31) ls ->
  Forall (fun row => length row = length rows /\ Forall (fun e => 0 <= e < 2 ^ 16) row) rows ->
  Z.of_nat (length rows * length rows) < 2 ^ 32 ->
  parse_values alloc_ok (matrix_json r ls rows) s =
    (Ret (Some tt), TreeOut (Some r) (Some (Z.of_nat (length ls))) (Some (Some <$> ls)) (Some (Some <$> concat rows))
      (Some (Z.of_nat (length rows)))).
Proof.
  intros Ha Hr Hls Hrows Hb. unfold parse_values. set (v := matrix_json r ls rows).
  assert (get_key v "root" (JString "") = Some (JInt r)) as -> by reflexivity.
  assert (get_key v "git-version" (JString "") = Some (JString "")) as -> by reflexivity.
  assert (get_key v "leaf_nodes" (JString "") = Some (json_ints ls)) as -> by reflexivity.
  set (elem := JArray (json_ints <$> rows)).
  assert (get_key v "model" (JString "") = Some elem) as -> by reflexivity.
  unfold xbind, throws, plain, malloc_words, gets, modify, mbind, M_bind, fmap, M_fmap. cbn [mret M_ret].
  rewrite as_int_small by done. cbn [negb has_string]. rewrite !Ha. cbn [mret M_ret].
  rewrite (wrap_small 32 r) by (change (2 ^ 31) with 2147483648 in Hr; pow_consts; lia).
  assert (El : json_size (json_ints ls) = Z.of_nat (length ls)) by (unfold json_ints, json_size; by rewrite length_fmap).
  assert (Er : json_size elem = Z.of_nat (length rows)) by (unfold elem, json_size; by rewrite length_fmap).
  rewrite El, Er, Nat2Z.id. pose proof (store_leafs_run ls [] []) as L. cbn [length app] in L.
  change (Z.of_nat 0) with 0 in L. rewrite L by done. clear L.
  change (json_items elem) with (json_ints <$> rows).
  rewrite (store_rows_run _ rows 0 [] _ (length rows)); try done.
  cbn [to_set_len to_set_model to_model fmap list_fmap app]. do 3 f_equal. lia.
Qed.

Lemma mapM_id_Some {A} (l : list A) : mapM id (Some <$> l) = Some l.
Proof. apply mapM_Some. by apply Forall2_fmap_l, Forall2_same_length_lookup; split; [|intros; simplify_eq]. Qed.
Lemma strlen_run bytes k : Forall (fun c => c <> 0) bytes -> strlen (bytes ++ replicate (S k) 0) = Some (length bytes).
Proof.
  induction 1 as [|c bytes Hc _ IH]; [done|]. cbn [app strlen]. rewrite (proj2 (Z.eqb_neq _ _) Hc), IH. done.
Qed.

(** A file whose text, less its last byte, is the JSON of a matrix. *)
Lemma file_matrix alloc_ok json_parse slack bytes r ls rows :
  (forall b, alloc_ok b = true) -> bytes <> [] -> Forall (fun c => c <> 0) bytes ->
  json_parse (take (length bytes - 1) bytes) = matrix_json r ls rows ->
  0 <= r < 2 ^ 31 -> Forall (fun e => 0 <= e < 2 ^ 31) ls ->
  Forall (fun row => length row = length rows /\ Forall (fun e => 0 <= e < 2 ^ 16) row) rows ->
  Z.of_nat (length rows * length rows) < 2 ^ 32 ->
  exists s, smlt_generate_modal_from_file alloc_ok json_parse (S slack) (Some bytes) gen_start = (Ret (err_value SMLT_SUCCESS), s) /\
    forall ncores, generated_model ncores s =
      Some (Model ncores (Z.of_nat (length rows)) r (concat rows) (Z.of_nat (length ls)) ls).
Proof.
  intros Ha Hne Hnul Hp Hr Hls Hrows Hb. eexists. split.
  - unfold smlt_generate_modal_from_file. rewrite !Ha. cbn [negb]. rewrite decide_False by done.
    unfold smlt_tree_parse, smlt_tree_parse_wrapper. rewrite strlen_run by done. cbn [defined]. unfold mbind, M_bind. cbn [mret M_ret].
    rewrite decide_False by (by destruct bytes). rewrite take_app_le by lia. rewrite Hp, parse_matrix by done. reflexivity.
  - intros ncores. unfold generated_model. cbn [to_len to_root to_model to_num_leafs to_leafs mbind option_bind].
    rewrite mapM_id_Some. cbn [mbind option_bind]. by rewrite mapM_id_Some.
Qed.

(** The value of a tree. *)
Definition tree_rows (tr : tree) : list (list Z) :=
  tab (t_len tr) (fun x => tab (t_len tr) (fun y => encode_entry tr x y)).
Definition tree_json (tr : tree) (leafs : list nat) : json :=
  matrix_json (Z.of_nat (t_root tr)) (Z.of_nat <$> leafs) (tree_rows tr).

Lemma tree_rows_ok tr :
  tree_wf tr -> Z.of_nat (t_len tr * t_len tr) < 2 ^ 32 ->
  (forall x, (x < t_len tr)%nat -> (length (t_kids tr x) <= 97)%nat) ->
  Forall (fun row => length row = length (tree_rows tr) /\ Forall (fun e => 0 <= e < 2 ^ 16) row) (tree_rows tr).
Proof.
  intros Hwf Hs Hf. apply Forall_lookup_2. intros x row Hx. unfold tree_rows in *. rewrite length_tab.
  apply lookup_tab_Some in Hx as [Hx ->]. rewrite length_tab. split; [done|]. apply Forall_lookup_2.
  intros y e Hy. apply lookup_tab_Some in Hy as [Hy ->]. change (2 ^ 16) with 65536. unfold encode_entry, TOPO_MATRIX_PARENT.
  destruct (child_pos tr x y) as [k|] eqn:E; [|destruct (child_pos tr y x); lia].
  assert (Hk : t_kids tr x !! k = Some y) by (by apply (kids_child_pos tr (tree_wf_forest _ Hwf) Hs)). apply lookup_lt_Some in Hk. specialize (Hf x Hx). lia.
Qed.

(** ** Properties *)

(** [C26] A tree that is written as JSON is the topology that is read back: for every ordered
    tree of fan-out at most 97 whose matrix has fewer than 2^32 entries, a file whose text
    (without its last byte, which the code drops) is the JSON of the tree's matrix is
    accepted, and the model it gives makes [smlt_topology_create] build exactly that tree. *)
Theorem generated_topology tr leafs alloc_ok json_parse slack bytes topo_ok nprocs name :
  tree_wf tr -> Z.of_nat (t_len tr * t_len tr) < 2 ^ 32 ->
  (forall x, (x < t_len tr)%nat -> (length (t_kids tr x) <= 97)%nat) -> Forall (fun l => l < t_len tr)%nat leafs ->
  (forall b, alloc_ok b = true) -> (forall k, topo_ok k = true) ->
  bytes <> [] -> Forall (fun c => c <> 0) bytes -> json_parse (take (length bytes - 1) bytes) = tree_json tr leafs ->
  exists s model t,
    smlt_generate_modal_from_file alloc_ok json_parse (S slack) (Some bytes) gen_start = (Ret (err_value SMLT_SUCCESS), s) /\
    generated_model (Z.of_nat (t_len tr)) s = Some model /\
    smlt_topology_create topo_ok nprocs (Some model) name = Ret (err_value SMLT_SUCCESS, t) /\ topo_repr tr t.
Proof.
  intros Hwf Hs Hf Hl Ha Ht Hne Hnul Hp. pose proof (tw_root _ Hwf) as Hroot.
  assert (Hn : Z.of_nat (t_len tr) < 65536) by (change (2 ^ 32) with 4294967296 in Hs; rewrite Nat2Z.inj_mul in Hs; apply Z.square_lt_simpl_nonneg; lia).
  assert (Hrows : length (tree_rows tr) = t_len tr) by apply length_tab.
  destruct (file_matrix alloc_ok json_parse slack bytes (Z.of_nat (t_root tr)) (Z.of_nat <$> leafs) (tree_rows tr)) as (s & E & Em); try done.
  - change (2 ^ 31) with 2147483648. lia.
  - apply Forall_fmap. eapply Forall_impl; [exact Hl|]. intros l H. cbv beta in H. unfold compose. change (2 ^ 31) with 2147483648. lia.
  - by apply tree_rows_ok.
  - by rewrite Hrows.
  - destruct (create_tree_model tr leafs topo_ok nprocs name Hwf Hs Hf Ht) as (t & Et & Hr & _).
    exists s, (tree_model tr leafs), t. split; [done|]. split; [|done]. rewrite Em, Hrows, length_fmap. unfold tree_rows.
    rewrite concat_tab by lia. done.
Qed.
Lemma generated_topology_witness :
  exists s model t,
    smlt_generate_modal_from_file (fun _ => true) (fun _ => tree_json small_tree [1; 3]%nat) 1 (Some [123; 125; 10]) gen_start =
      (Ret (err_value SMLT_SUCCESS), s) /\
    generated_model (Z.of_nat 4) s = Some model /\
    smlt_topology_create (fun _ => true) 0 (Some model) "t" = Ret (err_value SMLT_SUCCESS, t) /\ topo_repr small_tree t.
Proof.
  apply (generated_topology small_tree [1; 3]%nat (fun _ => true) (fun _ => tree_json small_tree [1; 3]%nat) 0); try done.
  - apply small_tree_wf.
  - intros x _. destruct x as [|[|[|x]]]; simpl; lia.
  - repeat constructor; simpl; lia.
  - repeat constructor; lia.
Defined.

Lemma mapM_ids (l : list nat) : mapM (fun i => Some (Z.of_nat i)) l = Some (Z.of_nat <$> l).
Proof. induction l as [|i l IH]; [done|]. simpl. by rewrite IH. Qed.

(** [C40] Failures are not reported.  Without a generator service (no host name) the length of
    the model is read uninitialised; a service whose answer arrives in a piece of 1000
    bytes makes the terminator be written behind the buffer; a file whose text has no
    root is parsed again and again although ten attempts are the limit. *)
Theorem generator_failures alloc_ok json_parse net json_write env hostname nprocs len name s :
  alloc_ok 40 = true -> to_len s = None ->
  (env "SMLT_HOSTNAME" = None -> forall cores,
    (smlt_generate_model alloc_ok json_parse net json_write env hostname nprocs cores len name s).1 = Undef) /\
  (forall host p pieces closed, env "SMLT_HOSTNAME" = Some host -> host <> "" -> env "SMLT_MACHINE" = None ->
    (forall r, net host r = NetReply (p :: pieces) closed) -> length p = 1000%nat ->
    (smlt_generate_model alloc_ok json_parse net json_write env hostname nprocs None len name s).1 = Undef) /\
  (forall bytes slack, alloc_ok (Z.of_nat (length bytes)) = true -> bytes <> [] -> Forall (fun c => c <> 0) bytes ->
    get_key (json_parse (take (length bytes - 1) bytes)) "root" (JString "") = Some (JString "") ->
    (smlt_generate_modal_from_file alloc_ok json_parse (S slack) (Some bytes) s).1 = Spin).
Proof.
  intros Ha Hlen. split; [|split].
  - intros He cores. unfold smlt_generate_model, smlt_tree_generate_wrapper, get_env_str, gets, mbind, M_bind. rewrite Ha, He.
    cbn [negb default]. rewrite decide_True by done. cbn [mret M_ret]. by rewrite Hlen.
  - intros host p pieces closed He Hh Hm Hn Hp.
    unfold smlt_generate_model, smlt_tree_generate_wrapper, tree_request, smlt_tree_config_request, get_env_str. rewrite Ha, He, Hm.
    cbn [negb default]. unfold id. rewrite decide_False by done. rewrite mapM_ids. cbn [mbind option_bind].
    rewrite !decide_True by done. cbn [mbind option_bind defined]. unfold mbind, M_bind. cbn [mret M_ret]. rewrite Hn.
    cbn [receive_all]. rewrite decide_False by lia. done.
  - intros bytes slack Hb Hne Hnul Hroot. unfold smlt_generate_modal_from_file. rewrite Ha, Hb. cbn [negb].
    rewrite decide_False by done. unfold smlt_tree_parse, smlt_tree_parse_wrapper. rewrite strlen_run by done.
    cbn [defined]. unfold mbind, M_bind. cbn [mret M_ret]. rewrite decide_False by (by destruct bytes).
    rewrite take_app_le by lia. unfold parse_values. rewrite Hroot. done.
Qed.
Lemma generator_failures_witness :
  let net := fun (_ : string) (_ : list Z) => NetReply [replicate 1000 32] true in
  let env := fun n => if decide (n = "SMLT_HOSTNAME") then Some "host" else None in
  (smlt_generate_model (fun _ => true) (fun _ => JNull) net (fun _ => []) env "me" 4 None 4 None gen_start).1 = Undef /\
  (smlt_generate_modal_from_file (fun _ => true) (fun _ => JNull) 1 (Some [123; 125; 10]) gen_start).1 = Spin.
Proof.
  destruct (generator_failures (fun _ => true) (fun _ => JNull) (fun _ _ => NetReply [replicate 1000 32] true) (fun _ => [])
    (fun n => if decide (n = "SMLT_HOSTNAME") then Some "host" else None) "me" 4 4 None gen_start eq_refl eq_refl) as (_ & H2 & H3).
  split.
  - apply (H2 "host" (replicate 1000 32) [] true); done.
  - apply H3; [done|done|repeat constructor; lia|done].
Defined.
