(* ===== verification/Edge.v ===== *)
(** The interface between channels and the collectives that run over them: the
    operations a client calls ([ChanOps]) and what a 1:1 channel between the owner
    and one other thread promises ([TreeEdge]), with the proof that the channels of
    [inc/smlt_channel.h] keep the promise. *)
From S2P Require Import Prelude Errors Message Fifo Pair UmpQueue UmpQueuepair.
From S2P Require Import Queuepair Channel.

(** A pointer to a channel: an array of channels and a position in it. *)
Definition chan_ref : Type := Z * Z.

(** ** The operations, for the thread whose node id is the first argument *)
Class ChanOps (C : Type) := {
  c_send : Z -> smlt_msg -> M C Z;
  c_notify : Z -> M C Z;
  c_recv : Z -> smlt_msg -> M C (Z * smlt_msg);
  c_recv_index : Z -> smlt_msg -> Z -> M C (Z * smlt_msg);
  c_recv_notification : Z -> M C Z;
  c_can_recv : Z -> M C bool;
}.

#[export] Instance smlt_channel_ops : ChanOps smlt_channel := {|
  c_send := smlt_channel_send;
  c_notify := smlt_channel_notify;
  c_recv := smlt_channel_recv;
  c_recv_index := smlt_channel_recv_index;
  c_recv_notification := smlt_channel_recv_notification;
  c_can_recv := smlt_channel_can_recv;
|}.

(** ** The promise *)

(** [msg'] is [msg] after the message [m] was received into it. *)
Definition received (m : list Z) (msg msg' : smlt_msg) : Prop :=
  words msg' = words msg /\ bufsize msg' = bufsize msg /\
  length (msg_data msg') = length (msg_data msg) /\
  (words msg = Z.of_nat (length m) -> msg_data msg' = m ++ drop (length m) (msg_data msg)).

(** [edge o c d q qo]: the channel [c] of owner [o] carries the messages [q] sent by
    the end [d] and [qo] sent by the other end.  Sends are refused (the caller spins)
    only while messages are under way; receives exactly when none is; polling is
    exact.  A notification is a message without words. *)
Class TreeEdge (C : Type) `{ChanOps C} := {
  edge : Z -> C -> side -> list (list Z) -> list (list Z) -> Prop;
  edge_flip o c d q qo : edge o c d q qo -> edge o c (peer d) qo q;
  edge_send o c self q qo msg :
    edge o c (chan_end o self) q qo -> sendable msg ->
    exists r c', c_send self msg c = (r, c') /\
      ((r = Ret (err_value SMLT_SUCCESS) /\ edge o c' (chan_end o self) (q ++ [payload msg]) qo) \/
       (r = Spin /\ q <> [] /\ edge o c' (chan_end o self) q qo));
  edge_notify o c self q qo :
    edge o c (chan_end o self) q qo ->
    exists r c', c_notify self c = (r, c') /\
      ((r = Ret (err_value SMLT_SUCCESS) /\ edge o c' (chan_end o self) (q ++ [[]]) qo) \/
       (r = Spin /\ q <> [] /\ edge o c' (chan_end o self) q qo));
  edge_recv o c self q qo msg :
    edge o c (chan_end o self) q qo -> sendable msg ->
    exists r c', c_recv self msg c = (r, c') /\
      match qo with
      | [] => r = Spin /\ edge o c' (chan_end o self) q []
      | m :: qo' => exists msg', r = Ret (err_value SMLT_SUCCESS, msg') /\
          received m msg msg' /\ edge o c' (chan_end o self) q qo'
      end;
  edge_recv_index o c self q qo msg i :
    edge o c (chan_end o self) q qo -> sendable msg ->
    exists r c', c_recv_index self msg i c = (r, c') /\
      match qo with
      | [] => r = Spin /\ edge o c' (chan_end o self) q []
      | m :: qo' => exists msg', r = Ret (err_value SMLT_SUCCESS, msg') /\
          received m msg msg' /\ edge o c' (chan_end o self) q qo'
      end;
  edge_recv_notification o c self q qo :
    edge o c (chan_end o self) q qo ->
    exists r c', c_recv_notification self c = (r, c') /\
      match qo with
      | [] => r = Spin /\ edge o c' (chan_end o self) q []
      | m :: qo' => r = Ret (err_value SMLT_SUCCESS) /\ edge o c' (chan_end o self) q qo'
      end;
  edge_can_recv o c self q qo :
    edge o c (chan_end o self) q qo ->
    c_can_recv self c = (Ret (negb (bool_decide (qo = []))), c);
}.

Lemma received_sendable m msg msg' : sendable msg -> received m msg msg' -> sendable msg'.
Proof. intros [Hwf Hw] (E1 & E2 & E3 & _). unfold sendable, msg_wf in *. rewrite E1, E3. lia. Qed.

Lemma received_payload m msg msg' :
  words msg = Z.of_nat (length m) -> received m msg msg' ->
  words msg' = Z.of_nat (length m) /\ payload msg' = m.
Proof.
  intros Hm (E1 & _ & _ & E). unfold payload. rewrite E1, (E Hm), Hm, Nat2Z.id.
  by rewrite take_app_length.
Qed.

(** ** The channels of the library *)
Section channel.

(** Both directions of the pair, seen from the end [d]. *)
Definition pair_edge (p : ump_pair) (d : side) (q qo : list (list Z)) : Prop :=
  ump_dir 63 (e_qp (end_of d p)) (e_tx (end_of d p)) (e_qp (end_of (peer d) p)) q /\
  ump_dir 63 (e_qp (end_of (peer d) p)) (e_rx (end_of d p)) (e_qp (end_of d p)) qo.

Definition channel_edge (o : Z) (c : smlt_channel) (d : side) (q qo : list (list Z)) : Prop :=
  exists p, ch_c c = CMp p /\ ch_owner c = o /\ ch_m c = 1 /\ ch_n c = 1 /\ ch_use_shm c = false /\
    pair_edge p d q qo.

Lemma pair_edge_flip p d q qo : pair_edge p d q qo -> pair_edge p (peer d) qo q.
Proof. intros [H1 H2]. by destruct d. Qed.

Lemma pair_edge_tx p d q q' qo e' :
  pair_edge p d q qo -> tx_frame 63 (end_of d p) e' ->
  ump_dir 63 (e_qp e') (e_tx e') (e_qp (end_of (peer d) p)) q' ->
  pair_edge (set_end d e' p) d q' qo.
Proof.
  intros [H1 H2] [Hrx Hfr] H3. unfold pair_edge.
  rewrite end_set_same, end_set_peer. simpl. split; [done|]. rewrite Hrx. by apply Hfr.
Qed.

Lemma pair_edge_rx p d q qo qo' e' :
  pair_edge p d q qo -> rx_frame 63 (end_of d p) e' ->
  ump_dir 63 (e_qp (end_of (peer d) p)) (e_rx e') (e_qp e') qo' ->
  pair_edge (set_end d e' p) d q qo'.
Proof.
  intros [H1 H2] [Htx Hfr] H3. unfold pair_edge.
  rewrite end_set_same, end_set_peer. simpl. split; [|done]. rewrite Htx. by apply Hfr.
Qed.

(** An operation on the only pair of a 1:1 channel. *)
Lemma on_mp_run {A} (m : M ump_st A) c p self r e' :
  ch_c c = CMp p -> m (end_of (chan_end (ch_owner c) self) p) = (r, e') ->
  on_mp 0 (mp_side self c) m c =
    (r, ch_set_c (CMp (set_end (chan_end (ch_owner c) self) e' p)) c).
Proof.
  intros Hc E. unfold on_mp, mp_side. rewrite Hc. simpl. unfold at_side, zoom.
  unfold chan_end in *. by rewrite E.
Qed.

Lemma channel_edge_set o c d q qo p :
  channel_edge o c d q qo -> forall d' q' qo', pair_edge p d' q' qo' ->
  channel_edge o (ch_set_c (CMp p) c) d' q' qo'.
Proof. intros (p0 & Hc & Ho & Hm & Hn & Hu & _) d' q' qo' Hp. by exists p. Qed.
End channel.

(** ** Each operation on an edge *)
Section laws.
Context (o : Z) (c : smlt_channel) (self : Z) (q qo : list (list Z)).
Context (He : channel_edge o c (chan_end o self) q qo).
Abbreviation d := (chan_end o self).

Lemma channel_edge_send msg :
  sendable msg ->
  exists r c', smlt_channel_send self msg c = (r, c') /\
    ((r = Ret (err_value SMLT_SUCCESS) /\ channel_edge o c' d (q ++ [payload msg]) qo) \/
     (r = Spin /\ q <> [] /\ channel_edge o c' d q qo)).
Proof using Type*.
  intros Hs. pose proof He as (p & Hc & Ho & Hm & Hn & Hu & Hp).
  destruct Hp as [H1 H2].
  destruct (ump_dir_send 63 ltac:(lia) ltac:(lia) _ _ _ msg H1 Hs) as (err & e' & E & Hfr & Hd).
  set (mq := smlt_queuepair_send uf msg).
  assert (Eq : mq (end_of d p) = (if err =? err_value SMLT_ERR_QUEUE_FULL then Spin else Ret err, e')).
  { unfold mq, smlt_queuepair_send, smlt_queuepair_try_send, call, mbind, M_bind. simpl. rewrite E.
    by destruct (err =? _). }
  rewrite <- Ho in Eq. pose proof (on_mp_run _ _ _ _ _ _ Hc Eq) as Em. rewrite Ho in Em.
  exists (if err =? err_value SMLT_ERR_QUEUE_FULL then Spin else Ret err), (ch_set_c (CMp (set_end d e' p)) c).
  split.
  - unfold smlt_channel_send, get, num_chan_of, mbind, M_bind. rewrite Hu, Hm, Hn. simpl.
    unfold mbind, M_bind. fold mq. rewrite Em.
    destruct Hd as [(-> & _)|(-> & _)]; done.
  - destruct Hd as [(-> & _ & Hd)|(-> & Hne & Hd)]; [left|right]; (split; [done|]).
    + eapply channel_edge_set; [exact He|]. by eapply pair_edge_tx.
    + split; [done|]. eapply channel_edge_set; [exact He|]. by eapply pair_edge_tx.
Qed.

Lemma channel_edge_notify :
  exists r c', smlt_channel_notify self c = (r, c') /\
    ((r = Ret (err_value SMLT_SUCCESS) /\ channel_edge o c' d (q ++ [[]]) qo) \/
     (r = Spin /\ q <> [] /\ channel_edge o c' d q qo)).
Proof using Type*.
  pose proof He as (p & Hc & Ho & Hm & Hn & Hu & Hp). destruct Hp as [H1 H2].
  destruct (ump_dir_notify 63 ltac:(lia) ltac:(lia) _ _ _ H1) as (r & e' & E & Hfr & Hd).
  rewrite <- Ho in E. pose proof (on_mp_run (smlt_queuepair_notify uf) _ _ _ _ _ Hc E) as Em.
  rewrite Ho in Em. exists r, (ch_set_c (CMp (set_end d e' p)) c). split.
  - unfold smlt_channel_notify, get, num_chan_of, mbind, M_bind. rewrite Hu, Hm, Hn.
    set (mq := smlt_queuepair_notify uf) in *. simpl. unfold mbind, M_bind. rewrite Em. destruct Hd as [(-> & _)|(-> & _)]; done.
  - destruct Hd as [(-> & _ & Hd)|(-> & Hne & Hd)]; [left|right]; (split; [done|]).
    + eapply channel_edge_set; [exact He|]. by eapply pair_edge_tx.
    + split; [done|]. eapply channel_edge_set; [exact He|]. by eapply pair_edge_tx.
Qed.

(** [smlt_channel_recv] and [smlt_channel_recv_index] make the same call. *)
Lemma channel_edge_recv_mp msg :
  sendable msg ->
  exists r c', on_mp 0 (mp_side self c) (smlt_queuepair_recv uf msg) c = (r, c') /\
    match qo with
    | [] => r = Spin /\ channel_edge o c' d q []
    | m :: qo' => exists msg', r = Ret (err_value SMLT_SUCCESS, msg') /\
        received m msg msg' /\ channel_edge o c' d q qo'
    end.
Proof using Type*.
  intros Hs. pose proof He as (p & Hc & Ho & Hm & Hn & Hu & Hp). destruct Hp as [H1 H2].
  destruct (ump_dir_recv 63 ltac:(lia) ltac:(lia) _ _ _ msg H2 Hs) as (r & e' & E & Hfr & Hd).
  assert (Eq : smlt_queuepair_recv uf msg (end_of d p) =
    (if r.1 =? err_value SMLT_ERR_QUEUE_EMPTY then Spin else Ret r, e')).
  { unfold smlt_queuepair_recv, smlt_queuepair_try_recv, call, mbind, M_bind. simpl. rewrite E.
    by destruct (r.1 =? _). }
  rewrite <- Ho in Eq. rewrite (on_mp_run _ _ _ _ _ _ Hc Eq), Ho.
  eexists _, _. split; [reflexivity|]. destruct qo as [|m qo'].
  - destruct Hd as [-> ->]. split; [done|]. rewrite set_end_id by done.
    eapply channel_edge_set; [exact He|]. by split.
  - destruct r as [err msg']. simpl in *. destruct Hd as (-> & Hd & Hm').
    exists msg'. split; [done|]. split; [done|].
    eapply channel_edge_set; [exact He|]. by eapply pair_edge_rx.
Qed.

Lemma channel_edge_recv_notification :
  exists r c', smlt_channel_recv_notification self c = (r, c') /\
    match qo with
    | [] => r = Spin /\ channel_edge o c' d q []
    | m :: qo' => r = Ret (err_value SMLT_SUCCESS) /\ channel_edge o c' d q qo'
    end.
Proof using Type*.
  pose proof He as (p & Hc & Ho & Hm & Hn & Hu & Hp). destruct Hp as [H1 H2].
  destruct (ump_dir_recv0 63 ltac:(lia) ltac:(lia) _ _ _ H2) as (r & e' & E & Hfr & Hd).
  rewrite <- Ho in E. pose proof (on_mp_run (smlt_queuepair_recv0 uf) _ _ _ _ _ Hc E) as Em.
  rewrite Ho in Em. exists r, (ch_set_c (CMp (set_end d e' p)) c). split.
  { unfold smlt_channel_recv_notification, get, mbind, M_bind. by rewrite Hm, Hn. }
  destruct qo as [|m qo'].
  - destruct Hd as [-> ->]. split; [done|]. rewrite set_end_id by done.
    eapply channel_edge_set; [exact He|]. by split.
  - destruct Hd as [-> Hd]. split; [done|].
    eapply channel_edge_set; [exact He|]. by eapply pair_edge_rx.
Qed.

Lemma channel_edge_can_recv :
  smlt_channel_can_recv self c = (Ret (negb (bool_decide (qo = []))), c).
Proof using Type*.
  pose proof He as (p & Hc & Ho & Hm & Hn & Hu & Hp). destruct Hp as [H1 H2].
  pose proof (ump_dir_can_recv 63 ltac:(lia) ltac:(lia) _ _ _ H2) as E. rewrite <- Ho in E.
  pose proof (on_mp_run smlt_ump_queuepair_can_recv _ _ _ _ _ Hc E) as Em.
  unfold smlt_channel_can_recv, get, num_chan_of, mbind, M_bind. rewrite Hu, Hm, Hn.
  simpl.
  unfold mbind, M_bind. rewrite Em, set_end_id by done. rewrite <- Hc.
  destruct c; simpl. by case_bool_decide.
Qed.
End laws.

#[export] Instance smlt_channel_edge : TreeEdge smlt_channel.
Proof.
  refine {| edge := channel_edge |}.
  - intros o c d q qo (p & Hc & Ho & Hm & Hn & Hu & Hp). exists p. repeat split; try done.
    + by apply pair_edge_flip in Hp as [? _].
    + by apply pair_edge_flip in Hp as [_ ?].
  - intros. by apply channel_edge_send.
  - intros. by apply channel_edge_notify.
  - intros o c self q qo msg He Hs. simpl. unfold smlt_channel_recv, get, mbind, M_bind.
    pose proof He as (p & Hc & Ho & Hm & Hn & Hu & Hp). rewrite Hm, Hn. simpl.
    by apply channel_edge_recv_mp.
  - intros o c self q qo msg i He Hs. simpl. unfold smlt_channel_recv_index, get, mbind, M_bind.
    pose proof He as (p & Hc & Ho & Hm & Hn & Hu & Hp). rewrite Hm, Hn. simpl.
    by apply channel_edge_recv_mp.
  - intros. by apply channel_edge_recv_notification.
  - intros. by eapply channel_edge_can_recv.
Defined.
