(* ===== verification/Context.v ===== *)
(** Contexts ([src/context.c], [inc/smlt_context.h]): one channel per edge of a
    topology, held in the child array of the parent's node, with the accessors the
    collectives use.

    A pointer to a channel is the pair of its node's index in [all_nodes] and its
    position in that node's [children] array; a NULL parent is [None].  The file is
    generic in the type of channels and in the world their creation works in. *)
From stdpp Require Import strings.
From S2P Require Import Prelude Errors Topology Pair Platform UmpQueue UmpQueuepair.
From S2P Require Import Queuepair Channel Edge.

(** ** Data *)
Record smlt_context_node (C : Type) := CNode {
  cn_node_id : Z;
  cn_parent : option chan_ref;
  (** An entry whose channel could not be created is [None]. *)
  cn_children : option (list (option C));
  cn_num_children : Z;
  cn_index : Z;
}.
Arguments CNode {C}. Arguments cn_node_id {C}. Arguments cn_parent {C}.
Arguments cn_children {C}. Arguments cn_num_children {C}. Arguments cn_index {C}.

Record smlt_context (C : Type) := Ctx {
  cx_num_nodes : Z;
  cx_max_nid : Z;
  cx_nid_to_node : list (option Z);
  cx_all_nodes : list (smlt_context_node C);
}.
Arguments Ctx {C}. Arguments cx_num_nodes {C}. Arguments cx_max_nid {C}.
Arguments cx_nid_to_node {C}. Arguments cx_all_nodes {C}.

Section updates.
Context {C : Type}.
Implicit Types n : smlt_context_node C.

Definition zero_cnode : smlt_context_node C := CNode 0 None None 0 0.
Definition cn_set_node_id i n : smlt_context_node C := CNode i (cn_parent n) (cn_children n) (cn_num_children n) (cn_index n).
Definition cn_set_parent p n : smlt_context_node C := CNode (cn_node_id n) p (cn_children n) (cn_num_children n) (cn_index n).
Definition cn_set_children a n : smlt_context_node C := CNode (cn_node_id n) (cn_parent n) a (cn_num_children n) (cn_index n).
Definition cn_set_num_children k n : smlt_context_node C := CNode (cn_node_id n) (cn_parent n) (cn_children n) k (cn_index n).
Definition cn_set_index i n : smlt_context_node C := CNode (cn_node_id n) (cn_parent n) (cn_children n) (cn_num_children n) i.
End updates.

(** ** Creation *)
Section create.
Context {C W : Type}.
(** [smlt_channel_create] from one source to the destinations: the error it returns and the
    channel it leaves at the address it was given. *)
Context (channel_create : Z -> list Z -> M W (Z * option C)).
(** Whether the k-th allocation of the context itself succeeds. *)
Context (alloc_ok : nat -> bool).

Record ctx_st := CS {
  cs_allocs : nat;
  cs_world : W;
  cs_max_nid : Z;
  cs_nids : list (option Z);
  cs_nodes : list (smlt_context_node C);
}.

Definition cs_upd (i : Z) (f : smlt_context_node C -> smlt_context_node C) : M ctx_st unit := fun s =>
  match arr_get (cs_nodes s) i with
  | Some n => (Ret tt, CS (cs_allocs s) (cs_world s) (cs_max_nid s) (cs_nids s)
                         (<[Z.to_nat i := f n]> (cs_nodes s)))
  | None => (Undef, s)
  end.
Definition cs_node (i : Z) : M ctx_st (smlt_context_node C) := fun s => defined (arr_get (cs_nodes s) i) s.
Definition cs_set_max_nid (m : Z) (s : ctx_st) : ctx_st :=
  CS (cs_allocs s) (cs_world s) m (cs_nids s) (cs_nodes s).
Definition cs_set_nids (l : list (option Z)) (s : ctx_st) : ctx_st :=
  CS (cs_allocs s) (cs_world s) (cs_max_nid s) l (cs_nodes s).
Definition in_world {A} (m : M W A) : M ctx_st A :=
  zoom cs_world (fun w s => CS (cs_allocs s) w (cs_max_nid s) (cs_nids s) (cs_nodes s)) m.

(** A zeroed array of [n] elements, or NULL. *)
Definition alloc_array {A} (n : Z) : M ctx_st (option (list (option A))) := fun s =>
  (Ret (if alloc_ok (cs_allocs s) then Some (replicate (Z.to_nat n) None) else None),
   CS (S (cs_allocs s)) (cs_world s) (cs_max_nid s) (cs_nids s) (cs_nodes s)).

(** [smlt_channel_create(&chan, ...)] with [chan = &n->children[k]]: the error is dropped. *)
Definition create_child (i k : Z) (src : Z) (dst : list Z) : M ctx_st unit :=
  r ← in_world (channel_create src dst);
  n ← cs_node i;
  a ← defined (cn_children n);
  a' ← defined (arr_set a k r.2);
  cs_upd i (cn_set_children (Some a')).

Section nodes.
Context (topo : smlt_topology).

Definition topo_node (i : Z) : M ctx_st smlt_topology_node := defined (arr_get (tp_all_nodes topo) i).

(** [smlt_topology_node_get_id(children[k])]. *)
Definition child_id (children : option (list (option Z))) (k : Z) : M ctx_st Z :=
  a ← defined children;
  c ← defined (arr_get a k);
  c' ← defined c;
  tn ← topo_node c';
  mret (smlt_topology_node_get_id tn).

(** The ids of the first [n] children. *)
Fixpoint child_ids (children : option (list (option Z))) (n : nat) (k : Z) : M ctx_st (list Z) :=
  match n with
  | O => mret []
  | S n' =>
      d ← child_id children k;
      ds ← child_ids children n' (k + 1);
      mret (d :: ds)
  end.

(** First loop: the node and its child channels. *)
Definition context_node (i : Z) : M ctx_st unit :=
  tn ← topo_node i;
  let current_nid := smlt_topology_node_get_id tn in
  let num_children := smlt_topology_node_get_num_children tn in
  _ ← cs_upd i (cn_set_node_id current_nid);
  _ ← cs_upd i (cn_set_num_children num_children);
  _ ← (if negb (num_children =? 0) then
         a ← alloc_array (if smlt_topology_node_use_shm tn then u32 (num_children + 1) else num_children);
         _ ← cs_upd i (cn_set_children a);
         _ ← assert_ (bool_decide (is_Some a));
         let '(children, num_children) := smlt_topology_node_children tn in
         mfor (Z.to_nat num_children) 0 (fun k =>
           dst ← child_id children k;
           create_child i k (smlt_topology_node_get_id tn) [dst])
       else mret tt);
  _ ← (if (num_children =? 0) && smlt_topology_node_use_shm tn then
         a ← alloc_array 1;
         _ ← cs_upd i (cn_set_children a);
         assert_ (bool_decide (is_Some a))
       else mret tt);
  _ ← (if smlt_topology_node_use_shm tn then
         if negb (smlt_topology_node_get_num_children_shm tn =? 0) then
           let '(children, num_children_shm) := smlt_topology_node_children_shm tn in
           b ← alloc_array (A := Z) num_children_shm;
           n ← cs_node i;
           dst ← child_ids children (Z.to_nat num_children_shm) 0;
           _ ← defined b;
           _ ← create_child i (cn_num_children n) (smlt_topology_node_get_id tn) dst;
           cs_upd i (fun n => cn_set_num_children (u32 (cn_num_children n + 1)) n)
         else mret tt
       else mret tt);
  modify (fun s => if cs_max_nid s <? current_nid then cs_set_max_nid current_nid s else s).

(** Second loop: [ctx->nid_to_node[n->node_id] = n]. *)
Definition enter_nid (i : Z) : M ctx_st unit :=
  n ← cs_node i;
  l ← gets cs_nids;
  l' ← defined (arr_set l (cn_node_id n) (Some i));
  modify (cs_set_nids l').

Definition node_of_nid (nid : Z) : M ctx_st Z :=
  l ← gets cs_nids;
  o ← defined (arr_get l nid);
  defined o.

(** [&parent->children[k]]: an address inside the array. *)
Definition child_chan (parent k : Z) : M ctx_st chan_ref :=
  p ← cs_node parent;
  a ← defined (cn_children p);
  _ ← defined (arr_get a k);
  mret (parent, k).

(** Whether [children[j]] has node id [i] for some [j]. *)
Fixpoint has_child_id (children : option (list (option Z))) (n : nat) (j i : Z) (found : bool)
  : M ctx_st bool :=
  match n with
  | O => mret found
  | S n' =>
      d ← child_id children j;
      has_child_id children n' (j + 1) i (if d =? i then true else found)
  end.

(** Third loop: the parent pointers. *)
Definition set_parent_channel (i : Z) : M ctx_st unit :=
  tn ← topo_node i;
  let current_nid := smlt_topology_node_get_id tn in
  if smlt_topology_node_is_root tn then mret tt else
  tpi ← defined (smlt_topology_node_parent tn);
  tp ← topo_node tpi;
  parent ← node_of_nid (smlt_topology_node_get_id tp);
  n ← node_of_nid current_nid;
  if smlt_topology_node_use_shm tp then
    let '(children, num_children) := smlt_topology_node_children_shm tp in
    child_use_shm ← has_child_id children (Z.to_nat num_children) 0 i false;
    if child_use_shm : bool then
      p ← cs_node parent;
      c ← child_chan parent (u32 (cn_num_children p - 1));
      _ ← cs_upd n (cn_set_parent (Some c));
      cs_upd n (cn_set_index (smlt_topology_node_get_child_idx_shm tn))
    else
      c ← child_chan parent (smlt_topology_node_get_child_idx tn);
      _ ← cs_upd n (cn_set_parent (Some c));
      cs_upd n (cn_set_index (smlt_topology_node_get_child_idx tn))
  else
    c ← child_chan parent (smlt_topology_node_get_child_idx tn);
    cs_upd n (cn_set_parent (Some c)).
End nodes.

(** The NULL topology is refused, a failed allocation of the structure reported. *)
Definition smlt_context_create (topo : option smlt_topology) (w : W)
  : outcome (Z * option (smlt_context C)) * W :=
  match topo with
  | None => (Ret (err_value SMLT_ERR_INVAL, None), w)
  | Some t =>
      let num_nodes := smlt_topology_get_num_nodes t in
      if negb (alloc_ok 0%nat) then (Ret (err_value SMLT_ERR_MALLOC_FAIL, None), w) else
      let '(o, s) :=
        (_ ← mfor (Z.to_nat num_nodes) 0 (context_node t);
         m ← gets cs_max_nid;
         a ← alloc_array (u32 (m + 1));
         l ← (match a with Some l => mret l | None => panic end);
         _ ← modify (cs_set_nids l);
         _ ← mfor (Z.to_nat num_nodes) 0 enter_nid;
         mfor (Z.to_nat num_nodes) 0 (set_parent_channel t))
        (CS 1 w 0 [] (replicate (Z.to_nat num_nodes) zero_cnode)) in
      (match o with
       | Ret _ => Ret (err_value SMLT_SUCCESS,
                       Some (Ctx num_nodes (cs_max_nid s) (cs_nids s) (cs_nodes s)))
       | Spin => Spin
       | Panic => Panic
       | Undef => Undef
       end, cs_world s)
  end.
End create.

(** ** Accessors *)
Section accessors.
Context {C : Type}.
Implicit Types ctx : smlt_context C.

(** [return -1], of type [errval_t]. *)
Definition errval_minus_one : Z := u64 (-1).

Definition cx_node_of_nid ctx (nid : Z) : option (Z * smlt_context_node C) :=
  o ← arr_get (cx_nid_to_node ctx) nid;
  i ← o;
  n ← arr_get (cx_all_nodes ctx) i;
  mret (i, n).

(** The error, and on success the node whose [children] array is returned and the
    count; undefined when the id has no node. *)
Definition smlt_context_node_get_children_channels ctx (nid : Z) : option (Z * (Z * Z)) :=
  if cx_max_nid ctx <? nid then Some (errval_minus_one, (0, 0)) else
  n ← cx_node_of_nid ctx nid;
  Some (err_value SMLT_SUCCESS, (n.1, cn_num_children n.2)).

Definition smlt_context_node_get_parent_channel ctx (nid : Z) : option (Z * option chan_ref) :=
  if cx_max_nid ctx <? nid then Some (errval_minus_one, None) else
  n ← cx_node_of_nid ctx nid;
  Some (err_value SMLT_SUCCESS, cn_parent n.2).

Definition smlt_context_node_is_root ctx (nid : Z) : option bool :=
  if cx_max_nid ctx <? nid then Some false else
  n ← cx_node_of_nid ctx nid;
  Some (bool_decide (cn_parent n.2 = None)).

Definition smlt_context_node_is_leaf ctx (nid : Z) : option bool :=
  if cx_max_nid ctx <? nid then Some false else
  n ← cx_node_of_nid ctx nid;
  Some (cn_num_children n.2 =? 0).

Definition smlt_context_node_get_child_idx ctx (self : Z) : option Z :=
  n ← cx_node_of_nid ctx self;
  Some (cn_index n.2).

(** Not yet implemented: [assert(!"NYI")] for every id in range. *)
Definition smlt_context_node_does_shared_memory ctx (nid : Z) : outcome bool :=
  if cx_max_nid ctx <? nid then Ret false else Panic.
Definition smlt_context_node_does_message_passing ctx (nid : Z) : outcome bool :=
  if cx_max_nid ctx <? nid then Ret false else Panic.
Definition smlt_context_node_does_inter_machine ctx (nid : Z) : outcome bool :=
  if cx_max_nid ctx <? nid then Ret false else Panic.
End accessors.

(** Frees the one block of the context; its nodes' arrays and the channels stay. *)
Definition smlt_context_destroy {S} (platform_free : option Z -> M S unit) (ctx : Z) : M S Z :=
  _ ← platform_free (Some ctx);
  mret (err_value SMLT_SUCCESS).

(** ** A context over a tree

    [E i k oc] describes the entry of the channel from node [i] to its [k]-th child. *)
Record cnode_at {C} (tr : tree) (E : nat -> nat -> option C -> Prop) (i : nat)
    (par : option chan_ref) (n : smlt_context_node C) : Prop := {
  cr_id : cn_node_id n = Z.of_nat i;
  cr_parent : cn_parent n = par;
  cr_num : cn_num_children n = Z.of_nat (length (t_kids tr i));
  cr_index : cn_index n = 0;
  cr_len : length (default [] (cn_children n)) = length (t_kids tr i);
  cr_entries : forall k oc, default [] (cn_children n) !! k = Some oc -> E i k oc;
}.

Definition par_ref (tr : tree) (i : nat) : option chan_ref :=
  (fun pk => (Z.of_nat pk.1, Z.of_nat pk.2)) <$> t_par tr i.
Definition cnode_repr {C} (tr : tree) (E : nat -> nat -> option C -> Prop) (i : nat)
    (n : smlt_context_node C) : Prop := cnode_at tr E i (par_ref tr i) n.

Record ctx_repr {C} (tr : tree) (E : nat -> nat -> option C -> Prop) (ctx : smlt_context C) : Prop := {
  cxr_wf : tree_wf tr;
  cxr_num : cx_num_nodes ctx = Z.of_nat (t_len tr);
  cxr_max : cx_max_nid ctx = Z.of_nat (t_len tr - 1);
  cxr_nids : cx_nid_to_node ctx = tab (t_len tr) (fun i => Some (Z.of_nat i));
  cxr_len : length (cx_all_nodes ctx) = t_len tr;
  cxr_nodes : forall i n, cx_all_nodes ctx !! i = Some n -> cnode_repr tr E i n;
}.

Section creation.
Context {C W : Type} (channel_create : Z -> list Z -> M W (Z * option C)) (alloc_ok : nat -> bool).
Context (tr : tree) (t : smlt_topology) (Ht : topo_repr tr t) (Hlen : Z.of_nat (t_len tr) < 2 ^ 32).
Context (Halloc : forall k, alloc_ok k = true).
(** [ok b w]: in the world [w] at least [b] more channels can be asked for; [res] is what
    the creation leaves, whether or not it succeeded. *)
Context (ok : nat -> W -> Prop) (res : nat -> nat -> option C -> Prop)
  (Hcreate : forall b w s d, ok (S b) w -> exists e oc w',
     channel_create (Z.of_nat s) [Z.of_nat d] w = (Ret (e, oc), w') /\ res s d oc /\ ok b w').
Abbreviation len := (t_len tr).
Abbreviation st := (@ctx_st C W).

(** What the entry of an edge holds. *)
Definition created (i k : nat) (oc : option C) : Prop :=
  exists y, t_kids tr i !! k = Some y /\ res i y oc.

Lemma topo_node_run i s :
  (i < len)%nat -> exists tn, topo_node (C := C) (W := W) t (Z.of_nat i) s = (Ret tn, s) /\ node_repr tr i tn.
Proof using Ht.
  intros Hi. rewrite <- (tr_length _ _ Ht) in Hi. destruct (lookup_lt_is_Some_2 _ _ Hi) as [tn E].
  exists tn. unfold topo_node. rewrite arr_get_nat, E. split; [done|]. by apply Ht.
Qed.

Lemma child_id_run i tn k y s :
  node_repr tr i tn -> (i < len)%nat -> t_kids tr i !! k = Some y ->
  child_id (C := C) (W := W) t (tn_children tn) (Z.of_nat k) s = (Ret (Z.of_nat y), s).
Proof using Ht.
  intros Hn Hi Hk. pose proof (nr_children _ _ _ Hn) as Hc.
  assert (Hy : (y < len)%nat) by (by apply (tw_kids _ (tr_wf _ _ Ht)) in Hk as [? _]).
  assert (Ha : default [] (tn_children tn) !! k = Some (Some (Z.of_nat y))).
  { assert (Hkl := lookup_lt_Some _ _ _ Hk).
    rewrite <- (lookup_take_lt _ (length (t_kids tr i))) by done.
    rewrite Hc, list_lookup_fmap, Hk. done. }
  unfold child_id. destruct (tn_children tn) as [a|]; [|done]. simpl in Ha.
  unfold mbind, M_bind. simpl. rewrite arr_get_nat, Ha. simpl.
  destruct (topo_node_run y s Hy) as (tn' & -> & Hn'). unfold mret, M_ret.
  unfold smlt_topology_node_get_id. by rewrite (nr_id _ _ _ Hn').
Qed.

(** The state while node [i]'s channels are being created: the first [k] are there. *)
Definition kid_inv (b : nat) (i : nat) (s0 : st) (k : nat) (s : st) : Prop :=
  cs_max_nid s = cs_max_nid s0 /\ cs_nids s = cs_nids s0 /\ ok (b - k) (cs_world s) /\
  exists a, cs_nodes s = <[i := CNode (Z.of_nat i) None (Some a) (Z.of_nat (length (t_kids tr i))) 0]> (cs_nodes s0) /\
    length a = length (t_kids tr i) /\
    (forall j oc, (j < k)%nat -> a !! j = Some oc -> created i j oc).

Lemma create_kid_run b i s0 tn k s :
  node_repr tr i tn -> (i < len)%nat -> (i < length (cs_nodes s0))%nat ->
  (k < length (t_kids tr i))%nat -> (k < b)%nat -> kid_inv b i s0 k s ->
  exists s', (dst ← child_id t (tn_children tn) (Z.of_nat k);
     create_child channel_create (Z.of_nat i) (Z.of_nat k) (smlt_topology_node_get_id tn) [dst]) s
    = (Ret tt, s') /\ kid_inv b i s0 (S k) s'.
Proof using Ht Hcreate.
  intros Hn Hi Hl Hk Hb (Hm & Hd & Hok & a & Ha & Hla & Hres).
  destruct (lookup_lt_is_Some_2 _ _ Hk) as [y Hy].
  rewrite (bind_ret _ _ _ _ _ (child_id_run i tn k y s Hn Hi Hy)).
  unfold smlt_topology_node_get_id. rewrite (nr_id _ _ _ Hn).
  replace (b - k)%nat with (S (b - S k)) in Hok by lia.
  destruct (Hcreate _ _ i y Hok) as (e & oc & w' & E & Hr & Hok').
  unfold create_child, in_world, zoom, cs_node, cs_upd, mbind, M_bind. rewrite E. simpl.
  rewrite Ha, arr_get_nat, list_lookup_insert_eq by done. simpl.
  rewrite arr_set_nat by lia. simpl.
  rewrite arr_get_nat, list_lookup_insert_eq by done. rewrite Nat2Z.id, list_insert_insert_eq.
  eexists. split; [reflexivity|]. split; [done|]. split; [done|]. split; [done|].
  eexists. split; [reflexivity|]. rewrite length_insert. split; [done|].
  intros j oc' Hj Hoc. destruct (decide (j = k)) as [->|D].
  - rewrite list_lookup_insert_eq in Hoc by lia. injection Hoc as <-. by exists y.
  - rewrite list_lookup_insert_ne in Hoc by done. apply Hres; [lia|done].
Qed.

(** Channels asked for by the [n] nodes from [i] on. *)
Fixpoint kids_sum (n i : nat) : nat :=
  match n with O => 0%nat | S n' => (length (t_kids tr i) + kids_sum n' (S i))%nat end.

Record node_inv (i : nat) (s : st) : Prop := {
  ni_max : cs_max_nid s = Z.of_nat (i - 1);
  ni_len : length (cs_nodes s) = len;
  ni_ok : ok (kids_sum (len - i) i) (cs_world s);
  ni_done j n : cs_nodes s !! j = Some n -> (j < i)%nat -> cnode_at tr created j None n;
  ni_todo j n : cs_nodes s !! j = Some n -> (i <= j)%nat -> n = zero_cnode;
}.

Lemma cs_upd_run (s : st) i n f :
  cs_nodes s !! i = Some n ->
  cs_upd (Z.of_nat i) f s = (Ret tt, CS (cs_allocs s) (cs_world s) (cs_max_nid s) (cs_nids s)
                                        (<[i := f n]> (cs_nodes s))).
Proof using Type. intros E. unfold cs_upd. by rewrite arr_get_nat, E, Nat2Z.id. Qed.

(** The child channels of one node. *)
Lemma create_kids_run b i tn (s : st) :
  node_repr tr i tn -> (i < len)%nat -> length (cs_nodes s) = len ->
  (length (t_kids tr i) <= b)%nat -> ok b (cs_world s) ->
  cs_nodes s !! i = Some (CNode (Z.of_nat i) None None (Z.of_nat (length (t_kids tr i))) 0) ->
  exists s', (if negb (tn_num_children tn =? 0) then
         a ← alloc_array alloc_ok (if tn_use_shm tn then u32 (tn_num_children tn + 1) else tn_num_children tn);
         _ ← cs_upd (Z.of_nat i) (cn_set_children a);
         _ ← assert_ (bool_decide (is_Some a));
         let '(children, num_children) := smlt_topology_node_children tn in
         mfor (Z.to_nat num_children) 0 (fun k =>
           dst ← child_id t children k;
           create_child channel_create (Z.of_nat i) k (smlt_topology_node_get_id tn) [dst])
       else mret tt) s = (Ret tt, s') /\
    cs_max_nid s' = cs_max_nid s /\ ok (b - length (t_kids tr i)) (cs_world s') /\
    exists n, cs_nodes s' = <[i := n]> (cs_nodes s) /\ cnode_at tr created i None n.
Proof using Type*.
  intros Hn Hi Hl Hb Hok Hz. rewrite (nr_num _ _ _ Hn), (nr_shm _ _ _ Hn).
  destruct (Z.eqb_spec (Z.of_nat (length (t_kids tr i))) 0) as [E0|E0]; simpl.
  - eexists. split; [reflexivity|]. split; [done|].
    replace (b - length (t_kids tr i))%nat with b by lia. split; [done|].
    eexists. split; [by rewrite (list_insert_id _ _ _ Hz)|].
    split; simpl; try done; lia.
  - unfold smlt_topology_node_children. rewrite (nr_num _ _ _ Hn), Nat2Z.id.
    set (ch := replicate (length (t_kids tr i)) (@None C)).
    set (s1 := CS (S (cs_allocs s)) (cs_world s) (cs_max_nid s) (cs_nids s)
      (<[i := CNode (Z.of_nat i) None (Some ch) (Z.of_nat (length (t_kids tr i))) 0]> (cs_nodes s)) : st).
    assert (H0 : kid_inv b i s 0 s1).
    { split; [done|]. split; [done|]. split; [by rewrite Nat.sub_0_r|].
      eexists. split; [reflexivity|]. split; [apply length_replicate|]. intros; lia. }
    destruct (mfor_inv (fun k => dst ← child_id t (tn_children tn) k;
        create_child channel_create (Z.of_nat i) k (smlt_topology_node_get_id tn) [dst])
      (kid_inv b i s) (length (t_kids tr i)) s1 H0) as (s2 & E & Hm & Hd & Hok2 & a & Ha & Hla & Hres).
    { intros k sk Hk Ik. apply (create_kid_run b i s tn k sk); try done; lia. }
    exists s2. split.
    + etransitivity; [eapply bind_ret; unfold alloc_array; by rewrite Halloc, Nat2Z.id|].
      etransitivity; [eapply bind_ret; apply (cs_upd_run _ i); exact Hz|].
      etransitivity; [eapply bind_ret; reflexivity|]. exact E.
    + split; [done|]. split; [done|]. eexists. split; [exact Ha|].
      split; simpl; try done. intros k oc Hk. apply Hres; [|done].
      rewrite <- Hla. by eapply lookup_lt_Some.
Qed.

Lemma context_node_run i (s : st) :
  (i < len)%nat -> node_inv i s ->
  exists s', context_node channel_create alloc_ok t (Z.of_nat i) s = (Ret tt, s') /\ node_inv (S i) s'.
Proof using Type*.
  intros Hi [Hm Hl Hok Hdone Htodo]. destruct (topo_node_run i s Hi) as (tn & E & Hn).
  destruct (lookup_lt_is_Some_2 (cs_nodes s) i) as [n0 Hz]; [lia|].
  pose proof (Htodo i n0 Hz ltac:(lia)) as ->.
  replace (len - i)%nat with (S (len - S i)) in Hok by lia. cbn [kids_sum] in Hok.
  set (s1 := CS (cs_allocs s) (cs_world s) (cs_max_nid s) (cs_nids s)
    (<[i := CNode (Z.of_nat i) None None (Z.of_nat (length (t_kids tr i))) 0]> (cs_nodes s)) : st).
  destruct (create_kids_run _ i tn s1 Hn Hi ltac:(simpl; by rewrite length_insert)
    (Nat.le_add_r _ _) Hok ltac:(simpl; apply list_lookup_insert_eq; lia))
    as (s2 & E2 & Hm2 & Hok2 & n & Hn2 & Hc).
  exists (if cs_max_nid s2 <? Z.of_nat i then cs_set_max_nid (Z.of_nat i) s2 else s2). split.
  - unfold context_node. rewrite (bind_ret _ _ _ _ _ E).
    unfold smlt_topology_node_get_id, smlt_topology_node_get_num_children, smlt_topology_node_use_shm in *.
    rewrite (nr_id _ _ _ Hn) in E2 |- *.
    rewrite (bind_ret _ _ _ _ _ (cs_upd_run s i zero_cnode _ Hz)).
    etransitivity; [eapply bind_ret; apply (cs_upd_run _ i), list_lookup_insert_eq; lia|].
    cbn [cs_nodes cs_allocs cs_world cs_max_nid cs_nids]. rewrite list_insert_insert_eq, (nr_num _ _ _ Hn).
    rewrite (nr_num _ _ _ Hn) in E2. rewrite (bind_ret _ _ _ _ _ E2).
    rewrite (nr_shm _ _ _ Hn), andb_false_r. done.
  - assert (Hnodes : cs_nodes s2 = <[i := n]> (cs_nodes s)) by (rewrite Hn2; apply list_insert_insert_eq).
    assert (Hs' : forall A (f : st -> A), f s2 = f (cs_set_max_nid (Z.of_nat i) s2) ->
      f (if cs_max_nid s2 <? Z.of_nat i then cs_set_max_nid (Z.of_nat i) s2 else s2) = f s2)
      by (intros A f Hf; by destruct (_ <? _)).
    split.
    + change (cs_max_nid s2 = cs_max_nid s) in Hm2. destruct (Z.ltb_spec (cs_max_nid s2) (Z.of_nat i)); simpl; lia.
    + rewrite (Hs' _ cs_nodes) by done. by rewrite Hnodes, length_insert.
    + rewrite (Hs' _ cs_world) by done. by rewrite Nat.add_comm, Nat.add_sub in Hok2.
    + rewrite (Hs' _ cs_nodes) by done. rewrite Hnodes. intros j m.
      destruct (decide (j = i)) as [->|D].
      * rewrite list_lookup_insert_eq by lia. by intros [= <-].
      * rewrite list_lookup_insert_ne by done. intros Hj ?. apply Hdone; [done|lia].
    + rewrite (Hs' _ cs_nodes) by done. rewrite Hnodes. intros j m Hj ?.
      rewrite list_lookup_insert_ne in Hj by lia. apply (Htodo j); [done|lia].
Qed.

(** The map from node ids to nodes after [i] entries. *)
Definition nids_upto (i : nat) : list (option Z) :=
  tab len (fun j => if decide (j < i)%nat then Some (Z.of_nat j) else None).

Lemma nids_zero : nids_upto 0 = replicate len None.
Proof using Type.
  rewrite <- tab_const. apply tab_ext. intros j Hj. by rewrite decide_False by lia.
Qed.

Lemma nids_next i : <[i := Some (Z.of_nat i)]> (nids_upto i) = nids_upto (S i).
Proof using Type.
  unfold nids_upto. rewrite tab_insert. apply tab_ext. intros j Hj.
  repeat case_decide; subst; try done; lia.
Qed.

Lemma enter_nids_run (s : st) :
  cs_nids s = nids_upto 0 -> length (cs_nodes s) = len ->
  (forall j n, cs_nodes s !! j = Some n -> cn_node_id n = Z.of_nat j) ->
  mfor len 0 enter_nid s = (Ret tt, cs_set_nids (nids_upto len) s).
Proof using Type*.
  intros Hd Hl Hid. apply (mfor_run _ (fun i => cs_set_nids (nids_upto i) s)); [|done|].
  - rewrite <- Hd. by destruct s.
  - intros i Hi. destruct (lookup_lt_is_Some_2 (cs_nodes s) i) as [n Hn]; [lia|].
    unfold enter_nid, cs_node, gets, mbind, M_bind. simpl. rewrite arr_get_nat, Hn. simpl.
    rewrite (Hid _ _ Hn), arr_set_nat by (unfold nids_upto; by rewrite length_tab). simpl.
    by rewrite nids_next.
Qed.

(** The state while the parent pointers are being set. *)
Record parent_inv (mx : Z) (i : nat) (s : st) : Prop := {
  pi_max : cs_max_nid s = mx;
  pi_nids : cs_nids s = nids_upto len;
  pi_len : length (cs_nodes s) = len;
  pi_nodes j n : cs_nodes s !! j = Some n ->
    cnode_at tr created j (if decide (j < i)%nat then par_ref tr j else None) n;
}.

Lemma node_of_nid_run i (s : st) :
  (i < len)%nat -> cs_nids s = nids_upto len -> node_of_nid (Z.of_nat i) s = (Ret (Z.of_nat i), s).
Proof using Type*.
  intros Hi Hd. unfold node_of_nid, gets, mbind, M_bind. simpl. rewrite Hd. unfold nids_upto.
  rewrite arr_get_tab, decide_True by done. done.
Qed.

Lemma set_parent_run mx i (s : st) :
  (i < len)%nat -> parent_inv mx i s ->
  exists s', set_parent_channel t (Z.of_nat i) s = (Ret tt, s') /\ parent_inv mx (S i) s'.
Proof using Type*.
  intros Hi [Hm Hd Hl Hnodes]. destruct (topo_node_run i s Hi) as (tn & E & Hn).
  pose proof (tr_wf _ _ Ht) as Hwf.
  unfold set_parent_channel. rewrite (bind_ret _ _ _ _ _ E). clear E.
  unfold smlt_topology_node_is_root, smlt_topology_node_parent. rewrite (nr_parent _ _ _ Hn).
  destruct (t_par tr i) as [[p k]|] eqn:Ep; simpl.
  - assert (Hp : (p < len)%nat).
    { destruct (decide (i = t_root tr)) as [->|D]; [by rewrite tw_par_root in Ep|].
      destruct (tw_par _ Hwf i Hi D) as (p' & k' & E' & Hp). congruence. }
    assert (Hk : t_kids tr p !! k = Some i) by (by apply tw_kids).
    destruct (topo_node_run p s Hp) as (tp & E & Htp).
    destruct (lookup_lt_is_Some_2 (cs_nodes s) p) as [np Hnp]; [lia|].
    destruct (lookup_lt_is_Some_2 (cs_nodes s) i) as [n0 Hn0]; [lia|].
    destruct (lookup_lt_is_Some_2 (default [] (cn_children np)) k) as [oc Hoc].
    { rewrite (cr_len _ _ _ _ _ (Hnodes _ _ Hnp)). by eapply lookup_lt_Some. }
    unfold smlt_topology_node_get_id, smlt_topology_node_use_shm, smlt_topology_node_get_child_idx.
    unfold mbind, M_bind. simpl. rewrite E.
    rewrite (nr_id _ _ _ Htp), (nr_id _ _ _ Hn), !node_of_nid_run by done. rewrite (nr_shm _ _ _ Htp).
    rewrite (nr_index _ _ _ Hn _ _ Ep).
    unfold child_chan, cs_node, mbind, M_bind. simpl. rewrite arr_get_nat, Hnp. simpl.
    destruct (cn_children np) as [a|]; [|done]. simpl in *. rewrite arr_get_nat, Hoc. simpl.
    rewrite (cs_upd_run _ i n0 _ Hn0). eexists. split; [reflexivity|].
    split; simpl; [done|done|by rewrite length_insert|]. intros j n Hj.
    destruct (decide (j = i)) as [->|D].
    + rewrite list_lookup_insert_eq in Hj by lia. injection Hj as <-. rewrite decide_True by lia.
      unfold par_ref. rewrite Ep. destruct (Hnodes _ _ Hn0). by split.
    + rewrite list_lookup_insert_ne in Hj by done. specialize (Hnodes _ _ Hj).
      destruct (decide (j < i)%nat); [by rewrite decide_True by lia|by rewrite decide_False by lia].
  - eexists. split; [reflexivity|]. split; [done..|]. intros j n Hj. specialize (Hnodes _ _ Hj).
    destruct (decide (j = i)) as [->|D].
    + rewrite decide_False in Hnodes by lia. rewrite decide_True by lia. unfold par_ref. by rewrite Ep.
    + destruct (decide (j < i)%nat); [by rewrite decide_True by lia|by rewrite decide_False by lia].
Qed.

Lemma context_create_run w :
  ok (kids_sum len 0) w ->
  exists ctx w', smlt_context_create channel_create alloc_ok (Some t) w =
    (Ret (err_value SMLT_SUCCESS, Some ctx), w') /\ ctx_repr tr created ctx.
Proof using Type*.
  intros Hok. pose proof (tr_wf _ _ Ht) as Hwf. pose proof (tw_root _ Hwf) as Hroot.
  unfold smlt_context_create. rewrite Halloc. simpl.
  unfold smlt_topology_get_num_nodes. rewrite (tr_num _ _ Ht), !Nat2Z.id.
  set (s0 := CS 1 w 0 [] (replicate len zero_cnode)).
  destruct (mfor_inv (context_node channel_create alloc_ok t) node_inv len s0) as (s1 & E1 & I1).
  { split; simpl; try done.
    - apply length_replicate.
    - by rewrite Nat.sub_0_r.
    - intros j n Hj. lia.
    - intros j n Hj _. by apply lookup_replicate in Hj as [-> _]. }
  { intros i s Hi I. by apply context_node_run. }
  destruct I1 as [Hm Hl _ Hdone _].
  set (s2 := cs_set_nids (nids_upto 0)
    (CS (S (cs_allocs s1)) (cs_world s1) (cs_max_nid s1) (cs_nids s1) (cs_nodes s1)) : st).
  assert (E2 : mfor len 0 enter_nid s2 = (Ret tt, cs_set_nids (nids_upto len) s2)).
  { apply enter_nids_run; [done..|]. intros j n Hj.
    apply (cr_id _ _ _ _ _ (Hdone j n Hj ltac:(rewrite <- Hl; by eapply lookup_lt_Some))). }
  set (s3 := cs_set_nids (nids_upto len) s2) in *.
  destruct (mfor_inv (set_parent_channel t) (parent_inv (Z.of_nat (len - 1))) len s3) as (s4 & E4 & I4).
  { split; try done. intros j n Hj. rewrite decide_False by lia. apply Hdone; [done|].
    rewrite <- Hl. by eapply lookup_lt_Some. }
  { intros i s Hi I. by apply set_parent_run. }
  exists (Ctx (Z.of_nat len) (cs_max_nid s4) (cs_nids s4) (cs_nodes s4)), (cs_world s4).
  split.
  - assert (Hwrap : Z.to_nat (u32 (cs_max_nid s1 + 1)) = len)
      by (rewrite Hm, (wrap_small 32) by lia; lia).
    match goal with |- context [let '(_, _) := ?m in _] => assert (Em : m = (Ret tt, s4)) end.
    { rewrite (bind_ret _ _ _ _ _ E1). rewrite (bind_ret (gets _) _ _ _ _ eq_refl).
      etransitivity; [eapply bind_ret; unfold alloc_array; by rewrite Halloc|]. cbv beta iota.
      rewrite (bind_ret (mret _) _ _ _ _ eq_refl), (bind_ret (modify _) _ _ tt _ eq_refl).
      rewrite Hwrap, <- nids_zero.
      etransitivity; [eapply bind_ret; exact E2|exact E4]. }
    rewrite Em. done.
  - destruct I4 as [Hm4 Hd4 Hl4 Hn4]. split; simpl; try done.
    + rewrite Hd4. apply tab_ext. intros i Hi. by rewrite decide_True by done.
    + intros i n Hi. specialize (Hn4 i n Hi). rewrite decide_True in Hn4; [done|].
      rewrite <- Hl4. by eapply lookup_lt_Some.
Qed.
End creation.

(** ** Contexts over channels *)
Section accessor_lemmas.
Context {C : Type} (tr : tree) (E : nat -> nat -> option C -> Prop) (ctx : smlt_context C).
Context (Hc : ctx_repr tr E ctx) (i : nat) (Hi : (i < t_len tr)%nat).

Lemma cx_node_run :
  exists n, cx_node_of_nid ctx (Z.of_nat i) = Some (Z.of_nat i, n) /\
    cx_all_nodes ctx !! i = Some n /\ cnode_repr tr E i n.
Proof using Type*.
  destruct (lookup_lt_is_Some_2 (cx_all_nodes ctx) i) as [n Hn]; [by rewrite (cxr_len _ _ _ Hc)|].
  exists n. split; [|split; [done|by apply (cxr_nodes _ _ _ Hc)]].
  unfold cx_node_of_nid. rewrite (cxr_nids _ _ _ Hc), arr_get_tab by done. simpl.
  by rewrite arr_get_nat, Hn.
Qed.

Lemma nid_in_range : (cx_max_nid ctx <? Z.of_nat i) = false.
Proof using Type*. rewrite (cxr_max _ _ _ Hc). apply Z.ltb_ge. lia. Qed.

Lemma get_children_run :
  smlt_context_node_get_children_channels ctx (Z.of_nat i) =
    Some (err_value SMLT_SUCCESS, (Z.of_nat i, Z.of_nat (length (t_kids tr i)))).
Proof using Type*.
  unfold smlt_context_node_get_children_channels. rewrite nid_in_range.
  destruct cx_node_run as (n & -> & _ & Hn). simpl. by rewrite (cr_num _ _ _ _ _ Hn).
Qed.

Lemma get_parent_run :
  smlt_context_node_get_parent_channel ctx (Z.of_nat i) =
    Some (err_value SMLT_SUCCESS, par_ref tr i).
Proof using Type*.
  unfold smlt_context_node_get_parent_channel. rewrite nid_in_range.
  destruct cx_node_run as (n & -> & _ & Hn). simpl. by rewrite (cr_parent _ _ _ _ _ Hn).
Qed.

Lemma is_root_run :
  smlt_context_node_is_root ctx (Z.of_nat i) = Some (bool_decide (i = t_root tr)).
Proof using Type*.
  unfold smlt_context_node_is_root. rewrite nid_in_range.
  destruct cx_node_run as (n & -> & _ & Hn). simpl. rewrite (cr_parent _ _ _ _ _ Hn).
  f_equal. apply bool_decide_ext. unfold par_ref. pose proof (cxr_wf _ _ _ Hc) as Hwf. split.
  - intros Hp. destruct (decide (i = t_root tr)) as [|D]; [done|].
    destruct (tw_par _ Hwf i Hi D) as (x & k & E' & _). by rewrite E' in Hp.
  - intros ->. by rewrite (tw_par_root _ Hwf).
Qed.

Lemma child_idx_run : smlt_context_node_get_child_idx ctx (Z.of_nat i) = Some 0.
Proof using Type*.
  unfold smlt_context_node_get_child_idx.
  destruct cx_node_run as (n & -> & _ & Hn). simpl. by rewrite (cr_index _ _ _ _ _ Hn).
Qed.

Lemma is_leaf_run :
  smlt_context_node_is_leaf ctx (Z.of_nat i) = Some (bool_decide (t_kids tr i = [])).
Proof using Type*.
  unfold smlt_context_node_is_leaf. rewrite nid_in_range.
  destruct cx_node_run as (n & -> & _ & Hn). simpl. rewrite (cr_num _ _ _ _ _ Hn). f_equal.
  destruct (t_kids tr i); [done|]. by rewrite bool_decide_false.
Qed.
End accessor_lemmas.

(** The allocator's answers while the channels are created: per channel the two queue
    pairs and the two rings. *)
Fixpoint alloc_script (l : list (Z * Z * (Z * Z))) : list (option Z) :=
  match l with
  | [] => []
  | (p1, p2, (r1, r2)) :: l' => Some p1 :: Some p2 :: Some r1 :: Some r2 :: alloc_script l'
  end.
Definition good_rings (a : Z * Z * (Z * Z)) : Prop :=
  good_buf a.2.1 /\ good_buf a.2.2 /\ a.2.1 <> a.2.2.

Definition channels_left (b : nat) (w : qp_world) : Prop :=
  exists l rest live ur fr sr, w = QW (AllocSt (alloc_script l ++ rest) live) ur fr sr /\
    (b <= length l)%nat /\ Forall good_rings l.

(** An edge whose two queues are empty, owned by the parent. *)
Definition fresh_edge (s d : nat) (oc : option smlt_channel) : Prop :=
  exists c, oc = Some c /\ edge (Z.of_nat s) c Src [] [] /\ ch_trg c = Z.of_nat d.

Lemma channel_create_empty alloc numa node_of mal ctx_ok b w s d :
  channels_left (S b) w ->
  exists c w', smlt_channel_create alloc numa node_of mal ctx_ok [s] [d] 1 1 w =
      (Ret (err_value SMLT_SUCCESS, Some c), w') /\
    edge s c Src [] [] /\ ch_trg c = d /\ channels_left b w'.
Proof.
  intros (l & rest & live & ur & fr & sr & -> & Hl & Hg).
  destruct l as [|[[p1 p2] [r1 r2]] l]; [simpl in Hl; lia|].
  apply Forall_cons in Hg as [(G1 & G2 & Hne) Hg]. simpl in *.
  destruct (init_ok p1 p2 64 zero_queuepair zero_queuepair ltac:(lia) r1 r2 (alloc_script l ++ rest)
    (p2 :: p1 :: live) ur G1 G2 Hne) as (sd & rs' & E & _ & _ & I).
  eexists _, _. split.
  { unfold smlt_channel_create, smlt_queuepair_create, qp_init, qw_on_alloc, qw_on_ump, zoom,
      assert_, get, mbind, M_bind. simpl.
    change SMLT_UMP_DEFAULT_SLOTS with 64. rewrite E. simpl. reflexivity. }
  split.
  - exists (mk_pair sd rs').
    repeat (split; [done|]). destruct (I 0%nat Src) as [[H1 _] [H2 _]]. by split.
  - split; [done|]. exists l, rest, (r2 :: r1 :: p2 :: p1 :: live), rs', fr, sr. split; [done|]. split; [lia|done].
Qed.

Lemma channel_create_fresh alloc numa node_of mal ctx_ok b w s d :
  channels_left (S b) w ->
  exists e oc w', smlt_channel_create alloc numa node_of mal ctx_ok [Z.of_nat s] [Z.of_nat d] 1 1 w =
      (Ret (e, oc), w') /\ fresh_edge s d oc /\ channels_left b w'.
Proof.
  intros Hw. destruct (channel_create_empty alloc numa node_of mal ctx_ok b w (Z.of_nat s) (Z.of_nat d) Hw)
    as (c & w' & E & He & Ht & Hw'). eexists _, _, _. split; [exact E|]. split; [by exists c|done].
Qed.

(** The channel a reference points to. *)
Definition ctx_chan {C} (ctx : smlt_context C) (r : chan_ref) : option C :=
  n ← arr_get (cx_all_nodes ctx) r.1;
  a ← cn_children n;
  oc ← arr_get a r.2;
  oc.

Lemma ctx_chan_edge {C} tr (E : nat -> nat -> option C -> Prop) ctx x k y :
  ctx_repr tr E ctx -> (x < t_len tr)%nat -> t_kids tr x !! k = Some y ->
  exists oc, ctx_chan ctx (Z.of_nat x, Z.of_nat k) = oc /\ E x k oc.
Proof.
  intros Hc Hx Hk. destruct (cx_node_run tr E ctx Hc x Hx) as (n & _ & Hn & Hr).
  unfold ctx_chan. simpl. rewrite arr_get_nat, Hn. simpl.
  destruct (lookup_lt_is_Some_2 (default [] (cn_children n)) k) as [oc Hoc].
  { rewrite (cr_len _ _ _ _ _ Hr). by eapply lookup_lt_Some. }
  destruct (cn_children n) as [a|] eqn:Ea; [|done]. simpl in *. rewrite arr_get_nat, Hoc. simpl.
  exists oc. split; [done|]. apply (cr_entries _ _ _ _ _ Hr). by rewrite Ea.
Qed.

(** The creation of a channel as the context calls it. *)
Definition create_channel_1n alloc numa node_of mal ctx_ok (s : Z) (ds : list Z) :=
  smlt_channel_create alloc numa node_of mal ctx_ok [s] ds 1 (Z.of_nat (length ds)).

(** [C22] A context is a tree of channels: for a topology that represents an ordered
    tree, and when the allocations succeed, [smlt_context_create] succeeds, and in
    the context it returns a node is the root exactly when it is the tree's root and
    a leaf exactly when it has no children; the channel array of a node has one
    channel per child, in order; and the parent channel of a node is the very channel
    in its parent's array at its position - owned by the parent, with the node as its
    target, and empty in both directions. *)
Theorem context_edges tr t alloc_ok alloc numa node_of mal ctx_ok w :
  topo_repr tr t -> Z.of_nat (t_len tr) < 2 ^ 32 -> (forall k, alloc_ok k = true) ->
  channels_left (kids_sum tr (t_len tr) 0) w ->
  exists ctx w',
    smlt_context_create (create_channel_1n alloc numa node_of mal ctx_ok) alloc_ok (Some t) w =
      (Ret (err_value SMLT_SUCCESS, Some ctx), w') /\
    (forall x, (x < t_len tr)%nat ->
       smlt_context_node_is_root ctx (Z.of_nat x) = Some (bool_decide (x = t_root tr)) /\
       smlt_context_node_is_leaf ctx (Z.of_nat x) = Some (bool_decide (t_kids tr x = [])) /\
       smlt_context_node_get_children_channels ctx (Z.of_nat x) =
         Some (err_value SMLT_SUCCESS, (Z.of_nat x, Z.of_nat (length (t_kids tr x)))) /\
       smlt_context_node_get_parent_channel ctx (Z.of_nat x) = Some (err_value SMLT_SUCCESS, par_ref tr x)) /\
    (forall x k y, (x < t_len tr)%nat -> t_kids tr x !! k = Some y ->
       par_ref tr y = Some (Z.of_nat x, Z.of_nat k) /\
       fresh_edge x y (ctx_chan ctx (Z.of_nat x, Z.of_nat k))).
Proof.
  intros Ht Hlen Ha Hw.
  destruct (context_create_run (create_channel_1n alloc numa node_of mal ctx_ok) alloc_ok tr t Ht Hlen Ha
    channels_left fresh_edge) with (w := w) as (ctx & w' & E & Hc); [|done|].
  { intros b w0 s d Hb. by apply channel_create_fresh. }
  exists ctx, w'. split; [done|]. split.
  - intros x Hx. split_and!.
    + by apply (is_root_run tr _ ctx Hc).
    + by apply (is_leaf_run tr _ ctx Hc).
    + by apply (get_children_run tr _ ctx Hc).
    + by apply (get_parent_run tr _ ctx Hc).
  - intros x k y Hx Hk. split.
    + apply (tw_kids _ (tr_wf _ _ Ht)) in Hk as [_ Hp]; [|done]. unfold par_ref. by rewrite Hp.
    + destruct (ctx_chan_edge tr _ ctx x k y Hc Hx Hk) as (oc & -> & y' & Hk' & Hf). by simplify_eq.
Qed.

(** Two channels' worth of allocations. *)
Definition two_scripts : list (Z * Z * (Z * Z)) := [(64, 128, (4096, 8192)); (192, 256, (12288, 16384))].
Definition two_channels_world : qp_world :=
  QW (AllocSt (alloc_script two_scripts ++ []) []) ∅ ∅ ∅.

Lemma two_channels_left : channels_left 2 two_channels_world.
Proof.
  exists two_scripts, [], [], ∅, ∅, ∅. split; [done|]. split; [done|].
  repeat constructor; vm_compute; done.
Qed.

Lemma context_edges_witness :
  exists t, smlt_topology_create (fun _ => true) 3 None "bin" = Ret (err_value SMLT_SUCCESS, t) /\
  exists ctx w',
    smlt_context_create (create_channel_1n (fun _ => None) (fun _ _ => None) (fun _ => 0) true (fun _ => true))
      (fun _ => true) (Some t) two_channels_world = (Ret (err_value SMLT_SUCCESS, Some ctx), w') /\
    fresh_edge 0 2 (ctx_chan ctx (0, 1)).
Proof.
  destruct (create_binary_tree (fun _ => true) 3 "bin" ltac:(lia) ltac:(lia) (fun _ => eq_refl))
    as (t & E & Ht & _).
  exists t. split; [exact E|].
  destruct (context_edges (bin_tree 3) t (fun _ => true) (fun _ => None) (fun _ _ => None) (fun _ => 0)
    true (fun _ => true) two_channels_world Ht ltac:(done) (fun _ => eq_refl) two_channels_left)
    as (ctx & w' & Ec & _ & Hf).
  exists ctx, w'. split; [exact Ec|]. apply (Hf 0%nat 1%nat 2%nat); [simpl; lia|reflexivity].
Defined.

(** The context hides failures: [smlt_context_create] ignores the error of
    [smlt_channel_create], so when there is no memory for any channel it still reports
    success, with child arrays of the right size whose channels do not exist. *)
Lemma context_hides_failure tr t alloc_ok alloc numa node_of mal ctx_ok live ur fr sr :
  topo_repr tr t -> Z.of_nat (t_len tr) < 2 ^ 32 -> (forall k, alloc_ok k = true) ->
  exists ctx w',
    smlt_context_create (create_channel_1n alloc numa node_of mal ctx_ok) alloc_ok (Some t)
      (QW (AllocSt [] live) ur fr sr) = (Ret (err_value SMLT_SUCCESS, Some ctx), w') /\
    forall x k y, (x < t_len tr)%nat -> t_kids tr x !! k = Some y ->
      smlt_context_node_get_parent_channel ctx (Z.of_nat y) =
        Some (err_value SMLT_SUCCESS, Some (Z.of_nat x, Z.of_nat k)) /\
      ctx_chan ctx (Z.of_nat x, Z.of_nat k) = None.
Proof.
  intros Ht Hlen Ha.
  destruct (context_create_run (create_channel_1n alloc numa node_of mal ctx_ok) alloc_ok tr t Ht Hlen Ha
    (fun _ w => exists live ur fr sr, w = QW (AllocSt [] live) ur fr sr) (fun _ _ oc => oc = None))
    with (w := QW (AllocSt [] live) ur fr sr) as (ctx & w' & E & Hc).
  { intros b w0 s d (live0 & ur0 & fr0 & sr0 & ->).
    eexists _, _, _. split; [vm_compute; reflexivity|]. split; [done|]. by do 4 eexists. }
  { by do 4 eexists. }
  exists ctx, w'. split; [done|]. intros x k y Hx Hk. split.
  - apply (tw_kids _ (tr_wf _ _ Ht)) in Hk as [Hy Hp]; [|done].
    rewrite (get_parent_run tr _ ctx Hc) by done. unfold par_ref. by rewrite Hp.
  - destruct (ctx_chan_edge tr _ ctx x k y Hc Hx Hk) as (oc & -> & y' & _ & ->). done.
Qed.

