(* ===== verification/Process.v ===== *)
(** Threads that communicate over the channels of a context.

    A collective operation is a program: a tree of channel operations with loops.
    The system interleaves one program per node, one operation at a time.  Programs
    are related to abstract threads, whose actions are sends, receives and polls on
    the queues of the tree's edges ([astep]); the simulation theorem lets the
    collectives be verified on the abstract machine.  The last part is the
    termination argument for fair schedules. *)
From S2P Require Import Prelude Errors Message Fifo Pair UmpQueue UmpQueuepair.
From S2P Require Import Queuepair Channel Edge.

(** ** Programs *)

(** An operation on the channel a reference points to, and the type of its result. *)
Inductive chan_ev : Type -> Type :=
| EvSend (c : chan_ref) (msg : smlt_msg) : chan_ev Z
| EvNotify (c : chan_ref) : chan_ev Z
| EvRecv (c : chan_ref) (msg : smlt_msg) : chan_ev (Z * smlt_msg)
| EvRecvIndex (c : chan_ref) (msg : smlt_msg) (index : Z) : chan_ev (Z * smlt_msg)
| EvRecvNotification (c : chan_ref) : chan_ev Z
| EvCanRecv (c : chan_ref) : chan_ev bool.

(** Straight-line code. *)
Inductive sprog (A : Type) : Type :=
| SRet (a : A)
| SEv {X} (e : chan_ev X) (k : X -> sprog A)
| SPanic
| SUndef.
Arguments SRet {A} a. Arguments SEv {A X} e k. Arguments SPanic {A}. Arguments SUndef {A}.

(** [PLoop body s k]: inside an iteration of a loop, with [s] left to do; the iteration
    ends with the next loop state or with the loop's result. *)
Inductive prog (A : Type) : Type :=
| PRet (a : A)
| PEv {X} (e : chan_ev X) (k : X -> prog A)
| PLoop {L R} (body : L -> sprog (L + R)) (s : sprog (L + R)) (k : R -> prog A)
| PPanic
| PUndef.
Arguments PRet {A} a. Arguments PEv {A X} e k. Arguments PLoop {A L R} body s k.
Arguments PPanic {A}. Arguments PUndef {A}.

Fixpoint pbind {A B} (f : A -> prog B) (p : prog A) : prog B :=
  match p with
  | PRet a => f a
  | PEv e k => PEv e (fun x => pbind f (k x))
  | PLoop body s k => PLoop body s (fun r => pbind f (k r))
  | PPanic => PPanic
  | PUndef => PUndef
  end.
#[export] Instance prog_ret : MRet prog := fun A a => PRet a.
#[export] Instance prog_bind : MBind prog := fun A B f p => pbind f p.
Definition pev {X} (e : chan_ev X) : prog X := PEv e PRet.
(** A call that is under way. *)
Definition running {A} (p : prog A) : Prop :=
  match p with PEv _ _ | PLoop _ _ _ => True | _ => False end.
(** A read of the context that is undefined when it yields [None]. *)
Definition of_ctx {A X} (o : option X) (k : X -> prog A) : prog A :=
  match o with Some x => k x | None => PUndef end.

(** ** Execution *)

(** Where the channels are: how an operation on the channel at a reference changes the
    state [W] that holds them all. *)
Class ChanStore (C W : Type) := with_chan : forall A, chan_ref -> M C A -> M W A.
Arguments with_chan {C W _ A}.

Section exec.
Context {C W : Type} {HS : ChanStore C W} {HC : ChanOps C}.

Definition run_ev {X} (self : Z) (e : chan_ev X) : M W X :=
  match e in chan_ev X return M W X with
  | EvSend r msg => with_chan r (c_send self msg)
  | EvNotify r => with_chan r (c_notify self)
  | EvRecv r msg => with_chan r (c_recv self msg)
  | EvRecvIndex r msg i => with_chan r (c_recv_index self msg i)
  | EvRecvNotification r => with_chan r (c_recv_notification self)
  | EvCanRecv r => with_chan r (c_can_recv self)
  end.

(** One step of a program; an operation that spins is tried again. *)
Definition step_ev {A X} (self : Z) (e : chan_ev X) (k : X -> prog A) (again : prog A)
    (w : W) : prog A * W :=
  match run_ev self e w with
  | (Ret x, w') => (k x, w')
  | (Spin, w') => (again, w')
  | (Panic, w') => (PPanic, w')
  | (Undef, w') => (PUndef, w')
  end.
Definition step_prog {A} (self : Z) (p : prog A) (w : W) : prog A * W :=
  match p with
  | PRet a => (PRet a, w)
  | PEv e k => step_ev self e k p w
  | PLoop body s k =>
      match s with
      | SRet (inl l) => (PLoop body (body l) k, w)
      | SRet (inr r) => (k r, w)
      | SEv e k' => step_ev self e (fun x => PLoop body (k' x) k) p w
      | SPanic => (PPanic, w)
      | SUndef => (PUndef, w)
      end
  | PPanic => (PPanic, w)
  | PUndef => (PUndef, w)
  end.

(** One thread per node: its program; thread [i] has node id [ids i]. *)
Record sys (A : Type) := Sys { sy_threads : list (prog A); sy_store : W }.
Arguments Sys {A}. Arguments sy_threads {A}. Arguments sy_store {A}.

Definition sys_step {A} (ids : nat -> Z) (s : sys A) (i : nat) : sys A :=
  match sy_threads s !! i with
  | Some p => let '(p', w') := step_prog (ids i) p (sy_store s) in
              Sys (<[i := p']> (sy_threads s)) w'
  | None => s
  end.
Definition sys_run {A} (ids : nat -> Z) (s : sys A) (sched : list nat) : sys A := foldl (sys_step ids) s sched.
End exec.
Arguments Sys {W A}. Arguments sy_threads {W A}. Arguments sy_store {W A}. Arguments sys W A : clear implicits.

Lemma sys_run_length {C W} {HS : ChanStore C W} {HC : ChanOps C} {A} ids (s : sys W A) sched :
  length (sy_threads (sys_run (C := C) ids s sched)) = length (sy_threads s).
Proof.
  revert s. induction sched as [|i sched IH]; intros s; [done|]. unfold sys_run in *. simpl. rewrite IH.
  unfold sys_step. destruct (sy_threads s !! i); [|done]. destruct (step_prog _ _ _). simpl. by rewrite length_insert.
Qed.

(** ** Queues of messages, by direction and edge *)
Definition queues : Type := side -> nat -> nat -> list (list Z).
Definition no_msgs : queues := fun _ _ _ => [].
Definition q_set (d : side) (x k : nat) (v : list (list Z)) (q : queues) : queues :=
  fun d' x' k' => if decide (d' = d /\ x' = x /\ k' = k) then v else q d' x' k'.

Lemma q_set_same d x k v q : q_set d x k v q d x k = v.
Proof. unfold q_set. by rewrite decide_True by done. Qed.
Lemma q_set_other d x k v q d' x' k' :
  ~ (d' = d /\ x' = x /\ k' = k) -> q_set d x k v q d' x' k' = q d' x' k'.
Proof. intros. unfold q_set. by rewrite decide_False. Qed.

(** ** Abstract threads *)
Section machine.
Context {pc : Type}.

(** What a thread does next, at the end [d] of the edge [(x, k)]: send [v], receive (the
    next states depend on the message), poll, take a silent step, or nothing. *)
Inductive action :=
| ATau (p : pc)
| ASend (d : side) (x k : nat) (v : list Z) (p : pc)
| ARecv (d : side) (x k : nat) (f : list Z -> pc -> Prop)
| APoll (d : side) (x k : nat) (f : bool -> pc)
| AStop.

Record amach := AM { a_pc : nat -> pc; a_q : queues }.
Definition pc_set (i : nat) (p : pc) (f : nat -> pc) : nat -> pc :=
  fun j => if decide (j = i) then p else f j.

Lemma pc_set_same i p f : pc_set i p f i = p.
Proof. unfold pc_set. by rewrite decide_True. Qed.
Lemma pc_set_other i p f j : j <> i -> pc_set i p f j = f j.
Proof. intros. unfold pc_set. by rewrite decide_False. Qed.

Context (act : nat -> pc -> action).

(** A send may be refused while earlier messages are under way, and a receive waits; the
    thread then stays where it is. *)
Inductive astep (i : nat) (a : amach) : amach -> Prop :=
| astep_tau p :
    act i (a_pc a i) = ATau p -> astep i a (AM (pc_set i p (a_pc a)) (a_q a))
| astep_send d x k v p :
    act i (a_pc a i) = ASend d x k v p ->
    astep i a (AM (pc_set i p (a_pc a)) (q_set d x k (a_q a d x k ++ [v]) (a_q a)))
| astep_send_full d x k v p :
    act i (a_pc a i) = ASend d x k v p -> a_q a d x k <> [] -> astep i a a
| astep_recv d x k f v q p :
    act i (a_pc a i) = ARecv d x k f -> a_q a (peer d) x k = v :: q -> f v p ->
    astep i a (AM (pc_set i p (a_pc a)) (q_set (peer d) x k q (a_q a)))
| astep_recv_empty d x k f :
    act i (a_pc a i) = ARecv d x k f -> a_q a (peer d) x k = [] -> astep i a a
| astep_poll d x k f :
    act i (a_pc a i) = APoll d x k f ->
    astep i a (AM (pc_set i (f (negb (bool_decide (a_q a (peer d) x k = [])))) (a_pc a)) (a_q a))
| astep_stop :
    act i (a_pc a i) = AStop -> astep i a a.

Lemma astep_inv i a a' :
  astep i a a' ->
  match act i (a_pc a i) with
  | ATau p => a' = AM (pc_set i p (a_pc a)) (a_q a)
  | ASend d x k v p =>
      a' = AM (pc_set i p (a_pc a)) (q_set d x k (a_q a d x k ++ [v]) (a_q a)) \/
      (a' = a /\ a_q a d x k <> [])
  | ARecv d x k f =>
      (exists v q p, a_q a (peer d) x k = v :: q /\ f v p /\
         a' = AM (pc_set i p (a_pc a)) (q_set (peer d) x k q (a_q a))) \/
      (a' = a /\ a_q a (peer d) x k = [])
  | APoll d x k f =>
      a' = AM (pc_set i (f (negb (bool_decide (a_q a (peer d) x k = [])))) (a_pc a)) (a_q a)
  | AStop => a' = a
  end.
Proof. destruct 1 as [p E|d x k v p E|d x k v p E|d x k f v q p E|d x k f E|d x k f E|E]; rewrite E; auto 8. left. by exists v, q, p. Qed.

(** The steps of a schedule. *)
Inductive arun : list nat -> amach -> amach -> Prop :=
| arun_nil a : arun [] a a
| arun_cons i l a a' a'' : astep i a a' -> arun l a' a'' -> arun (i :: l) a a''.

Lemma arun_app l1 l2 a a' a'' : arun l1 a a' -> arun l2 a' a'' -> arun (l1 ++ l2) a a''.
Proof. induction 1; simpl; [done|]. econstructor; eauto. Qed.

(** A step moves no thread but its own. *)
Lemma astep_pc i a a' j : astep i a a' -> j <> i -> a_pc a' j = a_pc a j.
Proof. destruct 1; intros; simpl; try done; by apply pc_set_other. Qed.

Lemma arun_pc l a a' j : arun l a a' -> ~ j ∈ l -> a_pc a' j = a_pc a j.
Proof.
  induction 1 as [|i l a a' a'' Hs _ IH]; intros Hj; [done|].
  apply not_elem_of_cons in Hj as [Hne Hj]. rewrite IH by done. by eapply astep_pc.
Qed.

Lemma arun_invariant (I : amach -> Prop) n :
  (forall i a a', (i < n)%nat -> I a -> astep i a a' -> I a') ->
  forall l a a', Forall (fun i => (i < n)%nat) l -> arun l a a' -> I a -> I a'.
Proof.
  intros HI l a a' Hl Hr. induction Hr as [|i l a a' a'' Hs _ IH]; intros Ha; [done|].
  apply Forall_cons in Hl as [Hi Hl]. apply IH; [done|]. by eapply HI.
Qed.
End machine.
Arguments action : clear implicits.
Arguments amach : clear implicits.

(** ** Programs implement abstract threads *)
(** A network: [n_len] threads whose channels are in a store.  Thread [i] is the end [d]
    of the edges [n_end i d x k], for which it uses the reference [n_ref i x k];
    [n_ok q w] says that the channels in [w] carry the messages [q]. *)
Record network (C W : Type) {HS : ChanStore C W} {HC : ChanOps C} {HT : TreeEdge C} := Network {
  n_len : nat;
  n_id : nat -> Z;
  n_end : nat -> side -> nat -> nat -> Prop;
  n_ref : nat -> nat -> nat -> chan_ref;
  n_ok : queues -> W -> Prop;
  n_ext q q' w : (forall d x k, q d x k = q' d x k) -> n_ok q w -> n_ok q' w;
  (** An operation of thread [i] at its end of an edge that leaves [v] in its own
      direction and [v'] in the other. *)
  n_with q w i d x k :
    n_ok q w -> n_end i d x k ->
    exists o c, edge o c (chan_end o (n_id i)) (q d x k) (q (peer d) x k) /\
      forall A (m : M C A) r c' v v', m c = (r, c') ->
        edge o c' (chan_end o (n_id i)) v v' ->
        exists w', with_chan (n_ref i x k) m w = (r, w') /\
          n_ok (q_set d x k v (q_set (peer d) x k v' q)) w';
}.
Arguments n_len {C W HS HC HT}. Arguments n_id {C W HS HC HT}. Arguments n_end {C W HS HC HT}.
Arguments n_ref {C W HS HC HT}. Arguments n_ok {C W HS HC HT}. Arguments n_ext {C W HS HC HT}.
Arguments n_with {C W HS HC HT}.

Section simulation.
Context {C W : Type} {HS : ChanStore C W} {HC : ChanOps C} {HT : TreeEdge C} {A pc : Type}.
Context (net : network C W) (act : nat -> pc -> action pc) (prog_of : nat -> pc -> prog A)
  (okp : nat -> pc -> Prop).

(** What a program does next does not depend on where the channels are: the event [e],
    continued by [K]; a step that touches no channel. *)
Definition does {X} (i : nat) (p : pc) (e : chan_ev X) (K : X -> prog A) : Prop :=
  forall W' (HS' : ChanStore C W') (w : W'),
    step_prog (C := C) (n_id net i) (prog_of i p) w = step_ev (C := C) (n_id net i) e K (prog_of i p) w.
Definition moves_to (i : nat) (p p' : pc) : Prop :=
  forall W' (HS' : ChanStore C W') (w : W'),
    step_prog (C := C) (n_id net i) (prog_of i p) w = (prog_of i p', w).

Definition send_ev (e : chan_ev Z) (r : chan_ref) (v : list Z) : Prop :=
  (exists msg, e = EvSend r msg /\ sendable msg /\ payload msg = v) \/ (e = EvNotify r /\ v = []).

Definition recv_ev (e : chan_ev (Z * smlt_msg)) (r : chan_ref) (msg : smlt_msg) : Prop :=
  sendable msg /\ (e = EvRecv r msg \/ exists index, e = EvRecvIndex r msg index).

Definition implements (i : nat) (p : pc) : Prop :=
  match act i p with
  | ATau p' => okp i p' /\ moves_to i p p'
  | ASend d x k v p' =>
      n_end net i d x k /\ okp i p' /\
      exists e K, send_ev e (n_ref net i x k) v /\ does i p e K /\
        K (err_value SMLT_SUCCESS) = prog_of i p'
  | ARecv d x k f =>
      n_end net i d x k /\
      ((exists e K msg, recv_ev e (n_ref net i x k) msg /\ does i p e K /\
          forall v msg', received v msg msg' ->
            exists p', f v p' /\ okp i p' /\ K (err_value SMLT_SUCCESS, msg') = prog_of i p') \/
       (exists K, does i p (EvRecvNotification (n_ref net i x k)) K /\
          forall v, exists p', f v p' /\ okp i p' /\ K (err_value SMLT_SUCCESS) = prog_of i p'))
  | APoll d x k f =>
      n_end net i d x k /\
      exists K, does i p (EvCanRecv (n_ref net i x k)) K /\
        forall b, okp i (f b) /\ K b = prog_of i (f b)
  | AStop => moves_to i p p
  end.

Lemma does_eq {X} i p (e : chan_ev X) K : prog_of i p = PEv e K -> does i p e K.
Proof using Type. intros E W' HS' w. by rewrite E. Qed.

Lemma does_loop {X L R} i p body (s : sprog (L + R)) k (e : chan_ev X) k' :
  prog_of i p = PLoop body s k -> s = SEv e k' -> does i p e (fun v => PLoop body (k' v) k).
Proof using Type. intros E -> W' HS' w. by rewrite E. Qed.

Context (Himpl : forall i p, (i < n_len net)%nat -> okp i p -> implements i p).

Record sim (a : amach pc) (s : sys W A) : Prop := {
  sim_len : length (sy_threads s) = n_len net;
  sim_prog i : (i < n_len net)%nat -> sy_threads s !! i = Some (prog_of i (a_pc a i));
  sim_ok i : (i < n_len net)%nat -> okp i (a_pc a i);
  sim_store : n_ok net (a_q a) (sy_store s);
}.

Lemma sim_lt a s i p : sim a s -> sy_threads s !! i = Some p -> (i < n_len net)%nat.
Proof using Type. intros Hs Hp. rewrite <- (sim_len _ _ Hs). by eapply lookup_lt_Some. Qed.

(** Replacing one thread and the queues. *)
Lemma sim_update a s i p q w :
  sim a s -> (i < n_len net)%nat -> okp i p -> n_ok net q w ->
  sim (AM (pc_set i p (a_pc a)) q) (Sys (<[i := prog_of i p]> (sy_threads s)) w).
Proof using Type.
  intros [Hl Hp Ho _] Hi Hok Hc. split; simpl; [by rewrite length_insert| | |done].
  - intros j Hj. destruct (decide (j = i)) as [->|D].
    + rewrite pc_set_same. apply list_lookup_insert_eq. lia.
    + rewrite pc_set_other, list_lookup_insert_ne by done. by apply Hp.
  - intros j Hj. destruct (decide (j = i)) as [->|D]; [by rewrite pc_set_same|].
    rewrite pc_set_other by done. by apply Ho.
Qed.

Lemma sim_stay a s i q w :
  sim a s -> (i < n_len net)%nat -> (forall d x k, q d x k = a_q a d x k) -> n_ok net q w ->
  sim a (Sys (<[i := prog_of i (a_pc a i)]> (sy_threads s)) w).
Proof using Type.
  intros [Hl Hp Ho _] Hi Hq Hc. rewrite list_insert_id by (by apply Hp).
  split; simpl; try done. by eapply (n_ext net).
Qed.

(** Each operation of a thread at its end of an edge. *)
Section events.
Context (q : queues) (w : W) (Hc : n_ok net q w) (i : nat) (d : side) (x k : nat)
  (He : n_end net i d x k).
Abbreviation run e := (run_ev (C := C) (W := W) (n_id net i) e w).
Abbreviation own_edge o c := (edge o c (chan_end o (n_id net i))).

Lemma send_ev_run e v :
  send_ev e (n_ref net i x k) v ->
  exists r w', run e = (r, w') /\
    ((r = Ret (err_value SMLT_SUCCESS) /\ n_ok net (q_set d x k (q d x k ++ [v]) q) w') \/
     (r = Spin /\ q d x k <> [] /\ n_ok net q w')).
Proof using Type*.
  intros Hs. destruct (n_with net q w i d x k Hc He) as (o & c & Ec & Hw).
  assert (Hm : exists m r c', run_ev (n_id net i) e = with_chan (n_ref net i x k) m /\ m c = (r, c') /\
    ((r = Ret (err_value SMLT_SUCCESS) /\ own_edge o c' (q d x k ++ [v]) (q (peer d) x k)) \/
     (r = Spin /\ q d x k <> [] /\ own_edge o c' (q d x k) (q (peer d) x k)))).
  { destruct Hs as [(msg & -> & Hs & <-)|[-> ->]].
    - destruct (edge_send _ _ _ _ _ msg Ec Hs) as (r & c' & E & H). by exists (c_send (n_id net i) msg), r, c'.
    - destruct (edge_notify _ _ _ _ _ Ec) as (r & c' & E & H). by exists (c_notify (n_id net i)), r, c'. }
  destruct Hm as (m & r & c' & -> & E & [[-> H]|(-> & Hne & H)]);
    destruct (Hw _ _ _ _ _ _ E H) as (w' & E' & Hc'); eexists _, w'; (split; [exact E'|]); [left|right];
    (split; [done|]); [|split; [done|]]; (eapply (n_ext net); [|exact Hc']); intros d' x' k'.
  - unfold q_set. repeat case_decide; try done. by intuition subst.
  - unfold q_set. repeat case_decide; try done; by intuition subst.
Qed.

(** What receiving leaves in the channel. *)
Lemma recv_store o c' qo w' :
  n_ok net (q_set d x k (q d x k) (q_set (peer d) x k qo q)) w' -> own_edge o c' (q d x k) qo ->
  n_ok net (q_set (peer d) x k qo q) w'.
Proof using Type*.
  clear. intros H _. eapply (n_ext net); [|exact H]. intros d' x' k'.
  unfold q_set. repeat case_decide; try done; destruct d; intuition (subst; done).
Qed.

Lemma recv_ev_run e msg :
  recv_ev e (n_ref net i x k) msg ->
  exists r w', run e = (r, w') /\
    match q (peer d) x k with
    | [] => r = Spin /\ n_ok net q w'
    | v :: q' => exists msg', r = Ret (err_value SMLT_SUCCESS, msg') /\ received v msg msg' /\
        n_ok net (q_set (peer d) x k q' q) w'
    end.
Proof using Type*.
  intros [Hs Hev]. destruct (n_with net q w i d x k Hc He) as (o & c & Ec & Hw).
  assert (Hm : exists m r c', run_ev (n_id net i) e = with_chan (n_ref net i x k) m /\ m c = (r, c') /\
    match q (peer d) x k with
    | [] => r = Spin /\ own_edge o c' (q d x k) []
    | v :: q' => exists msg', r = Ret (err_value SMLT_SUCCESS, msg') /\ received v msg msg' /\
        own_edge o c' (q d x k) q'
    end).
  { destruct Hev as [->|(index & ->)].
    - destruct (edge_recv _ _ _ _ _ msg Ec Hs) as (r & c' & E & H). by exists (c_recv (n_id net i) msg), r, c'.
    - destruct (edge_recv_index _ _ _ _ _ msg index Ec Hs) as (r & c' & E & H).
      by exists (fun s => c_recv_index (n_id net i) msg index s), r, c'. }
  destruct Hm as (m & r & c' & -> & E & H). destruct (q (peer d) x k) as [|v q'] eqn:Eq.
  - destruct H as [-> H]. destruct (Hw _ _ _ _ _ _ E H) as (w' & E' & Hc').
    eexists _, w'. split; [exact E'|]. split; [done|].
    eapply (n_ext net); [|by eapply recv_store]. intros d' x' k'. unfold q_set. case_decide; [|done].
    by intuition subst.
  - destruct H as (msg' & -> & Hr & H). destruct (Hw _ _ _ _ _ _ E H) as (w' & E' & Hc').
    eexists _, w'. split; [exact E'|]. exists msg'. split; [done|]. split; [done|]. by eapply recv_store.
Qed.

Lemma recv_notification_run :
  exists r w', run (EvRecvNotification (n_ref net i x k)) = (r, w') /\
    match q (peer d) x k with
    | [] => r = Spin /\ n_ok net q w'
    | v :: q' => r = Ret (err_value SMLT_SUCCESS) /\ n_ok net (q_set (peer d) x k q' q) w'
    end.
Proof using Type*.
  destruct (n_with net q w i d x k Hc He) as (o & c & Ec & Hw).
  destruct (edge_recv_notification _ _ _ _ _ Ec) as (r & c' & E & H).
  destruct (q (peer d) x k) as [|v q'] eqn:Eq; destruct H as [-> H];
    destruct (Hw _ _ _ _ _ _ E H) as (w' & E' & Hc'); eexists _, w'; (split; [exact E'|]); (split; [done|]).
  - eapply (n_ext net); [|by eapply recv_store]. intros d' x' k'. unfold q_set. case_decide; [|done].
    by intuition subst.
  - by eapply recv_store.
Qed.

Lemma can_recv_run :
  exists w', run (EvCanRecv (n_ref net i x k)) = (Ret (negb (bool_decide (q (peer d) x k = []))), w') /\
    n_ok net q w'.
Proof using Type*.
  destruct (n_with net q w i d x k Hc He) as (o & c & Ec & Hw).
  pose proof (edge_can_recv _ _ _ _ _ Ec) as E.
  destruct (Hw _ _ _ _ _ _ E Ec) as (w' & E' & Hc'). exists w'. split; [exact E'|].
  eapply (n_ext net); [|exact Hc']. intros d' x' k'.
  unfold q_set. repeat case_decide; try done; by intuition subst.
Qed.
End events.

(** Every step of the system is a step of the abstract machine. *)
Theorem sim_step a s i :
  sim a s -> (i < n_len net)%nat -> exists a', astep act i a a' /\ sim a' (sys_step (n_id net) s i).
Proof using Type*.
  intros Hs Hi. pose proof (Himpl i _ Hi (sim_ok _ _ Hs i Hi)) as Him.
  unfold sys_step. rewrite (sim_prog _ _ Hs i Hi). unfold implements in Him.
  destruct (act i (a_pc a i)) as [p'|d x k v p'|d x k f|d x k f|] eqn:Ea.
  - destruct Him as [Hok E]. rewrite E. eexists. split; [by eapply astep_tau|].
    apply sim_update; try done. apply Hs.
  - destruct Him as (He & Hok & e & K & Hev & Hd & HK). rewrite Hd. unfold step_ev.
    destruct (send_ev_run _ _ (sim_store _ _ Hs) i d x k He e v Hev) as (r & w' & -> & [[-> Hc]|(-> & Hne & Hc)]).
    + rewrite HK. eexists. split; [by eapply astep_send|]. by apply sim_update.
    + eexists. split; [by eapply astep_send_full|]. by eapply sim_stay.
  - destruct Him as (He & [(e & K & msg & Hev & Hd & HK)|(K & Hd & HK)]); rewrite Hd; unfold step_ev.
    + destruct (recv_ev_run _ _ (sim_store _ _ Hs) i d x k He e msg Hev) as (r & w' & -> & H).
      destruct (a_q a (peer d) x k) as [|v q'] eqn:Eq.
      * destruct H as [-> Hc]. eexists. split; [by eapply astep_recv_empty|]. by eapply sim_stay.
      * destruct H as (msg' & -> & Hr & Hc). destruct (HK v msg' Hr) as (p' & Hf & Hok & ->).
        eexists. split; [by eapply astep_recv|]. by apply sim_update.
    + destruct (recv_notification_run _ _ (sim_store _ _ Hs) i d x k He) as (r & w' & -> & H).
      destruct (a_q a (peer d) x k) as [|v q'] eqn:Eq.
      * destruct H as [-> Hc]. eexists. split; [by eapply astep_recv_empty|]. by eapply sim_stay.
      * destruct H as [-> Hc]. destruct (HK v) as (p' & Hf & Hok & ->).
        eexists. split; [by eapply astep_recv|]. by apply sim_update.
  - destruct Him as (He & K & Hd & HK). rewrite Hd. unfold step_ev.
    destruct (can_recv_run _ _ (sim_store _ _ Hs) i d x k He) as (w' & -> & Hc).
    destruct (HK (negb (bool_decide (a_q a (peer d) x k = [])))) as [Hok ->].
    eexists. split; [by eapply astep_poll|]. by apply sim_update.
  - rewrite Him. eexists. split; [by eapply astep_stop|]. eapply sim_stay; try done. apply Hs.
Qed.

Corollary sim_run a s l :
  sim a s -> Forall (fun i => (i < n_len net)%nat) l -> exists a', arun act l a a' /\ sim a' (sys_run (n_id net) s l).
Proof using Type*.
  intros Hs Hl. revert a s Hs. induction l as [|i l IH]; intros a s Hs.
  - exists a. split; [constructor|done].
  - apply Forall_cons in Hl as [Hi Hl]. destruct (sim_step a s i Hs Hi) as (a1 & H1 & Hs1).
    destruct (IH Hl _ _ Hs1) as (a2 & H2 & Hs2). exists a2. split; [by econstructor|done].
Qed.
End simulation.

(** ** Fair schedules

    A schedule is a sequence of rounds in which every thread runs more than [K] times.
    Progress is measured on a view of the state: a step keeps the view or decreases its
    measure, and in an unfinished view one thread, by its own steps, decreases the
    measure after at most [K] of them. *)
Section fair.
Context {pc V : Type} (act : nat -> pc -> action pc) (n K : nat).
Context (Inv : amach pc -> Prop) (view : amach pc -> V) (measure : V -> nat) (fin : V -> Prop)
  (next : V -> nat) (wait : nat -> pc -> nat).

Definition occurs (i : nat) (l : list nat) : nat := length (filter (fun j => j = i) l).
Definition fair_round (l : list nat) : Prop :=
  Forall (fun i => (i < n)%nat) l /\ forall i, (i < n)%nat -> (K < occurs i l)%nat.

Record progress : Prop := {
  pg_step i a a' : (i < n)%nat -> Inv a -> astep act i a a' ->
    Inv a' /\ (view a' = view a \/ (measure (view a') < measure (view a))%nat);
  pg_fin i a a' : (i < n)%nat -> Inv a -> fin (view a) -> astep act i a a' -> fin (view a');
  pg_dec v : fin v \/ ~ fin v;
  pg_next a : Inv a -> ~ fin (view a) -> (next (view a) < n)%nat /\
    forall a', astep act (next (view a)) a a' ->
      (measure (view a') < measure (view a))%nat \/
      (view a' = view a /\
       (wait (next (view a)) (a_pc a' (next (view a))) < wait (next (view a)) (a_pc a (next (view a))))%nat);
  pg_wait i a : (i < n)%nat -> Inv a -> (wait i (a_pc a i) <= K)%nat;
}.

Context (Hp : progress).

Lemma fair_mono l a a' :
  Forall (fun i => (i < n)%nat) l -> arun act l a a' -> Inv a ->
  Inv a' /\ (measure (view a') <= measure (view a))%nat /\ (fin (view a) -> fin (view a')).
Proof using Hp.
  intros Hl Hr. induction Hr as [|i l a a1 a2 Hs _ IH]; intros Ha; [done|].
  apply Forall_cons in Hl as [Hi Hl]. destruct (pg_step Hp i a a1 Hi Ha Hs) as [Ha1 Hm].
  destruct (IH Hl Ha1) as (H1 & H2 & H3). split; [done|]. split.
  - destruct Hm as [E|]; [rewrite E in H2; done|lia].
  - intros Hf. apply H3. by eapply (pg_fin Hp i a).
Qed.

Lemma fair_round_progress l a a' :
  Forall (fun i => (i < n)%nat) l -> arun act l a a' -> Inv a -> ~ fin (view a) ->
  (wait (next (view a)) (a_pc a (next (view a))) < occurs (next (view a)) l)%nat ->
  (measure (view a') < measure (view a))%nat.
Proof using Hp.
  intros Hl Hr. induction Hr as [|i l a a1 a2 Hs Hr IH]; intros Ha Hf Hw.
  { unfold occurs in Hw. simpl in Hw. lia. }
  apply Forall_cons in Hl as [Hi Hl]. destruct (pg_step Hp i a a1 Hi Ha Hs) as [Ha1 Hm].
  destruct (fair_mono l a1 a2 Hl Hr Ha1) as (_ & Hle & _).
  destruct (pg_next Hp a Ha Hf) as [Hn Hd].
  assert (Hcase : (measure (view a1) < measure (view a))%nat \/
    (view a1 = view a /\ (wait (next (view a)) (a_pc a1 (next (view a))) < occurs (next (view a)) l)%nat)).
  { unfold occurs in Hw |- *. rewrite filter_cons in Hw. case_decide as D.
    - subst i. destruct (Hd a1 Hs) as [|[E Hlt]]; [by left|right]. simpl in Hw. split; [done|lia].
    - destruct Hm as [E|]; [right|by left]. split; [done|]. by rewrite (astep_pc act i a a1 _ Hs). }
  destruct Hcase as [|[E Hw1]]; [lia|]. rewrite <- E in Hw1, Hf |- *. by apply IH.
Qed.

(** Enough rounds finish. *)
Lemma fair_terminates rounds a a' :
  Forall fair_round rounds -> (measure (view a) < length rounds)%nat ->
  arun act (concat rounds) a a' -> Inv a -> fin (view a').
Proof using Hp.
  revert a. induction rounds as [|l rounds IH]; intros a Hrs Hlen Hr Ha; [simpl in Hlen; lia|].
  apply Forall_cons in Hrs as [[Hl Hoc] Hrs]. simpl in Hr, Hlen.
  assert (Hsplit : exists a1, arun act l a a1 /\ arun act (concat rounds) a1 a').
  { clear -Hr. revert a Hr. induction l as [|i l IHl]; intros a Hr; simpl in Hr.
    - exists a. split; [constructor|done].
    - inversion Hr as [|? ? ? a0 ? Hs Hr']; subst. destruct (IHl _ Hr') as (a1 & H1 & H2).
      exists a1. split; [by econstructor|done]. }
  destruct Hsplit as (a1 & H1 & H2). destruct (fair_mono l a a1 Hl H1 Ha) as (Ha1 & Hle & Hfin).
  destruct (pg_dec Hp (view a)) as [Hf|Hf].
  - destruct (fair_mono (concat rounds) a1 a') as (_ & _ & Hf'); [|done..|by apply Hf', Hfin].
    apply Forall_concat. eapply Forall_impl; [exact Hrs|]. by intros ? [? _].
  - apply (IH a1); [done| |done..]. destruct (pg_next Hp a Ha Hf) as [Hn _].
    pose proof (fair_round_progress l a a1 Hl H1 Ha Hf) as Hlt.
    specialize (Hoc _ Hn). pose proof (pg_wait Hp _ a Hn Ha). lia.
Qed.
End fair.

(** The usual case: every thread goes through numbered stages, and never back.  The stage
    is the level of what is seen of the thread. *)
Section staged.
Context {pc V : Type} `{!Inhabited V} (act : nat -> pc -> action pc) (n K : nat) (Inv : amach pc -> Prop).
Context (seen : nat -> pc -> V) (level : nat -> V -> nat) (top : nat -> nat) (wait : nat -> pc -> nat).
(** Whether thread [i] can reach its next stage by its own steps, from the views alone. *)
Context (enabled : (nat -> V) -> nat -> Prop) {Hdec : forall s i, Decision (enabled s i)}.
Abbreviation views a := (fun j => seen j (a_pc a j)).
Abbreviation stage i p := (level i (seen i p)).

Record staged : Prop := {
  st_step i a a' : (i < n)%nat -> Inv a -> astep act i a a' ->
    Inv a' /\ (seen i (a_pc a' i) = seen i (a_pc a i) \/ (stage i (a_pc a i) < stage i (a_pc a' i))%nat);
  st_top i a : (i < n)%nat -> Inv a -> (stage i (a_pc a i) <= top i)%nat;
  st_ext s s' i : (forall j, (j < n)%nat -> s j = s' j) -> (i < n)%nat -> enabled s i -> enabled s' i;
  st_enabled i a a' : (i < n)%nat -> Inv a -> enabled (views a) i -> astep act i a a' ->
    (stage i (a_pc a i) < stage i (a_pc a' i))%nat \/ (wait i (a_pc a' i) < wait i (a_pc a i))%nat;
  st_exists i a : (i < n)%nat -> Inv a -> (stage i (a_pc a i) < top i)%nat ->
    exists j, (j < n)%nat /\ enabled (views a) j;
  st_wait i a : (i < n)%nat -> Inv a -> (wait i (a_pc a i) <= K)%nat;
}.

Context (Hst : staged).
Let view (a : amach pc) : list V := tab n (views a).
Let at_level (v : list V) (i : nat) : nat := from_option (level i) 0%nat (v !! i).
Let remaining (v : list V) : nat := sum_upto n (fun i => top i - at_level v i)%nat.
Let first (v : list V) : nat := default 0%nat (head (filter (enabled (fun j => v !!! j)) (seq 0 n))).
Let finished (v : list V) : Prop := Forall (fun i => at_level v i = top i) (seq 0 n).

Lemma level_view a i : (i < n)%nat -> at_level (view a) i = stage i (a_pc a i).
Proof using Type. intros Hi. unfold at_level, view. by rewrite lookup_tab. Qed.

Lemma finished_view a : finished (view a) <-> forall i, (i < n)%nat -> stage i (a_pc a i) = top i.
Proof using Type.
  unfold finished. rewrite Forall_forall. split; intros Hf i Hi.
  - rewrite <- level_view by done. apply Hf. apply elem_of_seq. lia.
  - apply elem_of_seq in Hi. rewrite level_view by lia. apply Hf. lia.
Qed.

Lemma seen_view a i : (i < n)%nat -> view a !!! i = seen i (a_pc a i).
Proof using Type. intros Hi. apply list_lookup_total_correct. unfold view. by rewrite lookup_tab. Qed.

Lemma first_enabled a :
  Inv a -> ~ finished (view a) -> (first (view a) < n)%nat /\ enabled (views a) (first (view a)).
Proof using Hdec Hst Inhabited0.
  intros Ha Hf. assert (Hex : exists i, (i < n)%nat /\ (stage i (a_pc a i) < top i)%nat).
  { destruct (decide (Forall (fun i => ~ (stage i (a_pc a i) < top i)%nat) (seq 0 n))) as [HF|HF].
    - destruct Hf. apply finished_view. intros i Hi. rewrite Forall_forall in HF.
      pose proof (HF i ltac:(apply elem_of_seq; lia)). pose proof (st_top Hst i a Hi Ha). lia.
    - apply not_Forall_Exists in HF; [|intros ?; apply _]. apply Exists_exists in HF as (i & Hi & HF).
      apply elem_of_seq in Hi. exists i. split; [lia|]. by apply dec_stable in HF. }
  destruct Hex as (i & Hi & Hlt). destruct (st_exists Hst i a Hi Ha Hlt) as (j & Hj & He).
  assert (Hin : j ∈ filter (enabled (fun l => view a !!! l)) (seq 0 n)).
  { apply list_elem_of_filter. split; [|apply elem_of_seq; lia].
    eapply (st_ext Hst); [|done|exact He]. intros l Hl. cbv beta. by rewrite seen_view. }
  unfold first. destruct (filter (enabled (fun l => view a !!! l)) (seq 0 n)) as [|f l] eqn:E; [by apply elem_of_nil in Hin|].
  simpl. assert (Hfi : f ∈ filter (enabled (fun l => view a !!! l)) (seq 0 n)) by (rewrite E; left).
  apply list_elem_of_filter in Hfi as [Hfe Hfs]. apply elem_of_seq in Hfs. split; [lia|].
  eapply (st_ext Hst); [|lia|exact Hfe]. intros l' Hl. cbv beta. by rewrite seen_view.
Qed.

Lemma view_step i a a' :
  (i < n)%nat -> Inv a -> astep act i a a' ->
  (stage i (a_pc a' i) = stage i (a_pc a i) /\ view a' = view a) \/
  (remaining (view a') < remaining (view a))%nat.
Proof using Hdec Hst Inhabited0.
  intros Hi Ha Hs. destruct (st_step Hst i a a' Hi Ha Hs) as [Ha' Hle].
  assert (Hot : forall j, j <> i -> seen j (a_pc a' j) = seen j (a_pc a j)).
  { intros j Hne. by rewrite (astep_pc act i a a' j Hs Hne). }
  destruct Hle as [E|Hlt]; [left|right].
  - split; [by rewrite E|]. apply tab_ext. intros j Hj. destruct (decide (j = i)) as [->|D]; [done|by apply Hot].
  - apply sum_upto_lt with i; [done| |].
    + rewrite !level_view by done. pose proof (st_top Hst i a' Hi Ha'). lia.
    + intros j Hj D. by rewrite !level_view, Hot by done.
Qed.

Lemma staged_progress : progress act n K Inv view remaining finished first wait.
Proof using Hdec Hst Inhabited0.
  split.
  - intros i a a' Hi Ha Hs. split; [by eapply (st_step Hst i a)|].
    destruct (view_step i a a' Hi Ha Hs) as [[_ E]|]; auto.
  - intros i a a' Hi Ha Hf Hs. destruct (view_step i a a' Hi Ha Hs) as [[_ ->]|Hlt]; [done|].
    rewrite finished_view in Hf. exfalso. destruct (st_step Hst i a a' Hi Ha Hs) as [Ha' _].
    unfold remaining in Hlt.
    pose proof (sum_upto_le n (fun i => top i - at_level (view a) i)%nat (fun i => top i - at_level (view a') i)%nat) as Hle.
    assert (sum_upto n (fun i => top i - at_level (view a) i) <= sum_upto n (fun i => top i - at_level (view a') i))%nat; [|lia].
    apply Hle. intros j Hj. rewrite level_view, Hf by done. lia.
  - intros v. destruct (decide (Forall (fun i => at_level v i = top i) (seq 0 n))); auto.
  - intros a Ha Hf. destruct (first_enabled a Ha Hf) as [Hn He]. split; [done|]. intros a' Hs.
    pose proof (st_enabled Hst _ a a' Hn Ha He Hs) as [Hlt|Hlt];
      destruct (view_step _ a a' Hn Ha Hs) as [[E Ev]|]; auto; lia.
  - intros i a Hi Ha. by apply (st_wait Hst).
Qed.

(** Rounds for all stages of all threads bring every thread to its last stage. *)
Lemma staged_terminates rounds a a' :
  Forall (fair_round n K) rounds -> (sum_upto n top < length rounds)%nat ->
  arun act (concat rounds) a a' -> Inv a -> forall i, (i < n)%nat -> stage i (a_pc a' i) = top i.
Proof using Hdec Hst Inhabited0.
  intros Hr Hlen Hrun Ha. apply finished_view.
  apply (fair_terminates act n K Inv view remaining finished first wait staged_progress rounds a); try done.
  eapply Nat.le_lt_trans; [|exact Hlen]. apply sum_upto_le. lia.
Qed.
End staged.

(** Longer rounds do no harm. *)
Lemma staged_weaken {pc V} act n K K' Inv (seen : nat -> pc -> V) level top wait enabled :
  (K <= K')%nat -> staged act n K Inv seen level top wait enabled -> staged act n K' Inv seen level top wait enabled.
Proof. intros HK [H1 H2 H3 H4 H5 H6]. split; try done. intros i a Hi Ha. specialize (H6 i a Hi Ha). lia. Qed.
