(* ===== verification/Layers.v ===== *)
(** Calls one after another.

    Threads that make several collective calls do not wait for each other between them: a
    thread that has returned from one call may send messages of the next while others are
    still in the first.  A [mach] describes what the threads do in one call, given what
    each brings to it, with an invariant and a termination argument; [mach_ok] asks that,
    in the call by itself, an end that has not begun has sent nothing, an end that has
    returned has taken everything sent to it, and an end that waits for a thread that has
    returned finds its message.  Two such calls in sequence are again of this form
    ([seq_ok]): the queues hold what is left of the first call followed by what has been
    sent in the second.  What a thread brings to the second call may depend on how the
    first ended for it; as long as it is in the first, the second is prepared for anything
    ([sp_snd]). *)
From S2P Require Import Prelude Errors Message Fifo Pair UmpQueue UmpQueuepair.
From S2P Require Import Queuepair Channel Edge Process.

(** ** The threads of one call *)
Section mach_type.
(** What a thread brings to a call. *)
Context {T : Type}.

Record mach := Mach {
  m_pc : Type;
  m_args : nat -> T -> Prop;
  m_act : nat -> T -> m_pc -> action m_pc;
  m_start : nat -> T -> m_pc;
  m_okp : nat -> T -> m_pc -> Prop;
  m_inv : (nat -> T) -> amach m_pc -> Prop;
  m_view : Type;
  m_inh : Inhabited m_view;
  m_seen : nat -> m_pc -> m_view;
  m_level : nat -> m_view -> nat;
  m_top : nat -> nat;
  m_wait : nat -> m_pc -> nat;
  m_enabled : (nat -> m_view) -> nat -> Prop;
  m_dec s i : Decision (m_enabled s i);
}.
End mach_type.
Arguments mach : clear implicits.
#[export] Existing Instance m_inh.
#[export] Existing Instance m_dec.

Section layers.
(** Threads [0 .. n-1], the edges they are the ends of, and the bound of a fair round. *)
Context {T : Type} `{!Inhabited T} (n K : nat) (ends : nat -> side -> nat -> nat -> Prop).
Context (Hends : forall i d x k, (i < n)%nat -> ends i d x k -> exists j, (j < n)%nat /\ ends j (peer d) x k).
Implicit Types (P Q : mach T) (g h : nat -> T).

Abbreviation stage P i p := (m_level P i (m_seen P i p)).
(** The thread has returned. *)
Definition m_fin (P : mach T) (i : nat) (p : m_pc P) : Prop := stage P i p = m_top P i.
#[export] Instance m_fin_dec P i p : Decision (m_fin P i p).
Proof. unfold m_fin. apply _. Defined.

(** All threads bring what the call can be made with. *)
Definition args_ok (P : mach T) (g : nat -> T) : Prop := forall i, (i < n)%nat -> m_args P i (g i).
Abbreviation acts P g := (fun i => m_act P i (g i)).

(** The edge an action uses. *)
Definition act_at {pc} (a : action pc) (d : side) (x k : nat) : Prop :=
  match a with
  | ASend d' x' k' _ _ | ARecv d' x' k' _ | APoll d' x' k' _ => d' = d /\ x' = x /\ k' = k
  | _ => False
  end.
(** The thread waits for a message, or polls for one. *)
Definition act_awaits {pc} (a : action pc) (d : side) (x k : nat) : Prop :=
  match a with ARecv d' x' k' _ | APoll d' x' k' _ => d' = d /\ x' = x /\ k' = k | _ => False end.

Lemma act_awaits_at {pc} (a : action pc) d x k : act_awaits a d x k -> act_at a d x k.
Proof using Type. by destruct a. Qed.

Record mach_ok (P : mach T) : Prop := {
  mo_args i : (i < n)%nat -> exists t, m_args P i t;
  mo_init g : args_ok P g -> m_inv P g (AM (fun i => m_start P i (g i)) no_msgs);
  mo_staged g : args_ok P g ->
    staged (acts P g) n K (m_inv P g) (m_seen P) (m_level P) (m_top P) (m_wait P) (m_enabled P);
  mo_okp g a i : args_ok P g -> m_inv P g a -> (i < n)%nat -> m_okp P i (g i) (a_pc a i);
  mo_start i t : (i < n)%nat -> m_args P i t -> m_okp P i t (m_start P i t);
  mo_top i t p : (i < n)%nat -> m_okp P i t p -> (stage P i p <= m_top P i)%nat;
  mo_stop i t p : (i < n)%nat -> m_okp P i t p -> m_fin P i p -> m_act P i t p = AStop;
  mo_ends i t p d x k : (i < n)%nat -> m_okp P i t p -> act_at (m_act P i t p) d x k -> ends i d x k;
  mo_unsent g a i d x k : args_ok P g -> m_inv P g a -> (i < n)%nat -> a_pc a i = m_start P i (g i) ->
    ends i d x k -> a_q a d x k = [];
  mo_taken g a i d x k : args_ok P g -> m_inv P g a -> (i < n)%nat -> m_fin P i (a_pc a i) ->
    ends i d x k -> a_q a (peer d) x k = [];
  mo_awaits g a i j d x k : args_ok P g -> m_inv P g a -> (i < n)%nat -> (j < n)%nat ->
    act_awaits (m_act P i (g i) (a_pc a i)) d x k -> ends j (peer d) x k -> m_fin P j (a_pc a j) ->
    a_q a (peer d) x k <> [];
}.

(** *** Edges no thread uses *)
(** No thread uses the edge. *)
Definition unused (d : side) (x k : nat) : Prop := forall i, (i < n)%nat -> ~ ends i d x k /\ ~ ends i (peer d) x k.
Lemma unused_peer d x k : unused d x k -> unused (peer d) x k.
Proof using Type. clear Hends. intros H i Hi. rewrite peer_peer. destruct (H i Hi). done. Qed.

Lemma unused_not_at (P : mach T) g a i d x k :
  mach_ok P -> args_ok P g -> m_inv P g a -> (i < n)%nat ->
  act_at (m_act P i (g i) (a_pc a i)) d x k -> ~ unused d x k /\ ~ unused (peer d) x k.
Proof using Type. clear Hends.
  intros HP Hg Ha Hi Hat.
  pose proof (mo_ends _ HP i (g i) (a_pc a i) d x k Hi (mo_okp _ HP g a i Hg Ha Hi) Hat) as He.
  split; intros H; destruct (H i Hi) as [H1 H2]; [done|]. by rewrite peer_peer in H2.
Qed.

Lemma unused_step (P : mach T) g a a' i :
  mach_ok P -> args_ok P g -> m_inv P g a -> (i < n)%nat ->
  astep (fun i => m_act P i (g i)) i a a' ->
  forall d x k, unused d x k -> a_q a' d x k = a_q a d x k.
Proof using Type. clear Hends.
  intros HP Hg Ha Hi Hs d x k Hu. pose proof (unused_not_at P g a i) as Hat.
  apply astep_inv in Hs. destruct (m_act P i (g i) (a_pc a i)) as [p|d' x' k' v p|d' x' k' f|d' x' k' f|] eqn:Ea; simpl in Hat.
  - by subst.
  - destruct Hs as [->|[-> _]]; [|done]. simpl. apply q_set_other. intros (-> & -> & ->).
    by destruct (Hat d' x' k' HP Hg Ha Hi).
  - destruct Hs as [(v & q & p & _ & _ & ->)|[-> _]]; [|done]. simpl. apply q_set_other. intros (-> & -> & ->).
    by destruct (Hat d' x' k' HP Hg Ha Hi).
  - by subst.
  - by subst.
Qed.

Lemma choice_upto {U} (m : nat) (P : nat -> U -> Prop) (d : U) :
  (forall i, (i < m)%nat -> exists y, P i y) -> exists F, forall i, (i < m)%nat -> P i (F i).
Proof using Type.
  induction m as [|m IH]; intros H; [exists (fun _ => d); lia|].
  destruct IH as [F HF]; [intros i Hi; apply H; lia|]. destruct (H m ltac:(lia)) as [y Hy].
  exists (fun i => if decide (i = m) then y else F i). intros i Hi. case_decide as D; [by rewrite D|]. apply HF. lia.
Qed.

(** An enabled thread has not returned. *)
Lemma enabled_not_fin P g a i :
  mach_ok P -> args_ok P g -> m_inv P g a -> (i < n)%nat -> m_enabled P (fun j => m_seen P j (a_pc a j)) i ->
  ~ m_fin P i (a_pc a i).
Proof using Type.
  intros HP Hg Ha Hi He Hf.
  assert (Hs : astep (acts P g) i a a) by (apply astep_stop, (mo_stop P HP); [done|by apply (mo_okp P HP)|done]).
  destruct (st_enabled _ _ _ _ _ _ _ _ _ (mo_staged P HP g Hg) i a a Hi Ha He Hs); lia.
Qed.

(** ** Two calls in sequence *)
Definition amap {pc pc'} (f : pc -> pc') (a : action pc) : action pc' :=
  match a with
  | ATau p => ATau (f p)
  | ASend d x k v p => ASend d x k v (f p)
  | ARecv d x k r => ARecv d x k (fun v z => exists p, r v p /\ z = f p)
  | APoll d x k r => APoll d x k (fun b => f (r b))
  | AStop => AStop
  end.

Section seq.
Context (P Q : mach T).
(** What a thread brings to the second call, after the first. *)
Context (link : nat -> T -> m_pc P -> T).

Definition begin (i : nat) (t : T) (p : m_pc P) : m_pc P * m_pc Q := (p, m_start Q i (link i t p)).
Definition seq_act (i : nat) (t : T) (z : m_pc P * m_pc Q) : action (m_pc P * m_pc Q) :=
  if decide (m_fin P i z.1) then amap (fun q => (z.1, q)) (m_act Q i (link i t z.1) z.2)
  else amap (begin i t) (m_act P i t z.1).
Definition seq_okp (i : nat) (t : T) (z : m_pc P * m_pc Q) : Prop :=
  m_args P i t /\ m_okp P i t z.1 /\
  if decide (m_fin P i z.1) then m_okp Q i (link i t z.1) z.2 else z = begin i t z.1.

(** What the threads may bring to the second call, when the first is in the state [a]. *)
Definition follows (g : nat -> T) (a : amach (m_pc P)) (h : nat -> T) : Prop :=
  args_ok Q h /\ forall i, (i < n)%nat -> m_fin P i (a_pc a i) -> h i = link i (g i) (a_pc a i).
(** The state [b] of the second call in the state [s] of both. *)
Record second (s : amach (m_pc P * m_pc Q)) (a : amach (m_pc P)) (q : queues) (h : nat -> T) (b : amach (m_pc Q)) : Prop := {
  se_inv : m_inv Q h b;
  se_pc i : (i < n)%nat -> a_pc b i = if decide (m_fin P i (a_pc a i)) then (a_pc s i).2 else m_start Q i (h i);
  se_q d x k : a_q b d x k = q d x k;
}.
Record split (g : nat -> T) (s : amach (m_pc P * m_pc Q)) (a : amach (m_pc P)) (q : queues) : Prop := {
  sp_fst : m_inv P g a;
  sp_pc i : (a_pc s i).1 = a_pc a i;
  sp_q d x k : a_q s d x k = a_q a d x k ++ q d x k;
  sp_wait i : (i < n)%nat -> ~ m_fin P i (a_pc a i) -> a_pc s i = begin i (g i) (a_pc a i);
  sp_snd h : follows g a h -> exists b, second s a q h b;
}.
Definition seq_inv (g : nat -> T) (s : amach (m_pc P * m_pc Q)) : Prop := exists a q, split g s a q.

Definition seq_enabled (s : nat -> m_view P * m_view Q) (i : nat) : Prop :=
  if decide (m_level P i (s i).1 = m_top P i) then
    Forall (fun j => m_level P j (s j).1 = m_top P j) (seq 0 n) /\ m_enabled Q (fun j => (s j).2) i
  else m_enabled P (fun j => (s j).1) i.
#[export] Instance seq_enabled_dec s i : Decision (seq_enabled s i).
Proof. unfold seq_enabled. case_decide; apply _. Defined.

Definition seq_mach : mach T := {|
  m_pc := m_pc P * m_pc Q;
  m_args := m_args P;
  m_act := seq_act;
  m_start := fun i t => begin i t (m_start P i t);
  m_okp := seq_okp;
  m_inv := seq_inv;
  m_view := m_view P * m_view Q;
  m_inh := _;
  m_seen := fun i z => (m_seen P i z.1, if decide (m_fin P i z.1) then m_seen Q i z.2 else inhabitant);
  m_level := fun i v => m_level P i v.1 + if decide (m_level P i v.1 = m_top P i) then m_level Q i v.2 else 0;
  m_top := fun i => m_top P i + m_top Q i;
  m_wait := fun i z => if decide (m_fin P i z.1) then m_wait Q i z.2 else m_wait P i z.1;
  m_enabled := seq_enabled;
  m_dec := _;
|}%nat.

Context (HP : mach_ok P) (HQ : mach_ok Q).
Context (Hlink : forall i t p, (i < n)%nat -> m_args P i t -> m_okp P i t p -> m_fin P i p -> m_args Q i (link i t p)).

Section state.
Context (g : nat -> T) (Hg : args_ok P g).
Context (s : amach (m_pc P * m_pc Q)) (a : amach (m_pc P)) (q : queues) (Hs : split g s a q).

Lemma fst_okp i : (i < n)%nat -> m_okp P i (g i) (a_pc a i).
Proof using Hs HP Hg. intros Hi. apply (mo_okp P HP); [done|exact (sp_fst _ _ _ _ Hs)|done]. Qed.
Lemma fst_top i : (i < n)%nat -> (stage P i (a_pc a i) <= m_top P i)%nat.
Proof using Hs HP Hg. intros Hi. by apply (mo_top P HP i (g i)), fst_okp. Qed.

Lemma some_follows : exists h, follows g a h.
Proof using Hs HP HQ Hlink Hg Inhabited0.
  destruct (choice_upto n (fun i t => m_args Q i t /\ (m_fin P i (a_pc a i) -> t = link i (g i) (a_pc a i))) inhabitant) as [h Hh].
  - intros i Hi. destruct (decide (m_fin P i (a_pc a i))) as [Hf|Hf].
    + exists (link i (g i) (a_pc a i)). split; [|done]. apply Hlink; [done|by apply Hg|by apply fst_okp|done].
    + destruct (mo_args Q HQ i Hi) as [t Ht]. by exists t.
  - exists h. split; intros i Hi; by apply Hh.
Qed.
Lemma some_second : exists h b, follows g a h /\ second s a q h b.
Proof using Hs HP HQ Hlink Hg Inhabited0.
  destruct some_follows as [h Hh]. destruct (sp_snd _ _ _ _ Hs h Hh) as [b Hb]. by exists h, b.
Qed.

(** A thread in the first call has sent nothing in the second. *)
Lemma later_unsent i d x k : (i < n)%nat -> ~ m_fin P i (a_pc a i) -> ends i d x k -> q d x k = [].
Proof using Hs HP HQ Hlink Hg Inhabited0.
  intros Hi Hf He. destruct some_second as (h & b & [Hh _] & [Hb Hpc Hq]). rewrite <- Hq.
  apply (mo_unsent Q HQ h b i); try done. by rewrite Hpc, decide_False.
Qed.

(** A message of the second call is preceded by the one the first call waits for. *)
Lemma awaited_first i d x k :
  (i < n)%nat -> ~ m_fin P i (a_pc a i) -> act_awaits (m_act P i (g i) (a_pc a i)) d x k ->
  a_q a (peer d) x k = [] -> q (peer d) x k = [].
Proof using Hs HP HQ Hlink Hg Inhabited0 Hends.
  intros Hi Hf Haw Hq. pose proof (sp_fst _ _ _ _ Hs) as Ha.
  assert (He : ends i d x k).
  { eapply (mo_ends P HP); [done|by apply fst_okp|by apply act_awaits_at]. }
  destruct (Hends i d x k Hi He) as (j & Hj & Hje).
  destruct (decide (m_fin P j (a_pc a j))) as [Hfj|Hfj].
  - exfalso. revert Hq. by apply (mo_awaits P HP g a i j).
  - by apply (later_unsent j).
Qed.
(** A step of a thread in the first call is a step of that call. *)
Lemma seq_step_fst i s' :
  (i < n)%nat -> ~ m_fin P i (a_pc a i) -> astep (fun i => seq_act i (g i)) i s s' ->
  exists a', astep (acts P g) i a a' /\ split g s' a' q.
Proof using Hs HP HQ Hlink Hg Inhabited0 Hends.
  intros Hi Hf Hstep. pose proof (sp_fst _ _ _ _ Hs) as Ha. pose proof (sp_wait _ _ _ _ Hs i Hi Hf) as Hw.
  assert (Hv : exists a', astep (acts P g) i a a' /\ (forall j, (a_pc s' j).1 = a_pc a' j) /\
    a_pc s' i = begin i (g i) (a_pc a' i) /\ (forall d x k, a_q s' d x k = a_q a' d x k ++ q d x k)).
  { pose proof (awaited_first i) as Haw. pose proof (sp_pc _ _ _ _ Hs) as Hpc. pose proof (sp_q _ _ _ _ Hs) as Hq.
    assert (Hat : forall d x k, act_at (m_act P i (g i) (a_pc a i)) d x k -> ends i d x k).
    { intros d x k. apply (mo_ends P HP); [done|by apply fst_okp]. }
    apply astep_inv in Hstep. unfold seq_act in Hstep. rewrite Hpc, decide_False in Hstep by done.
    assert (Hset : forall p, (forall j, (pc_set i (begin i (g i) p) (a_pc s) j).1 = pc_set i p (a_pc a) j) /\
      pc_set i (begin i (g i) p) (a_pc s) i = begin i (g i) (pc_set i p (a_pc a) i)).
    { intros p. unfold pc_set. split; [intros j; by case_decide|by rewrite !decide_True by done]. }
    destruct (m_act P i (g i) (a_pc a i)) as [p|d x k v p|d x k f|d x k f|] eqn:Ea; simpl in Hstep, Hat, Haw.
    - subst s'. eexists. split; [by apply astep_tau|]. split_and!; [apply Hset..|done].
    - assert (Hb : q d x k = []) by (apply (later_unsent i); auto).
      destruct Hstep as [->|[-> Hne]].
      + eexists. split; [by apply astep_send|]. split_and!; [apply Hset..|]. intros d' x' k'. simpl.
        unfold q_set. case_decide as D; [|done]. destruct D as (-> & -> & ->). by rewrite Hq, Hb, !app_nil_r.
      + exists a. split; [eapply astep_send_full; [done|]|done]. by rewrite Hq, Hb, app_nil_r in Hne.
    - specialize (Haw d x k Hi Hf ltac:(done)). rewrite Hq in Hstep.
      destruct (a_q a (peer d) x k) as [|v0 q0] eqn:Eq.
      + rewrite Haw in Hstep by done. destruct Hstep as [(? & ? & ? & ? & _)|[-> _]]; [done|].
        exists a. split; [by eapply astep_recv_empty|done].
      + destruct Hstep as [(v & q1 & z & [= <- <-] & (p & Hfp & ->) & ->)|[-> ?]]; [|done].
        eexists. split; [by eapply astep_recv|]. split_and!; [apply Hset..|]. intros d' x' k'. simpl.
        unfold q_set. case_decide as D; [|done]. by destruct D as (-> & -> & ->).
    - specialize (Haw d x k Hi Hf ltac:(done)). rewrite Hq in Hstep.
      assert (Hb : bool_decide (a_q a (peer d) x k ++ q (peer d) x k = []) = bool_decide (a_q a (peer d) x k = [])).
      { apply bool_decide_ext. split; [|intros E; by rewrite E, Haw]. by intros [? _]%app_nil. }
      rewrite Hb in Hstep. subst s'. eexists. split; [by eapply astep_poll|]. split_and!; [apply Hset..|done].
    - subst s'. exists a. split; [by apply astep_stop|done]. }
  destruct Hv as (a' & Hst & Hpc & Hi' & Hq). exists a'. split; [done|].
  assert (Hot : forall j, j <> i -> a_pc a' j = a_pc a j /\ a_pc s' j = a_pc s j).
  { intros j Hne. split; by eapply astep_pc. }
  destruct (st_step _ _ _ _ _ _ _ _ _ (mo_staged P HP g Hg) i a a' Hi Ha Hst) as [Ha' _]. split; try done.
  - intros j Hj Hfj. destruct (decide (j = i)) as [->|Hne]; [done|].
    destruct (Hot j Hne) as [E1 E2]. rewrite E1 in Hfj. rewrite E1, E2. by apply (sp_wait _ _ _ _ Hs).
  - intros h [Hh Hfol]. destruct (sp_snd _ _ _ _ Hs h) as (b & [Hb Hpcb Hqb]).
    + split; [done|]. intros j Hj Hfj. destruct (decide (j = i)) as [->|Hne]; [done|].
      destruct (Hot j Hne) as [E1 _]. rewrite <- E1 in Hfj |- *. by apply Hfol.
    + exists b. split; try done. intros j Hj. rewrite Hpcb by done. destruct (decide (j = i)) as [->|Hne].
      * rewrite decide_False by done. case_decide as Hf'; [|done]. rewrite Hi'. simpl. by rewrite (Hfol i Hi Hf').
      * destruct (Hot j Hne) as [-> ->]. done.
Qed.

(** A step of a thread in the second call is a step of that call, whatever the others will
    bring to it, or the send waits for a message of the first. *)
Lemma seq_step_snd i s' :
  (i < n)%nat -> m_fin P i (a_pc a i) -> astep (fun i => seq_act i (g i)) i s s' ->
  (exists q', split g s' a q' /\
     forall h b, follows g a h -> second s a q h b -> exists b', astep (acts Q h) i b b' /\ second s' a q' h b') \/
  (s' = s /\ exists d x k, ends i d x k /\ a_q a d x k <> []).
Proof using Hs HP HQ Hlink Hg Inhabited0.
  intros Hi Hf Hstep. pose proof (sp_fst _ _ _ _ Hs) as Ha. pose proof (sp_pc _ _ _ _ Hs) as Hpc.
  assert (Hv : (exists q', (forall d x k, a_q s' d x k = a_q a d x k ++ q' d x k) /\ (a_pc s' i).1 = a_pc a i /\
     forall h b, h i = link i (g i) (a_pc a i) -> a_pc b i = (a_pc s i).2 -> (forall d x k, a_q b d x k = q d x k) ->
       exists b', astep (acts Q h) i b b' /\ a_pc b' i = (a_pc s' i).2 /\ (forall d x k, a_q b' d x k = q' d x k)) \/
    (s' = s /\ exists d x k, ends i d x k /\ a_q a d x k <> [])).
  { assert (Hat : forall d x k, act_at (m_act Q i (link i (g i) (a_pc a i)) (a_pc s i).2) d x k -> ends i d x k).
    { destruct some_second as (h & b & [Hh Hfol] & [Hb Hpcb _]). intros d x k. apply (mo_ends Q HQ); [done|].
      pose proof (mo_okp Q HQ h b i Hh Hb Hi) as Hok. by rewrite Hpcb, decide_True, (Hfol i Hi Hf) in Hok by done. }
    pose proof (fun d x k => mo_taken P HP g a i d x k Hg Ha Hi Hf) as Htk. pose proof (sp_q _ _ _ _ Hs) as Hq.
    apply astep_inv in Hstep. unfold seq_act in Hstep. rewrite Hpc, decide_True in Hstep by done.
    destruct (m_act Q i (link i (g i) (a_pc a i)) (a_pc s i).2) as [p|d x k v p|d x k f|d x k f|] eqn:Ea; simpl in Hstep, Hat.
    - subst s'. left. exists q. simpl. rewrite pc_set_same. split; [done|]. split; [done|]. intros h b Eh Eb Eq.
      eexists. split; [apply (astep_tau _ _ _ p); by rewrite Eh, Eb|]. simpl. by rewrite pc_set_same.
    - destruct Hstep as [->|[-> Hne]].
      + left. exists (q_set d x k (q d x k ++ [v]) q). simpl. rewrite pc_set_same. split; [|split; [done|]].
        * intros d' x' k'. unfold q_set. case_decide as D; [|done]. destruct D as (-> & -> & ->). by rewrite Hq, app_assoc.
        * intros h b Eh Eb Eq. eexists. split; [apply (astep_send _ _ _ d x k v p); by rewrite Eh, Eb|]. simpl.
          rewrite pc_set_same. split; [done|]. intros d' x' k'. unfold q_set. by rewrite !Eq.
      + destruct (decide (q d x k = [])) as [E|E].
        * right. split; [done|]. exists d, x, k. split; [by apply Hat|]. by rewrite Hq, E, app_nil_r in Hne.
        * left. exists q. split; [done|]. split; [done|]. intros h b Eh Eb Eq. exists b. split; [|done].
          apply (astep_send_full _ _ _ d x k v p); [by rewrite Eh, Eb|by rewrite Eq].
    - left. rewrite Hq, Htk in Hstep by (by apply Hat).
      destruct Hstep as [(v & q1 & z & E1 & (p & Hfp & ->) & ->)|[-> E1]]; simpl in E1.
      + exists (q_set (peer d) x k q1 q). simpl. rewrite pc_set_same. split; [|split; [done|]].
        * intros d' x' k'. unfold q_set. case_decide as D; [|done]. destruct D as (-> & -> & ->). by rewrite Htk by (by apply Hat).
        * intros h b Eh Eb Eq. eexists.
          split; [apply (astep_recv _ _ _ d x k f v q1 p); [by rewrite Eh, Eb|by rewrite Eq|done]|]. simpl.
          rewrite pc_set_same. split; [done|]. intros d' x' k'. unfold q_set. by rewrite !Eq.
      + exists q. split; [done|]. split; [done|]. intros h b Eh Eb Eq. exists b. split; [|done].
        apply (astep_recv_empty _ _ _ d x k f); [by rewrite Eh, Eb|by rewrite Eq].
    - left. rewrite Hq, Htk in Hstep by (by apply Hat). simpl in Hstep. subst s'. exists q. simpl. rewrite pc_set_same.
      split; [done|]. split; [done|]. intros h b Eh Eb Eq. eexists. split; [apply (astep_poll _ _ _ d x k f); by rewrite Eh, Eb|].
      simpl. rewrite pc_set_same. by rewrite Eq.
    - left. subst s'. exists q. split; [done|]. split; [done|]. intros h b Eh Eb Eq. exists b.
      split; [apply astep_stop; by rewrite Eh, Eb|done]. }
  destruct Hv as [(q' & Hq' & Hpi & Hb)|]; [left|by right]. exists q'.
  assert (Hot : forall j, j <> i -> a_pc s' j = a_pc s j) by (intros j Hne; by eapply astep_pc).
  assert (Hnext : forall h b, follows g a h -> second s a q h b -> exists b', astep (acts Q h) i b b' /\ second s' a q' h b').
  { intros h b [Hh Hfol] [Hib Hpcb Hqb]. destruct (Hb h b) as (b' & Hst & Hpb' & Hqb'); [by apply Hfol| |done|].
    { by rewrite Hpcb, decide_True. }
    exists b'. split; [done|].
    destruct (st_step _ _ _ _ _ _ _ _ _ (mo_staged Q HQ h Hh) i b b' Hi Hib Hst) as [Hib' _]. split; try done.
    intros j Hj. destruct (decide (j = i)) as [->|Hne]; [by rewrite decide_True|].
    rewrite (astep_pc _ _ _ _ _ Hst), Hot by done. by apply Hpcb. }
  split; [|exact Hnext]. split; try done.
  - intros j. destruct (decide (j = i)) as [->|Hne]; [done|by rewrite Hot].
  - intros j Hj Hfj. rewrite Hot by (by intros ->). by apply (sp_wait _ _ _ _ Hs).
  - intros h Hh. destruct (sp_snd _ _ _ _ Hs h Hh) as [b Hb']. destruct (Hnext h b Hh Hb') as (b' & _ & H'). by exists b'.
Qed.
End state.
(** What is seen of a thread in the sequence. *)
Lemma seq_stage i z :
  m_level seq_mach i (m_seen seq_mach i z) = (stage P i z.1 + if decide (m_fin P i z.1) then stage Q i z.2 else 0)%nat.
Proof using Type. simpl. unfold m_fin. by repeat case_decide. Qed.

Lemma seq_okp_top i t z :
  (i < n)%nat -> seq_okp i t z ->
  (stage P i z.1 <= m_top P i)%nat /\ (m_fin P i z.1 -> stage Q i z.2 <= m_top Q i)%nat.
Proof using HP HQ.
  intros Hi (_ & H1 & H2). split; [by apply (mo_top P HP i t)|]. intros Hf. rewrite decide_True in H2 by done.
  by apply (mo_top Q HQ i (link i t z.1)).
Qed.

Lemma seq_okp_fin i t z :
  (i < n)%nat -> seq_okp i t z -> m_fin seq_mach i z <-> m_fin P i z.1 /\ m_fin Q i z.2.
Proof using HP HQ.
  intros Hi Hok. destruct (seq_okp_top i t z Hi Hok) as [H1 H2]. unfold m_fin at 1. rewrite seq_stage. simpl.
  case_decide as Hf; [specialize (H2 Hf)|]; unfold m_fin in *; (split; [|intros [? ?]]; lia).
Qed.

Lemma seq_inv_okp g s i : args_ok P g -> seq_inv g s -> (i < n)%nat -> seq_okp i (g i) (a_pc s i).
Proof using HP HQ Hlink Inhabited0.
  intros Hg (a & q & Hs) Hi. pose proof (sp_pc _ _ _ _ Hs i) as Hpc. split; [by apply Hg|]. rewrite Hpc. split.
  - by apply (fst_okp g Hg s a q Hs).
  - case_decide as Hf; [|by apply (sp_wait _ _ _ _ Hs)].
    destruct (some_second g Hg s a q Hs) as (h & b & [Hh Hfol] & [Hb Hpcb _]).
    pose proof (mo_okp Q HQ h b i Hh Hb Hi) as Hok. by rewrite Hpcb, decide_True, (Hfol i Hi Hf) in Hok by done.
Qed.

Section staged.
Context (g : nat -> T) (Hg : args_ok P g).
Abbreviation Pst := (mo_staged P HP g Hg).

Lemma seq_step_view i s s' :
  (i < n)%nat -> seq_inv g s -> astep (fun i => seq_act i (g i)) i s s' ->
  seq_inv g s' /\ (m_seen seq_mach i (a_pc s' i) = m_seen seq_mach i (a_pc s i) \/
    (m_level seq_mach i (m_seen seq_mach i (a_pc s i)) < m_level seq_mach i (m_seen seq_mach i (a_pc s' i)))%nat).
Proof using HP HQ Hlink Hg Inhabited0 Hends.
  intros Hi (a & q & Hs) Hstep. pose proof (sp_pc _ _ _ _ Hs i) as Epc.
  destruct (decide (m_fin P i (a_pc a i))) as [Hf|Hf].
  - destruct (seq_step_snd g Hg s a q Hs i s' Hi Hf Hstep) as [(q' & Hs' & Hn)|[-> _]]; [|split; [by exists a, q|by left]].
    split; [by exists a, q'|]. rewrite !seq_stage. simpl. rewrite (sp_pc _ _ _ _ Hs'), Epc, !decide_True by done.
    destruct (some_second g Hg s a q Hs) as (h & b & Hh & Hb). destruct (Hn h b Hh Hb) as (b' & Hst & Hb').
    destruct (st_step _ _ _ _ _ _ _ _ _ (mo_staged Q HQ h (proj1 Hh)) i b b' Hi (se_inv _ _ _ _ _ Hb) Hst) as [_ Hv].
    rewrite (se_pc _ _ _ _ _ Hb), (se_pc _ _ _ _ _ Hb'), !decide_True in Hv by done.
    destruct Hv as [->|]; [by left|right; lia].
  - destruct (seq_step_fst g Hg s a q Hs i s' Hi Hf Hstep) as (a' & Hst & Hs').
    split; [by exists a', q|]. rewrite !seq_stage. simpl. rewrite (sp_pc _ _ _ _ Hs'), Epc, !(decide_False (P := m_fin P i (a_pc a i))) by done.
    destruct (st_step _ _ _ _ _ _ _ _ _ Pst i a a' Hi (sp_fst _ _ _ _ Hs) Hst) as [_ [E|Hlt]]; [|right; rewrite Nat.add_0_r; eapply Nat.lt_le_trans; [exact Hlt|apply Nat.le_add_r]].
    left. rewrite E. rewrite decide_False; [done|]. unfold m_fin in *. by rewrite E.
Qed.

(** All threads have returned from the first call. *)
Abbreviation all_fin a := (Forall (fun j => m_fin P j (a_pc a j)) (seq 0 n)).
Lemma all_fin_views s a q :
  split g s a q -> Forall (fun j => m_level P j (m_seen P j (a_pc s j).1) = m_top P j) (seq 0 n) <-> all_fin a.
Proof using Type.
  intros Hs. rewrite !Forall_forall. by split; intros HF j Hj; specialize (HF j Hj); rewrite (sp_pc _ _ _ _ Hs j) in *.
Qed.

Lemma second_views s a q h b :
  split g s a q -> all_fin a -> second s a q h b ->
  forall j, (j < n)%nat -> m_seen Q j (a_pc b j) = (m_seen seq_mach j (a_pc s j)).2.
Proof using Type.
  intros Hs HF Hb j Hj. rewrite Forall_forall in HF. specialize (HF j ltac:(apply elem_of_seq; lia)). simpl.
  rewrite (sp_pc _ _ _ _ Hs), (se_pc _ _ _ _ _ Hb), !decide_True by done. done.
Qed.

Lemma seq_enabled_step i s s' :
  (i < n)%nat -> seq_inv g s -> seq_enabled (fun j => m_seen seq_mach j (a_pc s j)) i ->
  astep (fun i => seq_act i (g i)) i s s' ->
  (m_level seq_mach i (m_seen seq_mach i (a_pc s i)) < m_level seq_mach i (m_seen seq_mach i (a_pc s' i)))%nat \/
  (m_wait seq_mach i (a_pc s' i) < m_wait seq_mach i (a_pc s i))%nat.
Proof using HP HQ Hlink Hg Inhabited0 Hends.
  intros Hi (a & q & Hs) He Hstep. pose proof (sp_pc _ _ _ _ Hs i) as Epc. rewrite !seq_stage. simpl.
  unfold seq_enabled in He. cbn [m_seen seq_mach fst] in He. rewrite Epc in He |- *.
  destruct (decide (m_fin P i (a_pc a i))) as [Hf|Hf].
  - rewrite decide_True in He by done. destruct He as [HF He]. apply (all_fin_views s a q Hs) in HF.
    destruct (seq_step_snd g Hg s a q Hs i s' Hi Hf Hstep) as [(q' & Hs' & Hn)|(-> & d & x & k & Hde & Hne)].
    + destruct (some_second g Hg s a q Hs) as (h & b & Hh & Hb). destruct (Hn h b Hh Hb) as (b' & Hst & Hb').
      pose proof (mo_staged Q HQ h (proj1 Hh)) as Qst.
      assert (He' : m_enabled Q (fun j => m_seen Q j (a_pc b j)) i).
      { eapply (st_ext _ _ _ _ _ _ _ _ _ Qst); [|done|exact He]. intros j Hj. cbv beta. symmetry. by eapply second_views. }
      pose proof (st_enabled _ _ _ _ _ _ _ _ _ Qst i b b' Hi (se_inv _ _ _ _ _ Hb) He' Hst) as Hv.
      rewrite (se_pc _ _ _ _ _ Hb), (se_pc _ _ _ _ _ Hb'), !decide_True in Hv by done.
      rewrite (sp_pc _ _ _ _ Hs'), !decide_True by done. destruct Hv; [left; lia|by right].
    + exfalso. apply Hne. destruct (Hends i d x k Hi Hde) as (j & Hj & Hje).
      rewrite <- (peer_peer d). apply (mo_taken P HP g a j); [done|exact (sp_fst _ _ _ _ Hs)|done| |done].
      rewrite Forall_forall in HF. apply HF, elem_of_seq. lia.
  - rewrite decide_False in He by done.
    destruct (seq_step_fst g Hg s a q Hs i s' Hi Hf Hstep) as (a' & Hst & Hs'). rewrite (sp_pc _ _ _ _ Hs').
    assert (He' : m_enabled P (fun j => m_seen P j (a_pc a j)) i).
    { eapply (st_ext _ _ _ _ _ _ _ _ _ Pst); [|done|exact He]. intros j Hj. simpl. by rewrite (sp_pc _ _ _ _ Hs). }
    destruct (st_enabled _ _ _ _ _ _ _ _ _ Pst i a a' Hi (sp_fst _ _ _ _ Hs) He' Hst) as [|Hw]; [left; case_decide; lia|].
    pose proof (fst_top g Hg s a q Hs i Hi).
    case_decide as Hf'; [left|by right]. unfold m_fin in Hf, Hf'. lia.
Qed.

Lemma seq_exists i s :
  (i < n)%nat -> seq_inv g s -> (m_level seq_mach i (m_seen seq_mach i (a_pc s i)) < m_top seq_mach i)%nat ->
  exists j, (j < n)%nat /\ seq_enabled (fun j => m_seen seq_mach j (a_pc s j)) j.
Proof using HP HQ Hlink Hg Inhabited0.
  intros Hi (a & q & Hs) Hlt. rewrite seq_stage, (sp_pc _ _ _ _ Hs) in Hlt. simpl in Hlt.
  pose proof (sp_fst _ _ _ _ Hs) as Ha.
  destruct (decide (all_fin a)) as [HF|HF].
  - assert (Hall : forall j, (j < n)%nat -> m_fin P j (a_pc a j)).
    { intros j Hj. rewrite Forall_forall in HF. apply HF, elem_of_seq. lia. }
    rewrite decide_True in Hlt by (by apply Hall).
    destruct (some_second g Hg s a q Hs) as (h & b & Hh & Hb). pose proof (mo_staged Q HQ h (proj1 Hh)) as Qst.
    destruct (st_exists _ _ _ _ _ _ _ _ _ Qst i b Hi (se_inv _ _ _ _ _ Hb)) as (j & Hj & He).
    { rewrite (se_pc _ _ _ _ _ Hb), decide_True by (done || by apply Hall). pose proof (Hall i Hi) as Hf. unfold m_fin in Hf. lia. }
    exists j. split; [done|]. unfold seq_enabled. rewrite decide_True.
    + split; [by apply (all_fin_views s a q Hs)|].
      eapply (st_ext _ _ _ _ _ _ _ _ _ Qst); [|done|exact He]. intros l Hl. cbv beta. by eapply second_views.
    + simpl. rewrite (sp_pc _ _ _ _ Hs). by apply Hall.
  - apply not_Forall_Exists in HF; [|intros ?; apply _]. apply Exists_exists in HF as (l & Hl & HF).
    apply elem_of_seq in Hl.
    destruct (st_exists _ _ _ _ _ _ _ _ _ Pst l a ltac:(lia) Ha) as (j & Hj & He).
    { pose proof (fst_top g Hg s a q Hs l ltac:(lia)). apply Nat.le_neq. split; [done|exact HF]. }
    exists j. split; [done|]. unfold seq_enabled. cbn [m_seen seq_mach fst]. rewrite (sp_pc _ _ _ _ Hs j).
    rewrite decide_False by (by apply (enabled_not_fin P g)).
    eapply (st_ext _ _ _ _ _ _ _ _ _ Pst); [|done|exact He]. intros l' Hl'. simpl. by rewrite (sp_pc _ _ _ _ Hs).
Qed.

Lemma seq_staged :
  staged (fun i => seq_act i (g i)) n K (seq_inv g) (m_seen seq_mach) (m_level seq_mach) (m_top seq_mach)
    (m_wait seq_mach) seq_enabled.
Proof using HP HQ Hlink Hg Inhabited0 Hends.
  destruct (choice_upto n (fun i t => m_args Q i t) inhabitant) as [h0 Hh0]; [intros i Hi; by apply (mo_args Q HQ)|].
  pose proof (mo_staged Q HQ h0 Hh0) as Qst0. split.
  - apply seq_step_view.
  - intros i s Hi Hs. pose proof (seq_okp_top i _ _ Hi (seq_inv_okp g s i Hg Hs Hi)) as [H1 H2].
    rewrite seq_stage. simpl. case_decide as Hf; [specialize (H2 Hf)|]; lia.
  - intros s s' i Hss Hi. unfold seq_enabled. rewrite <- (Hss i Hi). case_decide as Hf.
    + intros [HF He]. split.
      * rewrite Forall_forall in HF |- *. intros j Hj. rewrite <- Hss; [by apply HF|]. apply elem_of_seq in Hj. lia.
      * eapply (st_ext _ _ _ _ _ _ _ _ _ Qst0); [|done|exact He]. intros j Hj. cbv beta. by rewrite Hss.
    + apply (st_ext _ _ _ _ _ _ _ _ _ Pst); [|done]. intros j Hj. cbv beta. by rewrite Hss.
  - apply seq_enabled_step.
  - apply seq_exists.
  - intros i s Hi (a & q & Hs). simpl. rewrite (sp_pc _ _ _ _ Hs). case_decide as Hf.
    + destruct (some_second g Hg s a q Hs) as (h & b & Hh & Hb).
      pose proof (st_wait _ _ _ _ _ _ _ _ _ (mo_staged Q HQ h (proj1 Hh)) i b Hi (se_inv _ _ _ _ _ Hb)) as Hw.
      by rewrite (se_pc _ _ _ _ _ Hb), decide_True in Hw by done.
    + apply (st_wait _ _ _ _ _ _ _ _ _ Pst); [done|exact (sp_fst _ _ _ _ Hs)].
Qed.
End staged.
Lemma seq_act_cases i t z d x k (at_edge : forall pc, action pc -> side -> nat -> nat -> Prop) :
  (forall pc pc' (f : pc -> pc') a d x k, at_edge _ (amap f a) d x k -> at_edge _ a d x k) ->
  at_edge _ (seq_act i t z) d x k ->
  (m_fin P i z.1 /\ at_edge _ (m_act Q i (link i t z.1) z.2) d x k) \/
  (~ m_fin P i z.1 /\ at_edge _ (m_act P i t z.1) d x k).
Proof using Type.
  intros Hmap. unfold seq_act. case_decide; [left|right]; (split; [done|]); by eapply Hmap.
Qed.

(** Two calls in sequence behave like one call. *)
Lemma seq_ok : mach_ok seq_mach.
Proof using HP HQ Hlink Inhabited0 Hends.
  split.
  - exact (mo_args P HP).
  - intros g Hg. exists (AM (fun i => m_start P i (g i)) no_msgs), no_msgs.
    split; try done; [by apply (mo_init P HP)|].
    intros h [Hh Hfol]. exists (AM (fun i => m_start Q i (h i)) no_msgs). split; [by apply (mo_init Q HQ)| |done].
    intros i Hi. simpl. case_decide as Hf; [|done]. by rewrite (Hfol i Hi Hf).
  - exact seq_staged.
  - intros g s i. apply seq_inv_okp.
  - intros i t Hi Ht. pose proof (mo_start P HP i t Hi Ht) as Hok. split; [done|]. split; [done|]. simpl.
    case_decide as Hf; [|done]. apply (mo_start Q HQ); [done|]. by apply Hlink.
  - intros i t z Hi Hok. destruct (seq_okp_top i t z Hi Hok) as [H1 H2]. rewrite seq_stage. simpl.
    case_decide as Hf; [specialize (H2 Hf)|]; lia.
  - intros i t z Hi Hok Hf. apply (seq_okp_fin i t z Hi Hok) in Hf as [H1 H2]. destruct Hok as (_ & _ & Hok). simpl. unfold seq_act.
    rewrite decide_True in Hok by done. rewrite decide_True by done. by rewrite (mo_stop Q HQ i (link i t z.1)).
  - intros i t z d x k Hi (Ht & H1 & H2) Hat.
    apply (seq_act_cases i t z d x k (@act_at)) in Hat as [[Hf Hat]|[Hf Hat]]; [| |by intros ? ? ? []].
    + rewrite decide_True in H2 by done. by eapply (mo_ends Q HQ).
    + by eapply (mo_ends P HP).
  - intros g s i d x k Hg (a & q & Hs) Hi Hst He. rewrite (sp_q _ _ _ _ Hs). simpl in Hst.
    pose proof (sp_pc _ _ _ _ Hs i) as Epc. rewrite Hst in Epc. simpl in Epc.
    rewrite (mo_unsent P HP g a i) by (done || exact (sp_fst _ _ _ _ Hs)). simpl.
    destruct (some_second g Hg s a q Hs) as (h & b & [Hh Hfol] & Hb). rewrite <- (se_q _ _ _ _ _ Hb).
    apply (mo_unsent Q HQ h b i); try done; [exact (se_inv _ _ _ _ _ Hb)|].
    rewrite (se_pc _ _ _ _ _ Hb) by done. case_decide as Hf; [|done].
    by rewrite Hst, (Hfol i Hi Hf), <- Epc.
  - intros g s i d x k Hg (a & q & Hs) Hi Hf He.
    pose proof (seq_inv_okp g s i Hg (ex_intro _ a (ex_intro _ q Hs)) Hi) as Hok.
    apply (seq_okp_fin i _ _ Hi Hok) in Hf as [H1 H2]. rewrite (sp_pc _ _ _ _ Hs) in H1. rewrite (sp_q _ _ _ _ Hs).
    rewrite (mo_taken P HP g a i) by (done || exact (sp_fst _ _ _ _ Hs)). simpl.
    destruct (some_second g Hg s a q Hs) as (h & b & [Hh Hfol] & Hb). rewrite <- (se_q _ _ _ _ _ Hb).
    apply (mo_taken Q HQ h b i); try done; [exact (se_inv _ _ _ _ _ Hb)|].
    by rewrite (se_pc _ _ _ _ _ Hb), decide_True.
  - intros g s i j d x k Hg (a & q & Hs) Hi Hj Haw He Hf.
    pose proof (seq_inv_okp g s j Hg (ex_intro _ a (ex_intro _ q Hs)) Hj) as Hok.
    apply (seq_okp_fin j _ _ Hj Hok) in Hf as [H1 H2]. rewrite (sp_pc _ _ _ _ Hs) in H1. rewrite (sp_q _ _ _ _ Hs).
    apply (seq_act_cases i _ _ d x k (@act_awaits)) in Haw as [[Hfi Haw]|[Hfi Haw]]; [| |by intros ? ? ? []];
      rewrite (sp_pc _ _ _ _ Hs) in Hfi, Haw.
    + destruct (some_second g Hg s a q Hs) as (h & b & [Hh Hfol] & Hb).
      pose proof (mo_awaits Q HQ h b i j d x k Hh (se_inv _ _ _ _ _ Hb) Hi Hj) as Hne.
      rewrite !(se_pc _ _ _ _ _ Hb), !decide_True, (Hfol i Hi Hfi), (se_q _ _ _ _ _ Hb) in Hne by done.
      intros [_ E]%app_nil. by apply Hne.
    + pose proof (mo_awaits P HP g a i j d x k Hg (sp_fst _ _ _ _ Hs) Hi Hj Haw He H1) as Hne. by intros [E _]%app_nil.
Qed.
End seq.

(** No call at all. *)
Definition no_call : mach T := {|
  m_pc := unit; m_args := fun _ _ => True; m_act := fun _ _ _ => AStop; m_start := fun _ _ => tt; m_okp := fun _ _ _ => True;
  m_inv := fun _ a => forall d x k, a_q a d x k = [];
  m_view := unit; m_inh := _; m_seen := fun _ _ => tt; m_level := fun _ _ => 0%nat; m_top := fun _ => 0%nat;
  m_wait := fun _ _ => 0%nat; m_enabled := fun _ _ => False; m_dec := fun _ _ => False_dec;
|}.

Lemma no_call_ok : mach_ok no_call.
Proof using Inhabited0.
  split; simpl; try done; [by exists inhabitant|].
  intros _ _. split; simpl; try lia; try done. intros i a a' _ Ha Hs. apply astep_inv in Hs. simpl in Hs. subst. split; [done|by left].
Qed.
End layers.

(** ** Programs *)

(** The calls [todo] one after another, each made with what the calls before it have
    returned; the results so far are [rs]. *)
Fixpoint in_turn {A} (rs : list A) (todo : list (list A -> prog A)) : prog (list A) :=
  match todo with
  | [] => PRet rs
  | p :: todo' => pbind (fun x => in_turn (rs ++ [x]) todo') (p rs)
  end.

(** How far a thread is with a call. *)
Inductive status (A : Type) := NotEntered | Inside | Returned (x : A).
Arguments NotEntered {A}. Arguments Inside {A}. Arguments Returned {A}.
(** ... with the [r]-th call, when it has returned from calls with the results [f] and is in
    the next one; [None]: it has not begun with the first. *)
Definition status_at {A} (r : nat) (f : option (list A)) : status A :=
  match f with
  | None => NotEntered
  | Some f =>
      match f !! r with
      | Some x => Returned x
      | None => if decide (r = length f) then Inside else NotEntered
      end
  end.

Definition all_entered {A} (n : nat) (st : nat -> status A) : Prop := forall j, (j < n)%nat -> st j <> NotEntered.

(** A call: its threads, which bring to it the results of their earlier calls, what they
    have left to run at each point and at the beginning, and what the call promises. *)
Record call (A : Type) := Call {
  cl_mach : mach (list A);
  cl_prog : nat -> list A -> m_pc cl_mach -> prog A;
  cl_code : nat -> list A -> prog A;
  cl_post : (nat -> list A) -> (nat -> status A) -> Prop;
}.
Arguments Call {A}. Arguments cl_mach {A}. Arguments cl_prog {A}. Arguments cl_code {A}. Arguments cl_post {A}.

(** [a'] is the action [a] of a thread whose states are seen through [g]. *)
Definition act_maps {pc pc'} (g : pc -> pc') (a : action pc) (a' : action pc') : Prop :=
  match a, a' with
  | ATau p, ATau p' => p' = g p
  | ASend d x k v p, ASend d' x' k' v' p' => d' = d /\ x' = x /\ k' = k /\ v' = v /\ p' = g p
  | ARecv d x k f, ARecv d' x' k' f' => d' = d /\ x' = x /\ k' = k /\ forall v p, f v p -> f' v (g p)
  | APoll d x k f, APoll d' x' k' f' => d' = d /\ x' = x /\ k' = k /\ forall b, f' b = g (f b)
  | AStop, AStop => True
  | _, _ => False
  end.

Lemma amap_maps {pc pc'} (g : pc -> pc') a : act_maps g a (amap g a).
Proof. destruct a; simpl; try done; split_and!; try done. intros v p Hf. by exists p. Qed.
Lemma act_maps_id {pc} (a : action pc) : act_maps (fun p => p) a a.
Proof. by destruct a. Qed.

Section lift.
Context {C W : Type} {HS : ChanStore C W} {HC : ChanOps C} {HT : TreeEdge C} (net : network C W).
Context {A B pc pc' : Type} (act : nat -> pc -> action pc) (prog1 : nat -> pc -> prog A) (ok1 : nat -> pc -> Prop)
  (act' : nat -> pc' -> action pc') (prog2 : nat -> pc' -> prog B) (ok2 : nat -> pc' -> Prop)
  (g : pc -> pc') (F : prog A -> prog B) (i : nat) (p : pc).

(** A thread that carries on with something else implements the abstract thread that does. *)
Lemma implements_lift :
  act_maps g (act i p) (act' i (g p)) ->
  (forall p', ok1 i p' -> ok2 i (g p')) -> (forall p', prog2 i (g p') = F (prog1 i p')) ->
  F PPanic = PPanic -> F PUndef = PUndef ->
  (forall W' (HS' : ChanStore C W') (w : W'), step_prog (C := C) (n_id net i) (F (prog1 i p)) w =
    let '(p', w') := step_prog (C := C) (n_id net i) (prog1 i p) w in (F p', w')) ->
  implements net act prog1 ok1 i p -> implements net act' prog2 ok2 i (g p).
Proof using Type.
  intros Hact Hok Hprog HP HU Hstep. unfold implements.
  assert (Hdoes : forall X (e : chan_ev X) k, does net prog1 i p e k -> does net prog2 i (g p) e (fun x => F (k x))).
  { intros X e k Hd W' HS' w. rewrite Hprog, Hstep, Hd. unfold step_ev.
    destruct (run_ev (n_id net i) e w) as [[x| | |] w']; by rewrite ?HP, ?HU. }
  destruct (act i p) as [p'|d x k v p'|d x k f|d x k f|], (act' i (g p)) as [q'|d' x' k' v' q'|d' x' k' f'|d' x' k' f'|];
    simpl in Hact; try done.
  - intros [H1 H2]. rewrite Hact. split; [by apply Hok|]. intros W' HS' w. by rewrite !Hprog, Hstep, H2.
  - destruct Hact as (-> & -> & -> & -> & ->). intros (H1 & H2 & e & k0 & H3 & H4 & H5).
    split; [done|]. split; [by apply Hok|].
    exists e, (fun x => F (k0 x)). split; [done|]. split; [by apply Hdoes|]. by rewrite H5, Hprog.
  - destruct Hact as (-> & -> & -> & Hf'). intros (H1 & [(e & k0 & msg & H2 & H3 & H4)|(k0 & H2 & H3)]); (split; [done|]).
    + left. exists e, (fun x => F (k0 x)), msg. split; [done|]. split; [by apply Hdoes|].
      intros v msg' Hr. destruct (H4 v msg' Hr) as (p' & Hf & Hp & E). exists (g p').
      split; [by apply Hf'|]. split; [by apply Hok|]. by rewrite E, Hprog.
    + right. exists (fun x => F (k0 x)). split; [by apply Hdoes|].
      intros v. destruct (H3 v) as (p' & Hf & Hp & E). exists (g p').
      split; [by apply Hf'|]. split; [by apply Hok|]. by rewrite E, Hprog.
  - destruct Hact as (-> & -> & -> & Hf'). intros (H1 & k0 & H2 & H3). split; [done|].
    exists (fun x => F (k0 x)). split; [by apply Hdoes|].
    intros b. destruct (H3 b) as [H4 H5]. rewrite Hf'. split; [by apply Hok|]. by rewrite H5, Hprog.
  - intros H1 W' HS' w. by rewrite Hprog, Hstep, H1.
Qed.
End lift.

Lemma step_pbind {C W} {HS : ChanStore C W} {HC : ChanOps C} {A B} self (f : A -> prog B) (p : prog A) (w : W) :
  running p -> step_prog (C := C) self (pbind f p) w =
    let '(p', w') := step_prog (C := C) self p w in (pbind f p', w').
Proof.
  destruct p as [a|X e k|L R body s k| |]; try done; intros _; simpl.
  - unfold step_ev. by destruct (run_ev self e w) as [[] ?].
  - destruct s as [[l|r]|X e k'| |]; try done. unfold step_ev. by destruct (run_ev self e w) as [[] ?].
Qed.

(** A call whose result is handed on through [f]. *)
Definition returning {A B} (f : A -> B) (p : prog A) : prog B := pbind (fun x => PRet (f x)) p.

Lemma returning_ret {A B} (f : A -> B) p x y : p = PRet x -> returning f p = PRet y -> y = f x.
Proof. intros ->. by intros [= ->]. Qed.

Lemma implements_returning {C W} {HS : ChanStore C W} {HC : ChanOps C} {HT : TreeEdge C} (net : network C W)
    {A B pc} (act : nat -> pc -> action pc) (prog1 : nat -> pc -> prog A) ok1 (f : A -> B) i p :
  running (prog1 i p) \/ (exists x, prog1 i p = PRet x) ->
  implements net act prog1 ok1 i p -> implements net act (fun i p => returning f (prog1 i p)) ok1 i p.
Proof.
  intros Hp. apply (implements_lift net _ _ _ _ _ _ (fun p => p) (returning f)); try done.
  - apply act_maps_id.
  - intros W' HS' w. destruct Hp as [Hr|[x ->]]; [by apply step_pbind|done].
Qed.

Section calls.
Context {C W : Type} {HS : ChanStore C W} {HC : ChanOps C} {HT : TreeEdge C} (net : network C W) (K : nat).
Context {A : Type}.
Abbreviation n := (n_len net).
Context (Hends : forall i d x k, (i < n)%nat -> n_end net i d x k -> exists j, (j < n)%nat /\ n_end net j (peer d) x k).

Definition has_status (c : call A) (i : nat) (t : list A) (p : m_pc (cl_mach c)) (st : status A) : Prop :=
  match st with
  | NotEntered => p = m_start (cl_mach c) i t
  | Inside => ~ m_fin (cl_mach c) i p
  | Returned x => m_fin (cl_mach c) i p /\ cl_prog c i t p = PRet x
  end.

Record call_ok (c : call A) : Prop := {
  co_mach : mach_ok n K (n_end net) (cl_mach c);
  co_code i t : (i < n)%nat -> cl_prog c i t (m_start (cl_mach c) i t) = cl_code c i t;
  co_impl i t p : (i < n)%nat -> m_args (cl_mach c) i t -> m_okp (cl_mach c) i t p ->
    implements net (fun i => m_act (cl_mach c) i t) (fun i => cl_prog c i t) (fun i => m_okp (cl_mach c) i t) i p;
  co_under_way i t p : (i < n)%nat -> m_args (cl_mach c) i t -> m_okp (cl_mach c) i t p ->
    ~ m_fin (cl_mach c) i p -> running (cl_prog c i t p);
  co_returned i t p : (i < n)%nat -> m_args (cl_mach c) i t -> m_okp (cl_mach c) i t p ->
    m_fin (cl_mach c) i p -> exists x, cl_prog c i t p = PRet x;
  co_post g a st : args_ok n (cl_mach c) g -> m_inv (cl_mach c) g a ->
    (forall i, (i < n)%nat -> has_status c i (g i) (a_pc a i) (st i)) -> cl_post c g st;
}.

(** A call adds its result to those a thread has. *)
Definition handing (c : call A) (i : nat) (t : list A) (p : m_pc (cl_mach c)) : list A :=
  match cl_prog c i t p with PRet x => t ++ [x] | _ => t end.
Definition calls_mach (l : list (call A)) : mach (list A) :=
  foldr (fun c m => seq_mach n (cl_mach c) m (handing c)) no_call l.

Lemma handing_ret c i t p x : cl_prog c i t p = PRet x -> handing c i t p = t ++ [x].
Proof using Type. unfold handing. by intros ->. Qed.

(** Each call of [l] can be made with the results of those before it. *)
Inductive chained : list (call A) -> Prop :=
| chained_nil : chained []
| chained_cons c l :
    call_ok c ->
    (forall i t p x, (i < n)%nat -> m_args (cl_mach c) i t -> m_okp (cl_mach c) i t p -> m_fin (cl_mach c) i p ->
       cl_prog c i t p = PRet x -> m_args (calls_mach l) i (t ++ [x])) ->
    chained l -> chained (c :: l).

(** The programs of a thread that has not begun. *)
Definition codes (l : list (call A)) (i : nat) : list (list A -> prog A) := (fun c => cl_code c i) <$> l.
Fixpoint calls_prog (l : list (call A)) (i : nat) (t : list A) : m_pc (calls_mach l) -> prog (list A) :=
  match l with
  | [] => fun _ => PRet t
  | c :: l' => fun z =>
      match cl_prog c i t z.1 with
      | PRet x => calls_prog l' i (t ++ [x]) z.2
      | p => pbind (fun x => in_turn (t ++ [x]) (codes l' i)) p
      end
  end.

Lemma calls_prog_start l i : chained l -> (i < n)%nat -> forall t,
  calls_prog l i t (m_start (calls_mach l) i t) = in_turn t (codes l i).
Proof using Type.
  intros Hl Hi. induction Hl as [|c l Hc _ _ IH]; intros t; [done|]. simpl. unfold handing.
  rewrite <- (co_code c Hc) by done. destruct (cl_prog c i t (m_start (cl_mach c) i t)); [apply IH|done..].
Qed.

Lemma calls_prog_begin c l i t p :
  chained l -> (i < n)%nat -> calls_prog (c :: l) i t (begin (cl_mach c) (calls_mach l) (handing c) i t p) =
  pbind (fun x => in_turn (t ++ [x]) (codes l i)) (cl_prog c i t p).
Proof using Type. intros Hl Hi. simpl. unfold handing. destruct (cl_prog c i t p); [by apply calls_prog_start|done..]. Qed.

Lemma handing_args c l :
  call_ok c ->
  (forall i t p x, (i < n)%nat -> m_args (cl_mach c) i t -> m_okp (cl_mach c) i t p -> m_fin (cl_mach c) i p ->
     cl_prog c i t p = PRet x -> m_args (calls_mach l) i (t ++ [x])) ->
  forall i t p, (i < n)%nat -> m_args (cl_mach c) i t -> m_okp (cl_mach c) i t p -> m_fin (cl_mach c) i p ->
    m_args (calls_mach l) i (handing c i t p).
Proof using Type.
  intros Hc Hl i t p Hi Ht Hp Hf. destruct (co_returned c Hc i t p Hi Ht Hp Hf) as [x Ex].
  rewrite (handing_ret _ _ _ _ _ Ex). by apply Hl with p.
Qed.

Lemma calls_ok l : chained l -> mach_ok n K (n_end net) (calls_mach l).
Proof using Hends.
  induction 1 as [|c l Hc Hh _ IH]; [apply no_call_ok|].
  apply (seq_ok n K (n_end net) Hends); [apply Hc|done|by apply handing_args].
Qed.

Lemma calls_implements l : chained l -> forall i t z,
  (i < n)%nat -> m_okp (calls_mach l) i t z ->
  implements net (fun i => m_act (calls_mach l) i t) (fun i => calls_prog l i t) (fun i => m_okp (calls_mach l) i t) i z.
Proof using Hends.
  induction 1 as [|c l Hc Hh Hl IH]; intros i t z Hi Hok; [done|].
  destruct z as [p q]. destruct Hok as (Ht & H1 & H2). cbn [fst snd] in H1, H2.
  pose proof (handing_args c l Hc Hh i t) as Hargs.
  destruct (decide (m_fin (cl_mach c) i p)) as [Hf|Hf].
  - destruct (co_returned c Hc i t p Hi Ht H1 Hf) as [x Ex].
    pose proof (handing_ret _ _ _ _ _ Ex) as Eh. rewrite Eh in H2.
    eapply (implements_lift net _ _ _ _ (fun i => calls_prog (c :: l) i t) _ (fun q => (p, q)) (fun r => r) i q);
      [..|apply (IH i (t ++ [x])); done]; try done.
    + simpl. unfold seq_act. rewrite decide_True by done. cbn [fst snd]. rewrite Eh. apply amap_maps.
    + intros q' Hq'. split; [done|]. split; [done|]. rewrite decide_True by done. cbn [fst snd]. by rewrite Eh.
    + intros q'. simpl. by rewrite Ex.
    + intros W' HS' w. by destruct (step_prog _ _ w).
  - rewrite H2. clear H2 q.
    eapply (implements_lift net _ _ _ _ (fun i => calls_prog (c :: l) i t) _
      (begin (cl_mach c) (calls_mach l) (handing c) i t) _ i p);
      [..|by apply (co_impl c Hc)].
    + simpl. unfold seq_act. rewrite decide_False by done. apply amap_maps.
    + intros p' Hp'. split; [done|]. split; [done|]. cbn [begin fst snd]. case_decide as Hf'; [|done].
      apply (mo_start _ _ _ _ (calls_ok l Hl)); [done|]. by apply Hargs.
    + intros p'. by apply calls_prog_begin.
    + done.
    + done.
    + intros W' HS' w. apply step_pbind. by apply (co_under_way c Hc).
Qed.

(** Thread [i], which has the results [t] before the calls, has the results [f] of the first of them. *)
Fixpoint at_calls (l : list (call A)) (i : nat) (t : list A) : m_pc (calls_mach l) -> option (list A) -> Prop :=
  match l with
  | [] => fun _ f => match f with Some (_ :: _) => False | _ => True end
  | c :: l' => fun z f =>
      match f with
      | None => z = m_start (calls_mach (c :: l')) i t
      | Some [] => ~ m_fin (cl_mach c) i z.1
      | Some (x :: f') => m_fin (cl_mach c) i z.1 /\ cl_prog c i t z.1 = PRet x /\ at_calls l' i (t ++ [x]) z.2 (Some f')
      end
  end.

Lemma at_calls_start l i t : at_calls l i t (m_start (calls_mach l) i t) None.
Proof using Type. by destruct l. Qed.

(** The thread has entered the [r]-th call. *)
Definition entered (r : nat) (f : option (list A)) : Prop :=
  match f with Some f => (r <= length f)%nat | None => False end.

Lemma at_calls_later c l g h s a q b i f :
  (i < n)%nat -> at_calls (c :: l) i (g i) (a_pc s i) f ->
  split n (cl_mach c) (calls_mach l) (handing c) g s a q ->
  follows n (cl_mach c) (calls_mach l) (handing c) g a h -> second n (cl_mach c) (calls_mach l) s a q h b ->
  at_calls l i (h i) (a_pc b i) (match f with Some (_ :: f') => Some f' | _ => None end) /\
  match f with Some (x :: _) => h i = g i ++ [x] | _ => True end.
Proof using Type.
  intros Hi Hat Hs [_ Hfol] Hb. specialize (Hfol i Hi).
  change (@a_pc (m_pc (calls_mach (c :: l))) s i) with (@a_pc (m_pc (cl_mach c) * m_pc (calls_mach l)) s i) in Hat.
  rewrite (se_pc _ _ _ _ _ _ _ _ Hb i Hi).
  pose proof (sp_pc _ _ _ _ _ _ _ _ Hs i) as Epc. rewrite <- Epc in Hfol |- *.
  destruct f as [[|x f]|]; cbn [at_calls] in Hat.
  - rewrite decide_False by done. split; [apply at_calls_start|done].
  - destruct Hat as (Hf & Ex & Hat). assert (Eh : h i = g i ++ [x]).
    { rewrite Hfol by done. by apply handing_ret. }
    rewrite decide_True by done. by rewrite Eh.
  - split; [|done]. case_decide as Hf; [|apply at_calls_start].
    rewrite Hfol by done. rewrite Hat. apply at_calls_start.
Qed.

(** What each call promises holds, whichever calls the threads are in; those that have
    entered it have brought the results of the calls before. *)
Lemma calls_post l : chained l -> forall g s F,
  args_ok n (calls_mach l) g -> m_inv (calls_mach l) g s ->
  (forall i, (i < n)%nat -> at_calls l i (g i) (a_pc s i) (F i)) ->
  forall r c st, l !! r = Some c -> (forall i, (i < n)%nat -> st i = status_at r (F i)) ->
  exists h, args_ok n (cl_mach c) h /\ cl_post c h st /\
    forall i, (i < n)%nat -> entered r (F i) -> h i = g i ++ take r (default [] (F i)).
Proof using Hends.
  induction 1 as [|c l Hc Hh Hl IH]; intros g s F Hg Hs HF r c' st Hr Hst; [done|].
  destruct Hs as (a & q & Hs). destruct r as [|r]; simpl in Hr.
  - injection Hr as <-. exists g. split; [done|]. split; [|intros i _ _; by rewrite take_0, app_nil_r].
    apply (co_post c Hc g a); [done|exact (sp_fst _ _ _ _ _ _ _ _ Hs)|]. intros i Hi.
    rewrite (Hst i Hi). specialize (HF i Hi). rewrite <- (sp_pc _ _ _ _ _ _ _ _ Hs).
    destruct (F i) as [[|x f]|]; cbn [at_calls] in HF; simpl; [apply HF|by split; apply HF|exact (f_equal fst HF)].
  - destruct (some_second n K (n_end net) (cl_mach c) (calls_mach l) (handing c) (co_mach c Hc) (calls_ok l Hl)
      (handing_args c l Hc Hh) g Hg s a q Hs) as (h & b & Hhol & Hb).
    pose proof (fun i Hi => at_calls_later c l g h s a q b i (F i) Hi (HF i Hi) Hs Hhol Hb) as Hlat.
    destruct (IH h b (fun i => match F i with Some (_ :: f) => Some f | _ => None end)
      (proj1 Hhol) (se_inv _ _ _ _ _ _ _ _ Hb)) with r c' st as (h' & H1 & H2 & H3).
    + intros i Hi. by apply Hlat.
    + done.
    + intros i Hi. rewrite (Hst i Hi). destruct (F i) as [[|x f]|]; simpl; try done.
      destruct (f !! r); [done|]. by destruct (decide (S r = S (length f))), (decide (r = length f)); try lia.
    + exists h'. split; [done|]. split; [done|]. intros i Hi He. specialize (H3 i Hi). destruct (Hlat i Hi) as [_ Eh].
      destruct (F i) as [[|x f]|]; simpl in *; [lia| |done]. rewrite H3 by lia. by rewrite Eh, <- app_assoc.
Qed.

(** A thread has returned from all calls, or is in one of them. *)
Lemma calls_thread l : chained l -> forall i t z, (i < n)%nat -> m_okp (calls_mach l) i t z ->
  exists f, at_calls l i t z (Some f) /\
    ((length f = length l /\ calls_prog l i t z = PRet (t ++ f)) \/
     (exists p, (length f < length l)%nat /\ running p /\ ~ m_fin (calls_mach l) i z /\
        calls_prog l i t z = pbind (fun x => in_turn ((t ++ f) ++ [x]) (codes (drop (S (length f)) l) i)) p)).
Proof using Hends.
  induction 1 as [|c l Hc Hh Hl IH]; intros i t z Hi Hok.
  { exists []. split; [done|]. left. split; [done|]. by rewrite app_nil_r. }
  destruct z as [p q]. pose proof (seq_okp_fin n K (n_end net) (cl_mach c) _ _ (co_mach c Hc) (calls_ok l Hl) i t (p, q) Hi Hok) as Hfin.
  destruct Hok as (Ht & H1 & H2). cbn [fst snd] in H1, H2, Hfin.
  destruct (decide (m_fin (cl_mach c) i p)) as [Hf|Hf].
  - destruct (co_returned c Hc i t p Hi Ht H1 Hf) as [x Ex].
    pose proof (handing_ret _ _ _ _ _ Ex) as Eh. rewrite Eh in H2.
    destruct (IH i (t ++ [x]) q Hi H2) as (f & Hat & Hf').
    assert (Ep : calls_prog (c :: l) i t (p, q) = calls_prog l i (t ++ [x]) q) by (simpl; by rewrite Ex).
    exists (x :: f). split; [done|]. rewrite Ep. destruct Hf' as [[Hlf E]|(p' & Hlt & Hr & Hnf & E)].
    + left. split; [simpl; by rewrite Hlf|]. by rewrite E, <- app_assoc.
    + right. exists p'. split; [simpl; lia|]. split; [done|]. split; [by intros [_ ?]%Hfin|].
      rewrite E, <- (app_assoc t). done.
  - exists []. split; [done|]. right. exists (cl_prog c i t p).
    split; [simpl; lia|]. split; [exact (co_under_way c Hc i t p Hi Ht H1 Hf)|]. split; [intros Hf'; by apply Hf, Hfin|].
    rewrite H2, calls_prog_begin by done. simpl. by rewrite drop_0, app_nil_r.
Qed.

Definition calls_sys (l : list (call A)) (w : W) : sys W (list A) := Sys (tab n (fun i => in_turn [] (codes l i))) w.

(** The call promises [c] what it does to threads that bring what [h] says, if they have
    entered it. *)
Definition promised (r : nat) (c : call A) (F : nat -> list A) : Prop :=
  exists h, args_ok n (cl_mach c) h /\ cl_post c h (fun i => status_at r (Some (F i))) /\
    forall i, (i < n)%nat -> (r <= length (F i))%nat -> h i = take r (F i).

Section run.
Context (l : list (call A)) (w : W) (Hl : chained l) (Hargs : args_ok n (calls_mach l) (fun _ => [])) (Hw : n_ok net no_msgs w).
Abbreviation cact := (fun i => m_act (calls_mach l) i []).
Abbreviation cprog := (fun i => calls_prog l i []).
Abbreviation cokp := (fun i => m_okp (calls_mach l) i []).
Abbreviation csim := (sim net cprog cokp).
Abbreviation cstart := (AM (fun i => m_start (calls_mach l) i []) no_msgs).

Lemma calls_reach sched :
  Forall (fun i => (i < n)%nat) sched ->
  exists a, arun cact sched cstart a /\ m_inv (calls_mach l) (fun _ => []) a /\
    csim a (sys_run (n_id net) (calls_sys l w) sched).
Proof using Hends Hl Hw Hargs.
  intros Hs. pose proof (calls_ok l Hl) as Hok.
  destruct (sim_run net cact cprog cokp) with
    (a := cstart) (s := calls_sys l w) (l := sched) as (a & Hr & Hsim); [..|done|].
  - intros i z Hi Hz. by apply calls_implements.
  - split; simpl; [by rewrite length_tab| | |done].
    + intros i Hi. rewrite lookup_tab by done. by rewrite calls_prog_start.
    + intros i Hi. apply (mo_start _ _ _ _ Hok); [done|by apply Hargs].
  - exists a. split; [done|]. split; [|done].
    eapply (arun_invariant cact (m_inv (calls_mach l) (fun _ => [])) n); [|exact Hs|exact Hr|by apply (mo_init _ _ _ _ Hok)].
    intros i a1 a2 Hi Ha Hst. by apply (st_step _ _ _ _ _ _ _ _ _ (mo_staged _ _ _ _ Hok _ Hargs) i a1 a2).
Qed.

(** Under every schedule each call keeps its promise, with the results [F] of the threads. *)
Definition calls_state (s : sys W (list A)) (F : nat -> list A) : Prop :=
  (forall i p, sy_threads s !! i = Some p ->
     (length (F i) = length l /\ p = PRet (F i)) \/
     (exists p', (length (F i) < length l)%nat /\ running p' /\
        p = pbind (fun x => in_turn (F i ++ [x]) (codes (drop (S (length (F i))) l) i)) p')) /\
  (forall r c, l !! r = Some c -> promised r c F).

Lemma calls_promise sched :
  Forall (fun i => (i < n)%nat) sched -> exists F, calls_state (sys_run (n_id net) (calls_sys l w) sched) F.
Proof using Hends Hl Hw Hargs.
  intros Hs. destruct (calls_reach sched Hs) as (a & _ & Ha & Hsim).
  set (P := fun i f => at_calls l i [] (a_pc a i) (Some f) /\
    ((length f = length l /\ calls_prog l i [] (a_pc a i) = PRet f) \/
     (exists p, (length f < length l)%nat /\ running p /\ ~ m_fin (calls_mach l) i (a_pc a i) /\
        calls_prog l i [] (a_pc a i) = pbind (fun x => in_turn (f ++ [x]) (codes (drop (S (length f)) l) i)) p))).
  destruct (choice_upto n P []) as [F HF].
  { intros i Hi. exact (calls_thread l Hl i [] (a_pc a i) Hi (sim_ok _ _ _ _ _ Hsim i Hi)). }
  exists F. split.
  - intros i p Hp. assert (Hi : (i < n)%nat) by exact (sim_lt _ _ _ _ _ _ _ Hsim Hp).
    rewrite (sim_prog _ _ _ _ _ Hsim i Hi) in Hp. injection Hp as <-.
    destruct (HF i Hi) as [_ [[H1 H2]|(p & H1 & H2 & _ & H3)]]; [by left|right; by exists p].
  - intros r c Hr. destruct (calls_post l Hl (fun _ => []) a (fun i => Some (F i)) Hargs Ha) with r c (fun i => status_at r (Some (F i))) as (h & H1 & H2 & H3); [|done|done|by exists h].
    intros i Hi. apply (HF i Hi).
Qed.

(** Enough fair rounds end all calls, with nothing left in the channels. *)
Lemma calls_end rounds :
  Forall (fair_round n K) rounds -> (sum_upto n (m_top (calls_mach l)) < length rounds)%nat ->
  let s := sys_run (n_id net) (calls_sys l w) (concat rounds) in
  exists F q, calls_state s F /\ (forall i, (i < n)%nat -> sy_threads s !! i = Some (PRet (F i))) /\
    n_ok net q (sy_store s) /\ (forall i d x k, (i < n)%nat -> n_end net i d x k -> q d x k = [] /\ q (peer d) x k = []) /\
    (forall d x k, unused n (n_end net) d x k -> q d x k = []).
Proof using Hends Hl Hw Hargs.
  intros Hr Hlen s. pose proof (calls_ok l Hl) as Hok.
  assert (Hs : Forall (fun i => (i < n)%nat) (concat rounds)).
  { apply Forall_concat. eapply Forall_impl; [exact Hr|]. by intros ? [? _]. }
  destruct (calls_promise _ Hs) as [F HF]. destruct (calls_reach _ Hs) as (a & Hrun & Ha & Hsim).
  assert (Hfin : forall i, (i < n)%nat -> m_fin (calls_mach l) i (a_pc a i)).
  { eapply (staged_terminates _ _ _ _ _ _ _ _ _ (mo_staged _ _ _ _ Hok _ Hargs) rounds); [done|done|exact Hrun|by apply (mo_init _ _ _ _ Hok)]. }
  exists F, (a_q a). split; [done|]. split; [|split; [exact (sim_store _ _ _ _ _ Hsim)|]].
  - intros i Hi. pose proof (sim_prog _ _ _ _ _ Hsim i Hi) as Hp.
    destruct (calls_thread l Hl i [] (a_pc a i) Hi (sim_ok _ _ _ _ _ Hsim i Hi)) as (f & _ & [[Hf Ef]|(p & _ & _ & Hnf & _)]).
    + destruct (proj1 HF i _ Hp) as [[_ E]|(p' & _ & Hrp & E)]; [by rewrite <- E|].
      rewrite Ef in E. by destruct p'.
    + by destruct Hnf; apply Hfin.
  - assert (Htk : forall i d x k, (i < n)%nat -> n_end net i d x k -> a_q a (peer d) x k = []).
    { intros i d x k Hi He. apply (mo_taken _ _ _ _ Hok (fun _ => []) a i); [done|done|done|by apply Hfin|done]. }
    split.
    + intros i d x k Hi He. split; [|by apply (Htk i)].
      destruct (Hends i d x k Hi He) as (j & Hj & Hje). rewrite <- (peer_peer d). by apply (Htk j).
    + apply (arun_invariant cact (fun a => m_inv (calls_mach l) (fun _ => []) a /\
        forall d x k, unused n (n_end net) d x k -> a_q a d x k = []) n) with (2 := Hs) (3 := Hrun).
      * intros i a1 a2 Hi [Ha1 Hu] Hst. split.
        -- by apply (st_step _ _ _ _ _ _ _ _ _ (mo_staged _ _ _ _ Hok _ Hargs) i a1 a2).
        -- intros d x k Hd. rewrite (unused_step n K (n_end net) _ _ a1 a2 i Hok Hargs Ha1 Hi Hst d x k Hd). by apply Hu.
      * split; [by apply (mo_init _ _ _ _ Hok)|done].
Qed.
End run.

Lemma calls_top l i : m_top (calls_mach l) i = sum_list ((fun c => m_top (cl_mach c) i) <$> l).
Proof using Type. induction l as [|c l IH]; [done|]. simpl. by rewrite IH. Qed.
End calls.

(** ** Scripts

    The calls a client makes are given by what they are: [code] is what a thread runs, given
    what its earlier calls have returned, [res_ok] what it may return, [post] what the call
    promises, and [call_at] the call made after others. *)
Section scripts.
Context {C W : Type} {HS : ChanStore C W} {HC : ChanOps C} {HT : TreeEdge C} (net : network C W) (K : nat).
Abbreviation n := (n_len net).
Context (Hends : forall i d x k, (i < n)%nat -> n_end net i d x k -> exists j, (j < n)%nat /\ n_end net j (peer d) x k).
Context {A Op : Type} (code : nat -> Op -> list A -> prog A) (res_ok : nat -> Op -> A -> Prop).
Context (wf : list Op -> Op -> Prop) (post : Op -> (nat -> list A) -> (nat -> status A) -> Prop) (top : nat -> Op -> nat).
Context (call_at : list Op -> Op -> call A).

(** What thread [i] may have got from the calls before. *)
Abbreviation had i := (Forall2 (res_ok i)).
Record call_is (prior : list Op) (c : Op) : Prop := {
  ca_code : cl_code (call_at prior c) = fun i => code i c;
  ca_post : cl_post (call_at prior c) = post c;
  ca_args : m_args (cl_mach (call_at prior c)) = fun i rs => had i prior rs;
  ca_top i : m_top (cl_mach (call_at prior c)) i = top i c;
}.
Context (His : forall prior c, call_is prior c).
Context (Hcall : forall prior c, (forall i, (i < n)%nat -> exists rs, had i prior rs) -> wf prior c ->
  call_ok net K (call_at prior c) /\ (forall i, (i < n)%nat -> exists x, res_ok i c x) /\
  (forall i t p x, (i < n)%nat -> m_args (cl_mach (call_at prior c)) i t -> m_okp (cl_mach (call_at prior c)) i t p ->
     m_fin (cl_mach (call_at prior c)) i p -> cl_prog (call_at prior c) i t p = PRet x -> res_ok i c x)).
(** Only what the threads that have entered bring matters. *)
Context (Hext : forall c h h' st, (forall i, (i < n)%nat -> st i <> NotEntered -> h i = h' i) -> post c h st -> post c h' st).

Definition script_ok (prior l : list Op) : Prop := forall r c, l !! r = Some c -> wf (prior ++ take r l) c.
(** Every thread makes the calls [l]. *)
Definition script_sys (l : list Op) (w : W) : sys W (list A) :=
  Sys (tab n (fun i => in_turn [] ((fun c => code i c) <$> l))) w.
(** The results [F] of the calls the threads have returned from: a thread has returned from
    all of them, or is in the next one; and each call keeps its promise. *)
Definition script_state (l : list Op) (s : sys W (list A)) (F : nat -> list A) : Prop :=
  (forall i p, sy_threads s !! i = Some p ->
     (length (F i) = length l /\ p = PRet (F i)) \/
     (exists p', (length (F i) < length l)%nat /\ running p' /\
        p = pbind (fun x => in_turn (F i ++ [x]) ((fun c => code i c) <$> drop (S (length (F i))) l)) p')) /\
  (forall r c, l !! r = Some c -> post c (fun i => take r (F i)) (fun i => status_at r (Some (F i)))).

(** The calls [l], made after [prior]. *)
Fixpoint calls_of (prior l : list Op) : list (call A) :=
  match l with [] => [] | c :: l' => call_at prior c :: calls_of (prior ++ [c]) l' end.

Lemma length_calls_of prior l : length (calls_of prior l) = length l.
Proof using Type. revert prior. induction l as [|c l IH]; intros prior; simpl; [done|by rewrite IH]. Qed.

Lemma lookup_calls_of l : forall prior r c, l !! r = Some c -> calls_of prior l !! r = Some (call_at (prior ++ take r l) c).
Proof using Type.
  induction l as [|c0 l IH]; intros prior [|r] c Hr; simpl in *; try done.
  - injection Hr as ->. by rewrite app_nil_r.
  - rewrite (IH _ _ _ Hr). by rewrite <- app_assoc.
Qed.

Lemma codes_calls_of i l : forall prior, codes (calls_of prior l) i = (fun c => code i c) <$> l.
Proof using His.
  unfold codes. induction l as [|c l IH]; intros prior; [done|]. simpl. by rewrite IH, (ca_code _ _ (His prior c)).
Qed.

Lemma drop_calls_of l : forall prior r, drop r (calls_of prior l) = calls_of (prior ++ take r l) (drop r l).
Proof using Type.
  induction l as [|c l IH]; intros prior [|r]; simpl; rewrite ?app_nil_r; try done. by rewrite IH, <- app_assoc.
Qed.

Lemma calls_of_args prior l i t : had i prior t -> m_args (calls_mach net (calls_of prior l)) i t.
Proof using His. destruct l as [|c l]; [done|]. simpl. by rewrite (ca_args _ _ (His prior c)). Qed.

Lemma calls_of_chained l : forall prior,
  (forall i, (i < n)%nat -> exists rs, had i prior rs) -> script_ok prior l -> chained net K (calls_of prior l).
Proof using His Hcall.
  induction l as [|c l IH]; intros prior Hp Hw; [constructor|].
  assert (Hwc : wf prior c) by (specialize (Hw 0%nat c eq_refl); simpl in Hw; by rewrite app_nil_r in Hw).
  destruct (Hcall prior c Hp Hwc) as (Hok & Hsome & Hr). constructor.
  - exact Hok.
  - intros i t p x Hi Ht Hz Hf Ep. apply calls_of_args. apply Forall2_app; [by rewrite (ca_args _ _ (His prior c)) in Ht|].
    constructor; [by eapply Hr|constructor].
  - apply IH.
    + intros i Hi. destruct (Hp i Hi) as [rs Hrs], (Hsome i Hi) as [x Hx]. exists (rs ++ [x]). apply Forall2_app; [done|by constructor].
    + intros r c' Hr'. rewrite <- app_assoc. by apply (Hw (S r) c').
Qed.

Lemma calls_of_top i : forall l prior, m_top (calls_mach net (calls_of prior l)) i = sum_list (top i <$> l).
Proof using His.
  induction l as [|c l IH]; intros prior; [done|]. simpl. by rewrite IH, (ca_top _ _ (His prior c)).
Qed.

Section script.
Context (l : list Op) (Hl : script_ok [] l) (w : W) (Hw : n_ok net no_msgs w).

Lemma script_chained : chained net K (calls_of [] l).
Proof using His Hcall Hl. apply calls_of_chained; [|done]. intros i _. exists []. constructor. Qed.
Lemma script_args : args_ok n (calls_mach net (calls_of [] l)) (fun _ => []).
Proof using His. intros i Hi. apply calls_of_args. constructor. Qed.
Lemma script_sys_calls : script_sys l w = calls_sys net (calls_of [] l) w.
Proof using His. unfold script_sys, calls_sys. f_equal. apply tab_ext. intros i Hi. by rewrite codes_calls_of. Qed.

Lemma script_state_calls s F : calls_state net (calls_of [] l) s F -> script_state l s F.
Proof using His Hext.
  intros [H1 H2]. split.
  - intros i p Hp. destruct (H1 i p Hp) as [[Hf E]|(p' & Hf & Hr & E)]; rewrite length_calls_of in Hf; [by left|right].
    exists p'. split; [done|]. split; [done|]. by rewrite drop_calls_of, codes_calls_of in E.
  - intros r c Hr. destruct (H2 r _ (lookup_calls_of _ _ _ _ Hr)) as (h & _ & Hp & Hh).
    rewrite (ca_post _ _ (His _ c)) in Hp. eapply Hext; [|exact Hp].
    intros i Hi Hen. apply Hh; [done|]. apply not_lt. intros Hlt. apply Hen. simpl.
    rewrite lookup_ge_None_2, decide_False by lia. done.
Qed.

Lemma script_promise sched : Forall (fun i => (i < n)%nat) sched ->
  exists F, script_state l (sys_run (n_id net) (script_sys l w) sched) F.
Proof using His Hext Hcall Hends Hl Hw.
  intros Hs. rewrite script_sys_calls.
  destruct (calls_promise net K Hends _ w script_chained script_args Hw sched Hs) as [F HF].
  exists F. by apply script_state_calls.
Qed.

Lemma script_end rounds :
  Forall (fair_round n K) rounds -> (sum_upto n (fun i => sum_list (top i <$> l)) < length rounds)%nat ->
  let s := sys_run (n_id net) (script_sys l w) (concat rounds) in
  (exists q, n_ok net q (sy_store s) /\
     (forall i d x k, (i < n)%nat -> n_end net i d x k -> q d x k = [] /\ q (peer d) x k = []) /\
     (forall d x k, unused n (n_end net) d x k -> q d x k = [])) /\
  exists F, script_state l s F /\
    forall i, (i < n)%nat -> sy_threads s !! i = Some (PRet (F i)) /\ length (F i) = length l.
Proof using His Hext Hcall Hends Hl Hw.
  intros Hr Hn s. subst s. rewrite script_sys_calls.
  destruct (calls_end net K Hends _ w script_chained script_args Hw rounds Hr) as (F & q & HF & Hp & Hq & Hqe).
  { eapply Nat.le_lt_trans; [|exact Hn]. apply sum_upto_le. intros i _. by rewrite calls_of_top. }
  split; [by exists q|]. exists F. apply script_state_calls in HF. split; [done|].
  intros i Hi. specialize (Hp i Hi). split; [exact Hp|].
  destruct (proj1 HF i _ Hp) as [[Hf _]|(p' & _ & Hrun & E)]; [done|by destruct p'].
Qed.
End script.
End scripts.
