(* ===== verification/Runtime.v ===== *)
(** The runtime ([src/smlt.c], [src/node.c], [inc/smlt_node.h], [inc/smlt.h] and the parts of
    the Linux platform they call): start-up with a mesh of channels between all nodes, the
    life of a node's thread, and communication by node id. *)
From S2P Require Import Prelude Errors Message Platform Fifo Pair UmpQueue UmpQueuepair.
From S2P Require Import Queuepair Channel Edge Topology Context Process.

(** ** Data *)

(** [struct smlt_node], without the thread handle and the flags, which the library never
    reads.  The elements of [chan] are channel structures held by value; their
    pointers lead to the queue pairs and their other fields are not written after creation,
    so that a copy of the structure is the same channel: the array holds positions in
    [rt_chans]. *)
Record smlt_node := Node {
  nd_id : Z;
  nd_core : Z;
  nd_fn : option Z;
  nd_arg : Z;
  nd_chan : list Z;
}.
Definition nd_set_id i n : smlt_node := Node i (nd_core n) (nd_fn n) (nd_arg n) (nd_chan n).
Definition nd_set_core c n : smlt_node := Node (nd_id n) c (nd_fn n) (nd_arg n) (nd_chan n).
Definition nd_set_start f a n : smlt_node := Node (nd_id n) (nd_core n) f a (nd_chan n).
Definition nd_set_chan c n : smlt_node := Node (nd_id n) (nd_core n) (nd_fn n) (nd_arg n) c.

(** The global variables of [smlt.c] and the master share of [shm.c], with the channels of
    the nodes; a channel whose creation failed is [None]. *)
Record smlt_rt (C : Type) := RT {
  rt_initialized : Z;
  rt_num_proc : Z;
  rt_master_share : bool;           (** [master_share != NULL] *)
  rt_sync_barrier : option Z;       (** threads the bootstrap barrier waits for *)
  rt_all_nodes : option (list (option smlt_node));
  rt_all_node_count : Z;
  rt_chans : list (option C);
}.
Arguments RT {C}. Arguments rt_initialized {C}. Arguments rt_num_proc {C}.
Arguments rt_master_share {C}. Arguments rt_sync_barrier {C}. Arguments rt_all_nodes {C}.
Arguments rt_all_node_count {C}. Arguments rt_chans {C}.

Section setters.
Context {C : Type}.
Implicit Types s : smlt_rt C.
Definition rt_set_initialized v s := RT v (rt_num_proc s) (rt_master_share s) (rt_sync_barrier s) (rt_all_nodes s) (rt_all_node_count s) (rt_chans s).
Definition rt_set_num_proc v s := RT (rt_initialized s) v (rt_master_share s) (rt_sync_barrier s) (rt_all_nodes s) (rt_all_node_count s) (rt_chans s).
Definition rt_set_master_share v s := RT (rt_initialized s) (rt_num_proc s) v (rt_sync_barrier s) (rt_all_nodes s) (rt_all_node_count s) (rt_chans s).
Definition rt_set_sync_barrier v s := RT (rt_initialized s) (rt_num_proc s) (rt_master_share s) v (rt_all_nodes s) (rt_all_node_count s) (rt_chans s).
Definition rt_set_all_nodes v s := RT (rt_initialized s) (rt_num_proc s) (rt_master_share s) (rt_sync_barrier s) v (rt_all_node_count s) (rt_chans s).
Definition rt_set_all_node_count v s := RT (rt_initialized s) (rt_num_proc s) (rt_master_share s) (rt_sync_barrier s) (rt_all_nodes s) v (rt_chans s).
Definition rt_set_chans (v : list (option C)) s := RT (rt_initialized s) (rt_num_proc s) (rt_master_share s) (rt_sync_barrier s) (rt_all_nodes s) (rt_all_node_count s) v.
End setters.

(** Before [smlt_init]: the static variables are zero. *)
Definition zero_rt {C} : smlt_rt C := RT 0 0 false None None 0 [].

(** ** Start-up *)
Section init.
Context {C W : Type}.
(** The zeroed channel structure, [smlt_channel_create] between two nodes, whether the k-th
    allocation of the runtime itself succeeds. *)
Context (zero_chan : C) (channel_create : Z -> Z -> M W (Z * option C)) (alloc_ok : nat -> bool).
(** [sysconf(_SC_NPROCESSORS_ONLN)], [numa_available()], [numa_num_configured_cpus()]. *)
Context (nprocessors_onln numa_available numa_num_configured_cpus : Z).

Record init_st := IS { is_allocs : nat; is_world : W; is_rt : smlt_rt C }.

Definition is_alloc : M init_st bool := fun s =>
  (Ret (alloc_ok (is_allocs s)), IS (S (is_allocs s)) (is_world s) (is_rt s)).
Definition is_in_world {A} (m : M W A) : M init_st A :=
  zoom is_world (fun w s => IS (is_allocs s) w (is_rt s)) m.
Definition is_upd (f : smlt_rt C -> smlt_rt C) : M init_st unit :=
  modify (fun s => IS (is_allocs s) (is_world s) (f (is_rt s))).

Definition smlt_platform_init (num_proc : Z) : Z :=
  if negb (numa_available =? 0) then 0
  else if numa_num_configured_cpus <? num_proc then numa_num_configured_cpus else num_proc.

Definition smlt_shm_init_master_share : M init_st Z :=
  s ← gets is_rt;
  if rt_master_share s then mret (err_value SMLT_SUCCESS) else
  ok ← is_alloc;
  _ ← is_upd (rt_set_master_share ok);
  if negb ok then mret (err_value SMLT_ERR_MALLOC_FAIL) else mret (err_value SMLT_SUCCESS).

Definition smlt_platform_node_create (n : smlt_node) : Z := err_value SMLT_SUCCESS.

(** The node, with [num_nodes] zeroed channels behind it. *)
Definition smlt_node_create (id core num_nodes : Z) : M init_st (Z * option smlt_node) :=
  ok ← is_alloc;
  if negb ok then mret (err_value SMLT_ERR_MALLOC_FAIL, None) else
  s ← gets is_rt;
  let p := length (rt_chans s) in
  let k := Z.to_nat num_nodes in
  _ ← is_upd (rt_set_chans (rt_chans s ++ replicate k (Some zero_chan)));
  let new_node := Node 0 0 None 0 (tab k (fun j => Z.of_nat (p + j))) in
  let new_node := nd_set_core core (nd_set_id id new_node) in
  let err := smlt_platform_node_create new_node in
  if smlt_err_is_fail err then mret (err, None) else
  mret (err_value SMLT_SUCCESS, Some new_node).

(** [smlt_gbl_all_nodes[i]], dereferenced. *)
Definition is_node (i : Z) : M init_st smlt_node :=
  s ← gets is_rt;
  a ← defined (rt_all_nodes s);
  x ← defined (arr_get a i);
  defined x.
Definition is_set_node (i : Z) (n : smlt_node) : M init_st unit :=
  s ← gets is_rt;
  a ← defined (rt_all_nodes s);
  a' ← defined (arr_set a i (Some n));
  is_upd (rt_set_all_nodes (Some a')).

(** [smlt_node_create(&smlt_gbl_all_nodes[i], ...)]; [Some err] is a [return err]. *)
Definition init_node (n i : Z) : M init_st (option Z) :=
  r ← smlt_node_create i i n;
  match r.2 with
  | Some x => is_set_node i x
  | None => mret tt
  end;;
  if smlt_err_is_fail r.1 then mret (Some (smlt_err_push r.1 SMLT_ERR_NODE_CREATE)) else
  s ← gets is_rt;
  _ ← is_upd (rt_set_all_node_count (u32 (rt_all_node_count s + 1)));
  mret None.

(** The channel between the nodes [i] and [j]: created in [nodes[i]->chan[j]] and copied to
    [nodes[j]->chan[i]].  The error is dropped. *)
Definition connect (i j : Z) : M init_st unit :=
  ni ← is_node i;
  p ← defined (arr_get (nd_chan ni) j);
  r ← is_in_world (channel_create i j);
  s ← gets is_rt;
  cs ← defined (arr_set (rt_chans s) p r.2);
  _ ← is_upd (rt_set_chans cs);
  nj ← is_node j;
  a ← defined (arr_set (nd_chan nj) i p);
  is_set_node j (nd_set_chan a nj).

Definition smlt_topology_init : Z := err_value SMLT_SUCCESS.

Definition smlt_init (num_proc : Z) (eagerly : bool) : M init_st Z :=
  if nprocessors_onln <? num_proc then mret (err_value SMLT_ERR_PLATFORM_INIT) else
  let n := smlt_platform_init num_proc in
  _ ← is_upd (rt_set_num_proc n);
  if n =? 0 then mret (err_value SMLT_ERR_PLATFORM_INIT) else
  err ← smlt_shm_init_master_share;
  if smlt_err_is_fail err then mret (smlt_err_push err SMLT_ERR_SHM_INIT) else
  _ ← is_upd (rt_set_sync_barrier (Some n));
  if negb eagerly then mret (err_value SMLT_SUCCESS) else
  ok ← is_alloc;
  _ ← is_upd (rt_set_all_nodes (if ok : bool then Some (replicate (Z.to_nat n) None) else None));
  if negb ok then mret (err_value SMLT_ERR_MALLOC_FAIL) else
  (* creating the nodes *)
  e ← mfor_ret (Z.to_nat n) 0 (init_node n);
  match e with
  | Some err => mret err
  | None =>
    (* setup channels *)
    _ ← mfor (Z.to_nat n) 0 (fun i => mfor (Z.to_nat (n - (i + 1))) (i + 1) (fun j => connect i j));
    let err := smlt_topology_init in
    if smlt_err_is_fail err then mret (smlt_err_push err SMLT_ERR_TOPOLOGY_INIT) else
    _ ← is_upd (rt_set_initialized 1);
    mret (err_value SMLT_SUCCESS)
  end.
End init.
Arguments IS {C W}. Arguments is_allocs {C W}. Arguments is_world {C W}. Arguments is_rt {C W}.
Arguments init_st : clear implicits.

(** ** Communication by node id *)
Section ops.
Context {C : Type} {HC : ChanOps C}.
(** [smlt_node_self_id] of the calling thread. *)
Context (self : Z).

Definition smlt_get_node_by_id (id : Z) : M (smlt_rt C) (option smlt_node) :=
  s ← get;
  if id <? rt_all_node_count s then
    a ← defined (rt_all_nodes s);
    defined (arr_get a id)
  else mret None.

(** An operation on [&node->chan[smlt_node_self_id]]. *)
Definition on_node_chan {A} (node : smlt_node) (m : M C A) : M (smlt_rt C) A := fun s =>
  match arr_get (nd_chan node) self with
  | None => (Undef, s)
  | Some p =>
      match arr_get (rt_chans s) p with
      | Some (Some c) =>
          let '(o, c') := m c in (o, rt_set_chans (<[Z.to_nat p := Some c']> (rt_chans s)) s)
      | _ => (Undef, s)
      end
  end.

Definition smlt_node_send (node : smlt_node) (msg : smlt_msg) : M (smlt_rt C) Z :=
  on_node_chan node (c_send self msg).
Definition smlt_node_notify (node : smlt_node) : M (smlt_rt C) Z := on_node_chan node (c_notify self).
Definition smlt_node_recv (node : smlt_node) (msg : smlt_msg) : M (smlt_rt C) (Z * smlt_msg) :=
  on_node_chan node (c_recv self msg).
Definition smlt_node_can_recv (node : smlt_node) : M (smlt_rt C) bool := on_node_chan node (c_can_recv self).

Definition smlt_send (nid : Z) (msg : smlt_msg) : M (smlt_rt C) Z :=
  o ← smlt_get_node_by_id nid;
  match o with
  | None => mret (err_value SMLT_ERR_NODE_INVALD)
  | Some node => smlt_node_send node msg
  end.
Definition smlt_notify (nid : Z) : M (smlt_rt C) Z :=
  o ← smlt_get_node_by_id nid;
  match o with
  | None => mret (err_value SMLT_ERR_NODE_INVALD)
  | Some node => smlt_node_notify node
  end.
Definition smlt_recv (nid : Z) (msg : smlt_msg) : M (smlt_rt C) (Z * smlt_msg) :=
  o ← smlt_get_node_by_id nid;
  match o with
  | None => mret (err_value SMLT_ERR_NODE_INVALD, msg)
  | Some node => smlt_node_recv node msg
  end.
Definition smlt_can_recv (nid : Z) : M (smlt_rt C) bool :=
  o ← smlt_get_node_by_id nid;
  match o with
  | None => mret false
  | Some node => smlt_node_can_recv node
  end.
(** [assert(!"NYI")]. *)
Definition smlt_recv_any (msg : smlt_msg) : M (smlt_rt C) Z := panic.
Definition smlt_add_node (node : smlt_node) : M (smlt_rt C) Z := panic.
Definition smlt_get_num_proc : M (smlt_rt C) Z := gets rt_num_proc.
End ops.

(** ** A node's thread *)
Section thread.
(** The thread-local variables, and the core the thread is pinned to. *)
Record thread_st := TLS { tls_self : option smlt_node; tls_self_id : Z; tls_core : option Z }.
Definition tls_set_self v s := TLS v (tls_self_id s) (tls_core s).
Definition tls_set_self_id v s := TLS (tls_self s) v (tls_core s).
Definition tls_set_core v s := TLS (tls_self s) (tls_self_id s) v.

(** Results of [sched_setaffinity], [pthread_create] and [pthread_join]: 0 or an error. *)
Context (sched_setaffinity pthread_create pthread_join : Z -> Z).
(** The start functions of the client, by address. *)
Context (start_fn : Z -> Z -> M thread_st Z).

Definition smlt_platform_thread_start_hook : M thread_st Z := mret (err_value SMLT_SUCCESS).
Definition smlt_platform_thread_end_hook : M thread_st Z := mret (err_value SMLT_SUCCESS).
Definition smlt_platform_pin_thread (core : Z) : M thread_st Z :=
  if negb (sched_setaffinity core =? 0) then mret (u64 (-1)) else
  _ ← modify (tls_set_core (Some core));
  mret (err_value SMLT_SUCCESS).

Definition smlt_node_get_id : M thread_st Z := s ← get; n ← defined (tls_self s); mret (nd_id n).
Definition smlt_node_get_coreid : M thread_st Z := s ← get; n ← defined (tls_self s); mret (nd_core n).

Definition smlt_node_lowlevel_init (nid : Z) : M thread_st Z :=
  err ← smlt_platform_thread_start_hook;
  if smlt_err_is_fail err then mret err else
  s ← get;
  let core := match tls_self s with Some n => nd_core n | None => nid end in
  err ← smlt_platform_pin_thread core;
  if smlt_err_is_fail err then mret err else mret (err_value SMLT_SUCCESS).

(** The error of the low-level initialisation is dropped. *)
Definition smlt_node_exec_start (node : smlt_node) : M thread_st Z :=
  _ ← modify (tls_set_self (Some node));
  _ ← modify (tls_set_self_id (nd_id node));
  _ ← smlt_node_lowlevel_init (nd_id node);
  mret 0.
Definition smlt_node_run (node : smlt_node) : M thread_st Z :=
  match nd_fn node with
  | Some f => start_fn f (nd_arg node)
  | None => mret 0
  end.
Definition smlt_node_exec_end (node : smlt_node) : M thread_st Z :=
  _ ← modify (tls_set_self None);
  _ ← smlt_platform_thread_end_hook;
  mret 0.
Definition smlt_platform_node_start_wrapper (node : smlt_node) : M thread_st Z :=
  _ ← smlt_node_exec_start node;
  result ← smlt_node_run node;
  _ ← smlt_node_exec_end node;
  mret result.

Definition smlt_platform_node_start (node : smlt_node) : Z :=
  if negb (pthread_create (nd_id node) =? 0) then u64 (-1) else err_value SMLT_SUCCESS.
(** The node with its start function, and whether its thread was created. *)
Definition smlt_node_start (node : smlt_node) (fn : option Z) (arg : Z) : Z * smlt_node :=
  let node := nd_set_start fn arg node in
  (smlt_platform_node_start node, node).
Definition smlt_platform_node_join (node : smlt_node) : Z :=
  if negb (pthread_join (nd_id node) =? 0) then u64 (-1) else err_value SMLT_SUCCESS.
Definition smlt_node_join (node : smlt_node) : Z := smlt_platform_node_join node.
Definition smlt_node_cancel (node : smlt_node) : Z := err_value SMLT_SUCCESS.
End thread.

(** [smlt_channel_can_send] is not part of the interface of the collectives. *)
Definition smlt_node_can_send (self : Z) (node : smlt_node) : M (smlt_rt smlt_channel) bool :=
  on_node_chan self node (smlt_channel_can_send self).
Definition smlt_can_send (self nid : Z) : M (smlt_rt smlt_channel) bool :=
  o ← smlt_get_node_by_id nid;
  match o with
  | None => mret false
  | Some node => smlt_node_can_send self node
  end.

(** ** The mesh

    [q i j] are the messages on their way from node [i] to node [j]. *)
Definition mesh_queues : Type := nat -> nat -> list (list Z).
Definition mesh_empty : mesh_queues := fun _ _ => [].
Definition mq_set (i j : nat) (v : list (list Z)) (q : mesh_queues) : mesh_queues :=
  fun i' j' => if decide (i' = i /\ j' = j) then v else q i' j'.

Lemma mq_set_same i j v q : mq_set i j v q i j = v.
Proof. unfold mq_set. by rewrite decide_True. Qed.
Lemma mq_set_other i j v q i' j' : ~ (i' = i /\ j' = j) -> mq_set i j v q i' j' = q i' j'.
Proof. intros. unfold mq_set. by rewrite decide_False. Qed.
Lemma mq_set_id i j q i' j' : mq_set i j (q i j) q i' j' = q i' j'.
Proof. unfold mq_set. by case_decide as D; [destruct D as [-> ->]|]. Qed.

Lemma mq_set_back i j v q i' j' : mq_set i j v (mq_set j i (q j i) q) i' j' = mq_set i j v q i' j'.
Proof.
  unfold mq_set. destruct (decide (i' = i /\ j' = j)); [done|].
  by destruct (decide (i' = j /\ j' = i)) as [[-> ->]|].
Qed.
Lemma mq_set_front i j v q i' j' :
  i <> j -> mq_set i j (q i j) (mq_set j i v q) i' j' = mq_set j i v q i' j'.
Proof.
  intros Hne. unfold mq_set. destruct (decide (i' = i /\ j' = j)) as [[-> ->]|]; [|done].
  by rewrite decide_False by (intros [? _]; done).
Qed.

Section mesh.
Context {C : Type} {HC : ChanOps C} {HT : TreeEdge C} (zero_chan : C) (n : nat).

(** Where [nodes[x]->chan[k]] leads once the pairs before [(i, j)] are connected. *)
Definition slot_at (i j x k : nat) : nat :=
  if decide (k < x /\ (k < i \/ k = i /\ x < j))%nat then k * n + x else x * n + k.
Definition slot (x k : nat) : nat := if decide (k < x)%nat then k * n + x else x * n + k.

Lemma slot_at_end x k : (x < n)%nat -> (k < n)%nat -> slot_at n n x k = slot x k.
Proof using Type. unfold slot_at, slot. intros. repeat case_decide; lia. Qed.
Lemma slot_at_row i x k : (x < n)%nat -> slot_at i n x k = slot_at (S i) (S (S i)) x k.
Proof using Type. unfold slot_at. intros. repeat case_decide; lia. Qed.
Lemma slot_inj x k x' k' :
  (x <= k < n)%nat -> (x' <= k' < n)%nat -> (x * n + k = x' * n + k')%nat -> x = x' /\ k = k'.
Proof using Type. intros H H' E. assert (x = x') by nia. split; [done|nia]. Qed.

(** Every two nodes share a channel, which the node of the smaller id owns; a node's own
    entry is a zeroed channel. *)
Record rt_ok (q : mesh_queues) (s : smlt_rt C) : Prop := {
  ro_count : rt_all_node_count s = Z.of_nat n;
  ro_nodes : exists a, rt_all_nodes s = Some a /\ forall x, (x < n)%nat ->
    exists nd, a !! x = Some (Some nd) /\ nd_id nd = Z.of_nat x /\
      nd_chan nd = tab n (fun k => Z.of_nat (slot x k));
  ro_edges x k : (x < k < n)%nat ->
    exists c, rt_chans s !! (x * n + k)%nat = Some (Some c) /\ edge (Z.of_nat x) c Src (q x k) (q k x);
  ro_self x : (x < n)%nat -> rt_chans s !! (x * n + x)%nat = Some (Some zero_chan);
}.

Lemma rt_ok_ext q q' s : (forall i j, q i j = q' i j) -> rt_ok q s -> rt_ok q' s.
Proof using Type.
  intros E [H1 H2 H3 H4]. split; [done..| |done]. intros x k Hxk. destruct (H3 x k Hxk) as (c & Hc & He).
  exists c. split; [done|]. by rewrite <- !E.
Qed.

Lemma get_node_run q s j :
  rt_ok q s -> (j < n)%nat ->
  exists nd, smlt_get_node_by_id (Z.of_nat j) s = (Ret (Some nd), s) /\ nd_id nd = Z.of_nat j /\
    nd_chan nd = tab n (fun k => Z.of_nat (slot j k)).
Proof using Type.
  intros [H1 (a & H2 & H3) _ _] Hj. destruct (H3 j Hj) as (nd & Hn & Hid & Hc). exists nd.
  split; [|done]. unfold smlt_get_node_by_id, get, mbind, M_bind. rewrite H1, H2.
  destruct (Z.ltb_spec (Z.of_nat j) (Z.of_nat n)); [|lia]. simpl. by rewrite arr_get_nat, Hn.
Qed.

Lemma get_node_none q s id :
  rt_ok q s -> Z.of_nat n <= id -> smlt_get_node_by_id id s = (Ret None, s).
Proof using Type.
  intros [H1 _ _ _] Hid. unfold smlt_get_node_by_id, get, mbind, M_bind. rewrite H1.
  by destruct (Z.ltb_spec id (Z.of_nat n)); [lia|].
Qed.

Lemma mesh_end i j :
  i <> j -> chan_end (Z.of_nat (i `min` j)) (Z.of_nat i) = if decide (i < j)%nat then Src else Dst.
Proof using Type.
  intros. unfold chan_end. destruct (Z.eqb_spec (Z.of_nat (i `min` j)) (Z.of_nat i)); case_decide; try done; lia.
Qed.
Lemma slot_minmax i j : slot j i = ((i `min` j) * n + i `max` j)%nat.
Proof using Type.
  unfold slot. case_decide; [by rewrite Nat.min_l, Nat.max_r by lia|by rewrite Nat.min_r, Nat.max_l by lia].
Qed.

(** What node [i] does to its channel with node [j]. *)
Lemma mesh_with q s i j nd :
  rt_ok q s -> (i < n)%nat -> (j < n)%nat -> i <> j ->
  nd_chan nd = tab n (fun k => Z.of_nat (slot j k)) ->
  exists c, edge (Z.of_nat (i `min` j)) c (chan_end (Z.of_nat (i `min` j)) (Z.of_nat i)) (q i j) (q j i) /\
    forall A (m : M C A) r c' v v', m c = (r, c') ->
      edge (Z.of_nat (i `min` j)) c' (chan_end (Z.of_nat (i `min` j)) (Z.of_nat i)) v v' ->
      exists s', on_node_chan (Z.of_nat i) nd m s = (r, s') /\ rt_ok (mq_set i j v (mq_set j i v' q)) s'.
Proof using Type.
  intros [H1 H2 H3 H4] Hi Hj Hne Hnd. rewrite mesh_end by done.
  assert (Hxk : (i `min` j < i `max` j < n)%nat) by lia.
  destruct (H3 _ _ Hxk) as (c & Hc & He). exists c. split.
  { case_decide.
    - by rewrite Nat.min_l, Nat.max_r in * by lia.
    - rewrite Nat.min_r, Nat.max_l in * by lia. by apply (edge_flip _ _ Src). }
  intros A m r c' v v' E E'.
  set (p := (i `min` j * n + i `max` j)%nat) in *.
  exists (rt_set_chans (<[p := Some c']> (rt_chans s)) s). split.
  { unfold on_node_chan. rewrite Hnd, arr_get_tab, slot_minmax by done. fold p.
    by rewrite arr_get_nat, Hc, E, Nat2Z.id. }
  assert (Hp : (p < length (rt_chans s))%nat) by (by eapply lookup_lt_Some).
  split; simpl; [done..| |].
  - intros x k Hxk'. destruct (decide (x = i `min` j /\ k = i `max` j)%nat) as [[-> ->]|D].
    + exists c'. split; [by apply list_lookup_insert_eq|]. destruct (decide (i < j)%nat).
      * rewrite Nat.min_l, Nat.max_r in * by lia.
        by rewrite mq_set_same, mq_set_other, mq_set_same by lia.
      * rewrite Nat.min_r, Nat.max_l in * by lia.
        rewrite mq_set_same, mq_set_other, mq_set_same by lia. by apply (edge_flip _ _ Dst).
    + destruct (H3 x k Hxk') as (c0 & Hc0 & He0). exists c0. split.
      * rewrite list_lookup_insert_ne; [done|]. intros Ep. unfold p in Ep. apply slot_inj in Ep; lia.
      * by rewrite !mq_set_other by lia.
  - intros x Hx. rewrite list_lookup_insert_ne; [by apply H4|].
    intros Ep. unfold p in Ep. apply slot_inj in Ep; lia.
Qed.

Lemma mesh_send q s i j msg :
  rt_ok q s -> (i < n)%nat -> (j < n)%nat -> i <> j -> sendable msg ->
  exists r s', smlt_send (Z.of_nat i) (Z.of_nat j) msg s = (r, s') /\
    ((r = Ret (err_value SMLT_SUCCESS) /\ rt_ok (mq_set i j (q i j ++ [payload msg]) q) s') \/
     (r = Spin /\ q i j <> [] /\ rt_ok q s')).
Proof using Type.
  intros Hs Hi Hj Hne Hm. destruct (get_node_run q s j Hs Hj) as (nd & E & _ & Hnd).
  destruct (mesh_with q s i j nd Hs Hi Hj Hne Hnd) as (c & He & Hw).
  destruct (edge_send _ _ _ _ _ msg He Hm) as (r & c' & Es & Hc).
  unfold smlt_send. rewrite (bind_ret _ _ _ _ _ E). unfold smlt_node_send.
  destruct Hc as [(-> & He')|(-> & Hq & He')]; destruct (Hw _ _ _ _ _ _ Es He') as (s' & -> & Hs');
    eexists _, _; (split; [reflexivity|]); [left|right].
  - split; [done|]. eapply rt_ok_ext; [|exact Hs']. intros. apply mq_set_back.
  - split; [done|]. split; [done|]. eapply rt_ok_ext; [|exact Hs']. intros. by rewrite mq_set_back, mq_set_id.
Qed.

Lemma mesh_recv q s i j msg :
  rt_ok q s -> (i < n)%nat -> (j < n)%nat -> i <> j -> sendable msg ->
  exists r s', smlt_recv (Z.of_nat i) (Z.of_nat j) msg s = (r, s') /\
    match q j i with
    | [] => r = Spin /\ rt_ok q s'
    | m :: v => exists msg', r = Ret (err_value SMLT_SUCCESS, msg') /\ received m msg msg' /\
        rt_ok (mq_set j i v q) s'
    end.
Proof using Type.
  intros Hs Hi Hj Hne Hm. destruct (get_node_run q s j Hs Hj) as (nd & E & _ & Hnd).
  destruct (mesh_with q s i j nd Hs Hi Hj Hne Hnd) as (c & He & Hw).
  destruct (edge_recv _ _ _ _ _ msg He Hm) as (r & c' & Es & Hc).
  unfold smlt_recv. rewrite (bind_ret _ _ _ _ _ E). unfold smlt_node_recv.
  destruct (q j i) as [|m v] eqn:Eq.
  - destruct Hc as [-> He']. destruct (Hw _ _ _ _ _ _ Es He') as (s' & -> & Hs').
    eexists _, _. split; [reflexivity|]. split; [done|]. rewrite <- Eq in Hs'.
    eapply rt_ok_ext; [|exact Hs']. intros. by rewrite mq_set_back, mq_set_id.
  - destruct Hc as (msg' & -> & Hr & He'). destruct (Hw _ _ _ _ _ _ Es He') as (s' & -> & Hs').
    eexists _, _. split; [reflexivity|]. exists msg'. split; [done|]. split; [done|].
    eapply rt_ok_ext; [|exact Hs']. intros. by apply mq_set_front.
Qed.
End mesh.

(** ** Programs over the mesh *)

(** Calls of the threads, in any order: node [i] sends a message to node [j], node [i]
    receives from node [j]. *)
Inductive mesh_cmd := MSend (i j : nat) (m : list Z) | MRecv (i j : nat).
(** What is observed: the message was accepted, the caller waits for room, a message was
    delivered to [i] from [j], the caller waits for one. *)
Inductive mesh_event :=
| MSent (i j : nat) (m : list Z) | MFull (i j : nat) | MGot (i j : nat) (m : list Z) | MWait (i j : nat).

(** The specification: a FIFO for every ordered pair of nodes. *)
Inductive mesh_step : mesh_queues -> mesh_event -> mesh_queues -> Prop :=
| mesh_sent q i j m : mesh_step q (MSent i j m) (mq_set i j (q i j ++ [m]) q)
| mesh_full q i j : q i j <> [] -> mesh_step q (MFull i j) q
| mesh_got q i j m v : q j i = m :: v -> mesh_step q (MGot i j m) (mq_set j i v q)
| mesh_wait q i j : q j i = [] -> mesh_step q (MWait i j) q.
Inductive mesh_run : mesh_queues -> list mesh_event -> mesh_queues -> Prop :=
| mesh_run_nil q : mesh_run q [] q
| mesh_run_cons q e q' tr q'' : mesh_step q e q' -> mesh_run q' tr q'' -> mesh_run q (e :: tr) q''.

(** What was sent from [i] to [j], and what [j] got from [i]. *)
Definition mesh_sent_of (i j : nat) (tr : list mesh_event) : list (list Z) :=
  concat ((fun e => match e with MSent i' j' m => if decide (i' = i /\ j' = j) then [m] else [] | _ => [] end) <$> tr).
Definition mesh_got_of (i j : nat) (tr : list mesh_event) : list (list Z) :=
  concat ((fun e => match e with MGot j' i' m => if decide (i' = i /\ j' = j) then [m] else [] | _ => [] end) <$> tr).

Lemma mesh_run_order q tr q' i j :
  mesh_run q tr q' -> q i j ++ mesh_sent_of i j tr = mesh_got_of i j tr ++ q' i j.
Proof.
  unfold mesh_sent_of, mesh_got_of.
  induction 1 as [q|q e q' tr q'' Hs _ IH]; simpl; [by rewrite app_nil_r|].
  destruct Hs as [q i' j' m|q i' j'|q j' i' m v Hv|q i' j']; simpl; try done.
  - destruct (decide (i' = i /\ j' = j)) as [[-> ->]|D].
    + rewrite mq_set_same, <- app_assoc in IH. exact IH.
    + rewrite mq_set_other in IH by (intros [-> ->]; by apply D). exact IH.
  - destruct (decide (i' = i /\ j' = j)) as [[-> ->]|D].
    + rewrite mq_set_same in IH. rewrite Hv. simpl. by f_equal.
    + rewrite mq_set_other in IH by (intros [-> ->]; by apply D). exact IH.
Qed.

Section mesh_exec.
Context {C : Type} {HC : ChanOps C} {HT : TreeEdge C} (w : nat) (Hw : (w <= SMLT_UMP_PAYLOAD_WORDS)%nat).

(** One call with messages of [w] words.  A call that spins is reported as waiting; an error
    would be a [Panic] of the client. *)
Definition mesh_call (c : mesh_cmd) : M (smlt_rt C) mesh_event := fun s =>
  match c with
  | MSend i j m =>
      match smlt_send (Z.of_nat i) (Z.of_nat j) (msg_of m) s with
      | (Ret e, s') => if smlt_err_is_ok e then (Ret (MSent i j m), s') else (Panic, s')
      | (Spin, s') => (Ret (MFull i j), s')
      | (Panic, s') => (Panic, s')
      | (Undef, s') => (Undef, s')
      end
  | MRecv i j =>
      match smlt_recv (Z.of_nat i) (Z.of_nat j) (msg_buf w) s with
      | (Ret r, s') => if smlt_err_is_ok r.1 then (Ret (MGot i j (msg_data r.2)), s') else (Panic, s')
      | (Spin, s') => (Ret (MWait i j), s')
      | (Panic, s') => (Panic, s')
      | (Undef, s') => (Undef, s')
      end
  end.
Fixpoint mesh_exec (cs : list mesh_cmd) : M (smlt_rt C) (list mesh_event) :=
  match cs with
  | [] => mret []
  | c :: cs' => e ← mesh_call c; tr ← mesh_exec cs'; mret (e :: tr)
  end.

Context (zero_chan : C) (n : nat).
Definition mesh_valid (c : mesh_cmd) : Prop :=
  match c with
  | MSend i j m => (i < n)%nat /\ (j < n)%nat /\ i <> j /\ length m = w
  | MRecv i j => (i < n)%nat /\ (j < n)%nat /\ i <> j
  end.
Definition mesh_words (q : mesh_queues) : Prop := forall i j, Forall (fun m => length m = w) (q i j).

Lemma mesh_words_set i j v q :
  mesh_words q -> Forall (fun m => length m = w) v -> mesh_words (mq_set i j v q).
Proof using Type. clear. intros Hq Hv i' j'. unfold mq_set. by case_decide. Qed.

Lemma mesh_call_refines c q s :
  rt_ok zero_chan n q s -> mesh_words q -> mesh_valid c ->
  exists e q' s', mesh_call c s = (Ret e, s') /\ mesh_step q e q' /\ rt_ok zero_chan n q' s' /\ mesh_words q'.
Proof using Hw HT.
  intros Hs Hq Hc. destruct c as [i j m|i j]; simpl in Hc; unfold mesh_call.
  - destruct Hc as (Hi & Hj & Hne & Hm).
    assert (Hb : sendable (msg_of m)) by (split; [apply msg_of_wf|simpl; lia]).
    assert (Hp : payload (msg_of m) = m) by (unfold payload; simpl; rewrite Nat2Z.id; by apply take_ge).
    destruct (mesh_send zero_chan n q s i j (msg_of m) Hs Hi Hj Hne Hb) as (r & s' & -> & Hr).
    rewrite Hp in Hr. destruct Hr as [(-> & Hs')|(-> & Hne' & Hs')]; eexists _, _, _;
      (split; [reflexivity|]); (split; [by constructor|]); (split; [done|]); [|done].
    apply mesh_words_set; [done|]. apply Forall_app. auto.
  - destruct Hc as (Hi & Hj & Hne).
    assert (Hb : sendable (msg_buf w)) by (split; [apply msg_buf_wf|simpl; lia]).
    destruct (mesh_recv zero_chan n q s i j (msg_buf w) Hs Hi Hj Hne Hb) as (r & s' & -> & Hr).
    destruct (q j i) as [|m v] eqn:Eq.
    + destruct Hr as [-> Hs']. eexists _, _, _. split; [reflexivity|]. split; [by constructor|done].
    + destruct Hr as (msg' & -> & (_ & _ & _ & Hd) & Hs'). pose proof (Hq j i) as Hqw. rewrite Eq in Hqw.
      apply Forall_cons in Hqw as [Hm Hv]. simpl in Hd. simpl.
      rewrite Hd, drop_ge, app_nil_r by (rewrite ?length_replicate; lia).
      eexists _, _, _. split; [reflexivity|]. split; [by constructor|]. split; [done|]. by apply mesh_words_set.
Qed.

Lemma mesh_exec_refines cs : forall q s,
  rt_ok zero_chan n q s -> mesh_words q -> Forall mesh_valid cs ->
  exists tr q' s', mesh_exec cs s = (Ret tr, s') /\ mesh_run q tr q' /\ rt_ok zero_chan n q' s'.
Proof using Hw HT.
  induction cs as [|c cs IH]; intros q s Hs Hq Hcs.
  { exists [], q, s. split; [done|]. split; [constructor|done]. }
  apply Forall_cons in Hcs as [Hc Hcs].
  destruct (mesh_call_refines c q s Hs Hq Hc) as (e & q1 & s1 & E1 & St & Hs1 & Hq1).
  destruct (IH q1 s1 Hs1 Hq1 Hcs) as (tr & q2 & s2 & E2 & Hr & Hs2).
  exists (e :: tr), q2, s2. simpl. rewrite (bind_ret _ _ _ _ _ E1), (bind_ret _ _ _ _ _ E2).
  split; [done|]. split; [by econstructor|done].
Qed.
End mesh_exec.

(** ** Start-up builds the mesh *)
Section init_ok.
Context {C : Type} {HC : ChanOps C} {HT : TreeEdge C} {W : Type}.
Context (zero_chan : C) (channel_create : Z -> Z -> M W (Z * option C)).
Context (alloc_ok : nat -> bool) (Halloc : forall k, alloc_ok k = true).
(** [ok b w]: the world has memory for [b] more channels. *)
Context (ok : nat -> W -> Prop)
  (Hcreate : forall b w s d, ok (S b) w -> exists c w', channel_create s d w =
     (Ret (err_value SMLT_SUCCESS, Some c), w') /\ edge s c Src [] [] /\ ok b w').
Context (n : nat) (Hn : (0 < n)%nat) (Hn32 : Z.of_nat n < 2 ^ 32).

Definition globals (s : init_st C W) : Prop :=
  rt_num_proc (is_rt s) = Z.of_nat n /\ rt_sync_barrier (is_rt s) = Some (Z.of_nat n).

(** The nodes below [i] exist, each with [n] zeroed channels. *)
Definition first_slots (x k : nat) : Z := Z.of_nat (x * n + k).
Record nodes_inv (w : W) (i : nat) (s : init_st C W) : Prop := {
  ni_world : is_world s = w;
  ni_nodes : rt_all_nodes (is_rt s) = Some (tab n (fun x =>
    if decide (x < i)%nat then Some (Node (Z.of_nat x) (Z.of_nat x) None 0 (tab n (first_slots x))) else None));
  ni_count : rt_all_node_count (is_rt s) = Z.of_nat i;
  ni_chans : rt_chans (is_rt s) = replicate (i * n) (Some zero_chan);
  ni_globals : globals s;
}.

Lemma init_node_run w i s :
  (i < n)%nat -> nodes_inv w i s ->
  exists s', init_node zero_chan alloc_ok (Z.of_nat n) (Z.of_nat i) s = (Ret None, s') /\ nodes_inv w (S i) s'.
Proof using Halloc Hn Hn32.
  intros Hi [H1 H2 H3 H4 H5]. destruct s as [na w0 rt]. simpl in *.
  eexists. split.
  { unfold init_node, smlt_node_create, is_alloc, is_upd, is_set_node, gets, modify, mbind, M_bind. simpl.
    rewrite Halloc. simpl. rewrite H2. simpl. rewrite arr_set_nat by (by rewrite length_tab). simpl. reflexivity. }
  split; simpl; [done| | | |done].
  - rewrite H4, length_replicate, Nat2Z.id, tab_insert. f_equal. apply tab_ext. intros x Hx.
    destruct (decide (x = i)) as [->|].
    + by rewrite decide_True by lia.
    + repeat case_decide; done || lia.
  - rewrite H3, wrap_small by lia. lia.
  - rewrite H4, Nat2Z.id, <- replicate_add. f_equal. lia.
Qed.

(** The pairs before [(i, j)] are connected. *)
Record mesh_inv (i j : nat) (s : init_st C W) : Prop := {
  mi_world : exists b, ok b (is_world s) /\ (n * n <= b + (i * n + j))%nat;
  mi_nodes : rt_all_nodes (is_rt s) = Some (tab n (fun x =>
    Some (Node (Z.of_nat x) (Z.of_nat x) None 0 (tab n (fun k => Z.of_nat (slot_at n i j x k))))));
  mi_count : rt_all_node_count (is_rt s) = Z.of_nat n;
  mi_len : length (rt_chans (is_rt s)) = (n * n)%nat;
  mi_edges x k : (x < k < n)%nat -> (x < i \/ x = i /\ k < j)%nat ->
    exists c, rt_chans (is_rt s) !! (x * n + k)%nat = Some (Some c) /\ edge (Z.of_nat x) c Src [] [];
  mi_self x : (x < n)%nat -> rt_chans (is_rt s) !! (x * n + x)%nat = Some (Some zero_chan);
  mi_globals : globals s;
}.

Lemma connect_run i j s :
  (i < j < n)%nat -> mesh_inv i j s ->
  exists s', connect channel_create (Z.of_nat i) (Z.of_nat j) s = (Ret tt, s') /\ mesh_inv i (S j) s'.
Proof using Hcreate Hn.
  intros Hij [(b & Hb & Hlen) H2 H3 H4 H5 H6 H7]. destruct s as [na w rt]. simpl in *.
  destruct b as [|b]; [nia|]. destruct (Hcreate b w (Z.of_nat i) (Z.of_nat j) Hb) as (c & w' & Ec & He & Hb').
  assert (Hp : (i * n + j < n * n)%nat) by nia.
  assert (Hij_slot : slot_at n i j i j = (i * n + j)%nat) by (unfold slot_at; rewrite decide_False; lia).
  eexists. split.
  { unfold connect, is_node, is_set_node, is_in_world, is_upd, zoom, gets, modify, mbind, M_bind. simpl.
    rewrite H2. simpl. rewrite arr_get_tab by lia. simpl. rewrite arr_get_tab by lia. simpl.
    rewrite Ec. simpl. rewrite Hij_slot, arr_set_nat by lia. simpl. rewrite H2. simpl.
    rewrite arr_get_tab by lia. simpl. rewrite arr_set_nat by (rewrite length_tab; lia). simpl.
    rewrite H2. simpl. rewrite arr_set_nat by (rewrite length_tab; lia). simpl. reflexivity. }
  split; simpl; [..|done| | | |done].
  - exists b. split; [done|lia].
  - f_equal. rewrite tab_insert. apply tab_ext. intros x Hx. destruct (decide (x = j)) as [->|D].
    + unfold nd_set_chan. simpl. do 2 f_equal. rewrite tab_insert. apply tab_ext. intros k Hk. unfold slot_at.
      repeat case_decide; subst; lia.
    + do 2 f_equal. apply tab_ext. intros k Hk. unfold slot_at. repeat case_decide; lia.
  - by rewrite length_insert.
  - intros x k Hxk Hd. destruct (decide (x = i /\ k = j)) as [[-> ->]|D].
    + exists c. split; [|done]. apply list_lookup_insert_eq. lia.
    + destruct (H5 x k Hxk ltac:(lia)) as (c0 & Hc0 & He0). exists c0. split; [|done].
      rewrite list_lookup_insert_ne; [done|]. intros Ep. apply slot_inj in Ep; lia.
  - intros x Hx. rewrite list_lookup_insert_ne; [by apply H6|]. intros Ep. apply slot_inj in Ep; lia.
Qed.

Lemma mesh_inv_row i s : (i < n)%nat -> mesh_inv i n s -> mesh_inv (S i) (S (S i)) s.
Proof using Type.
  clear. intros Hi [(b & Hb & Hlen) H2 H3 H4 H5 H6 H7]. split; try done.
  - exists b. split; [done|lia].
  - rewrite H2. f_equal. apply tab_ext. intros x Hx. do 2 f_equal. apply tab_ext. intros k Hk.
    by rewrite slot_at_row.
  - intros x k Hxk Hd. apply H5; lia.
Qed.

Lemma connect_all_run s :
  mesh_inv 0 1 s ->
  exists s', mfor n 0 (fun i => mfor (Z.to_nat (Z.of_nat n - (i + 1))) (i + 1)
      (fun j => connect channel_create i j)) s = (Ret tt, s') /\ mesh_inv n (S n) s'.
Proof using Hcreate Hn.
  intros HI. apply (mfor_inv _ (fun i => mesh_inv i (S i)) n s HI). intros i s1 Hi HI1.
  destruct (mfor_inv_from (fun j => connect channel_create (Z.of_nat i) j) (mesh_inv i) (n - S i) (S i) s1 HI1)
    as (s2 & E & HI2).
  { intros j s2 Hj. apply connect_run. lia. }
  exists s2. split.
  - replace (Z.of_nat i + 1) with (Z.of_nat (S i)) by lia.
    by replace (Z.to_nat (Z.of_nat n - Z.of_nat (S i))) with (n - S i)%nat by lia.
  - apply mesh_inv_row; [done|]. by replace (S i + (n - S i))%nat with n in HI2 by lia.
Qed.

Lemma smlt_init_run nproc numa cpus num_proc w :
  num_proc <= nproc -> numa = 0 -> Z.min num_proc cpus = Z.of_nat n -> ok (n * n) w ->
  exists na w' rt, smlt_init zero_chan channel_create alloc_ok nproc numa cpus num_proc true (IS 0 w zero_rt) =
      (Ret (err_value SMLT_SUCCESS), IS na w' rt) /\ rt_ok zero_chan n mesh_empty rt /\
    rt_initialized rt = 1 /\ rt_num_proc rt = Z.of_nat n /\ rt_sync_barrier rt = Some (Z.of_nat n).
Proof using Halloc Hcreate Hn Hn32.
  intros Hp -> Hmin Hok. unfold smlt_init, smlt_platform_init. simpl.
  destruct (Z.ltb_spec nproc num_proc); [lia|].
  assert (En : (if cpus <? num_proc then cpus else num_proc) = Z.of_nat n)
    by (destruct (Z.ltb_spec cpus num_proc); lia).
  rewrite En. destruct (Z.eqb_spec (Z.of_nat n) 0); [lia|].
  set (s1 := IS (C := C) 2 w (RT 0 (Z.of_nat n) true (Some (Z.of_nat n))
    (Some (tab n (fun _ => None))) 0 [])).
  assert (I1 : nodes_inv w 0 s1).
  { by split. }
  destruct (mfor_ret_run (init_node zero_chan alloc_ok (Z.of_nat n)) (nodes_inv w) n 0 s1 I1) as (s2 & E2 & I2).
  { intros i s Hi. apply init_node_run. lia. }
  destruct I2 as [J1 J2 J3 J4 J5].
  destruct (connect_all_run s2) as (s3 & E3 & [K1 K2 K3 K4 K5 K6 [K7 K8]]).
  { split; try done.
    - exists (n * n)%nat. rewrite J1. split; [done|lia].
    - rewrite J2. f_equal. apply tab_ext. intros x Hx. rewrite decide_True by lia. do 2 f_equal.
      apply tab_ext. intros k Hk. unfold first_slots, slot_at. by rewrite decide_False by lia.
    - by rewrite J4, length_replicate.
    - intros ? ? ? ?. exfalso. lia.
    - intros x Hx. rewrite J4. apply lookup_replicate_2. nia. }
  exists (is_allocs s3), (is_world s3), (rt_set_initialized 1 (is_rt s3)). split.
  - unfold is_upd at 1, smlt_shm_init_master_share, is_alloc. unfold modify, gets, mbind at 1, M_bind at 1. simpl.
    unfold mbind, M_bind, mret, M_ret. simpl. rewrite !Halloc. simpl.
    unfold is_upd, modify, mbind, M_bind, mret, M_ret. simpl. rewrite !Halloc. simpl.
    rewrite Nat2Z.id, <- tab_const. change (Z.of_nat 0) with 0 in E2.
    match goal with |- context [mfor_ret n 0 _ ?x] => change x with s1 end. by rewrite E2, E3.
  - split; [|done]. split; simpl; [done| | |done].
    + eexists. split; [exact K2|]. intros x Hx. rewrite lookup_tab by done. eexists. split; [done|]. split; [done|].
      simpl. apply tab_ext. intros k Hk. f_equal. unfold slot_at, slot. repeat case_decide; lia.
    + intros x k Hxk. apply K5; lia.
Qed.
End init_ok.

(** ** Main properties *)

(** A zeroed [struct smlt_channel]. *)
Definition zero_channel : smlt_channel := Chan 0 0 0 0 false CNull.
(** The creation of a channel as [smlt_init] calls it. *)
Definition create_mesh_channel alloc numa node_of mal ctx_ok (s d : Z) :=
  smlt_channel_create alloc numa node_of mal ctx_ok [s] [d] 1 1.

(** [C21] Eager start-up connects every two nodes: when the allocations succeed and the
    processors are there, [smlt_init] succeeds with [n] nodes, the number asked for or that
    of the configured processors if it is smaller; from then on, for every sequence of
    calls of [smlt_send] and [smlt_recv] by the nodes' threads, no call panics, fails or runs
    into undefined behaviour, the messages from one node to another arrive in order, none is
    lost or invented, and a call waits only while messages are under way (send) or none is
    (receive). *)
Theorem mesh_fifo n alloc_ok alloc numa node_of mal ctx_ok nproc cpus num_proc w world cs :
  (0 < n)%nat -> Z.of_nat n < 2 ^ 32 -> num_proc <= nproc -> Z.min num_proc cpus = Z.of_nat n ->
  (forall k, alloc_ok k = true) -> channels_left (n * n) world ->
  (w <= SMLT_UMP_PAYLOAD_WORDS)%nat -> Forall (mesh_valid w n) cs ->
  exists s rt tr q s',
    smlt_init zero_channel (create_mesh_channel alloc numa node_of mal ctx_ok) alloc_ok nproc 0 cpus
      num_proc true (IS 0 world zero_rt) = (Ret (err_value SMLT_SUCCESS), s) /\
    is_rt s = rt /\ rt_num_proc rt = Z.of_nat n /\
    mesh_exec w cs rt = (Ret tr, s') /\ mesh_run mesh_empty tr q /\
    forall i j, mesh_sent_of i j tr = mesh_got_of i j tr ++ q i j.
Proof.
  intros Hn H32 Hp Hmin Ha Hworld Hw Hcs.
  destruct (smlt_init_run zero_channel (create_mesh_channel alloc numa node_of mal ctx_ok) alloc_ok Ha
    channels_left) with (n := n) (nproc := nproc) (numa := 0) (cpus := cpus) (num_proc := num_proc) (w := world)
    as (na & w' & rt & E & Hrt & _ & Hnum & _); try done.
  { intros b w0 s d Hb. unfold create_mesh_channel.
    destruct (channel_create_empty alloc numa node_of mal ctx_ok b w0 s d Hb) as (c & w1 & Ec & He & _ & Hb1).
    by exists c, w1. }
  destruct (mesh_exec_refines w Hw zero_channel n cs mesh_empty rt Hrt) as (tr & q & s' & Et & Hr & _);
    [intros i j; constructor|done|].
  exists (IS na w' rt), rt, tr, q, s'. split_and!; try done.
  intros i j. by rewrite <- (mesh_run_order _ _ _ i j Hr).
Qed.

(** [m] writes neither its channel nor anything else. *)
Lemma on_node_chan_pure {C A} self nd (m : M C A) s p c o :
  arr_get (nd_chan nd) self = Some (Z.of_nat p) -> rt_chans s !! p = Some (Some c) -> m c = (o, c) ->
  on_node_chan self nd m s = (o, s).
Proof.
  intros Hp Hc E. unfold on_node_chan. rewrite Hp, arr_get_nat, Hc, E, Nat2Z.id, list_insert_id by done.
  by destruct s.
Qed.

(** Four channels' worth of allocations. *)
Definition four_scripts : list (Z * Z * (Z * Z)) :=
  tab 4 (fun i => let a := 16384 * Z.of_nat (S i) in (64 * Z.of_nat i, 64 * Z.of_nat i + 1024, (a, a + 8192))).
Definition four_channels_world : qp_world := QW (AllocSt (alloc_script four_scripts ++ []) []) ∅ ∅ ∅.
Lemma four_channels_left : channels_left 4 four_channels_world.
Proof.
  exists four_scripts, [], [], ∅, ∅, ∅. split; [done|]. split; [done|].
  repeat constructor; vm_compute; done.
Qed.

(** Two nodes on a machine of two processors, although three were asked for. *)
Lemma mesh_fifo_witness :
  exists s rt tr q s',
    smlt_init zero_channel (create_mesh_channel (fun _ => None) (fun _ _ => None) (fun _ => 0) true (fun _ => true))
      (fun _ => true) 4 0 2 3 true (IS 0 four_channels_world zero_rt) = (Ret (err_value SMLT_SUCCESS), s) /\
    is_rt s = rt /\ rt_num_proc rt = 2 /\
    mesh_exec 1 [MSend 0 1 [7]; MRecv 0 1; MSend 1 0 [8]; MRecv 1 0; MRecv 0 1] rt = (Ret tr, s') /\
    mesh_run mesh_empty tr q /\ forall i j, mesh_sent_of i j tr = mesh_got_of i j tr ++ q i j.
Proof.
  apply (mesh_fifo 2 (fun _ => true) (fun _ => None) (fun _ _ => None) (fun _ => 0) true (fun _ => true) 4 2 3 1
    four_channels_world); try done; try lia.
  - exact four_channels_left.
  - unfold SMLT_UMP_PAYLOAD_WORDS. lia.
  - repeat constructor; simpl; lia.
Defined.

(** What the calls do with the other node ids.  An id beyond the mesh is refused with
    [SMLT_ERR_NODE_INVALD] and polls answer no; a node that names itself meets a zeroed channel:
    its sends report success and deliver nothing, polls say that a message is there, and
    the receive follows a NULL pointer. *)
Lemma mesh_other_ids n q s i id msg :
  rt_ok zero_channel n q s -> (i < n)%nat -> Z.of_nat n <= id ->
  let self := Z.of_nat i in
  smlt_send self id msg s = (Ret (err_value SMLT_ERR_NODE_INVALD), s) /\
  smlt_recv self id msg s = (Ret (err_value SMLT_ERR_NODE_INVALD, msg), s) /\
  smlt_can_send self id s = (Ret false, s) /\ smlt_can_recv self id s = (Ret false, s) /\
  smlt_send self self msg s = (Ret (err_value SMLT_SUCCESS), s) /\
  smlt_notify self self s = (Ret (err_value SMLT_SUCCESS), s) /\
  smlt_can_recv self self s = (Ret true, s) /\
  (smlt_recv self self msg s).1 = Undef.
Proof.
  intros Hs Hi Hid self. unfold smlt_send, smlt_recv, smlt_can_send, smlt_can_recv, smlt_notify.
  rewrite !(bind_ret _ _ _ _ _ (get_node_none _ _ _ _ _ Hs Hid)).
  destruct (get_node_run _ _ _ _ i Hs Hi) as (nd & E & _ & Hnd).
  rewrite !(bind_ret _ _ _ _ _ E).
  assert (Hp : arr_get (nd_chan nd) self = Some (Z.of_nat (i * n + i))).
  { unfold self. rewrite Hnd, arr_get_tab by done. unfold slot. by rewrite decide_False by lia. }
  pose proof (ro_self _ _ _ _ Hs i Hi) as Hc.
  split_and!; try done; try by apply (on_node_chan_pure _ _ _ _ _ _ _ Hp Hc).
  unfold smlt_node_recv, on_node_chan. by rewrite Hp, arr_get_nat, Hc.
Qed.


(** The client's function runs as the node, which the thread is no longer afterwards. *)
Lemma node_thread_run setaff (start_fn : Z -> Z -> M thread_st Z) node s f r s' :
  nd_fn node = Some f ->
  (forall c, start_fn f (nd_arg node) (TLS (Some node) (nd_id node) c) = (Ret r, s')) ->
  smlt_platform_node_start_wrapper setaff start_fn node s = (Ret r, tls_set_self None s').
Proof.
  intros Hf Hr. unfold smlt_platform_node_start_wrapper, smlt_node_exec_start, smlt_node_lowlevel_init,
    smlt_platform_thread_start_hook, smlt_platform_pin_thread, smlt_node_run, smlt_node_exec_end,
    modify, get, mbind, M_bind, mret, M_ret, tls_set_core, tls_set_self, tls_set_self_id. simpl. rewrite Hf.
  destruct (setaff (nd_core node) =? 0); simpl; by rewrite Hr.
Qed.
