(* ===== verification/TreeNet.v ===== *)
(** Contexts as networks: the tree of channels a context holds, the operations of the
    nodes on it, and facts about the edges of a tree. *)
From stdpp Require Import strings.
From S2P Require Import Prelude Errors Message Fifo Pair UmpQueue UmpQueuepair.
From S2P Require Import Queuepair Channel Topology Edge Context Process.

(** ** Operations on the channels of a context *)
#[export] Instance ctx_store C : ChanStore C (smlt_context C) := fun A r m ctx =>
  match arr_get (cx_all_nodes ctx) r.1 with
  | Some n =>
      match cn_children n with
      | Some a =>
          match arr_get a r.2 with
          | Some (Some c) =>
              let '(o, c') := m c in
              (o, Ctx (cx_num_nodes ctx) (cx_max_nid ctx) (cx_nid_to_node ctx)
                    (<[Z.to_nat r.1 := cn_set_children (Some (<[Z.to_nat r.2 := Some c']> a)) n]>
                       (cx_all_nodes ctx)))
          | _ => (Undef, ctx)
          end
      | None => (Undef, ctx)
      end
  | None => (Undef, ctx)
  end.

(** ** Edges of a tree *)
Section tree_edges.
Context (tr : tree) (Hwf : tree_wf tr).

(** [y] is the [k]-th child of [x]. *)
Definition child_at (x k y : nat) : Prop := (x < t_len tr)%nat /\ t_kids tr x !! k = Some y.

Lemma child_par x k y : child_at x k y -> (y < t_len tr)%nat /\ t_par tr y = Some (x, k).
Proof using Hwf. intros [Hx Hk]. by apply (tw_kids _ Hwf) in Hk. Qed.
Lemma par_child x k y : (y < t_len tr)%nat -> t_par tr y = Some (x, k) -> child_at x k y.
Proof using Hwf.
  intros Hy Hp. destruct (decide (y = t_root tr)) as [->|D].
  { by rewrite (tw_par_root _ Hwf) in Hp. }
  destruct (tw_par _ Hwf y Hy D) as (x' & k' & Hp' & Hx). rewrite Hp in Hp'.
  apply some_pair_inj in Hp' as [<- <-]. split; [done|]. by apply (tw_kids _ Hwf).
Qed.
Lemma has_parent y : (y < t_len tr)%nat -> y <> t_root tr -> exists x k, child_at x k y.
Proof using Hwf.
  intros Hy D. destruct (tw_par _ Hwf y Hy D) as (x & k & Hp & _). exists x, k. by apply par_child.
Qed.
Lemma child_lt x k y : child_at x k y -> (k < length (t_kids tr x))%nat.
Proof using Type. intros [_ Hk]. by eapply lookup_lt_Some. Qed.
Lemma nth_child x k : (x < t_len tr)%nat -> (k < length (t_kids tr x))%nat -> exists y, child_at x k y.
Proof using Type. intros Hx Hk. destruct (lookup_lt_is_Some_2 _ _ Hk) as [y E]. by exists y. Qed.
Lemma child_inj x k x' k' y : child_at x k y -> child_at x' k' y -> x' = x /\ k' = k.
Proof using Hwf.
  intros [_ H1]%child_par [_ H2]%child_par. rewrite H1 in H2. by apply some_pair_inj in H2 as [-> ->].
Qed.
Lemma child_ne x k y : child_at x k y -> y <> x.
Proof using Hwf.
  intros [_ H]%child_par ->. destruct (tw_acyclic _ Hwf) as [rank Hr]. apply Hr in H. lia.
Qed.
Lemma child_not_root x k y : child_at x k y -> y <> t_root tr.
Proof using Hwf. intros [_ H]%child_par ->. by rewrite (tw_par_root _ Hwf) in H. Qed.

Lemma kids_bound x : (x < t_len tr)%nat -> (length (t_kids tr x) <= t_len tr)%nat.
Proof using Hwf.
  intros Hx. rewrite <- (length_seq (t_len tr) 0). apply submseteq_length, NoDup_submseteq.
  - apply NoDup_alt. intros i j y Hi Hj. by destruct (child_inj x i x j y (conj Hx Hi) (conj Hx Hj)).
  - intros y [k Hk]%list_elem_of_lookup. apply elem_of_seq.
    pose proof (child_par x k y (conj Hx Hk)) as [? _]. lia.
Qed.

(** Induction from the root down, and from the leaves up. *)
Lemma tree_down (P : nat -> Prop) :
  P (t_root tr) -> (forall x k y, child_at x k y -> P x -> P y) -> forall i, (i < t_len tr)%nat -> P i.
Proof using Hwf.
  intros Hr Hc i. destruct (tw_acyclic _ Hwf) as [rank Hrank].
  induction i as [i IH] using (induction_ltof1 _ rank). unfold ltof in IH. intros Hi.
  destruct (decide (i = t_root tr)) as [->|D]; [done|].
  destruct (has_parent i Hi D) as (x & k & He). pose proof (child_par _ _ _ He) as [_ Hp].
  eapply Hc; [exact He|]. apply IH; [by eapply Hrank|]. apply He.
Qed.
Lemma tree_up (P : nat -> Prop) :
  (forall x, (x < t_len tr)%nat -> (forall k y, child_at x k y -> P y) -> P x) ->
  forall i, (i < t_len tr)%nat -> P i.
Proof using Hwf.
  intros Hc i. destruct (tw_acyclic _ Hwf) as [rank Hrank].
  assert (Hb : exists b, forall j, (j < t_len tr)%nat -> (rank j <= b)%nat).
  { clear. induction (t_len tr) as [|l [b Hb]]; [exists 0%nat; lia|]. exists (b + rank l)%nat. intros j Hj.
    destruct (decide (j = l)) as [->|D]; [lia|]. pose proof (Hb j ltac:(lia)). lia. }
  destruct Hb as [b Hb].
  induction i as [i IH] using (induction_ltof1 _ (fun i => b - rank i)%nat). unfold ltof in IH.
  intros Hi. apply Hc; [done|]. intros k y He. pose proof (child_par _ _ _ He) as [Hy Hp].
  apply IH; [|done]. pose proof (Hrank _ _ _ Hp). pose proof (Hb y Hy). lia.
Qed.
End tree_edges.

(** ** Channels of a tree *)
Section edges.
Context {C : Type} {HC : ChanOps C} {HT : TreeEdge C}.

(** The channel of an edge holds [q Src] on its way down and [q Dst] on its way up. *)
Definition holds (q : queues) (x k : nat) (oc : option C) : Prop :=
  exists c, oc = Some c /\ edge (Z.of_nat x) c Src (q Src x k) (q Dst x k).

Definition tree_ctx (tr : tree) (q : queues) (ctx : smlt_context C) : Prop :=
  ctx_repr tr (holds q) ctx.

(** Node [i] is the end [d] of the edge [k] of node [x]. *)
Definition at_end (tr : tree) (i : nat) (d : side) (x k : nat) : Prop :=
  (x < t_len tr)%nat /\ (k < length (t_kids tr x))%nat /\
  match d with Src => i = x | Dst => t_kids tr x !! k = Some i end.

Lemma at_end_chan_end tr i d x k :
  tree_wf tr -> at_end tr i d x k -> chan_end (Z.of_nat x) (Z.of_nat i) = d.
Proof.
  intros Hwf (Hx & Hk & Hd). unfold chan_end. destruct d.
  - subst. by rewrite Z.eqb_refl.
  - apply (tw_kids _ Hwf) in Hd as [_ Hp]; [|done].
    destruct (tw_acyclic _ Hwf) as [rank Hr]. apply Hr in Hp.
    destruct (Z.eqb_spec (Z.of_nat x) (Z.of_nat i)) as [E|]; [|done].
    apply Nat2Z.inj in E. subst. lia.
Qed.

(** An operation of node [i] at one end of an edge that leaves [v] in its own direction
    and [v'] in the other. *)
Lemma with_chan_run tr q ctx i d x k :
  tree_ctx tr q ctx -> at_end tr i d x k ->
  exists c, edge (Z.of_nat x) c (chan_end (Z.of_nat x) (Z.of_nat i)) (q d x k) (q (peer d) x k) /\
    forall A (m : M C A) o c' v v', m c = (o, c') ->
      edge (Z.of_nat x) c' (chan_end (Z.of_nat x) (Z.of_nat i)) v v' ->
      exists ctx', with_chan (Z.of_nat x, Z.of_nat k) m ctx = (o, ctx') /\
        tree_ctx tr (q_set d x k v (q_set (peer d) x k v' q)) ctx'.
Proof.
  intros Hc He. pose proof (at_end_chan_end _ _ _ _ _ (cxr_wf _ _ _ Hc) He) as Hd.
  destruct He as (Hx & Hk & _).
  destruct (cx_node_run tr _ ctx Hc x Hx) as (n & _ & Hn & Hr).
  destruct (lookup_lt_is_Some_2 (default [] (cn_children n)) k) as [oc Hoc].
  { by rewrite (cr_len _ _ _ _ _ Hr). }
  destruct (cr_entries _ _ _ _ _ Hr _ _ Hoc) as (c & -> & Ec).
  assert (Ed : edge (Z.of_nat x) c d (q d x k) (q (peer d) x k)).
  { destruct d; [done|]. by apply (edge_flip _ _ Src). }
  exists c. rewrite Hd. split; [done|]. intros A m o c' v v' E Ec'.
  unfold with_chan, ctx_store. simpl. rewrite arr_get_nat, Hn.
  destruct (cn_children n) as [a|] eqn:Ea; [|done]. simpl in Hoc. rewrite arr_get_nat, Hoc, E.
  eexists. split; [reflexivity|]. rewrite !Nat2Z.id.
  destruct Hc as [Hwf Hnum Hmax Hnids Hlen Hnodes]. split; simpl; try done.
  { by rewrite length_insert. }
  intros j nj Hj. destruct (decide (j = x)) as [->|Dx].
  - rewrite list_lookup_insert_eq in Hj by (by rewrite Hlen). injection Hj as <-.
    destruct Hr as [R1 R2 R3 R4 R5 R6]. rewrite Ea in *. split; simpl; try done.
    { by rewrite length_insert. }
    intros k' oc' Hoc'. destruct (decide (k' = k)) as [->|Dk].
    + rewrite list_lookup_insert_eq in Hoc' by (by eapply lookup_lt_Some). injection Hoc' as <-.
      exists c'. split; [done|]. destruct d.
      * rewrite q_set_same, q_set_other, q_set_same by (intuition congruence). done.
      * rewrite q_set_other, q_set_same, q_set_same by (intuition congruence). by apply (edge_flip _ _ Dst).
    + rewrite list_lookup_insert_ne in Hoc' by done.
      destruct (R6 _ _ Hoc') as (c0 & -> & E0). exists c0. split; [done|].
      by rewrite !q_set_other by (intuition congruence).
  - rewrite list_lookup_insert_ne in Hj by done. destruct (Hnodes _ _ Hj) as [R1 R2 R3 R4 R5 R6].
    split; try done. intros k' oc' Hoc'. destruct (R6 _ _ Hoc') as (c0 & -> & E0).
    exists c0. split; [done|]. by rewrite !q_set_other by (intuition congruence).
Qed.

Definition ref_of (x k : nat) : chan_ref := (Z.of_nat x, Z.of_nat k).

Lemma tree_ctx_ext tr q q' ctx :
  (forall d x k, q d x k = q' d x k) -> tree_ctx tr q ctx -> tree_ctx tr q' ctx.
Proof.
  intros Hq [Hwf Hnum Hmax Hnids Hlen Hnodes]. split; try done.
  intros i n Hi. destruct (Hnodes _ _ Hi) as [R1 R2 R3 R4 R5 R6]. split; try done.
  intros k oc Hk. destruct (R6 _ _ Hk) as (c & -> & E). exists c. split; [done|]. by rewrite <- !Hq.
Qed.

(** The nodes of a context as a network. *)
Definition tree_net (tr : tree) : network C (smlt_context C).
Proof.
  refine {| n_len := t_len tr; n_id := Z.of_nat; n_end := at_end tr; n_ref := fun _ => ref_of;
            n_ok := tree_ctx tr |}.
  - intros q q' ctx. apply tree_ctx_ext.
  - intros q ctx i d x k Hc He. destruct (with_chan_run tr q ctx i d x k Hc He) as (c & Ec & Hw).
    by exists (Z.of_nat x), c.
Defined.
End edges.

(** The description of the entries may be weakened, and only matters on the edges. *)
Lemma ctx_repr_impl {C} tr (E E' : nat -> nat -> option C -> Prop) ctx :
  (forall x k y oc, child_at tr x k y -> E x k oc -> E' x k oc) -> ctx_repr tr E ctx -> ctx_repr tr E' ctx.
Proof.
  intros HE [Hwf Hnum Hmax Hnids Hlen Hnodes]. split; try done.
  intros i n Hi. destruct (Hnodes _ _ Hi) as [R1 R2 R3 R4 R5 R6]. split; try done.
  intros k oc Hk. destruct (nth_child tr i k) as [y Hy].
  - rewrite <- Hlen. by eapply lookup_lt_Some.
  - rewrite <- R5. by eapply lookup_lt_Some.
  - eapply HE; [exact Hy|by apply R6].
Qed.

Lemma tree_ctx_empty {C} {HC : ChanOps C} {HT : TreeEdge C} tr q (ctx : smlt_context C) :
  tree_ctx tr q ctx -> (forall x k y, child_at tr x k y -> q Src x k = [] /\ q Dst x k = []) ->
  tree_ctx tr no_msgs ctx.
Proof.
  intros Hc Hq. eapply ctx_repr_impl; [|exact Hc]. intros x k y oc He (c & -> & Ec).
  destruct (Hq _ _ _ He) as [E1 E2]. exists c. by rewrite E1, E2 in Ec.
Qed.

(** The context the library creates is a tree of empty channels. *)
Lemma context_create_tree tr t alloc_ok alloc numa node_of mal ctx_ok w :
  topo_repr tr t -> Z.of_nat (t_len tr) < 2 ^ 32 -> (forall k, alloc_ok k = true) ->
  channels_left (kids_sum tr (t_len tr) 0) w ->
  exists ctx w',
    smlt_context_create (create_channel_1n alloc numa node_of mal ctx_ok) alloc_ok (Some t) w =
      (Ret (err_value SMLT_SUCCESS, Some ctx), w') /\ tree_ctx tr no_msgs ctx.
Proof.
  intros Ht Hlen Ha Hw.
  destruct (context_create_run (create_channel_1n alloc numa node_of mal ctx_ok) alloc_ok tr t Ht Hlen Ha
    channels_left fresh_edge) with (w := w) as (ctx & w' & E & Hc); [|done|].
  { intros b w0 s d Hb. by apply channel_create_fresh. }
  exists ctx, w'. split; [done|]. eapply ctx_repr_impl; [|exact Hc].
  intros x k y oc _ (y' & _ & c & -> & Ec & _). by exists c.
Qed.

(** For concrete runs: the context of three nodes in a binary tree. *)
Definition create_three_nodes (t : smlt_topology) :=
  smlt_context_create (create_channel_1n (fun _ => None) (fun _ _ => None) (fun _ => 0) true (fun _ => true))
    (fun _ => true) (Some t) two_channels_world.

Lemma three_nodes :
  exists t, smlt_topology_create (fun _ => true) 3 None "bin" = Ret (err_value SMLT_SUCCESS, t) /\
  exists ctx w', create_three_nodes t = (Ret (err_value SMLT_SUCCESS, Some ctx), w') /\
    tree_ctx (bin_tree 3) no_msgs ctx.
Proof.
  destruct (create_binary_tree (fun _ => true) 3 "bin" ltac:(lia) ltac:(lia) (fun _ => eq_refl))
    as (t & E & Ht & _).
  exists t. split; [exact E|].
  apply (context_create_tree (bin_tree 3) t (fun _ => true) (fun _ => None) (fun _ _ => None) (fun _ => 0)
    true (fun _ => true) two_channels_world Ht ltac:(done) (fun _ => eq_refl) two_channels_left).
Qed.

