(* ===== verification/Broadcast.v ===== *)
(** Tree broadcast ([src/broadcast.c]): the code of every node as a program over the
    channels of a context, and the proof that one broadcast delivers the root's
    message to every node, under every schedule. *)
From stdpp Require Import strings.
From S2P Require Import Prelude Errors Message Fifo Pair UmpQueue UmpQueuepair.
From S2P Require Import Queuepair Channel Topology Edge Context Process TreeNet.

(** ** The code *)
Section code.
Context {C : Type} (ctx : smlt_context C) (self : Z).

(** [for (i = 0; i < count; ++i)] over [children[i]], from [i] on: [op] on each channel,
    a failure panics. *)
Fixpoint subtree_loop (op : chan_ref -> chan_ev Z) (n : nat) (x i : Z) : prog Z :=
  match n with
  | O => PRet (err_value SMLT_SUCCESS)
  | S n' =>
      err ← pev (op (x, i));
      if smlt_err_is_fail err then PPanic else subtree_loop op n' x (i + 1)
  end.

Lemma subtree_loop_step op n x (j : nat) :
  (j < n)%nat ->
  subtree_loop op (n - j) x (Z.of_nat j) =
    PEv (op (x, Z.of_nat j)) (fun err =>
      if smlt_err_is_fail err then PPanic else subtree_loop op (n - S j) x (Z.of_nat (S j))).
Proof.
  intros Hj. replace (n - j)%nat with (S (n - S j)) by lia. by rewrite Nat2Z.inj_succ.
Qed.

Definition smlt_broadcast_subtree (msg : smlt_msg) : prog Z :=
  of_ctx (smlt_context_node_get_children_channels ctx self) (fun r =>
    if smlt_err_is_fail r.1 then PRet r.1 else
    subtree_loop (fun c => EvSend c msg) (Z.to_nat r.2.2) r.2.1 0).

Definition smlt_broadcast_notify_subtree : prog Z :=
  of_ctx (smlt_context_node_get_children_channels ctx self) (fun r =>
    if smlt_err_is_fail r.1 then PRet r.1 else
    subtree_loop EvNotify (Z.to_nat r.2.2) r.2.1 0).

(** The error and the message buffer after the call. *)
Definition smlt_broadcast (msg : smlt_msg) : prog (Z * smlt_msg) :=
  of_ctx (smlt_context_node_is_root ctx self) (fun root =>
    if root : bool then
      err ← smlt_broadcast_subtree msg;
      mret (err, msg)
    else
      of_ctx (smlt_context_node_get_parent_channel ctx self) (fun r =>
        if smlt_err_is_fail r.1 then mret (r.1, msg) else
        of_ctx r.2 (fun parent =>
          of_ctx (smlt_context_node_get_child_idx ctx self) (fun idx =>
            m ← pev (EvRecvIndex parent msg idx);
            if smlt_err_is_fail m.1 then PPanic else
            err ← smlt_broadcast_subtree m.2;
            mret (err, m.2))))).

Definition smlt_broadcast_can_recv : prog bool :=
  of_ctx (smlt_context_node_is_root ctx self) (fun root =>
    if root : bool then mret false
    else
      of_ctx (smlt_context_node_get_parent_channel ctx self) (fun r =>
        if smlt_err_is_fail r.1 then mret false else
        of_ctx r.2 (fun parent => b ← pev (EvCanRecv parent); mret (b : bool)))).

Definition smlt_broadcast_notify : prog Z :=
  of_ctx (smlt_context_node_is_root ctx self) (fun root =>
    if root : bool then smlt_broadcast_notify_subtree
    else
      of_ctx (smlt_context_node_get_parent_channel ctx self) (fun r =>
        if smlt_err_is_fail r.1 then mret r.1 else
        of_ctx r.2 (fun parent =>
          e ← pev (EvRecvNotification parent);
          if smlt_err_is_fail e then mret (err_value SMLT_ERR) else
          smlt_broadcast_notify_subtree))).
End code.

(** ** The abstract thread *)

(** Waiting for the parent, or about to send [m] to the [j]-th child. *)
Inductive bcast_pc := BWait | BSend (j : nat) (m : smlt_msg).

Section thread.
Context (tr : tree) (Hwf : tree_wf tr) (msgs : nat -> smlt_msg).
Abbreviation len := (t_len tr).
Abbreviation nkids i := (length (t_kids tr i)).

Definition bcast_act (i : nat) (p : bcast_pc) : action bcast_pc :=
  match p with
  | BWait =>
      match t_par tr i with
      | Some (x, k) =>
          ARecv Dst x k (fun v p' => exists msg', received v (msgs i) msg' /\ p' = BSend 0 msg')
      | None => AStop
      end
  | BSend j m => if decide (j < nkids i)%nat then ASend Src i j (payload m) (BSend (S j) m) else AStop
  end.

Definition bcast_okp (i : nat) (p : bcast_pc) : Prop :=
  match p with
  | BWait => i <> t_root tr /\ sendable (msgs i)
  | BSend j m => sendable m /\ words m = words (msgs i) /\ (j <= nkids i)%nat
  end.

Definition bcast_start (i : nat) : bcast_pc :=
  if decide (i = t_root tr) then BSend 0 (msgs i) else BWait.

Section code_thread.
Context {C : Type} {HC : ChanOps C} {HT : TreeEdge C} (ctx : smlt_context C) (E : nat -> nat -> option C -> Prop)
  (Hctx : ctx_repr tr E ctx).

Definition bcast_prog (i : nat) (p : bcast_pc) : prog (Z * smlt_msg) :=
  match p with
  | BWait => smlt_broadcast ctx (Z.of_nat i) (msgs i)
  | BSend j m =>
      err ← subtree_loop (fun c => EvSend c m) (nkids i - j) (Z.of_nat i) (Z.of_nat j);
      mret (err, m)
  end.

(** The call begins in the start state. *)
Lemma bcast_prog_start i :
  (i < len)%nat -> smlt_broadcast ctx (Z.of_nat i) (msgs i) = bcast_prog i (bcast_start i).
Proof using Hctx.
  intros Hi. unfold bcast_start. case_decide as D; [|done]. simpl. unfold smlt_broadcast.
  rewrite (is_root_run _ _ _ Hctx), bool_decide_true by done. simpl.
  unfold smlt_broadcast_subtree. rewrite (get_children_run _ _ _ Hctx) by done. simpl.
  by rewrite Nat2Z.id, Nat.sub_0_r.
Qed.

(** What a waiting node does after it has received into its buffer. *)
Definition bcast_forward (i : nat) (m : Z * smlt_msg) : prog (Z * smlt_msg) :=
  if smlt_err_is_fail m.1 then PPanic else
  err ← smlt_broadcast_subtree ctx (Z.of_nat i) m.2;
  mret (err, m.2).

Lemma bcast_wait_prog i x k :
  (i < len)%nat -> i <> t_root tr -> t_par tr i = Some (x, k) ->
  smlt_broadcast ctx (Z.of_nat i) (msgs i) =
    PEv (EvRecvIndex (ref_of x k) (msgs i) 0) (bcast_forward i).
Proof using Hctx.
  intros Hi Hne Ep. unfold smlt_broadcast.
  rewrite (is_root_run _ _ _ Hctx), bool_decide_false by done. simpl.
  rewrite (get_parent_run _ _ _ Hctx) by done. simpl. unfold par_ref. rewrite Ep. simpl.
  by rewrite (child_idx_run _ _ _ Hctx).
Qed.

Lemma bcast_forward_start i m :
  (i < len)%nat -> bcast_forward i (err_value SMLT_SUCCESS, m) = bcast_prog i (BSend 0 m).
Proof using Hctx.
  intros Hi. unfold bcast_forward. simpl. unfold smlt_broadcast_subtree.
  rewrite (get_children_run _ _ _ Hctx) by done. simpl. by rewrite Nat2Z.id, Nat.sub_0_r.
Qed.

Lemma bcast_implements i p :
  (i < len)%nat -> bcast_okp i p ->
  implements (C := C) (tree_net tr) bcast_act bcast_prog bcast_okp i p.
Proof using Hctx Hwf.
  intros Hi Hok. unfold implements. destruct p as [|j m]; simpl in Hok |- *.
  - destruct Hok as [Hne Hs]. destruct (tw_par _ Hwf i Hi Hne) as (x & k & Ep & Hx). rewrite Ep.
    assert (Hk : t_kids tr x !! k = Some i) by (by apply tw_kids).
    split; [split; [done|]; split; [by eapply lookup_lt_Some|done]|]. left.
    exists (EvRecvIndex (ref_of x k) (msgs i) 0), (bcast_forward i), (msgs i).
    split; [split; [done|right; by eexists]|]. split.
    { apply does_eq. by apply bcast_wait_prog. }
    intros v msg' Hr. exists (BSend 0 msg'). split; [by exists msg'|]. split; [|by apply bcast_forward_start].
    split; [by eapply received_sendable|]. split; [by apply Hr|lia].
  - destruct Hok as (Hs & Hw & Hj). case_decide as D.
    + split; [done|]. split; [split; [done|split; [done|lia]]|].
      eexists (EvSend (ref_of i j) m), _. split; [left; by exists m|]. split.
      { apply does_eq. simpl. rewrite subtree_loop_step by done. reflexivity. }
      reflexivity.
    + intros W' HS' ctx'. simpl. by replace (nkids i - j)%nat with 0%nat by lia.
Qed.
End code_thread.

(** ** The abstract machine delivers *)
Context (M : list Z).
Context (Hmsgs : forall i, (i < len)%nat -> sendable (msgs i) /\ words (msgs i) = Z.of_nat (length M))
  (Hroot : payload (msgs (t_root tr)) = M).

Definition bcast_stage (p : bcast_pc) : nat := match p with BWait => 0 | BSend j _ => S j end.
Abbreviation stage a i := (bcast_stage (a_pc a i)).

(** The queue to the [k]-th child holds the message from when it is sent until the child
    has received it. *)
Definition bcast_queue (sx sy k : nat) : list (list Z) :=
  if decide (S k < sx /\ sy = 0)%nat then [M] else [].

Record bcast_inv (a : amach bcast_pc) : Prop := {
  bi_root : a_pc a (t_root tr) <> BWait;
  bi_msg i j m : (i < len)%nat -> a_pc a i = BSend j m ->
    (j <= nkids i)%nat /\ words m = Z.of_nat (length M) /\ payload m = M;
  bi_down x k y : child_at tr x k y ->
    a_q a Src x k = bcast_queue (stage a x) (stage a y) k /\ (0 < stage a y -> S k < stage a x)%nat;
  bi_up x k : a_q a Dst x k = [];
}.

Lemma bcast_inv_init : bcast_inv (AM bcast_start no_msgs).
Proof using Hwf Hmsgs Hroot.
  split; simpl; unfold bcast_start.
  - by rewrite decide_True.
  - intros i j m Hi. case_decide as D; [|done]. intros [= <- <-]. subst.
    split; [lia|]. split; [by apply Hmsgs|done].
  - intros x k y He. rewrite (decide_False (P := y = t_root tr)) by (by eapply child_not_root).
    simpl. split; [|lia]. unfold bcast_queue. rewrite decide_False; [done|].
    case_decide; simpl; lia.
  - done.
Qed.

Lemma bcast_inv_step i a a' :
  (i < len)%nat -> bcast_inv a -> astep bcast_act i a a' ->
  bcast_inv a' /\ (stage a i <= stage a' i)%nat.
Proof using Hwf Hmsgs.
  intros Hi [Hr Hm Hd Hu] Hs.
  assert (Hact : forall A, bcast_act i (a_pc a i) = A -> match A with
    | ASend d x k v p => exists m, a_pc a i = BSend k m /\ d = Src /\ x = i /\ (k < nkids i)%nat /\
        v = payload m /\ p = BSend (S k) m
    | ARecv d x k f => a_pc a i = BWait /\ d = Dst /\ child_at tr x k i /\
        f = (fun v p' => exists msg', received v (msgs i) msg' /\ p' = BSend 0 msg')
    | AStop => True | _ => False end).
  { intros A <-. unfold bcast_act. destruct (a_pc a i) as [|j m] eqn:E.
    - destruct (t_par tr i) as [[x k]|] eqn:Ep; [|done]. split_and!; try done. by eapply par_child.
    - case_decide; [|done]. by exists m. }
  destruct Hs as [p E|d x k v p E|d x k v p E|d x k f v q p E Hq Hf|d x k f E|d x k f E|E];
    specialize (Hact _ E); cbn beta iota in Hact; try done; try (split; [by split|lia]).
  - destruct Hact as (m & Em & -> & -> & Hk & -> & ->). destruct (Hm i k m Hi Em) as (_ & Hw & Hp).
    simpl. rewrite pc_set_same, Em, Hp. simpl. split; [|lia].
    destruct (nth_child tr i k Hi Hk) as [y0 Hy0].
    pose proof (child_ne _ Hwf _ _ _ Hy0) as Hne0.
    destruct (Hd _ _ _ Hy0) as [Hq0 Hs0]. rewrite Em in Hq0, Hs0. simpl in Hq0, Hs0.
    split; simpl.
    + destruct (decide (t_root tr = i)) as [->|D]; [by rewrite pc_set_same|by rewrite pc_set_other].
    + intros j j' m' Hj. destruct (decide (j = i)) as [->|D].
      * rewrite pc_set_same. intros [= <- <-]. split; [lia|done].
      * rewrite pc_set_other by done. by apply Hm.
    + intros x k' y He. destruct (decide (x = i /\ k' = k)) as [[-> ->]|D].
      * assert (y = y0) as -> by (destruct He, Hy0; congruence).
        rewrite q_set_same, pc_set_same, pc_set_other by done. simpl. rewrite Hq0.
        unfold bcast_queue. rewrite decide_False, decide_True by lia. split; [done|lia].
      * rewrite q_set_other by (intuition congruence). destruct (Hd _ _ _ He) as [-> Hx].
        unfold bcast_queue. destruct (decide (x = i)) as [->|Dx].
        -- rewrite pc_set_same, pc_set_other by (by eapply child_ne). rewrite Em in *. simpl in *.
           assert (k' <> k) by (intros ->; by apply D). split; [|lia].
           repeat case_decide; try done; lia.
        -- rewrite (pc_set_other i _ _ x) by done. destruct (decide (y = i)) as [->|Dy].
           ++ rewrite pc_set_same, Em in *. simpl in *. split; [|lia]. repeat case_decide; try done; lia.
           ++ by rewrite pc_set_other.
    + intros x k'. rewrite q_set_other by (intuition congruence). apply Hu.
  - destruct Hact as (Em & -> & He & ->). destruct Hf as (msg' & Hrec & ->). simpl in *.
    rewrite pc_set_same, Em. simpl. split; [|lia].
    destruct (Hd _ _ _ He) as [Hq0 Hs0]. rewrite Em in Hq0. simpl in Hq0. rewrite Hq in Hq0.
    unfold bcast_queue in Hq0. case_decide as Dq; [|done]. injection Hq0 as -> ->. destruct Dq as [Hsx _].
    destruct (Hmsgs i Hi) as [_ Hwi].
    assert (Hne : i <> x) by (by eapply child_ne).
    split; simpl.
    + destruct (decide (t_root tr = i)) as [->|D]; [by rewrite pc_set_same|by rewrite pc_set_other].
    + intros j j' m' Hj. destruct (decide (j = i)) as [->|D].
      * rewrite pc_set_same. intros [= <- <-]. split; [lia|]. by eapply received_payload.
      * rewrite pc_set_other by done. by apply Hm.
    + intros x' k' y He'. destruct (decide (y = i)) as [->|Dy].
      * destruct (child_inj _ Hwf _ _ _ _ _ He He') as [-> ->].
        rewrite q_set_same, pc_set_same, pc_set_other by done. simpl. unfold bcast_queue.
        rewrite decide_False by lia. split; [done|lia].
      * rewrite q_set_other by (intros (_ & -> & ->); destruct He, He'; congruence).
        destruct (Hd _ _ _ He') as [-> Hx]. rewrite (pc_set_other i _ _ y) by done.
        destruct (decide (x' = i)) as [->|Dx]; [|by rewrite pc_set_other].
        rewrite pc_set_same, Em in *. simpl in *. unfold bcast_queue.
        rewrite !decide_False by lia. split; [done|lia].
    + intros x' k'. rewrite q_set_other by (intuition congruence). apply Hu.
Qed.

(** ** Progress *)
Definition bcast_enabled (s : nat -> nat) (i : nat) : Prop :=
  match s i with
  | O => match t_par tr i with Some (x, k) => (S k < s x)%nat | None => False end
  | S j => (j < nkids i)%nat
  end.
#[export] Instance bcast_enabled_dec s i : Decision (bcast_enabled s i).
Proof. unfold bcast_enabled. destruct (s i); [destruct (t_par tr i) as [[]|]|]; apply _. Defined.

Lemma bcast_staged :
  staged bcast_act len 0 bcast_inv (fun _ => bcast_stage) (fun _ s => s) (fun i => S (nkids i)) (fun _ _ => 0%nat) bcast_enabled.
Proof using Hwf Hmsgs.
  split.
  - intros i a a' Hi Ha Hs. destruct (bcast_inv_step i a a' Hi Ha Hs) as [Ha' Hle]. split; [exact Ha'|cbv beta; lia].
  - intros i a Hi Ha. destruct (a_pc a i) as [|j m] eqn:E; simpl; [lia|].
    destruct (bi_msg _ Ha i j m Hi E). lia.
  - intros s s' i Hs Hi. unfold bcast_enabled. rewrite <- (Hs i Hi). destruct (s i); [|done].
    destruct (t_par tr i) as [[x k]|] eqn:Ep; [|done].
    by rewrite (Hs x) by (by eapply par_child).
  - intros i a a' Hi Ha He Hs. left. unfold bcast_enabled in He.
    destruct (a_pc a i) as [|j m] eqn:E; simpl in He.
    + destruct (t_par tr i) as [[x k]|] eqn:Ep; [|done].
      destruct (bi_down _ Ha x k i) as [Hq _]; [by apply par_child|].
      rewrite E in Hq. unfold bcast_queue in Hq. rewrite decide_True in Hq by done.
      assert (Ha' : bcast_act i (a_pc a i) =
        ARecv Dst x k (fun v p' => exists msg', received v (msgs i) msg' /\ p' = BSend 0 msg')).
      { unfold bcast_act. by rewrite E, Ep. }
      destruct Hs as [p Ea|d x' k' v p Ea|d x' k' v p Ea|d x' k' f v q p Ea Hq' Hf|d x' k' f Ea Hq'|d x' k' f Ea|Ea];
        rewrite Ha' in Ea; try discriminate Ea; injection Ea as <- <- <- <-; simpl in *.
      * destruct Hf as (msg' & _ & ->). rewrite pc_set_same. simpl. lia.
      * by rewrite Hq in Hq'.
    + assert (Ha' : bcast_act i (a_pc a i) = ASend Src i j (payload m) (BSend (S j) m)).
      { unfold bcast_act. by rewrite E, decide_True. }
      destruct Hs as [p Ea|d x' k' v p Ea|d x' k' v p Ea Hne|d x' k' f v q p Ea Hq' Hf|d x' k' f Ea Hq'|d x' k' f Ea|Ea];
        rewrite Ha' in Ea; try discriminate Ea; injection Ea as <- <- <- <- <-; simpl in *.
      * rewrite pc_set_same. simpl. lia.
      * destruct (nth_child tr i j Hi He) as [y Hy]. destruct (bi_down _ Ha _ _ _ Hy) as [Hq _].
        rewrite E in Hq. unfold bcast_queue in Hq. simpl in Hq.
        rewrite decide_False in Hq by lia. done.
  - intros i a Hi Ha. revert i Hi.
    apply (tree_down tr Hwf (fun i => (stage a i < S (nkids i))%nat ->
      exists j, (j < len)%nat /\ bcast_enabled (fun l => stage a l) j)).
    + intros Hlt. exists (t_root tr). split; [apply (tw_root _ Hwf)|]. unfold bcast_enabled.
      pose proof (bi_root _ Ha). destruct (a_pc a (t_root tr)) as [|j m]; [done|]. simpl in *. lia.
    + intros x k y He IH Hlt. destruct (decide (stage a x < S (nkids x))%nat) as [D|D]; [by apply IH|].
      destruct (child_par _ Hwf _ _ _ He) as [Hy Hp]. exists y. split; [done|]. unfold bcast_enabled.
      destruct (a_pc a y) as [|j m] eqn:E; simpl in *; [|lia]. rewrite Hp.
      pose proof (child_lt _ _ _ _ He). lia.
  - lia.
Qed.
End thread.

(** ** The system *)
Section delivers.
Context {C : Type} {HC : ChanOps C} {HT : TreeEdge C}.
Context (tr : tree) (ctx : smlt_context C) (msgs : nat -> smlt_msg) (M : list Z).

(** Every node calls [smlt_broadcast] with its own message structure. *)
Definition bcast_sys : sys (smlt_context C) (Z * smlt_msg) :=
  Sys (tab (t_len tr) (fun i => smlt_broadcast ctx (Z.of_nat i) (msgs i))) ctx.

Context (Hc : tree_ctx tr no_msgs ctx).
Context (Hmsgs : forall i, (i < t_len tr)%nat -> sendable (msgs i) /\ words (msgs i) = Z.of_nat (length M))
  (Hroot : payload (msgs (t_root tr)) = M).

Lemma bcast_sim_init :
  sim (tree_net tr) (bcast_prog tr msgs ctx) (bcast_okp tr msgs) (AM (bcast_start tr msgs) no_msgs) bcast_sys.
Proof using Hc Hmsgs.
  split; simpl; [by rewrite length_tab| | |done].
  - intros i Hi. rewrite lookup_tab by done. f_equal. by eapply bcast_prog_start.
  - intros i Hi. unfold bcast_start. case_decide; simpl; [split; [|split; [done|lia]]|split; [done|]]; by apply Hmsgs.
Qed.

Lemma bcast_run sched :
  Forall (fun i => (i < t_len tr)%nat) sched ->
  exists a, arun (bcast_act tr msgs) sched (AM (bcast_start tr msgs) no_msgs) a /\
    sim (tree_net tr) (bcast_prog tr msgs ctx) (bcast_okp tr msgs) a (sys_run Z.of_nat bcast_sys sched) /\ bcast_inv tr M a.
Proof using Hc Hmsgs Hroot.
  intros Hl. pose proof (cxr_wf _ _ _ Hc) as Hwf.
  destruct (sim_run (tree_net tr) (bcast_act tr msgs) (bcast_prog tr msgs ctx) (bcast_okp tr msgs)) with
    (a := AM (bcast_start tr msgs) no_msgs) (s := bcast_sys) (l := sched) as (a & Hr & Hs);
    [|apply bcast_sim_init|done|].
  - intros i p Hi Hp. by eapply bcast_implements.
  - exists a. split; [done|]. split; [done|].
    eapply (arun_invariant (bcast_act tr msgs) (bcast_inv tr M)); [|exact Hl|exact Hr|by apply bcast_inv_init].
    intros i a1 a2 Hi Ha Hst. by eapply bcast_inv_step.
Qed.
End delivers.

(** [C17] Broadcast delivers: over a context that is a tree of empty channels, let every
    node call [smlt_broadcast] with a buffer of the length of the root's message.  Under
    every schedule no call panics or runs into undefined behaviour, and a call that has
    returned reports success and leaves the root's message in its node's buffer.  Once
    every node has run in enough rounds - one per send and one per node - all calls have
    returned, and the channels are empty again. *)
Theorem broadcast_delivers {C} {HC : ChanOps C} {HT : TreeEdge C} tr (ctx : smlt_context C) msgs M :
  tree_ctx tr no_msgs ctx ->
  (forall i, (i < t_len tr)%nat -> sendable (msgs i) /\ words (msgs i) = Z.of_nat (length M)) ->
  payload (msgs (t_root tr)) = M ->
  (forall sched i p, Forall (fun i => (i < t_len tr)%nat) sched ->
     sy_threads (sys_run Z.of_nat (bcast_sys tr ctx msgs) sched) !! i = Some p ->
     (exists X (e : chan_ev X) k, p = PEv e k) \/
     (exists m, p = PRet (err_value SMLT_SUCCESS, m) /\ payload m = M)) /\
  (forall rounds, Forall (fair_round (t_len tr) 0) rounds ->
     (sum_upto (t_len tr) (fun i => S (length (t_kids tr i))) < length rounds)%nat ->
     let s := sys_run Z.of_nat (bcast_sys tr ctx msgs) (concat rounds) in
     tree_ctx tr no_msgs (sy_store s) /\
     forall i, (i < t_len tr)%nat ->
       exists m, sy_threads s !! i = Some (PRet (err_value SMLT_SUCCESS, m)) /\ payload m = M).
Proof.
  intros Hc Hmsgs Hroot. pose proof (cxr_wf _ _ _ Hc) as Hwf. split.
  - intros sched i p Hl Hp. destruct (bcast_run tr ctx msgs M Hc Hmsgs Hroot sched Hl) as (a & _ & Hs & Ha).
    assert (Hi : (i < t_len tr)%nat) by exact (sim_lt _ _ _ _ _ _ _ Hs Hp).
    rewrite (sim_prog _ _ _ _ _ Hs i Hi) in Hp. injection Hp as <-.
    pose proof (sim_ok _ _ _ _ _ Hs i Hi) as Hok. destruct (a_pc a i) as [|j m] eqn:E; simpl in *.
    + destruct Hok as [Hne _]. destruct (has_parent tr Hwf i Hi Hne) as (x & k & He).
      left. destruct (child_par tr Hwf _ _ _ He) as [_ Hp].
      rewrite (bcast_wait_prog tr msgs ctx _ Hc i x k Hi Hne Hp). by do 3 eexists.
    + destruct (decide (j < length (t_kids tr i))%nat) as [D|D].
      * left. rewrite subtree_loop_step by done. by do 3 eexists.
      * right. replace (length (t_kids tr i) - j)%nat with 0%nat by lia. exists m. split; [done|].
        by eapply (bi_msg _ _ _ Ha).
  - intros rounds Hr Hlen s. destruct (bcast_run tr ctx msgs M Hc Hmsgs Hroot (concat rounds)) as (a & Hrun & Hs & Ha).
    { apply Forall_concat. eapply Forall_impl; [exact Hr|]. by intros ? [? _]. }
    pose proof (staged_terminates _ _ _ _ _ _ _ _ _ (bcast_staged tr Hwf msgs M Hmsgs) rounds _ a Hr Hlen Hrun
      (bcast_inv_init tr Hwf msgs M Hmsgs Hroot)) as Hfin. simpl in Hfin. split.
    + eapply tree_ctx_empty; [exact (sim_store _ _ _ _ _ Hs)|].
      intros x k y He. split; [|apply (bi_up _ _ _ Ha)]. destruct (bi_down _ _ _ Ha _ _ _ He) as [-> _].
      rewrite (Hfin y) by (by eapply child_par). unfold bcast_queue. by rewrite decide_False by lia.
    + intros i Hi. unfold s. rewrite (sim_prog _ _ _ _ _ Hs i Hi). pose proof (Hfin i Hi) as Hf.
      destruct (a_pc a i) as [|j m] eqn:E; simpl in Hf; [done|]. injection Hf as ->.
      exists m. simpl. rewrite Nat.sub_diag. split; [done|]. by eapply (bi_msg _ _ _ Ha).
Qed.

(** Three nodes in a binary tree, buffers of one word. *)
Definition bcast_bufs (i : nat) : smlt_msg := Msg 1 1 [if decide (i = 0%nat) then 7 else 0].

Lemma broadcast_delivers_witness :
  exists t, smlt_topology_create (fun _ => true) 3 None "bin" = Ret (err_value SMLT_SUCCESS, t) /\
  exists ctx w', create_three_nodes t = (Ret (err_value SMLT_SUCCESS, Some ctx), w') /\
    exists m, sy_threads (sys_run Z.of_nat (bcast_sys (bin_tree 3) ctx bcast_bufs)
                (concat (replicate 6 [2; 0; 1]%nat))) !! 2%nat =
              Some (PRet (err_value SMLT_SUCCESS, m)) /\ payload m = [7].
Proof.
  destruct three_nodes as (t & E & ctx & w' & Ec & Hc).
  exists t. split; [exact E|]. exists ctx, w'. split; [exact Ec|].
  destruct (broadcast_delivers (bin_tree 3) ctx bcast_bufs [7] Hc) as [_ Hf].
  - intros i _. split; [|done]. repeat split; vm_compute; congruence.
  - done.
  - destruct (Hf (replicate 6 [2; 0; 1]%nat)) as [_ Hdone]; [|vm_compute; lia|apply (Hdone 2%nat); simpl; lia].
    apply Forall_replicate. split; [repeat constructor; simpl; lia|].
    intros i Hi. simpl in Hi. destruct i as [|[|[|i]]]; [..|lia]; vm_compute; lia.
Defined.
