(* ===== verification/Collective.v ===== *)
(** Collectives over a tree as abstract threads: every node first receives once from each
    of its children, in the order in which they become ready, then sends to its parent,
    and - when the collective has a second phase - waits for its parent's answer and
    passes it on to its children.  [smlt_reduce], [smlt_reduce_all] and
    [smlt_barrier_wait] are programs of this form. *)
From S2P Require Import Prelude Pair Channel Topology Edge Context Process TreeNet.

(** [x] is the thread's data, [rv] the flags of the children it has received from. *)
Inductive coll_pc (X : Type) :=
| CTop (rv : list bool) (k : nat) (x : X)     (** at the head of the polling loop *)
| CPoll (rv : list bool) (k : nat) (x : X)    (** about to poll child [k] *)
| CRecv (rv : list bool) (k : nat) (x : X)    (** about to receive from child [k] *)
| CExit (x : X)                               (** has received from all children *)
| CUp (x : X)                                 (** about to send to the parent *)
| CWait (x : X)                               (** waiting for the parent *)
| CDown (j : nat) (x : X).                    (** about to send to child [j] *)
Arguments CTop {X}. Arguments CPoll {X}. Arguments CRecv {X}. Arguments CExit {X}.
Arguments CUp {X}. Arguments CWait {X}. Arguments CDown {X}.

Definition next_kid (n k : nat) : nat := if decide (S k = n) then 0%nat else S k.

Section collective.
Context (tr : tree) (Hwf : tree_wf tr) {X : Type}.
(** The words a thread sends, its data after receiving, and whether there is a second phase. *)
Context (val : X -> list Z) (rcv : X -> list Z -> X -> Prop) (start : nat -> X) (down : bool).
Abbreviation len := (t_len tr).
Abbreviation nkids i := (length (t_kids tr i)).
Implicit Types p : coll_pc X.

Definition coll_act (i : nat) p : action (coll_pc X) :=
  match p with
  | CTop rv k x =>
      if decide (0 < unserved rv)%nat then
        ATau (match rv !! k with Some false => CPoll rv k x | _ => CTop rv (next_kid (nkids i) k) x end)
      else ATau (CExit x)
  | CPoll rv k x =>
      APoll Src i k (fun b => if b then CRecv rv k x else CTop rv (next_kid (nkids i) k) x)
  | CRecv rv k x =>
      ARecv Src i k (fun v p' => exists x', rcv x v x' /\ p' = CTop (<[k := true]> rv) (next_kid (nkids i) k) x')
  | CExit x => ATau (match t_par tr i with Some _ => CUp x | None => CDown 0 x end)
  | CUp x =>
      match t_par tr i with
      | Some (y, k) => ASend Dst y k (val x) (if down then CWait x else CDown 0 x)
      | None => AStop
      end
  | CWait x =>
      match t_par tr i with
      | Some (y, k) => ARecv Dst y k (fun v p' => exists x', rcv x v x' /\ p' = CDown 0 x')
      | None => AStop
      end
  | CDown j x =>
      if decide (down = true /\ (j < nkids i)%nat) then ASend Src i j (val x) (CDown (S j) x) else AStop
  end.

Definition coll_start (i : nat) : coll_pc X := CTop (replicate (nkids i) false) 0 (start i).

Definition coll_data p : X :=
  match p with
  | CTop _ _ x | CPoll _ _ x | CRecv _ _ x | CExit x | CUp x | CWait x | CDown _ x => x
  end.

(** ** The invariant of a node *)

(** What the data must satisfy, and what is known of it after receiving from [m] children. *)
Context (dataok : X -> Prop) (D : nat -> nat -> X -> Prop).
Context (Hstart : forall i, (i < len)%nat -> dataok (start i) /\ D i 0 (start i)).
Context (Hrcv : forall x z x', dataok x -> dataok z -> rcv x (val z) x' -> dataok x' /\ val x' = val z).
Context (HD : forall i k y m x z x', child_at tr i k y -> dataok x -> dataok z -> rcv x (val z) x' ->
  D i m x -> D y (nkids y) z -> D i (S m) x').

Definition coll_shape (i : nat) p : Prop :=
  match p with
  | CTop rv k x => length rv = nkids i /\ (0 < nkids i -> k < nkids i)%nat
  | CPoll rv k x | CRecv rv k x => length rv = nkids i /\ rv !! k = Some false
  | CExit _ => True
  | CUp _ => i <> t_root tr
  | CWait _ => i <> t_root tr /\ down = true
  | CDown j _ => (j <= if down then nkids i else 0)%nat
  end.

Definition coll_okp (i : nat) p : Prop := coll_shape i p /\ dataok (coll_data p).

Definition coll_known (i : nat) p : Prop :=
  match p with
  | CTop rv _ x | CPoll rv _ x | CRecv rv _ x => D i (nkids i - unserved rv)%nat x
  | CExit x | CUp x | CWait x => D i (nkids i) x
  | CDown _ x => (down = true -> i = t_root tr) -> D i (nkids i) x
  end.

(** ** The invariant of an edge

    What the parent has done - received from the child, sent to it - and what the child
    has done - sent to the parent, received from it - determine the two queues. *)
Definition pc_received p (k : nat) : bool :=
  match p with CTop rv _ _ | CPoll rv _ _ | CRecv rv _ _ => bool_decide (rv !! k = Some true) | _ => true end.
Definition pc_sent p (k : nat) : bool :=
  match p with CDown j _ => down && bool_decide (k < j)%nat | _ => false end.
Definition pc_upped p : bool := match p with CWait _ | CDown _ _ => true | _ => false end.
Definition pc_got p : bool := match p with CDown _ _ => down | _ => false end.

Record edge_ok (r s : bool) (v : list Z) (u g : bool) (w : list Z) (qd qu : list (list Z)) : Prop := {
  eo_up : qu = if u && negb r then [w] else [];
  eo_down : qd = if s && negb g then [v] else [];
  eo_ru : r = true -> u = true;
  eo_gs : g = true -> s = true;
  eo_same : g = true -> w = v;
}.
Definition edge_inv (k : nat) px py (qd qu : list (list Z)) : Prop :=
  edge_ok (pc_received px k) (pc_sent px k) (val (coll_data px))
    (pc_upped py) (pc_got py) (val (coll_data py)) qd qu.

Record coll_inv (a : amach (coll_pc X)) : Prop := {
  ci_node i : (i < len)%nat -> coll_okp i (a_pc a i) /\ coll_known i (a_pc a i);
  ci_edge x k y : child_at tr x k y ->
    edge_inv k (a_pc a x) (a_pc a y) (a_q a Src x k) (a_q a Dst x k);
}.

Lemma coll_inv_init : coll_inv (AM coll_start no_msgs).
Proof using Hwf Hstart.
  split; simpl.
  - intros i Hi. destruct (Hstart i Hi) as [H1 H2]. split; [split; [|done]|]; simpl.
    + rewrite length_replicate. split; [done|lia].
    + by rewrite unserved_none, Nat.sub_diag.
  - intros x k y He. pose proof (child_lt _ _ _ _ He). split; simpl; try done; rewrite ?lookup_replicate_2; try done.
Qed.

(** A step touches the node and the edges at it. *)
Lemma coll_local i a p q :
  (i < len)%nat -> coll_inv a -> coll_okp i p -> coll_known i p ->
  (forall k y, child_at tr i k y -> edge_inv k p (a_pc a y) (q Src i k) (q Dst i k)) ->
  (forall x k, child_at tr x k i -> edge_inv k (a_pc a x) p (q Src x k) (q Dst x k)) ->
  (forall x k y d, child_at tr x k y -> x <> i -> y <> i -> q d x k = a_q a d x k) ->
  coll_inv (AM (pc_set i p (a_pc a)) q).
Proof using Hwf.
  intros Hi [Hn He] Hok Hkn H1 H2 H3. split; simpl.
  - intros j Hj. destruct (decide (j = i)) as [->|Hne]; [by rewrite pc_set_same|].
    rewrite pc_set_other by done. by apply Hn.
  - intros x k y Hxy. pose proof (child_ne _ Hwf _ _ _ Hxy).
    destruct (decide (x = i)) as [->|Hx].
    + rewrite pc_set_same, pc_set_other by done. by apply H1.
    + rewrite (pc_set_other i p _ x) by done. destruct (decide (y = i)) as [->|Hy].
      * rewrite pc_set_same. by apply H2.
      * rewrite pc_set_other, !(H3 x k y) by done. by apply He.
Qed.

(** A silent step: seen from the edges, nothing changes. *)
Lemma coll_quiet i a p :
  (i < len)%nat -> coll_inv a -> coll_okp i p -> coll_known i p ->
  (forall k, (k < nkids i)%nat -> pc_received p k = pc_received (a_pc a i) k /\ pc_sent p k = pc_sent (a_pc a i) k) ->
  val (coll_data p) = val (coll_data (a_pc a i)) ->
  (i <> t_root tr -> pc_upped p = pc_upped (a_pc a i) /\ pc_got p = pc_got (a_pc a i)) ->
  coll_inv (AM (pc_set i p (a_pc a)) (a_q a)).
Proof using Hwf.
  intros Hi Ha Hok Hkn Hp Hv Hc. apply coll_local; try done.
  - intros k y He. unfold edge_inv. destruct (Hp k) as [-> ->]; [by eapply child_lt|]. rewrite Hv.
    by apply (ci_edge _ Ha).
  - intros x k He. unfold edge_inv. destruct Hc as [-> ->]; [by eapply child_not_root|]. rewrite Hv.
    by apply (ci_edge _ Ha).
Qed.

Lemma next_kid_lt n k : (k < n)%nat -> (next_kid n k < n)%nat.
Proof using Type. intros. unfold next_kid. case_decide; lia. Qed.

(** While a node gathers, it has not sent to its children, and they have not gone on. *)
Lemma edge_inv_data k px px' py qd qu :
  (forall j, pc_received px' j = pc_received px j) -> (forall j, pc_sent px j = false /\ pc_sent px' j = false) ->
  edge_inv k px py qd qu -> edge_inv k px' py qd qu.
Proof using Type.
  intros Hr Hs [E1 E2 E3 E4 E5]. unfold edge_inv. destruct (Hs k) as [S1 S2].
  rewrite S1 in E2, E4. rewrite S2, Hr. split; try done. intros Hg. by apply E4 in Hg.
Qed.

Section step.
Context (i : nat) (a : amach (coll_pc X)) (Hi : (i < len)%nat) (Ha : coll_inv a).

(** What the invariant says of the node in its state [E]. *)
Ltac at_node E :=
  let Hok := fresh "Hok" in let Hd := fresh "Hd" in let Hkn := fresh "Hkn" in
  pose proof (ci_node _ Ha i Hi) as [[Hok Hd] Hkn]; rewrite E in Hok, Hd, Hkn; simpl in Hok, Hd, Hkn.

Lemma step_poll rv k x (b : bool) :
  a_pc a i = CPoll rv k x ->
  coll_inv (AM (pc_set i (if b then CRecv rv k x else CTop rv (next_kid (nkids i) k) x) (a_pc a)) (a_q a)).
Proof using Hwf Hi Ha.
  intros E. at_node E. destruct Hok as [Hl Hk].
  apply coll_quiet; try done; rewrite ?E; destruct b; try done; (split; [|done]); (split; [done|]); try done.
  intros _. apply next_kid_lt. rewrite <- Hl. by eapply lookup_lt_Some.
Qed.

Lemma step_top rv k x :
  a_pc a i = CTop rv k x ->
  coll_inv (AM (pc_set i (if decide (0 < unserved rv)%nat then
     match rv !! k with Some false => CPoll rv k x | _ => CTop rv (next_kid (nkids i) k) x end
     else CExit x) (a_pc a)) (a_q a)).
Proof using Hwf Hi Ha.
  intros E. at_node E. destruct Hok as [Hl Hk]. case_decide as D0.
  - pose proof (unserved_le rv). destruct (rv !! k) as [[|]|] eqn:Ek; apply coll_quiet; rewrite ?E; try done;
      (split; [|done]); (split; [done|]); try done; intros _; apply next_kid_lt; lia.
  - apply coll_quiet; rewrite ?E; try done.
    + simpl. by replace (nkids i - unserved rv)%nat with (nkids i) in Hkn by lia.
    + intros j Hj. simpl. split; [|done]. symmetry. apply bool_decide_true.
      destruct (lookup_lt_is_Some_2 rv j) as [b Hb]; [by rewrite Hl|].
      rewrite Hb. f_equal. eapply unserved_zero; [|exact Hb]. lia.
Qed.

Lemma step_recv rv k x v q x' :
  a_pc a i = CRecv rv k x -> a_q a Dst i k = v :: q -> rcv x v x' ->
  coll_inv (AM (pc_set i (CTop (<[k := true]> rv) (next_kid (nkids i) k) x') (a_pc a)) (q_set Dst i k q (a_q a))).
Proof using Hwf Hi Ha Hrcv HD.
  intros E Hq Hr. at_node E. destruct Hok as [Hl Hk].
  assert (Hkn' : (k < nkids i)%nat) by (rewrite <- Hl; by eapply lookup_lt_Some).
  destruct (nth_child tr i k Hi Hkn') as [y Hy]. pose proof (child_par _ Hwf _ _ _ Hy) as [Hyl _].
  pose proof (ci_edge _ Ha _ _ _ Hy) as He. unfold edge_inv in He. rewrite E in He. simpl in He.
  rewrite Hk, Hq in He. destruct He as [E1 E2 E3 E4 E5]. rewrite bool_decide_false in E1 by done.
  destruct (pc_upped (a_pc a y)) eqn:Eu; [|done]. injection E1 as -> ->.
  assert (Hg : pc_got (a_pc a y) = false) by (destruct (pc_got (a_pc a y)); [by specialize (E4 eq_refl)|done]).
  destruct (ci_node _ Ha y Hyl) as [[_ Hdy] Hky].
  assert (HDy : D y (nkids y) (coll_data (a_pc a y))).
  { destruct (a_pc a y); try done. simpl in Hg. apply Hky. by rewrite Hg. }
  destruct (Hrcv _ _ _ Hd Hdy Hr) as [Hdx' _].
  apply coll_local; try done.
  - split; [|done]. split; simpl; [by rewrite length_insert|]. intros _. by apply next_kid_lt.
  - simpl. rewrite (unserved_take rv k Hk) in Hkn. pose proof (unserved_le rv) as Hle.
    rewrite (unserved_take rv k Hk), Hl in Hle.
    replace (nkids i - unserved (<[k:=true]> rv))%nat with (S (nkids i - S (unserved (<[k:=true]> rv)))) by lia.
    exact (HD _ _ _ _ _ _ _ Hy Hd Hdy Hr Hkn HDy).
  - intros j z Hz. destruct (decide (j = k)) as [->|Hj].
    + assert (z = y) as -> by (destruct Hz, Hy; congruence).
      rewrite q_set_same, q_set_other by (intuition congruence). unfold edge_inv. simpl.
      rewrite list_lookup_insert_eq by lia. rewrite bool_decide_true by done. rewrite Eu, Hg. by split.
    + rewrite !q_set_other by (intuition congruence).
      pose proof (ci_edge _ Ha _ _ _ Hz) as He. rewrite E in He.
      unfold edge_inv in He |- *. simpl in *. rewrite list_lookup_insert_ne by done.
      destruct He as [F1 F2 F3 F4 F5]. split; try done. intros Hgz. by apply F4 in Hgz.
  - intros z j Hz. pose proof (child_ne _ Hwf _ _ _ Hz).
    rewrite !q_set_other by (intuition congruence). pose proof (ci_edge _ Ha _ _ _ Hz) as He.
    rewrite E in He. unfold edge_inv in *. simpl in *. destruct He as [F1 F2 F3 F4 F5]. by split.
  - intros z j w d Hz Hne1 Hne2. apply q_set_other. intuition congruence.
Qed.

Lemma step_exit x :
  a_pc a i = CExit x ->
  coll_inv (AM (pc_set i (match t_par tr i with Some _ => CUp x | None => CDown 0 x end) (a_pc a)) (a_q a)).
Proof using Hwf Hi Ha.
  intros E. at_node E. destruct (t_par tr i) as [[y k]|] eqn:Ep.
  - apply coll_quiet; rewrite ?E; try done. split; [|done]. simpl.
    eapply child_not_root; [exact Hwf|]. by apply par_child.
  - assert (Hr : i = t_root tr).
    { destruct (decide (i = t_root tr)) as [|Hn]; [done|].
      destruct (has_parent tr Hwf i Hi Hn) as (y & k & Hy). apply child_par in Hy as [_ Hp]; [|done]. congruence. }
    apply coll_quiet; rewrite ?E; try done.
    + split; [|done]. simpl. lia.
    + by simpl.
    + intros k Hk. split; [done|]. simpl. by rewrite andb_false_r.
Qed.

Lemma step_up x y k :
  a_pc a i = CUp x -> t_par tr i = Some (y, k) ->
  coll_inv (AM (pc_set i (if down then CWait x else CDown 0 x) (a_pc a))
               (q_set Dst y k (a_q a Dst y k ++ [val x]) (a_q a))).
Proof using Hwf Hi Ha.
  intros E Ep. at_node E. assert (Hy : child_at tr y k i) by (by apply par_child).
  pose proof (child_ne _ Hwf _ _ _ Hy) as Hne.
  pose proof (ci_edge _ Ha _ _ _ Hy) as He. rewrite E in He. unfold edge_inv in He. simpl in He.
  destruct He as [E1 E2 E3 E4 E5].
  assert (Hr : pc_received (a_pc a y) k = false) by (destruct (pc_received _ _); [by specialize (E3 eq_refl)|done]).
  assert (Hp : forall p', p' = (if down then CWait x else CDown 0 x) ->
    pc_upped p' = true /\ pc_got p' = false /\ val (coll_data p') = val x /\
    (forall j, pc_received p' j = true /\ pc_sent p' j = false)).
  { intros p' ->. destruct down eqn:Ed; simpl; rewrite ?Ed; split_and!; try done; intros j; by rewrite ?andb_false_r. }
  set (p' := if down then CWait x else CDown 0 x) in *. destruct (Hp p' eq_refl) as (P1 & P2 & P3 & P4).
  apply coll_local; try done.
  - unfold p'. destruct down eqn:Ed; (split; [|done]); simpl; [done|lia].
  - unfold p'. destruct down eqn:Ed; simpl; [done|]. by intros _.
  - intros j z Hz. rewrite !q_set_other by (intuition congruence).
    pose proof (ci_edge _ Ha _ _ _ Hz) as He. rewrite E in He. unfold edge_inv in *.
    destruct (P4 j) as [-> ->]. rewrite P3. apply He.
  - intros z j Hz. destruct (child_inj _ Hwf _ _ _ _ _ Hy Hz) as [-> ->].
    rewrite q_set_same, q_set_other by (intuition congruence). unfold edge_inv.
    rewrite P1, P2, P3, Hr, E1, E2. split; try done.
  - intros z j w d Hz Hne1 Hne2. apply q_set_other. intros (-> & -> & ->). destruct Hz, Hy. congruence.
Qed.

Lemma step_wait x y k v q x' :
  a_pc a i = CWait x -> t_par tr i = Some (y, k) -> a_q a Src y k = v :: q -> rcv x v x' ->
  coll_inv (AM (pc_set i (CDown 0 x') (a_pc a)) (q_set Src y k q (a_q a))).
Proof using Hwf Hi Ha Hrcv.
  intros E Ep Hq Hr. at_node E. destruct Hok as [Hnr Hdown].
  assert (Hy : child_at tr y k i) by (by apply par_child). pose proof (child_ne _ Hwf _ _ _ Hy) as Hne.
  pose proof (ci_edge _ Ha _ _ _ Hy) as He. rewrite E, Hq in He. unfold edge_inv in He. simpl in He.
  destruct He as [E1 E2 E3 E4 E5]. destruct (pc_sent (a_pc a y) k) eqn:Es; [|done]. injection E2 as -> ->.
  assert (Hrec : pc_received (a_pc a y) k = true) by (by destruct (a_pc a y)).
  destruct (ci_node _ Ha y (proj1 Hy)) as [[_ Hdy] _].
  destruct (Hrcv _ _ _ Hd Hdy Hr) as [Hdx' Hv].
  apply coll_local; try done.
  - split; [|done]. simpl. lia.
  - simpl. intros Hd0. by rewrite Hd0 in Hnr.
  - intros j z Hz. rewrite !q_set_other by (intuition congruence).
    pose proof (ci_edge _ Ha _ _ _ Hz) as He. rewrite E in He. unfold edge_inv in *. simpl in *.
    rewrite andb_false_r. destruct He as [F1 F2 F3 F4 F5]. split; try done. intros Hg. by apply F4 in Hg.
  - intros z j Hz. destruct (child_inj _ Hwf _ _ _ _ _ Hy Hz) as [-> ->].
    rewrite q_set_same, q_set_other by (intuition congruence). unfold edge_inv. simpl.
    rewrite Hdown, Es, Hrec, E1, Hrec. by split.
  - intros z j w d Hz Hne1 Hne2. apply q_set_other. intros (-> & -> & ->). destruct Hz, Hy. congruence.
Qed.

Lemma step_down j x :
  a_pc a i = CDown j x -> down = true -> (j < nkids i)%nat ->
  coll_inv (AM (pc_set i (CDown (S j) x) (a_pc a)) (q_set Src i j (a_q a Src i j ++ [val x]) (a_q a))) /\
  a_q a Src i j = [].
Proof using Hwf Hi Ha.
  intros E Hdown Hj. at_node E. destruct (nth_child tr i j Hi Hj) as [y Hy].
  pose proof (ci_edge _ Ha _ _ _ Hy) as He. rewrite E in He. unfold edge_inv in He. simpl in He.
  rewrite Hdown, bool_decide_false in He by lia. destruct He as [E1 E2 E3 E4 E5]. split; [|done].
  assert (Hg : pc_got (a_pc a y) = false) by (destruct (pc_got (a_pc a y)); [by specialize (E4 eq_refl)|done]).
  apply coll_local; try done.
  - split; [|done]. simpl. rewrite Hdown in Hok |- *. lia.
  - intros k z Hz. destruct (decide (k = j)) as [->|Hk].
    + assert (z = y) as -> by (destruct Hz, Hy; congruence).
      rewrite q_set_same, q_set_other by (intuition congruence). unfold edge_inv. simpl.
      rewrite Hdown, bool_decide_true, Hg, E2 by lia. by split.
    + rewrite !q_set_other by (intuition congruence). pose proof (ci_edge _ Ha _ _ _ Hz) as He.
      rewrite E in He. unfold edge_inv in *. simpl in *.
      rewrite (bool_decide_ext (k < S j)%nat (k < j)%nat) by lia. done.
  - intros z k Hz. pose proof (child_ne _ Hwf _ _ _ Hz). rewrite !q_set_other by (intuition congruence).
    pose proof (ci_edge _ Ha _ _ _ Hz) as He. by rewrite E in He.
  - intros z k w d Hz Hne1 Hne2. apply q_set_other. intuition congruence.
Qed.
End step.

(** ** Stages and progress *)
Definition coll_stage (i : nat) p : nat :=
  match p with
  | CTop rv _ _ | CPoll rv _ _ | CRecv rv _ _ => nkids i - unserved rv
  | CExit _ => nkids i + 1
  | CUp _ => nkids i + 2
  | CWait _ => nkids i + 3
  | CDown j _ => nkids i + 4 + j
  end.
Definition coll_top (i : nat) : nat := if down then nkids i + 4 + nkids i else nkids i + 4.
Abbreviation stage a i := (coll_stage i (a_pc a i)).

Lemma coll_inv_step i a a' :
  (i < len)%nat -> coll_inv a -> astep coll_act i a a' -> coll_inv a' /\ (stage a i <= stage a' i)%nat.
Proof using Hwf Hrcv HD.
  intros Hi Ha Hs. apply astep_inv in Hs. destruct (ci_node _ Ha i Hi) as [[Hok _] _].
  destruct (a_pc a i) as [rv k x|rv k x|rv k x|x|x|x|j x] eqn:E; simpl in Hs, Hok |- *.
  - assert (Hs' : a' = AM (pc_set i (if decide (0 < unserved rv)%nat then
       match rv !! k with Some false => CPoll rv k x | _ => CTop rv (next_kid (nkids i) k) x end
       else CExit x) (a_pc a)) (a_q a)) by (by case_decide).
    rewrite Hs'. simpl. rewrite pc_set_same. split; [by apply step_top|].
    case_decide; [destruct (rv !! k) as [[|]|]|]; simpl; lia.
  - subst a'. simpl. rewrite pc_set_same. split; [by apply step_poll|].
    destruct (negb _); simpl; lia.
  - destruct Hs as [(v & q & p & Hq & (x' & Hr & ->) & ->)|[-> Hq]]; [|rewrite E; by split].
    simpl. rewrite pc_set_same. split; [by eapply step_recv|]. destruct Hok as [_ Hk].
    rewrite (unserved_take rv k Hk). simpl. lia.
  - subst a'. simpl. rewrite pc_set_same. split; [by apply step_exit|].
    destruct (t_par tr i); simpl; lia.
  - destruct (t_par tr i) as [[y k]|] eqn:Ep; [|subst; rewrite E; by split].
    destruct Hs as [->|[-> _]]; [|rewrite E; by split]. simpl. rewrite pc_set_same.
    split; [by apply step_up|]. destruct down; simpl; lia.
  - destruct (t_par tr i) as [[y k]|] eqn:Ep; [|subst; rewrite E; by split].
    destruct Hs as [(v & q & p & Hq & (x' & Hr & ->) & ->)|[-> Hq]]; [|rewrite E; by split].
    simpl. rewrite pc_set_same. split; [by eapply step_wait|]. simpl. lia.
  - case_decide as Dj; [|subst; rewrite E; by split].
    destruct Hs as [->|[-> _]]; [|rewrite E; by split]. simpl. rewrite pc_set_same.
    destruct Dj. split; [by apply step_down|]. simpl. lia.
Qed.

Definition coll_enabled (s : nat -> nat) (i : nat) : Prop :=
  if decide (s i <= nkids i)%nat then Forall (fun y => nkids y + 3 <= s y)%nat (t_kids tr i)
  else if decide (s i < nkids i + 3)%nat then True
  else if decide (s i = nkids i + 3)%nat then
    match t_par tr i with Some (x, k) => (nkids x + 4 + k < s x)%nat | None => False end
  else (s i < coll_top i)%nat.

#[export] Instance coll_enabled_dec s i : Decision (coll_enabled s i).
Proof using Type.
  unfold coll_enabled. repeat case_decide; try apply _. destruct (t_par tr i) as [[]|]; apply _.
Defined.

(** How far the polling loop is from the first child it has not received from. *)
Definition poll_dist (n : nat) (rv : list bool) (k : nat) : nat :=
  let f := first_unserved rv in if decide (k <= f)%nat then f - k else n - k + f.
Definition coll_wait (i : nat) p : nat :=
  match p with
  | CTop rv k _ => if decide (0 < unserved rv)%nat then 3 + poll_dist (nkids i) rv k else 0
  | CPoll _ _ _ => 2
  | CRecv _ _ _ => 1
  | _ => 0
  end.

Lemma poll_dist_next rv k :
  (0 < unserved rv)%nat -> (k < length rv)%nat -> rv !! k = Some true ->
  (poll_dist (length rv) rv (next_kid (length rv) k) < poll_dist (length rv) rv k)%nat.
Proof using Type.
  intros Hu Hk Ek. pose proof (first_unserved_spec rv Hu) as Hf.
  pose proof (lookup_lt_Some _ _ _ Hf). unfold poll_dist, next_kid.
  assert (k <> first_unserved rv) by (intros ->; congruence).
  repeat case_decide; lia.
Qed.

Lemma enabled_kid s i k y :
  coll_enabled s i -> (s i <= nkids i)%nat -> child_at tr i k y -> (nkids y + 3 <= s y)%nat.
Proof using Type.
  unfold coll_enabled. intros He Hle [_ Hk]. rewrite decide_True in He by done.
  rewrite Forall_forall in He. apply He. by eapply list_elem_of_lookup_2.
Qed.

(** Once a child has sent, the queue from it is not empty until it is received from. *)
Lemma upped_queue a i k y :
  coll_inv a -> child_at tr i k y -> (nkids y + 3 <= stage a y)%nat -> pc_received (a_pc a i) k = false ->
  a_q a Dst i k <> [].
Proof using Type.
  intros Ha Hy Hst Hr. destruct (ci_edge _ Ha _ _ _ Hy) as [E1 _ _ _ _]. rewrite E1, Hr.
  destruct (a_pc a y); simpl in *; try done; lia.
Qed.

Lemma coll_advance i a a' :
  (i < len)%nat -> coll_inv a -> coll_enabled (fun j => stage a j) i -> astep coll_act i a a' ->
  (stage a i < stage a' i)%nat \/ (coll_wait i (a_pc a' i) < coll_wait i (a_pc a i))%nat.
Proof using Hwf Hrcv HD.
  intros Hi Ha He Hs. apply astep_inv in Hs. destruct (ci_node _ Ha i Hi) as [[Hok _] _].
  assert (Hkid : forall k y, child_at tr i k y -> (stage a i <= nkids i)%nat ->
    pc_received (a_pc a i) k = false -> a_q a Dst i k <> []).
  { intros k y Hy Hle Hr. eapply upped_queue; [done|exact Hy| |done].
    by eapply (enabled_kid (fun j => stage a j)). }
  assert (Hpar : i <> t_root tr -> exists y k, t_par tr i = Some (y, k) /\ child_at tr y k i).
  { intros Hne. destruct (has_parent tr Hwf i Hi Hne) as (y & k & Hy). exists y, k.
    split; [|done]. by apply (child_par tr Hwf) in Hy as [_ ?]. }
  destruct (a_pc a i) as [rv k x|rv k x|rv k x|x|x|x|j x] eqn:E; simpl in Hs, Hok, Hkid.
  - destruct Hok as [Hl Hk]. pose proof (unserved_le rv) as Hle. case_decide as Hu.
    + right. subst a'. simpl. rewrite pc_set_same, decide_True by done.
      destruct (lookup_lt_is_Some_2 rv k) as [b Hb]; [lia|]. rewrite Hb.
      destruct b; simpl; [|lia]. rewrite decide_True by done.
      rewrite <- Hl. pose proof (poll_dist_next rv k Hu ltac:(lia) Hb). lia.
    + left. subst a'. simpl. rewrite pc_set_same. simpl. lia.
  - right. destruct Hok as [Hl Hk]. pose proof (lookup_lt_Some _ _ _ Hk).
    destruct (nth_child tr i k Hi ltac:(lia)) as [y Hy].
    assert (Hq : a_q a Dst i k <> []) by (eapply Hkid; [exact Hy|lia|by rewrite Hk]).
    rewrite bool_decide_false in Hs by done. subst a'. simpl. rewrite pc_set_same. simpl. lia.
  - left. destruct Hok as [Hl Hk]. pose proof (lookup_lt_Some _ _ _ Hk).
    destruct (nth_child tr i k Hi ltac:(lia)) as [y Hy].
    assert (Hq : a_q a Dst i k <> []) by (eapply Hkid; [exact Hy|lia|by rewrite Hk]).
    destruct Hs as [(v & q & p & _ & (x' & _ & ->) & ->)|[_ Hq']]; [|done].
    simpl. rewrite pc_set_same. pose proof (unserved_le rv). rewrite (unserved_take rv k Hk) in *. simpl. lia.
  - left. subst a'. simpl. rewrite pc_set_same. destruct (t_par tr i); simpl; lia.
  - left. destruct (Hpar Hok) as (y & k & Ep & Hy). rewrite Ep in Hs.
    destruct Hs as [->|[-> Hq]].
    + simpl. rewrite pc_set_same. destruct down; simpl; lia.
    + destruct (ci_edge _ Ha _ _ _ Hy) as [E1 _ _ _ _]. by rewrite E in E1.
  - left. destruct (Hpar (proj1 Hok)) as (y & k & Ep & Hy). rewrite Ep in Hs.
    destruct Hs as [(v & q & p & _ & (x' & _ & ->) & ->)|[-> Hq]].
    + simpl. rewrite pc_set_same. simpl. lia.
    + exfalso. unfold coll_enabled in He. rewrite E in He. simpl in He, Hq.
      rewrite decide_False, decide_False, decide_True, Ep in He by lia.
      destruct (ci_edge _ Ha _ _ _ Hy) as [_ E2 _ _ _]. rewrite E, Hq in E2. simpl in E2.
      destruct (ci_node _ Ha y (proj1 Hy)) as [[Hoky _] _]. pose proof (unserved_le).
      destruct (a_pc a y) as [rv' k' x'|rv' k' x'|rv' k' x'|x'|x'|x'|j' x']; simpl in *; try lia.
      rewrite (proj2 Hok), bool_decide_true in E2 by lia. done.
  - unfold coll_enabled in He. rewrite E in He. simpl in He.
    rewrite !decide_False in He by lia. unfold coll_top in He.
    assert (Hj : down = true /\ (j < nkids i)%nat) by (destruct down; lia || (split; [done|lia])).
    rewrite decide_True in Hs by done. destruct Hs as [->|[-> Hq]].
    + left. simpl. rewrite pc_set_same. simpl. lia.
    + destruct Hj as [Hd Hj]. by destruct (step_down i a Hi Ha j x E Hd Hj) as [_ ?].
Qed.

(** While some node has not finished, some node can go on: a node all of whose children
    have sent, or - when all have sent - one whose parent has answered. *)
Lemma coll_ready a i :
  (i < len)%nat -> coll_inv a -> (stage a i < coll_top i)%nat ->
  exists j, (j < len)%nat /\ coll_enabled (fun j => stage a j) j.
Proof using Hwf.
  intros Hi Ha Hlt. set (ready := exists j, (j < len)%nat /\ coll_enabled (fun j => stage a j) j).
  assert (Hup : forall x, (x < len)%nat -> ready \/ (nkids x + 3 <= stage a x)%nat).
  { apply (tree_up tr Hwf (fun x => ready \/ (nkids x + 3 <= stage a x)%nat)). intros x Hx Hk.
    destruct (decide (nkids x + 3 <= stage a x)%nat) as [|Dx]; [by right|left].
    destruct (decide (Forall (fun y => nkids y + 3 <= stage a y)%nat (t_kids tr x))) as [HF|HF].
    - exists x. split; [done|]. unfold coll_enabled. case_decide; [done|by rewrite decide_True by lia].
    - apply not_Forall_Exists in HF; [|intros ?; apply _].
      apply Exists_exists in HF as (y & Hy & HF). apply list_elem_of_lookup in Hy as [k Hy].
      by destruct (Hk k y (conj Hx Hy)). }
  revert i Hi Hlt. apply (tree_down tr Hwf (fun i => (stage a i < coll_top i)%nat -> ready)).
  - intros Hlt. destruct (Hup _ (tw_root _ Hwf)) as [|Hr]; [done|]. exists (t_root tr).
    split; [apply (tw_root _ Hwf)|]. destruct (ci_node _ Ha _ (tw_root _ Hwf)) as [[Hok _] _].
    unfold coll_enabled. rewrite !decide_False; [done| |lia..].
    destruct (a_pc a (t_root tr)); simpl in *; try lia.
  - intros x k y Hy IH Hlt. destruct (decide (stage a x < coll_top x)%nat) as [Dl|Dl]; [by apply IH|].
    pose proof (child_par tr Hwf _ _ _ Hy) as [Hyl Hp]. pose proof (child_lt _ _ _ _ Hy).
    destruct (Hup y Hyl) as [|Hr]; [done|]. exists y. split; [done|].
    unfold coll_enabled. rewrite (decide_False (P := (stage a y <= _)%nat)) by lia.
    rewrite (decide_False (P := (stage a y < _)%nat)) by lia. case_decide as Dw; [|done].
    rewrite Hp. destruct (ci_node _ Ha y Hyl) as [[Hok _] _]. unfold coll_top in *.
    destruct (a_pc a y); simpl in *; try lia. destruct Hok as [_ Hd]. rewrite Hd in Dl. lia.
Qed.

Lemma coll_staged K :
  (forall i, (i < len)%nat -> (nkids i + 3 <= K)%nat) ->
  staged coll_act len K coll_inv coll_stage (fun _ s => s) coll_top coll_wait coll_enabled.
Proof using Hwf Hrcv HD.
  intros HK. split.
  - intros i a a' Hi Ha Hs. destruct (coll_inv_step i a a' Hi Ha Hs) as [Ha' Hle]. split; [exact Ha'|cbv beta; lia].
  - intros i a Hi Ha. destruct (ci_node _ Ha i Hi) as [[Hok _] _]. unfold coll_top.
    destruct (a_pc a i); simpl in *; destruct down; try lia.
  - intros s s' i Hs Hi. unfold coll_enabled. rewrite <- (Hs i Hi). repeat case_decide; try done.
    + rewrite !Forall_forall. intros HF y Hy. rewrite <- Hs; [by apply HF|].
      apply list_elem_of_lookup in Hy as [k Hk]. by eapply (child_par tr Hwf i k).
    + destruct (t_par tr i) as [[x k]|] eqn:Ep; [|done].
      by rewrite (Hs x) by (by eapply par_child).
  - apply coll_advance.
  - intros i a Hi Ha Hlt. apply (coll_ready a i Hi Ha Hlt).
  - intros i a Hi Ha. specialize (HK i Hi). destruct (ci_node _ Ha i Hi) as [[Hok _] _].
    destruct (a_pc a i) as [rv k x|rv k x|rv k x|x|x|x|j x]; simpl in *; try lia.
    case_decide as Hu; [|lia]. pose proof (first_unserved_spec rv Hu) as Hf.
    pose proof (lookup_lt_Some _ _ _ Hf). unfold poll_dist. case_decide; lia.
Qed.

(** ** What the invariant says of the whole tree *)

(** A node has left the loop only when its whole subtree has sent. *)
Lemma upped_children a x k y :
  coll_inv a -> child_at tr x k y -> pc_received (a_pc a x) k = true -> pc_upped (a_pc a y) = true.
Proof using Type. intros Ha Hy. apply (ci_edge _ Ha _ _ _ Hy). Qed.

(** When the answer has reached one node, it comes from the root, and every node has sent. *)
Lemma got_root a i :
  coll_inv a -> (i < len)%nat -> pc_got (a_pc a i) = true ->
  pc_got (a_pc a (t_root tr)) = true /\ val (coll_data (a_pc a i)) = val (coll_data (a_pc a (t_root tr))).
Proof using Hwf.
  intros Ha. revert i.
  apply (tree_down tr Hwf (fun i => pc_got (a_pc a i) = true ->
    pc_got (a_pc a (t_root tr)) = true /\ val (coll_data (a_pc a i)) = val (coll_data (a_pc a (t_root tr))))).
  - done.
  - intros x k y Hy IH Hg. destruct (ci_edge _ Ha _ _ _ Hy) as [_ _ _ E4 E5].
    rewrite (E5 Hg). apply IH. specialize (E4 Hg).
    destruct (a_pc a x); simpl in *; try done. by destruct down.
Qed.

Lemma got_all_upped a i :
  coll_inv a -> (i < len)%nat -> pc_got (a_pc a i) = true ->
  forall j, (j < len)%nat -> pc_upped (a_pc a j) = true.
Proof using Hwf.
  intros Ha Hi Hg. apply (tree_down tr Hwf (fun j => pc_upped (a_pc a j) = true)).
  - destruct (got_root a i Ha Hi Hg) as [Hr _]. by destruct (a_pc a (t_root tr)).
  - intros x k y Hy Hx. eapply upped_children; [done|exact Hy|]. by destruct (a_pc a x).
Qed.

(** When all threads have finished the queues are empty. *)
Lemma coll_drained a x k y :
  coll_inv a -> (forall i, (i < len)%nat -> stage a i = coll_top i) -> child_at tr x k y ->
  a_q a Src x k = [] /\ a_q a Dst x k = [].
Proof using Hwf.
  intros Ha Hf Hy. pose proof (child_par tr Hwf _ _ _ Hy) as [Hyl _].
  assert (Hd : forall i, (i < len)%nat -> exists j d, a_pc a i = CDown j d).
  { intros i Hi. specialize (Hf i Hi). destruct (ci_node _ Ha i Hi) as [[Hok _] _]. unfold coll_top in Hf.
    destruct (a_pc a i) as [| | | | | |j d]; [..|by exists j, d]; exfalso; simpl in *; destruct down; lia. }
  destruct (Hd x (proj1 Hy)) as (jx & dx & Ex), (Hd y Hyl) as (jy & dy & Ey).
  destruct (ci_edge _ Ha _ _ _ Hy) as [-> -> _ _ _]. rewrite Ex, Ey. simpl. split; [|done].
  by destruct down, (bool_decide _).
Qed.
End collective.

(** ** Systems of such threads *)
Section coll_system.
Context {C : Type} {HC : ChanOps C} {HT : TreeEdge C} {A X : Type}.
Context (tr : tree) (val : X -> list Z) (rcv : X -> list Z -> X -> Prop) (start : nat -> X) (down : bool).
Context (dataok : X -> Prop) (D : nat -> nat -> X -> Prop).
Context (Hstart : forall i, (i < t_len tr)%nat -> dataok (start i) /\ D i 0%nat (start i)).
Context (Hrcv : forall x z x', dataok x -> dataok z -> rcv x (val z) x' -> dataok x' /\ val x' = val z).
Context (HD : forall i k y m x z x', child_at tr i k y -> dataok x -> dataok z -> rcv x (val z) x' ->
  D i m x -> D y (length (t_kids tr y)) z -> D i (S m) x').
Context (prog_of : nat -> coll_pc X -> prog A).
Context (Himpl : forall i p, (i < t_len tr)%nat -> coll_okp tr down dataok i p ->
  implements (C := C) (tree_net tr) (coll_act tr val rcv down) prog_of (coll_okp tr down dataok) i p).
Context (ctx : smlt_context C) (Hc : tree_ctx tr no_msgs ctx).
Context (threads : nat -> prog A) (Hthreads : forall i, (i < t_len tr)%nat -> threads i = prog_of i (coll_start tr start i)).
Abbreviation sys0 := (Sys (tab (t_len tr) threads) ctx).

(** The system stays in step with the abstract machine, in its invariant. *)
Definition coll_sim (s : sys (smlt_context C) A) (a : amach (coll_pc X)) : Prop :=
  sim (tree_net tr) prog_of (coll_okp tr down dataok) a s /\ coll_inv tr val down dataok D a.

Lemma coll_run sched :
  Forall (fun i => (i < t_len tr)%nat) sched ->
  exists a, arun (coll_act tr val rcv down) sched (AM (coll_start tr start) no_msgs) a /\ coll_sim (sys_run Z.of_nat sys0 sched) a.
Proof using Type*.
  intros Hl. pose proof (cxr_wf _ _ _ Hc) as Hwf.
  destruct (sim_run (tree_net tr) _ prog_of (coll_okp tr down dataok) Himpl (AM (coll_start tr start) no_msgs) sys0 sched)
    as (a & Hr & Hs); [|done|].
  - split; simpl; [by rewrite length_tab| | |done].
    + intros i Hi. by rewrite lookup_tab, Hthreads by done.
    + intros i Hi. eapply (ci_node _ _ _ _ _ (AM (coll_start tr start) no_msgs)); [|done].
      eapply (coll_inv_init tr Hwf val start down dataok D Hstart).
  - exists a. split; [done|]. split; [done|].
    eapply (arun_invariant (coll_act tr val rcv down) (coll_inv tr val down dataok D)); [|exact Hl|exact Hr|].
    + intros i a1 a2 Hi Ha Hst. by eapply (coll_inv_step tr Hwf val rcv down dataok D Hrcv HD i a1).
    + eapply (coll_inv_init tr Hwf val start down dataok D Hstart).
Qed.

(** Fair rounds for all stages end all calls and leave the channels empty. *)
Lemma coll_ends rounds :
  Forall (fair_round (t_len tr) (t_len tr + 3)) rounds ->
  (sum_upto (t_len tr) (coll_top tr down) < length rounds)%nat ->
  exists a, coll_sim (sys_run Z.of_nat sys0 (concat rounds)) a /\
    (forall i, (i < t_len tr)%nat -> coll_stage tr i (a_pc a i) = coll_top tr down i) /\
    tree_ctx tr no_msgs (sy_store (sys_run Z.of_nat sys0 (concat rounds))).
Proof using Type*.
  intros Hr Hlen. pose proof (cxr_wf _ _ _ Hc) as Hwf. destruct (coll_run (concat rounds)) as (a & Hrun & Hs).
  { apply Forall_concat. eapply Forall_impl; [exact Hr|]. by intros ? [? _]. }
  exists a. split; [done|].
  assert (Hfin : forall i, (i < t_len tr)%nat -> coll_stage tr i (a_pc a i) = coll_top tr down i).
  { assert (HK : forall i, (i < t_len tr)%nat -> (length (t_kids tr i) + 3 <= t_len tr + 3)%nat).
    { intros i Hi. pose proof (kids_bound tr Hwf i Hi). lia. }
    eapply (staged_terminates _ _ _ _ _ _ _ _ _
      (coll_staged tr Hwf val rcv down dataok D Hrcv HD _ HK)); [exact Hr|exact Hlen|exact Hrun|].
    eapply (coll_inv_init tr Hwf val start down dataok D Hstart). }
  split; [done|]. destruct Hs as [Hs Ha]. eapply tree_ctx_empty; [exact (sim_store _ _ _ _ _ Hs)|].
  intros x k y Hy. by eapply (coll_drained tr Hwf val down dataok D a x k y).
Qed.
End coll_system.
