(* ===== verification/Reduction.v ===== *)
(** Reductions ([src/reduction.c]): the polling loop over the children, the message to
    the parent, and what the result of a reduction is. *)
From stdpp Require Import strings.
From S2P Require Import Prelude Errors Message Fifo Pair UmpQueue UmpQueuepair.
From S2P Require Import Queuepair Channel Topology Edge Context Process TreeNet.
From S2P Require Import Broadcast Collective.

(** ** The code *)

(** The variables of the polling loop: [recv[count]], [num_recv], [i], and what is
    received into. *)
Record gather_st (R : Type) := GS { g_recv : list bool; g_num : Z; g_i : Z; g_res : R }.
Arguments GS {R}. Arguments g_recv {R}. Arguments g_num {R}. Arguments g_i {R}. Arguments g_res {R}.

Section gather.
Context {R : Type}.
(** An iteration ends with the next state, or - after the loop, or at a [return err] in
    it - with the error to return, if any. *)
Abbreviation iter := (sprog (gather_st R + option Z * R)).
Context (rcv : chan_ref -> R -> (Z * R -> iter) -> iter).
Context (x count : Z).

(** [i++; if (i == count) i = 0;] *)
Definition gather_next (i : Z) : Z := if u32 (i + 1) =? count then 0 else u32 (i + 1).

Definition gather_take (g : gather_st R) : iter :=
  rcv (x, g_i g) (g_res g) (fun r =>
    if smlt_err_is_fail r.1 then SRet (inr (Some r.1, r.2)) else
    match arr_set (g_recv g) (g_i g) true with
    | Some recv' => SRet (inl (GS recv' (u32 (g_num g + 1)) (gather_next (g_i g)) r.2))
    | None => SUndef
    end).

Definition gather_body (g : gather_st R) : iter :=
  let skip := SRet (inl (GS (g_recv g) (g_num g) (gather_next (g_i g)) (g_res g))) in
  if g_num g <? count then
    match arr_get (g_recv g) (g_i g) with
    | Some true => skip
    | Some false => SEv (EvCanRecv (x, g_i g)) (fun b => if b : bool then gather_take g else skip)
    | None => SUndef
    end
  else SRet (inr (None, g_res g)).

Definition gather (r : R) : prog (option Z * R) :=
  PLoop gather_body (SRet (inl (GS (replicate (Z.to_nat count) false) 0 0 r))) PRet.
End gather.

(** How the two loops receive. *)
Definition take_notification {A} (c : chan_ref) (u : unit) (k : Z * unit -> sprog A) : sprog A :=
  SEv (EvRecvNotification c) (fun e => k (e, u)).
Definition take_message {A} (c : chan_ref) (m : smlt_msg) (k : Z * smlt_msg -> sprog A) : sprog A :=
  SEv (EvRecv c m) k.

Section code.
Context {C : Type} (ctx : smlt_context C) (self : Z).

(** [if (parent) send; return SMLT_SUCCESS;] - the error of the send is dropped. *)
Definition to_parent (ev : chan_ref -> chan_ev Z) : prog Z :=
  of_ctx (smlt_context_node_get_parent_channel ctx self) (fun p =>
    if smlt_err_is_fail p.1 then mret p.1 else
    match p.2 with
    | Some parent => _ ← pev (ev parent); mret (err_value SMLT_SUCCESS)
    | None => mret (err_value SMLT_SUCCESS)
    end).

Definition smlt_reduce_notify : prog Z :=
  of_ctx (smlt_context_node_get_children_channels ctx self) (fun r =>
    if smlt_err_is_fail r.1 then mret r.1 else
    g ← gather take_notification r.2.1 r.2.2 tt;
    match g.1 with
    | Some err => mret err
    | None => to_parent EvNotify
    end).

(** The caller's operation writes its first argument. *)
Definition smlt_reduce_fn_t : Type := smlt_msg -> smlt_msg -> Z * smlt_msg.

(** The error and [result] after the call. *)
Definition smlt_reduce (input result : smlt_msg) (operation : option smlt_reduce_fn_t)
  : prog (Z * smlt_msg) :=
  match operation with
  | None => err ← smlt_reduce_notify; mret (err, result)
  | Some op =>
      let result := (op result input).2 in
      of_ctx (smlt_context_node_get_children_channels ctx self) (fun r =>
        if smlt_err_is_fail r.1 then mret (r.1, result) else
        g ← gather take_message r.2.1 r.2.2 result;
        match g.1 with
        | Some err => mret (err, g.2)
        | None => err ← to_parent (fun c => EvSend c g.2); mret (err, g.2)
        end)
  end.

(** [for (i = 0; i < count; i++) if (smlt_channel_can_recv(&children[i])) return true;] *)
Fixpoint any_can_recv (n : nat) (x i : Z) : prog bool :=
  match n with
  | O => mret false
  | S n' => b ← pev (EvCanRecv (x, i)); if b : bool then mret true else any_can_recv n' x (i + 1)
  end.

(** [return err] from a function of type [bool]. *)
Definition smlt_reduce_can_recv : prog bool :=
  of_ctx (smlt_context_node_get_children_channels ctx self) (fun r =>
    if smlt_err_is_fail r.1 then mret (negb (r.1 =? 0)) else
    any_can_recv (Z.to_nat r.2.2) r.2.1 0).

Definition smlt_reduce_all (input result : smlt_msg) (operation : option smlt_reduce_fn_t)
  : prog (Z * smlt_msg) :=
  r ← smlt_reduce input result operation;
  if smlt_err_is_fail r.1 then mret r else smlt_broadcast ctx self r.2.
End code.

(** ** The code as abstract threads *)
Section threads.
Context {C : Type} {HC : ChanOps C} {HT : TreeEdge C} {A X : Type}.
Context (tr : tree) (Hwf : tree_wf tr) (Hlen : Z.of_nat (t_len tr) < 2 ^ 32).
Context (val : X -> list Z) (rcv : X -> list Z -> X -> Prop) (down : bool) (dataok : X -> Prop).
Abbreviation len := (t_len tr).
Abbreviation nkids i := (length (t_kids tr i)).
Abbreviation okp := (coll_okp tr down dataok).
Abbreviation act := (coll_act tr val rcv down).
(** How the loop receives; the rest of the call after the loop, while waiting for the
    answer, and while sending it on. *)
Context (take : chan_ref -> X -> (Z * X -> sprog (gather_st X + option Z * X)) -> sprog (gather_st X + option Z * X)).
Context (after : nat -> option Z * X -> prog A) (wait : nat -> X -> prog A) (downward : nat -> nat -> X -> prog A).

Definition gather_at (rv : list bool) (k : nat) (x : X) : gather_st X :=
  GS rv (Z.of_nat (length rv - unserved rv)) (Z.of_nat k) x.
Abbreviation body i := (gather_body take (Z.of_nat i) (Z.of_nat (nkids i))).

Definition coll_prog (i : nat) (p : coll_pc X) : prog A :=
  match p with
  | CTop rv k x => PLoop (body i) (SRet (inl (gather_at rv k x))) (after i)
  | CPoll rv k x => PLoop (body i) (body i (gather_at rv k x)) (after i)
  | CRecv rv k x =>
      PLoop (body i) (gather_take take (Z.of_nat i) (Z.of_nat (nkids i)) (gather_at rv k x)) (after i)
  | CExit x => PLoop (body i) (SRet (inr (None, x))) (after i)
  | CUp x => after i (None, x)
  | CWait x => wait i x
  | CDown j x => downward i j x
  end.
Abbreviation impl := (implements (C := C) (tree_net tr) act coll_prog okp).

Lemma gather_next_kid i k :
  (i < len)%nat -> (k < nkids i)%nat ->
  gather_next (Z.of_nat (nkids i)) (Z.of_nat k) = Z.of_nat (next_kid (nkids i) k).
Proof using Hwf Hlen.
  intros Hi Hk. pose proof (kids_bound tr Hwf i Hi). unfold gather_next, next_kid.
  rewrite wrap_small by (pow_consts; lia).
  destruct (Z.eqb_spec (Z.of_nat k + 1) (Z.of_nat (nkids i))); case_decide; lia.
Qed.

(** The continuation of a receive that succeeded. *)
Lemma gather_taken i rv k x' :
  (i < len)%nat -> length rv = nkids i -> rv !! k = Some false ->
  (match arr_set rv (Z.of_nat k) true with
   | Some recv' => SRet (A := gather_st X + option Z * X)
       (inl (GS recv' (u32 (Z.of_nat (length rv - unserved rv) + 1)) (gather_next (Z.of_nat (nkids i)) (Z.of_nat k)) x'))
   | None => SUndef
   end) = SRet (inl (gather_at (<[k := true]> rv) (next_kid (nkids i) k) x')).
Proof using Hwf Hlen.
  intros Hi Hl Hk. pose proof (lookup_lt_Some _ _ _ Hk). pose proof (kids_bound tr Hwf i Hi).
  rewrite arr_set_nat by done. unfold gather_at. do 2 f_equal.
  pose proof (unserved_le rv). rewrite length_insert. rewrite (unserved_take rv k Hk) in *.
  rewrite wrap_small by (pow_consts; lia). rewrite gather_next_kid by lia. f_equal. lia.
Qed.

Context (Htake : forall i rv k x, (i < len)%nat -> okp i (CRecv rv k x) -> impl i (CRecv rv k x)).
Context (Hup : forall i x y k, (i < len)%nat -> dataok x -> t_par tr i = Some (y, k) ->
  exists e K, after i (None, x) = PEv e K /\ send_ev e (ref_of y k) (val x) /\
    K (err_value SMLT_SUCCESS) = coll_prog i (if down then CWait x else CDown 0 x)).
Context (Hroot : forall i x, (i < len)%nat -> dataok x -> t_par tr i = None -> after i (None, x) = downward i 0 x).
Context (Hwait : forall i x, (i < len)%nat -> okp i (CWait x) -> impl i (CWait x)).
Context (Hdown : forall i j x, (i < len)%nat -> okp i (CDown j x) -> impl i (CDown j x)).

Lemma body_run i rv k x :
  (i < len)%nat -> okp i (CTop rv k x) ->
  body i (gather_at rv k x) =
    if decide (0 < unserved rv)%nat then
      match rv !! k with
      | Some false => SEv (EvCanRecv (ref_of i k)) (fun b : bool =>
          if b then gather_take take (Z.of_nat i) (Z.of_nat (nkids i)) (gather_at rv k x)
          else SRet (inl (gather_at rv (next_kid (nkids i) k) x)))
      | _ => SRet (inl (gather_at rv (next_kid (nkids i) k) x))
      end
    else SRet (inr (None, x)).
Proof using Hwf Hlen.
  intros Hi [[Hl Hk] Hd]. pose proof (unserved_le rv). unfold gather_body. simpl.
  case_decide as Hu.
  - rewrite (proj2 (Z.ltb_lt _ _)) by lia. rewrite arr_get_nat.
    destruct (lookup_lt_is_Some_2 rv k) as [b Hb]; [lia|]. rewrite Hb.
    rewrite gather_next_kid by lia. by destruct b.
  - rewrite (proj2 (Z.ltb_ge _ _)) by lia. done.
Qed.

Lemma coll_implements i p : (i < len)%nat -> okp i p -> impl i p.
Proof using Type*.
  intros Hi Hok. destruct p as [rv k x|rv k x|rv k x|x|x|x|j x].
  - unfold implements. simpl. pose proof (body_run i rv k x Hi Hok) as Hb.
    assert (Hnx : okp i (CTop rv (next_kid (nkids i) k) x)).
    { destruct Hok as [[Hl Hk] Hd]. split; [split; [done|]|done]. intros H0. by apply next_kid_lt, Hk. }
    destruct (decide (0 < unserved rv)%nat) as [Hu|Hu].
    + destruct (rv !! k) as [[|]|] eqn:Ek; (split; [|intros ctx; simpl; by rewrite Hb]); try done.
      split; [split; [apply Hok|done]|apply Hok].
    + split; [by split; [|apply Hok]|]. intros ctx. simpl. by rewrite Hb.
  - destruct Hok as [[Hl Hk] Hd]. pose proof (lookup_lt_Some _ _ _ Hk) as Hkl.
    assert (Ht : okp i (CTop rv k x)) by (split; [split; [done|lia]|done]).
    unfold implements. simpl. split; [split; [done|split; [lia|done]]|].
    eexists. split.
    + eapply does_loop; [reflexivity|]. rewrite body_run, decide_True, Hk by (done || by eapply unserved_pos).
      reflexivity.
    + intros b. destruct b; split; try done. split; [split; [done|]|done]. intros H0. apply next_kid_lt. lia.
  - by apply Htake.
  - unfold implements. simpl. destruct (t_par tr i) as [[y k]|] eqn:Ep.
    + split; [|done]. split; [|apply Hok]. simpl. eapply child_not_root; [exact Hwf|]. by apply par_child.
    + split; [split; [simpl; destruct down; lia|apply Hok]|]. intros ctx. simpl. rewrite Hroot; [done..|apply Hok|done].
  - destruct Hok as [Hne Hd]. simpl in Hne, Hd.
    destruct (has_parent tr Hwf i Hi Hne) as (y & k & Hy). pose proof (child_par tr Hwf _ _ _ Hy) as [_ Hp].
    unfold implements. simpl. rewrite Hp.
    destruct (Hup i x y k Hi Hd Hp) as (e & K & Ea & Hs & HK).
    split; [by split; [apply Hy|split; [by eapply child_lt|apply Hy]]|]. split.
    + destruct down eqn:Ed; (split; [|done]); [by split|simpl; lia].
    + exists e, K. split; [done|]. split; [|done]. by apply does_eq.
  - by apply Hwait.
  - by apply Hdown.
Qed.

Lemma coll_prog_running i p :
  (i < len)%nat -> okp i p -> (forall x, okp i (CWait x) -> running (wait i x)) ->
  running (coll_prog i p) \/ exists j x, p = CDown j x.
Proof using Hwf Hup.
  intros Hi Hok Hw. destruct p as [rv k x|rv k x|rv k x|x|x|x|j x]; try (by left).
  - left. destruct Hok as [Hne Hd]. destruct (has_parent tr Hwf i Hi Hne) as (y & k & Hy).
    pose proof (child_par tr Hwf _ _ _ Hy) as [_ Hp].
    destruct (Hup i x y k Hi Hd Hp) as (e & K & Ea & _ & _). simpl. by rewrite Ea.
  - left. by apply Hw.
  - right. by exists j, x.
Qed.
End threads.

(** ** Lemmas on the code *)
Section code_lemmas.
Context {C : Type} (tr : tree) (E : nat -> nat -> option C -> Prop) (ctx : smlt_context C)
  (Hctx : ctx_repr tr E ctx) (i : nat) (Hi : (i < t_len tr)%nat).

Lemma to_parent_run ev :
  to_parent ctx (Z.of_nat i) ev =
    match t_par tr i with
    | Some (y, k) => PEv (ev (ref_of y k)) (fun _ => PRet (err_value SMLT_SUCCESS))
    | None => PRet (err_value SMLT_SUCCESS)
    end.
Proof using Type*.
  unfold to_parent. rewrite (get_parent_run _ _ _ Hctx) by done. simpl. unfold par_ref.
  by destruct (t_par tr i) as [[y k]|].
Qed.
End code_lemmas.

(** A reduction in which every node returns its own result. *)
Definition msg_ok (w : nat) (m : smlt_msg) : Prop := sendable m /\ words m = Z.of_nat w.

Lemma msg_ok_payload w m : msg_ok w m -> length (payload m) = w.
Proof.
  intros [[Hwf _] Hw]. unfold payload, msg_wf in *. rewrite length_take, Hw, Nat2Z.id. lia.
Qed.

Lemma received_ok w x z x' :
  msg_ok w x -> msg_ok w z -> received (payload z) x x' -> msg_ok w x' /\ payload x' = payload z.
Proof.
  intros Hx Hz Hr. pose proof (msg_ok_payload w z Hz) as Hl. destruct Hx as [Hs Hw].
  destruct (received_payload (payload z) x x') as [E1 E2]; [by rewrite Hl|done|].
  split; [split; [by eapply received_sendable|by rewrite E1, Hl]|done].
Qed.

Definition recv_msg (x : smlt_msg) (v : list Z) (x' : smlt_msg) : Prop := received v x x'.

(** [below tr i j]: [j] is in the subtree of [i]. *)
Inductive below (tr : tree) (i : nat) : nat -> Prop :=
| below_self : below tr i i
| below_child k y j : child_at tr i k y -> below tr y j -> below tr i j.

(** [x] is the contribution of a leaf in the subtree of [i]. *)
Definition from_leaf (tr : tree) (start : nat -> smlt_msg) (i : nat) (x : smlt_msg) : Prop :=
  exists j, below tr i j /\ t_kids tr j = [] /\ payload x = payload (start j).
Definition reduce_known (tr : tree) (start : nat -> smlt_msg) (i m : nat) (x : smlt_msg) : Prop :=
  if decide (m = 0%nat) then x = start i else from_leaf tr start i x.

Lemma reduce_known_all tr start i x :
  reduce_known tr start i (length (t_kids tr i)) x -> from_leaf tr start i x.
Proof.
  unfold reduce_known. case_decide as Hk; [|done]. intros ->. exists i.
  split; [constructor|]. split; [|done]. by destruct (t_kids tr i).
Qed.

Lemma reduce_known_step w tr start i k y m x z x' :
  child_at tr i k y -> msg_ok w x -> msg_ok w z -> received (payload z) x x' ->
  reduce_known tr start i m x -> reduce_known tr start y (length (t_kids tr y)) z ->
  reduce_known tr start i (S m) x'.
Proof.
  intros Hy Hx Hz Hr _ Hk. apply reduce_known_all in Hk as (j & Hb & Hl & Hp).
  unfold reduce_known. rewrite decide_False by done. exists j. split; [by eapply below_child|].
  split; [done|]. destruct (received_ok w x z x' Hx Hz Hr) as [_ ->]. done.
Qed.

Section reduce.
Context {C : Type} {HC : ChanOps C} {HT : TreeEdge C}.
Context (tr : tree) (ctx : smlt_context C) (input result : nat -> smlt_msg) (op : smlt_reduce_fn_t) (w : nat).

(** What a node contributes: the operation applied to its own input. *)
Definition contribution (i : nat) : smlt_msg := (op (result i) (input i)).2.
Definition reduce_sys : sys (smlt_context C) (Z * smlt_msg) :=
  Sys (tab (t_len tr) (fun i => smlt_reduce ctx (Z.of_nat i) (input i) (result i) (Some op))) ctx.

Definition reduce_after (i : nat) (g : option Z * smlt_msg) : prog (Z * smlt_msg) :=
  match g.1 with
  | Some err => mret (err, g.2)
  | None => err ← to_parent ctx (Z.of_nat i) (fun c => EvSend c g.2); mret (err, g.2)
  end.
Abbreviation rprog := (coll_prog tr take_message reduce_after (fun _ _ => PUndef)
  (fun _ _ x => PRet (err_value SMLT_SUCCESS, x))).
Abbreviation rokp := (coll_okp tr false (msg_ok w)).

Context (Hc : tree_ctx tr no_msgs ctx) (Hlen : Z.of_nat (t_len tr) < 2 ^ 32).
Context (Hop : forall i, (i < t_len tr)%nat -> msg_ok w (contribution i)).

Lemma take_message_implements {A} down (after : nat -> option Z * smlt_msg -> prog A) wait downward i rv k x :
  (i < t_len tr)%nat -> coll_okp tr down (msg_ok w) i (CRecv rv k x) ->
  implements (C := C) (tree_net tr) (coll_act tr payload recv_msg down)
    (coll_prog tr take_message after wait downward) (coll_okp tr down (msg_ok w)) i (CRecv rv k x).
Proof using Hc Hlen.
  intros Hi [[Hl Hk] Hd]. pose proof (cxr_wf _ _ _ Hc) as Hwf. pose proof (lookup_lt_Some _ _ _ Hk).
  unfold implements. simpl. split; [split; [done|split; [lia|done]]|]. left.
  eexists (EvRecv (ref_of i k) x), _, x. split; [split; [apply Hd|by left]|]. split.
  { eapply does_loop; reflexivity. }
  intros v msg' Hr. eexists. split; [by exists msg'|]. split.
  - split; [|split; [eapply received_sendable; [apply Hd|done]|]].
    + simpl. rewrite length_insert. split; [done|]. intros _. apply next_kid_lt. lia.
    + simpl. destruct Hr as (-> & _). apply Hd.
  - simpl. by rewrite (gather_taken tr Hwf Hlen) by done.
Qed.

Lemma reduce_up i x y k :
  (i < t_len tr)%nat -> msg_ok w x -> t_par tr i = Some (y, k) ->
  exists e K, reduce_after i (None, x) = PEv e K /\ send_ev e (ref_of y k) (payload x) /\
    K (err_value SMLT_SUCCESS) = rprog i (CDown 0 x).
Proof using Hc.
  intros Hi Hx Hp. unfold reduce_after. rewrite (to_parent_run _ _ _ Hc) by done. rewrite Hp.
  eexists (EvSend (ref_of y k) x), _. split; [reflexivity|]. split; [|done].
  left. exists x. split; [done|]. by split; [apply Hx|].
Qed.

Lemma reduce_implements i p :
  (i < t_len tr)%nat -> rokp i p -> implements (C := C) (tree_net tr) (coll_act tr payload recv_msg false) rprog rokp i p.
Proof using Hc Hlen.
  intros Hi Hok. pose proof (cxr_wf _ _ _ Hc) as Hwf.
  apply (coll_implements tr Hwf Hlen payload recv_msg false (msg_ok w)); try done.
  - intros. by apply take_message_implements.
  - apply reduce_up.
  - intros j x Hj Hx Hp. unfold reduce_after. rewrite (to_parent_run _ _ _ Hc) by done. by rewrite Hp.
  - intros j x Hj [[_ Hd] _]. done.
Qed.

Lemma reduce_start i :
  (i < t_len tr)%nat ->
  smlt_reduce ctx (Z.of_nat i) (input i) (result i) (Some op) = rprog i (coll_start tr contribution i).
Proof using Hc.
  intros Hi. unfold smlt_reduce. rewrite (get_children_run _ _ _ Hc) by done. simpl.
  unfold gather, coll_start, gather_at, contribution. simpl.
  by rewrite Nat2Z.id, length_replicate, unserved_none, Nat.sub_diag.
Qed.
End reduce.

(** *** [smlt_reduce_all] *)
Section reduce_all.
Context {C : Type} {HC : ChanOps C} {HT : TreeEdge C}.
Context (tr : tree) (ctx : smlt_context C) (input result : nat -> smlt_msg) (op : smlt_reduce_fn_t) (w : nat).

Definition reduce_all_sys : sys (smlt_context C) (Z * smlt_msg) :=
  Sys (tab (t_len tr) (fun i => smlt_reduce_all ctx (Z.of_nat i) (input i) (result i) (Some op))) ctx.

Definition reduce_all_after (i : nat) (g : option Z * smlt_msg) : prog (Z * smlt_msg) :=
  r ← reduce_after ctx i g;
  if smlt_err_is_fail r.1 then mret r else smlt_broadcast ctx (Z.of_nat i) r.2.
Definition down_with (i j : nat) (x : smlt_msg) : prog (Z * smlt_msg) :=
  bcast_prog tr (fun _ => x) ctx i (BSend j x).
Abbreviation wait_for i x := (smlt_broadcast ctx (Z.of_nat i) x).
Abbreviation aprog := (coll_prog tr take_message reduce_all_after (fun i x => wait_for i x) down_with).
Abbreviation aokp := (coll_okp tr true (msg_ok w)).

Context (Hc : tree_ctx tr no_msgs ctx) (Hlen : Z.of_nat (t_len tr) < 2 ^ 32).

Lemma reduce_all_after_run i x :
  (i < t_len tr)%nat ->
  reduce_all_after i (None, x) =
    match t_par tr i with
    | Some (y, k) => PEv (EvSend (ref_of y k) x) (fun _ => wait_for i x)
    | None => wait_for i x
    end.
Proof using Hc.
  intros Hi. unfold reduce_all_after, reduce_after. rewrite (to_parent_run _ _ _ Hc) by done.
  by destruct (t_par tr i) as [[y k]|].
Qed.

Lemma reduce_all_up i x y k :
  (i < t_len tr)%nat -> msg_ok w x -> t_par tr i = Some (y, k) ->
  exists e K, reduce_all_after i (None, x) = PEv e K /\ send_ev e (ref_of y k) (payload x) /\
    K (err_value SMLT_SUCCESS) = aprog i (CWait x).
Proof using Hc.
  intros Hi Hx Hp. rewrite reduce_all_after_run, Hp by done.
  eexists (EvSend (ref_of y k) x), _. split; [reflexivity|]. split; [|done].
  left. exists x. split; [done|]. by split; [apply Hx|].
Qed.

Lemma down_with_implements i j x :
  (i < t_len tr)%nat -> aokp i (CDown j x) ->
  implements (C := C) (tree_net tr) (coll_act tr payload recv_msg true) aprog aokp i (CDown j x).
Proof using Hc.
  intros Hi [Hj Hd]. unfold implements. simpl in Hj |- *. case_decide as D; simpl.
  - destruct D as [_ Hlt]. split; [split; [done|split; [done|done]]|]. split; [split; [simpl; lia|done]|].
    eexists (EvSend (ref_of i j) x), _. split; [left; exists x; split; [done|split; [apply Hd|done]]|]. split.
    { apply does_eq. simpl. unfold down_with. simpl. rewrite subtree_loop_step by done. reflexivity. }
    done.
  - intros ctx'. unfold down_with. simpl. by replace (length (t_kids tr i) - j)%nat with 0%nat by lia.
Qed.

Lemma wait_for_implements i x :
  (i < t_len tr)%nat -> aokp i (CWait x) ->
  implements (C := C) (tree_net tr) (coll_act tr payload recv_msg true) aprog aokp i (CWait x).
Proof using Hc.
  intros Hi [[Hne _] Hd]. simpl in Hne, Hd. pose proof (cxr_wf _ _ _ Hc) as Hwf.
  destruct (has_parent tr Hwf i Hi Hne) as (y & k & Hy). pose proof (child_par tr Hwf _ _ _ Hy) as [_ Hp].
  unfold implements. simpl. rewrite Hp. split; [split; [apply Hy|split; [by eapply child_lt|apply Hy]]|]. left.
  exists (EvRecvIndex (ref_of y k) x 0), (bcast_forward ctx i), x.
  split; [split; [apply Hd|right; by eexists]|]. split.
  { apply does_eq. by apply (bcast_wait_prog tr (fun _ => x) ctx _ Hc). }
  intros v msg' Hr. exists (CDown 0 msg'). split; [by exists msg'|]. split.
  - split; [simpl; lia|]. split; [eapply received_sendable; [apply Hd|done]|].
    simpl. destruct Hr as (-> & _). apply Hd.
  - by apply (bcast_forward_start tr (fun _ => x) ctx _ Hc).
Qed.

Lemma reduce_all_implements i p :
  (i < t_len tr)%nat -> aokp i p -> implements (C := C) (tree_net tr) (coll_act tr payload recv_msg true) aprog aokp i p.
Proof using Hc Hlen.
  intros Hi Hok. pose proof (cxr_wf _ _ _ Hc) as Hwf.
  apply (coll_implements tr Hwf Hlen payload recv_msg true (msg_ok w)); try done.
  - intros. by apply (take_message_implements tr ctx w Hc Hlen).
  - apply reduce_all_up.
  - intros j x Hj Hx Hp. rewrite reduce_all_after_run, Hp by done.
    rewrite (bcast_prog_start tr (fun _ => x) ctx _ Hc) by done. unfold bcast_start.
    rewrite decide_True; [done|]. destruct (decide (j = t_root tr)) as [|Hne]; [done|].
    destruct (has_parent tr Hwf j Hj Hne) as (y & k & Hy). apply (child_par tr Hwf) in Hy as [_ Hy]. congruence.
  - apply wait_for_implements.
  - apply down_with_implements.
Qed.

Lemma reduce_all_start i :
  (i < t_len tr)%nat ->
  smlt_reduce_all ctx (Z.of_nat i) (input i) (result i) (Some op) =
    aprog i (coll_start tr (contribution input result op) i).
Proof using Hc.
  intros Hi. unfold smlt_reduce_all, smlt_reduce. rewrite (get_children_run _ _ _ Hc) by done. simpl.
  unfold gather, coll_start, gather_at, contribution. simpl.
  by rewrite Nat2Z.id, length_replicate, unserved_none, Nat.sub_diag.
Qed.

(** A waiting or sending program is under way; a call that has ended returns its data. *)
Lemma down_with_ended i j x :
  (i < t_len tr)%nat -> (j <= length (t_kids tr i))%nat ->
  running (down_with i j x) \/
  (j = length (t_kids tr i) /\ down_with i j x = PRet (err_value SMLT_SUCCESS, x)).
Proof using Type.
  intros Hi Hj. unfold down_with. simpl. destruct (decide (j < length (t_kids tr i))%nat) as [D|D].
  - left. by rewrite subtree_loop_step.
  - right. split; [lia|]. by replace (length (t_kids tr i) - j)%nat with 0%nat by lia.
Qed.

Lemma wait_for_running i x :
  (i < t_len tr)%nat -> aokp i (CWait x) -> running (wait_for i x).
Proof using Hc.
  intros Hi [[Hne _] _]. simpl in Hne. pose proof (cxr_wf _ _ _ Hc) as Hwf.
  destruct (has_parent tr Hwf i Hi Hne) as (y & k & Hy). pose proof (child_par tr Hwf _ _ _ Hy) as [_ Hp].
  by rewrite (bcast_wait_prog tr (fun _ => x) ctx _ Hc i y k).
Qed.
End reduce_all.

(** [C37] A reduction keeps one contribution: let every node call [smlt_reduce] over a tree
    of empty channels.  No call panics or runs into undefined behaviour, and once every
    node has run in enough rounds all calls have returned success with the channels
    empty again.  But the result a node ends with - the root's included - is always the
    contribution of a single leaf of its subtree: the operation is applied to the node's
    own input only, and every message received from a child overwrites the result. *)
Theorem reduce_result {C} {HC : ChanOps C} {HT : TreeEdge C} tr (ctx : smlt_context C) input result op w :
  tree_ctx tr no_msgs ctx -> Z.of_nat (t_len tr) < 2 ^ 32 ->
  (forall i, (i < t_len tr)%nat -> msg_ok w (contribution input result op i)) ->
  (forall sched i p, Forall (fun i => (i < t_len tr)%nat) sched ->
     sy_threads (sys_run Z.of_nat (reduce_sys tr ctx input result op) sched) !! i = Some p ->
     running p \/
     exists m, p = PRet (err_value SMLT_SUCCESS, m) /\ from_leaf tr (contribution input result op) i m) /\
  (forall rounds, Forall (fair_round (t_len tr) (t_len tr + 3)) rounds ->
     (sum_upto (t_len tr) (fun i => length (t_kids tr i) + 4)%nat < length rounds)%nat ->
     let s := sys_run Z.of_nat (reduce_sys tr ctx input result op) (concat rounds) in
     tree_ctx tr no_msgs (sy_store s) /\
     forall i, (i < t_len tr)%nat -> exists m,
       sy_threads s !! i = Some (PRet (err_value SMLT_SUCCESS, m)) /\
       from_leaf tr (contribution input result op) i m).
Proof.
  intros Hc Hlen Hop. set (st := contribution input result op) in *.
  assert (Hstart : forall i, (i < t_len tr)%nat -> msg_ok w (st i) /\ reduce_known tr st i 0 (st i)).
  { intros i Hi. split; [by apply Hop|done]. }
  pose proof (reduce_implements tr ctx w Hc Hlen) as Himpl.
  pose proof (fun sched => coll_run tr payload recv_msg st false (msg_ok w) (reduce_known tr st) Hstart
    (received_ok w) (reduce_known_step w tr st) _ Himpl ctx Hc _ (reduce_start tr ctx input result op Hc) sched) as Hrun.
  pose proof (coll_ends tr payload recv_msg st false (msg_ok w) (reduce_known tr st) Hstart
    (received_ok w) (reduce_known_step w tr st) _ Himpl ctx Hc _ (reduce_start tr ctx input result op Hc)) as Hend.
  split.
  - intros sched i p Hl Hp. destruct (Hrun sched Hl) as (a & _ & Hs & Ha).
    assert (Hi : (i < t_len tr)%nat) by exact (sim_lt _ _ _ _ _ _ _ Hs Hp).
    unfold reduce_sys in Hp. rewrite (sim_prog _ _ _ _ _ Hs i Hi) in Hp. injection Hp as <-.
    destruct (ci_node _ _ _ _ _ _ Ha i Hi) as [Hok Hk].
    destruct (coll_prog_running tr (cxr_wf _ _ _ Hc) payload false (msg_ok w) take_message
      (reduce_after ctx) (fun _ _ => PUndef) (fun _ _ x => PRet (err_value SMLT_SUCCESS, x))
      (reduce_up tr ctx w Hc) i (a_pc a i) Hi Hok) as [Hrun'|(j & x & E)].
    + by intros x [[_ Hd] _].
    + by left.
    + right. rewrite E in *. exists x. split; [done|]. apply reduce_known_all. by apply Hk.
  - intros rounds Hr Hn s. destruct (Hend rounds Hr Hn) as (a & (Hs & Ha) & Hst & Hct). split; [done|].
    intros i Hi. unfold s, reduce_sys. rewrite (sim_prog _ _ _ _ _ Hs i Hi).
    destruct (ci_node _ _ _ _ _ _ Ha i Hi) as [[Hok _] Hk]. specialize (Hst i Hi). unfold coll_top in Hst.
    destruct (a_pc a i) as [| | | | | |j x]; simpl in *; try lia. exists x. split; [done|].
    apply reduce_known_all. by apply Hk.
Qed.

(** Three nodes that add up 1, 2 and 4. *)
Definition add_op : smlt_reduce_fn_t := fun dest src =>
  (err_value SMLT_SUCCESS, Msg 1 1 [hd 0 (msg_data dest) + hd 0 (msg_data src)]).
Definition powers (i : nat) : smlt_msg := Msg 1 1 [match i with 0%nat => 1 | 1%nat => 2 | _ => 4 end].

Lemma reduce_result_witness :
  exists t, smlt_topology_create (fun _ => true) 3 None "bin" = Ret (err_value SMLT_SUCCESS, t) /\
  exists ctx w', create_three_nodes t = (Ret (err_value SMLT_SUCCESS, Some ctx), w') /\
    exists m, sy_threads (sys_run Z.of_nat (reduce_sys (bin_tree 3) ctx powers (fun _ => Msg 1 1 [0]) add_op)
                (concat (replicate 15 (concat (replicate 7 [1; 2; 0]%nat))))) !! 0%nat =
              Some (PRet (err_value SMLT_SUCCESS, m)) /\ payload m <> [1 + 2 + 4].
Proof.
  destruct three_nodes as (t & E & ctx & w' & Ec & Hc).
  exists t. split; [exact E|]. exists ctx, w'. split; [exact Ec|].
  destruct (reduce_result (bin_tree 3) ctx powers (fun _ => Msg 1 1 [0]) add_op 1 Hc ltac:(done)) as [_ Hf].
  - intros i _. repeat split; vm_compute; congruence.
  - destruct (Hf (replicate 15 (concat (replicate 7 [1; 2; 0]%nat)))) as [_ Hdone].
    + apply Forall_replicate. split; [repeat constructor; simpl; lia|].
      intros i Hi. simpl in Hi. destruct i as [|[|[|i]]]; [..|lia]; vm_compute; lia.
    + vm_compute. lia.
    + destruct (Hdone 0%nat) as (m & Em & j & _ & _ & Hp); [simpl; lia|].
      exists m. split; [exact Em|]. rewrite Hp. by destruct j as [|[|j]].
Defined.

(** [C20] All nodes agree on the result of [smlt_reduce_all]: over a tree of empty
    channels, no call panics or runs into undefined behaviour under any schedule, and any
    two calls that have returned have returned success and the same result - the
    contribution of a single leaf of the tree.  Once every node has run in enough rounds
    all calls have returned, and the channels are empty again. *)
Theorem reduce_all_agrees {C} {HC : ChanOps C} {HT : TreeEdge C} tr (ctx : smlt_context C) input result op w :
  tree_ctx tr no_msgs ctx -> Z.of_nat (t_len tr) < 2 ^ 32 ->
  (forall i, (i < t_len tr)%nat -> msg_ok w (contribution input result op i)) ->
  (forall sched, Forall (fun i => (i < t_len tr)%nat) sched ->
     let s := sys_run Z.of_nat (reduce_all_sys tr ctx input result op) sched in
     (forall i p, sy_threads s !! i = Some p ->
        running p \/ exists m, p = PRet (err_value SMLT_SUCCESS, m) /\
          from_leaf tr (contribution input result op) (t_root tr) m) /\
     (forall i j r r', sy_threads s !! i = Some (PRet r) -> sy_threads s !! j = Some (PRet r') ->
        payload r.2 = payload r'.2)) /\
  (forall rounds, Forall (fair_round (t_len tr) (t_len tr + 3)) rounds ->
     (sum_upto (t_len tr) (fun i => length (t_kids tr i) + 4 + length (t_kids tr i))%nat < length rounds)%nat ->
     let s := sys_run Z.of_nat (reduce_all_sys tr ctx input result op) (concat rounds) in
     tree_ctx tr no_msgs (sy_store s) /\
     forall i, (i < t_len tr)%nat -> exists m,
       sy_threads s !! i = Some (PRet (err_value SMLT_SUCCESS, m))).
Proof.
  intros Hc Hlen Hop. set (st := contribution input result op) in *. pose proof (cxr_wf _ _ _ Hc) as Hwf.
  assert (Hstart : forall i, (i < t_len tr)%nat -> msg_ok w (st i) /\ reduce_known tr st i 0 (st i)).
  { intros i Hi. split; [by apply Hop|done]. }
  pose proof (reduce_all_implements tr ctx w Hc Hlen) as Himpl.
  pose proof (fun sched => coll_run tr payload recv_msg st true (msg_ok w) (reduce_known tr st) Hstart
    (received_ok w) (reduce_known_step w tr st) _ Himpl ctx Hc _ (reduce_all_start tr ctx input result op Hc) sched) as Hrun.
  pose proof (coll_ends tr payload recv_msg st true (msg_ok w) (reduce_known tr st) Hstart
    (received_ok w) (reduce_known_step w tr st) _ Himpl ctx Hc _ (reduce_all_start tr ctx input result op Hc)) as Hend.
  split.
  - intros sched Hl s. destruct (Hrun sched Hl) as (a & _ & Hs & Ha).
    (* what a thread that is not under way has returned *)
    assert (Hret : forall i p, sy_threads s !! i = Some p -> running p \/
      exists m, p = PRet (err_value SMLT_SUCCESS, m) /\ from_leaf tr st (t_root tr) m /\
        payload m = payload (coll_data (a_pc a (t_root tr)))).
    { intros i p Hp. assert (Hi : (i < t_len tr)%nat).
      { exact (sim_lt _ _ _ _ _ _ _ Hs Hp). }
      unfold s, reduce_all_sys in Hp. rewrite (sim_prog _ _ _ _ _ Hs i Hi) in Hp. injection Hp as <-.
      destruct (ci_node _ _ _ _ _ _ Ha i Hi) as [Hok Hk].
      destruct (coll_prog_running tr Hwf payload true (msg_ok w) take_message
        (reduce_all_after ctx) (fun i x => smlt_broadcast ctx (Z.of_nat i) x) (down_with tr ctx)
        (reduce_all_up tr ctx w Hc) i (a_pc a i) Hi Hok) as [Hr|(j & x & E)]; [|by left|].
      { intros x. by apply (wait_for_running tr ctx w Hc). }
      rewrite E in *. destruct Hok as [Hj _].
      destruct (down_with_ended tr ctx i j x Hi Hj) as [|[_ Hd]]; [by left|right]. exists x. split; [done|].
      destruct (got_root tr Hwf payload true (msg_ok w) _ a i Ha Hi) as [Hg Hv]; [by rewrite E|].
      rewrite E in Hv. simpl in Hv. split; [|done]. unfold from_leaf. rewrite Hv.
      destruct (ci_node _ _ _ _ _ _ Ha _ (tw_root _ Hwf)) as [_ Hkr].
      destruct (a_pc a (t_root tr)) as [| | | | | |jr xr]; try done. simpl in Hkr |- *.
      apply reduce_known_all. by apply Hkr. }
    split.
    + intros i p Hp. destruct (Hret i p Hp) as [|(m & -> & Hm & _)]; [by left|right; by exists m].
    + intros i j r r' Hi Hj.
      destruct (Hret i _ Hi) as [[]|(m & E1 & _ & H1)], (Hret j _ Hj) as [[]|(m' & E2 & _ & H2)].
      injection E1 as ->. injection E2 as ->. simpl. congruence.
  - intros rounds Hr Hn s. destruct (Hend rounds Hr Hn) as (a & (Hs & Ha) & Hst & Hct). split; [done|].
    intros i Hi. unfold s, reduce_all_sys. rewrite (sim_prog _ _ _ _ _ Hs i Hi).
    destruct (ci_node _ _ _ _ _ _ Ha i Hi) as [[Hok _] _]. specialize (Hst i Hi). unfold coll_top in Hst.
    destruct (a_pc a i) as [| | | | | |j x]; simpl in *; try lia. exists x.
    destruct (down_with_ended tr ctx i (length (t_kids tr i)) x Hi) as [Hx|[_ Hx]]; [done| |].
    + assert (j = length (t_kids tr i)) as -> by lia. unfold down_with, bcast_prog in Hx.
      by rewrite Nat.sub_diag in Hx.
    + assert (j = length (t_kids tr i)) as -> by lia. by rewrite Hx.
Qed.

Lemma reduce_all_agrees_witness :
  exists t, smlt_topology_create (fun _ => true) 3 None "bin" = Ret (err_value SMLT_SUCCESS, t) /\
  exists ctx w', create_three_nodes t = (Ret (err_value SMLT_SUCCESS, Some ctx), w') /\
    exists m, sy_threads (sys_run Z.of_nat (reduce_all_sys (bin_tree 3) ctx powers (fun _ => Msg 1 1 [0]) add_op)
                (concat (replicate 17 (concat (replicate 7 [1; 2; 0]%nat))))) !! 2%nat =
              Some (PRet (err_value SMLT_SUCCESS, m)).
Proof.
  destruct three_nodes as (t & E & ctx & w' & Ec & Hc).
  exists t. split; [exact E|]. exists ctx, w'. split; [exact Ec|].
  destruct (reduce_all_agrees (bin_tree 3) ctx powers (fun _ => Msg 1 1 [0]) add_op 1 Hc ltac:(done)) as [_ Hf].
  - intros i _. repeat split; vm_compute; congruence.
  - destruct (Hf (replicate 17 (concat (replicate 7 [1; 2; 0]%nat)))) as [_ Hdone].
    + apply Forall_replicate. split; [repeat constructor; simpl; lia|].
      intros i Hi. simpl in Hi. destruct i as [|[|[|i]]]; [..|lia]; vm_compute; lia.
    + vm_compute. lia.
    + apply (Hdone 2%nat). simpl. lia.
Defined.
