(* ===== verification/Barrier.v ===== *)
(** The tree barrier ([smlt_barrier_wait] of [src/barrier.c]): a reduction and a broadcast
    of notifications; and the counters that are left of the Shoal barrier. *)
From stdpp Require Import strings.
From S2P Require Import Prelude Errors Message Fifo Pair UmpQueue UmpQueuepair.
From S2P Require Import Queuepair Channel Topology Edge Context Process TreeNet.
From S2P Require Import Broadcast Collective Reduction.

Definition smlt_barrier_wait {C} (ctx : smlt_context C) (self : Z) : prog Z :=
  err ← smlt_reduce_notify ctx self;
  if smlt_err_is_fail err then mret err else smlt_broadcast_notify ctx self.

(** [static int idx_max; static unsigned barrier_num;] *)
Record shl_state := Shl { idx_max : Z; barrier_num : Z }.
Record shl_barrier_t := ShlBarrier { sb_num : Z; sb_idx : Z }.

Definition shl_barrier_init (count : Z) : M shl_state (Z * shl_barrier_t) :=
  s ← get;
  _ ← assert_ ((idx_max s =? 0) || (barrier_num s =? count));
  _ ← modify (fun s => Shl (idx_max s + 1) count);
  mret (0, ShlBarrier count (idx_max s)).
Definition shl_barrier_destroy : M shl_state Z :=
  _ ← modify (fun s => Shl (idx_max s - 1) (barrier_num s));
  mret 0.
(** [shl_barrier_shm], whose body is compiled out. *)
Definition shl_barrier_shm (b_count : Z) : M shl_state unit := mret tt.
Definition shl_barrier_wait (barrier : shl_barrier_t) : M shl_state Z :=
  _ ← shl_barrier_shm (sb_num barrier);
  mret 0.

Section barrier.
Context {C : Type} {HC : ChanOps C} {HT : TreeEdge C}.
Context (tr : tree) (ctx : smlt_context C).

(** Every node calls [smlt_barrier_wait]. *)
Definition barrier_sys : sys (smlt_context C) Z :=
  Sys (tab (t_len tr) (fun i => smlt_barrier_wait ctx (Z.of_nat i))) ctx.

(** A notification carries nothing, so there is nothing to know of the data. *)
Definition no_words (u : unit) : list Z := [].
Definition any_data (u : unit) (v : list Z) (u' : unit) : Prop := True.
Definition always (u : unit) : Prop := True.
Definition nothing_known (i m : nat) (u : unit) : Prop := True.

Definition notify_after (i : nat) (g : option Z * unit) : prog Z :=
  match g.1 with
  | Some err => mret err
  | None => to_parent ctx (Z.of_nat i) EvNotify
  end.
Definition barrier_after (i : nat) (g : option Z * unit) : prog Z :=
  err ← notify_after i g;
  if smlt_err_is_fail err then mret err else smlt_broadcast_notify ctx (Z.of_nat i).
Definition notify_down (i j : nat) (u : unit) : prog Z :=
  subtree_loop EvNotify (length (t_kids tr i) - j) (Z.of_nat i) (Z.of_nat j).
Abbreviation wait_notify := (fun (i : nat) (_ : unit) => smlt_broadcast_notify ctx (Z.of_nat i)).
Abbreviation bprog := (coll_prog tr take_notification barrier_after wait_notify notify_down).
Abbreviation bokp := (coll_okp tr true always).
Abbreviation bact := (coll_act tr no_words any_data true).

Context (Hc : tree_ctx tr no_msgs ctx) (Hlen : Z.of_nat (t_len tr) < 2 ^ 32).

(** What a waiting node does after the notification from its parent. *)
Definition notify_forward (i : nat) (e : Z) : prog Z :=
  if smlt_err_is_fail e then mret (err_value SMLT_ERR) else smlt_broadcast_notify_subtree ctx (Z.of_nat i).

Lemma notify_subtree_run i :
  (i < t_len tr)%nat -> smlt_broadcast_notify_subtree ctx (Z.of_nat i) = notify_down i 0 tt.
Proof using Hc.
  intros Hi. unfold smlt_broadcast_notify_subtree, notify_down. rewrite (get_children_run _ _ _ Hc) by done.
  simpl. by rewrite Nat2Z.id, Nat.sub_0_r.
Qed.

Lemma broadcast_notify_run i :
  (i < t_len tr)%nat ->
  smlt_broadcast_notify ctx (Z.of_nat i) =
    match t_par tr i with
    | Some (y, k) => PEv (EvRecvNotification (ref_of y k)) (notify_forward i)
    | None => notify_down i 0 tt
    end.
Proof using Hc.
  intros Hi. pose proof (cxr_wf _ _ _ Hc) as Hwf. unfold smlt_broadcast_notify.
  rewrite (is_root_run _ _ _ Hc) by done. simpl. case_bool_decide as Hr.
  - rewrite Hr, (tw_par_root _ Hwf), <- Hr. by apply notify_subtree_run.
  - rewrite (get_parent_run _ _ _ Hc) by done. simpl. unfold par_ref.
    destruct (tw_par _ Hwf i Hi Hr) as (y & k & -> & _). done.
Qed.

Lemma barrier_after_run i u :
  (i < t_len tr)%nat ->
  barrier_after i (None, u) =
    match t_par tr i with
    | Some (y, k) => PEv (EvNotify (ref_of y k)) (fun _ => smlt_broadcast_notify ctx (Z.of_nat i))
    | None => notify_down i 0 u
    end.
Proof using Hc.
  intros Hi. unfold barrier_after, notify_after. simpl. rewrite (to_parent_run _ _ _ Hc) by done.
  destruct (t_par tr i) as [[y k]|] eqn:Ep; [done|]. simpl.
  rewrite broadcast_notify_run, Ep by done. by destruct u.
Qed.

Lemma barrier_up i u y k :
  (i < t_len tr)%nat -> always u -> t_par tr i = Some (y, k) ->
  exists e K, barrier_after i (None, u) = PEv e K /\ send_ev e (ref_of y k) (no_words u) /\
    K (err_value SMLT_SUCCESS) = bprog i (CWait u).
Proof using Hc.
  intros Hi _ Hp. rewrite barrier_after_run, Hp by done.
  eexists (EvNotify (ref_of y k)), _. split; [reflexivity|]. split; [by right|done].
Qed.

Lemma barrier_implements i p :
  (i < t_len tr)%nat -> bokp i p -> implements (C := C) (tree_net tr) bact bprog bokp i p.
Proof using Hc Hlen.
  intros Hi Hok. pose proof (cxr_wf _ _ _ Hc) as Hwf.
  apply (coll_implements tr Hwf Hlen no_words any_data true always); try done; clear i p Hi Hok.
  - intros i rv k u Hi [[Hl Hk] _]. pose proof (lookup_lt_Some _ _ _ Hk).
    unfold implements. simpl. split; [split; [done|split; [lia|done]]|]. right.
    eexists. split; [eapply does_loop; reflexivity|].
    intros v. eexists. split; [exists u; split; [exact I|reflexivity]|]. split.
    + split; [|done]. simpl. rewrite length_insert. split; [done|]. intros _. apply next_kid_lt. lia.
    + simpl. by rewrite (gather_taken tr Hwf Hlen) by done.
  - apply barrier_up.
  - intros i u Hi _ Hp. by rewrite barrier_after_run, Hp.
  - intros i u Hi [[Hne _] _]. simpl in Hne.
    destruct (has_parent tr Hwf i Hi Hne) as (y & k & Hy). pose proof (child_par tr Hwf _ _ _ Hy) as [_ Hp].
    unfold implements. simpl. rewrite Hp.
    split; [split; [apply Hy|split; [by eapply child_lt|apply Hy]]|]. right.
    exists (notify_forward i). split.
    { apply does_eq. simpl. by rewrite broadcast_notify_run, Hp. }
    intros v. exists (CDown 0 tt). split; [exists tt; split; [exact I|reflexivity]|]. split; [split; [simpl; lia|done]|].
    unfold notify_forward. simpl. by apply notify_subtree_run.
  - intros i j u Hi [Hj _]. unfold implements. simpl in Hj |- *. case_decide as Dj; simpl.
    + destruct Dj as [_ Hlt]. split; [split; [done|split; [done|done]]|]. split; [split; [simpl; lia|done]|].
      eexists (EvNotify (ref_of i j)), _. split; [by right|]. split.
      { apply does_eq. simpl. unfold notify_down. by apply subtree_loop_step. }
      done.
    + intros W' HS' ctx'. simpl. unfold notify_down. by replace (length (t_kids tr i) - j)%nat with 0%nat by lia.
Qed.

Lemma barrier_start i :
  (i < t_len tr)%nat ->
  smlt_barrier_wait ctx (Z.of_nat i) = bprog i (coll_start tr (fun _ => tt) i).
Proof using Hc.
  intros Hi. unfold smlt_barrier_wait, smlt_reduce_notify. rewrite (get_children_run _ _ _ Hc) by done. simpl.
  unfold gather, coll_start, gather_at. simpl.
  by rewrite Nat2Z.id, length_replicate, unserved_none, Nat.sub_diag.
Qed.

Lemma notify_down_ended i j u :
  (j <= length (t_kids tr i))%nat ->
  running (notify_down i j u) \/
  (j = length (t_kids tr i) /\ notify_down i j u = PRet (err_value SMLT_SUCCESS)).
Proof using Type.
  intros Hj. unfold notify_down. destruct (decide (j < length (t_kids tr i))%nat) as [Dj|Dj].
  - left. by rewrite subtree_loop_step.
  - right. split; [lia|]. by replace (length (t_kids tr i) - j)%nat with 0%nat by lia.
Qed.

(** A call under way has not returned; one that has is past the answer of the root. *)
Lemma barrier_ended i p :
  (i < t_len tr)%nat -> bokp i p ->
  running (bprog i p) \/ (pc_got true p = true /\ bprog i p = PRet (err_value SMLT_SUCCESS)).
Proof using Hc.
  intros Hi Hok. pose proof (cxr_wf _ _ _ Hc) as Hwf.
  destruct (coll_prog_running tr Hwf no_words true always take_notification barrier_after wait_notify
    notify_down barrier_up i p Hi Hok) as [Hr|(j & u & E)]; [|by left|].
  - intros u [[Hne _] _]. simpl in Hne.
    destruct (has_parent tr Hwf i Hi Hne) as (y & k & Hy). pose proof (child_par tr Hwf _ _ _ Hy) as [_ Hp].
    by rewrite broadcast_notify_run, Hp.
  - subst p. destruct Hok as [Hj _]. destruct (notify_down_ended i j u Hj) as [|[_ Ed]]; [by left|right]. by split.
Qed.
End barrier.

(** [C12] The barrier separates: let every node call [smlt_barrier_wait] over a tree of
    empty channels.  No call panics or runs into undefined behaviour, and when one call
    has returned - with success - every node has entered the barrier, under every
    schedule.  Once every node has run in enough rounds all calls have returned, and the
    channels are empty again, ready for the next barrier. *)
Theorem barrier_separates {C} {HC : ChanOps C} {HT : TreeEdge C} tr (ctx : smlt_context C) :
  tree_ctx tr no_msgs ctx -> Z.of_nat (t_len tr) < 2 ^ 32 ->
  (forall sched i p, Forall (fun i => (i < t_len tr)%nat) sched ->
     sy_threads (sys_run Z.of_nat (barrier_sys tr ctx) sched) !! i = Some p ->
     running p \/
     (p = PRet (err_value SMLT_SUCCESS) /\ forall j, (j < t_len tr)%nat -> j ∈ sched)) /\
  (forall rounds, Forall (fair_round (t_len tr) (t_len tr + 3)) rounds ->
     (sum_upto (t_len tr) (fun i => length (t_kids tr i) + 4 + length (t_kids tr i))%nat < length rounds)%nat ->
     let s := sys_run Z.of_nat (barrier_sys tr ctx) (concat rounds) in
     tree_ctx tr no_msgs (sy_store s) /\
     forall i, (i < t_len tr)%nat -> sy_threads s !! i = Some (PRet (err_value SMLT_SUCCESS))).
Proof.
  intros Hc Hlen. pose proof (cxr_wf _ _ _ Hc) as Hwf.
  assert (Hstart : forall i, (i < t_len tr)%nat -> always tt /\ nothing_known i 0 tt) by done.
  assert (Hrcv : forall x z x', always x -> always z -> any_data x (no_words z) x' ->
    always x' /\ no_words x' = no_words z) by done.
  assert (HD : forall i k y m x z x', child_at tr i k y -> always x -> always z ->
    any_data x (no_words z) x' -> nothing_known i m x -> nothing_known y (length (t_kids tr y)) z ->
    nothing_known i (S m) x') by done.
  pose proof (barrier_implements tr ctx Hc Hlen) as Himpl. split.
  - intros sched i p Hl Hp.
    destruct (coll_run tr no_words any_data (fun _ => tt) true always nothing_known Hstart Hrcv HD _ Himpl
      ctx Hc _ (barrier_start tr ctx Hc) sched Hl) as (a & Hrun & Hs & Ha).
    assert (Hi : (i < t_len tr)%nat) by exact (sim_lt _ _ _ _ _ _ _ Hs Hp).
    unfold barrier_sys in Hp. rewrite (sim_prog _ _ _ _ _ Hs i Hi) in Hp. injection Hp as <-.
    destruct (barrier_ended tr ctx Hc i (a_pc a i) Hi) as [|[Hg ->]]; [by eapply (ci_node _ _ _ _ _ _ Ha)|by left|right].
    split; [done|]. intros j Hj. destruct (decide (j ∈ sched)) as [|Hn]; [done|].
    pose proof (got_all_upped tr Hwf no_words true always nothing_known a i Ha Hi Hg j Hj) as Hu.
    by rewrite (arun_pc _ _ _ _ _ Hrun Hn) in Hu.
  - intros rounds Hr Hn s.
    destruct (coll_ends tr no_words any_data (fun _ => tt) true always nothing_known Hstart Hrcv HD _ Himpl
      ctx Hc _ (barrier_start tr ctx Hc) rounds Hr Hn) as (a & (Hs & Ha) & Hst & Hct).
    split; [done|]. intros i Hi. unfold s, barrier_sys. rewrite (sim_prog _ _ _ _ _ Hs i Hi).
    destruct (ci_node _ _ _ _ _ _ Ha i Hi) as [[Hok _] _]. specialize (Hst i Hi). unfold coll_top in Hst.
    destruct (a_pc a i) as [| | | | | |j u]; simpl in *; try lia. f_equal.
    assert (j = length (t_kids tr i)) as -> by lia. unfold notify_down. by rewrite Nat.sub_diag.
Qed.

Lemma barrier_separates_witness :
  exists t, smlt_topology_create (fun _ => true) 3 None "bin" = Ret (err_value SMLT_SUCCESS, t) /\
  exists ctx w', create_three_nodes t = (Ret (err_value SMLT_SUCCESS, Some ctx), w') /\
    sy_threads (sys_run Z.of_nat (barrier_sys (bin_tree 3) ctx)
      (concat (replicate 17 (concat (replicate 7 [2; 1; 0]%nat))))) !! 1%nat =
      Some (PRet (err_value SMLT_SUCCESS)).
Proof.
  destruct three_nodes as (t & E & ctx & w' & Ec & Hc).
  exists t. split; [exact E|]. exists ctx, w'. split; [exact Ec|].
  destruct (barrier_separates (bin_tree 3) ctx Hc ltac:(done)) as [_ Hf].
  destruct (Hf (replicate 17 (concat (replicate 7 [2; 1; 0]%nat)))) as [_ Hdone].
  - apply Forall_replicate. split; [repeat constructor; simpl; lia|].
    intros i Hi. simpl in Hi. destruct i as [|[|[|i]]]; [..|lia]; vm_compute; lia.
  - vm_compute. lia.
  - apply Hdone. simpl. lia.
Defined.
