(* ===== verification/Calls.v ===== *)
(** Sequences of collective calls over one context: broadcasts, reductions and barriers in
    any order, each thread going on to its next call as soon as it has returned. *)
From stdpp Require Import strings.
From S2P Require Import Prelude Errors Message Fifo Pair UmpQueue UmpQueuepair.
From S2P Require Import Queuepair Channel Topology Edge Context Process TreeNet.
From S2P Require Import Broadcast Collective Reduction Barrier Layers.

(** ** The edges of a tree *)
Section tree_calls.
Context (tr : tree) (Hwf : tree_wf tr).
Abbreviation len := (t_len tr).
Abbreviation nkids i := (length (t_kids tr i)).

Lemma tree_ends i d x k :
  (i < len)%nat -> at_end tr i d x k -> exists j, (j < len)%nat /\ at_end tr j (peer d) x k.
Proof using Hwf.
  intros Hi (Hx & Hk & Hd). destruct d; simpl.
  - destruct (nth_child tr x k Hx Hk) as [y Hy]. exists y. split; [by apply (child_par tr Hwf x k)|].
    split; [done|]. split; [done|]. apply Hy.
  - by exists x.
Qed.

(** The other end of an edge. *)
Lemma at_end_child x k y d j :
  child_at tr x k y -> at_end tr j d x k -> j = match d with Src => x | Dst => y end.
Proof using Type. intros [Hx Hk] (_ & _ & Hd). destruct d; [done|]. congruence. Qed.

Lemma at_end_child_at i d x k :
  at_end tr i d x k -> match d with Src => i = x /\ exists y, child_at tr i k y | Dst => child_at tr x k i end.
Proof using Type.
  intros (Hx & Hk & Hd). destruct d; [|by split]. split; [done|]. subst i. by apply nth_child.
Qed.

(** ** Broadcast *)
Section broadcast.
(** Each thread's message, given the results of its earlier calls; [w]: its words. *)
Context {T : Type} (msgs : nat -> T -> smlt_msg) (w : nat) (args : nat -> T -> Prop).
Context (Hsome : forall i, (i < len)%nat -> exists t, args i t)
  (Hmsgs : forall i t, (i < len)%nat -> args i t -> msg_ok w (msgs i t)).
Abbreviation at_ g := (fun i => msgs i (g i)).
Abbreviation M g := (payload (msgs (t_root tr) (g (t_root tr)))).

Definition bcast_mach : mach T := {|
  m_pc := bcast_pc; m_args := args;
  m_act := fun i t => bcast_act tr (fun i => msgs i t) i;
  m_start := fun i t => bcast_start tr (fun i => msgs i t) i;
  m_okp := fun i t => bcast_okp tr (fun i => msgs i t) i;
  m_inv := fun g a => bcast_inv tr (M g) a /\ forall i, (i < len)%nat -> bcast_okp tr (at_ g) i (a_pc a i);
  m_view := nat; m_inh := _; m_seen := fun _ => bcast_stage; m_level := fun _ s => s;
  m_top := fun i => S (nkids i); m_wait := fun _ _ => 0%nat;
  m_enabled := bcast_enabled tr; m_dec := _;
|}.

Lemma bcast_okp_start i t : (i < len)%nat -> args i t -> bcast_okp tr (fun i => msgs i t) i (bcast_start tr (fun i => msgs i t) i).
Proof using Hmsgs.
  intros Hi Ht. destruct (Hmsgs i t Hi Ht) as [Hs _].
  unfold bcast_start. case_decide; simpl; [split; [done|split; [done|lia]]|by split].
Qed.

Lemma bcast_okp_step f i a a' :
  (i < len)%nat -> (forall j, (j < len)%nat -> bcast_okp tr f j (a_pc a j)) -> astep (bcast_act tr f) i a a' ->
  forall j, (j < len)%nat -> bcast_okp tr f j (a_pc a' j).
Proof using Type.
  intros Hi Hok Hs j Hj. destruct (decide (j = i)) as [->|Hne]; [|rewrite (astep_pc _ _ _ _ _ Hs) by done; by apply Hok].
  specialize (Hok i Hi). apply astep_inv in Hs. unfold bcast_act in Hs.
  destruct (a_pc a i) as [|k m] eqn:E; simpl in Hs.
  - destruct (t_par tr i) as [[x k]|]; [|subst a'; by rewrite E].
    destruct Hs as [(v & q & p & _ & (msg' & Hr & ->) & ->)|[-> _]]; [|by rewrite E].
    simpl. rewrite pc_set_same. simpl. destruct Hok as [_ Hsd].
    split; [by eapply received_sendable|]. split; [by apply Hr|lia].
  - case_decide as D; [|subst a'; by rewrite E]. destruct Hs as [->|[-> _]]; [|by rewrite E].
    simpl. rewrite pc_set_same. simpl in *. destruct Hok as (H1 & H2 & _). by split_and!.
Qed.

Section bcast_args.
Context (g : nat -> T) (Hg : args_ok len bcast_mach g).
Lemma bcast_msgs i : (i < len)%nat -> sendable (at_ g i) /\ words (at_ g i) = Z.of_nat (length (M g)).
Proof using Hmsgs Hg Hwf.
  intros Hi. rewrite (msg_ok_payload w) by (apply Hmsgs; [by apply tw_root|by apply Hg, tw_root]).
  apply Hmsgs; [done|by apply Hg].
Qed.

Lemma bcast_mach_staged K :
  staged (bcast_act tr (at_ g)) len K (m_inv bcast_mach g) (fun _ => bcast_stage) (fun _ s => s)
    (fun i => S (nkids i)) (fun _ _ => 0%nat) (bcast_enabled tr).
Proof using Hmsgs Hg Hwf.
  pose proof (bcast_staged tr Hwf (at_ g) (M g) bcast_msgs) as [H1 H2 H3 H4 H5 H6]. split.
  - intros i a a' Hi [Ha Hok] Hs. destruct (H1 i a a' Hi Ha Hs) as [Ha' Hv]. split; [|done].
    split; [done|]. by eapply bcast_okp_step.
  - intros i a Hi [Ha _]. by apply H2.
  - done.
  - intros i a a' Hi [Ha _]. by apply H4.
  - intros i a Hi [Ha _]. by apply H5.
  - simpl. lia.
Qed.
End bcast_args.

Lemma bcast_mach_ok K : mach_ok len K (at_end tr) bcast_mach.
Proof using Hwf Hmsgs Hsome.
  split; simpl.
  - exact Hsome.
  - intros g Hg. split.
    + apply bcast_inv_init; [done|by apply bcast_msgs|done].
    + intros i Hi. apply bcast_okp_start; [done|by apply Hg].
  - intros g Hg. by apply bcast_mach_staged.
  - intros g a i Hg [_ Hok] Hi. by apply Hok.
  - exact bcast_okp_start.
  - intros i t [|j m] Hi Hok; simpl in *; lia.
  - intros i t [|j m] Hi Hok Hf; unfold m_fin in Hf; simpl in *; [done|]. rewrite decide_False by lia. done.
  - intros i t [|j m] d x k Hi Hok; simpl in *.
    + destruct (t_par tr i) as [[y l]|] eqn:Ep; [|done]. intros (<- & <- & <-).
      destruct (par_child tr Hwf y l i Hi Ep) as [Hy Hk]. split; [done|]. split; [|done]. by eapply lookup_lt_Some.
    + case_decide; [|done]. intros (<- & <- & <-). done.
  - intros g a i d x k _ [Ha _] Hi Est He. simpl in Est. apply at_end_child_at in He. destruct d; [|apply (bi_up _ _ _ Ha)].
    destruct He as [<- [y Hy]]. destruct (bi_down _ _ _ Ha _ _ _ Hy) as [-> _]. rewrite Est.
    unfold bcast_queue. rewrite decide_False; [done|]. unfold bcast_start. case_decide; simpl; lia.
  - intros g a i d x k _ [Ha _] Hi Hf He. apply at_end_child_at in He. destruct d; simpl; [apply (bi_up _ _ _ Ha)|].
    destruct (bi_down _ _ _ Ha _ _ _ He) as [-> _]. unfold bcast_queue. rewrite decide_False; [done|].
    unfold m_fin in Hf. simpl in Hf. lia.
  - intros g a i j d x k _ [Ha _] Hi Hj Haw He Hf. simpl in Haw. unfold bcast_act in Haw.
    destruct (a_pc a i) as [|l m] eqn:E; simpl in Haw; [|by case_decide].
    destruct (t_par tr i) as [[y l]|] eqn:Ep; [|done]. destruct Haw as (<- & <- & <-).
    pose proof (par_child tr Hwf y l i Hi Ep) as Hy. pose proof (at_end_child _ _ _ _ _ Hy He) as ->. simpl.
    destruct (bi_down _ _ _ Ha _ _ _ Hy) as [-> _]. pose proof (child_lt tr _ _ _ Hy).
    unfold bcast_queue. rewrite decide_True; [done|]. rewrite E. unfold m_fin in Hf. simpl in *. lia.
Qed.

(** A node that has the message has it from the root, which has sent it. *)
Lemma bcast_root_sent W a i :
  bcast_inv tr W a -> (i < len)%nat -> (0 < bcast_stage (a_pc a i))%nat ->
  i = t_root tr \/ (1 < bcast_stage (a_pc a (t_root tr)))%nat.
Proof using Hwf.
  intros Ha. revert i. apply (tree_down tr Hwf (fun i => (0 < bcast_stage (a_pc a i))%nat ->
    i = t_root tr \/ (1 < bcast_stage (a_pc a (t_root tr)))%nat)); [by left|].
  intros x k y Hy IH Hs. destruct (bi_down _ _ _ Ha _ _ _ Hy) as [_ Hsx]. specialize (Hsx Hs).
  destruct IH as [->|]; [lia|right; lia|by right].
Qed.
End broadcast.

(** ** Reductions and barriers *)
Section collective.
Context {T X : Type} (val : X -> list Z) (rcv : X -> list Z -> X -> Prop) (start : nat -> T -> X) (down : bool).
Context (args : nat -> T -> Prop) (dataok : X -> Prop) (D : (nat -> T) -> nat -> nat -> X -> Prop).
Context (Hsome : forall i, (i < len)%nat -> exists t, args i t)
  (Hstart : forall i t, (i < len)%nat -> args i t -> dataok (start i t))
  (Hbegin : forall g i, (i < len)%nat -> D g i 0%nat (start i (g i))).
Context (Hrcv : forall x z x', dataok x -> dataok z -> rcv x (val z) x' -> dataok x' /\ val x' = val z).
Context (HD : forall g i k y m x z x', child_at tr i k y -> dataok x -> dataok z -> rcv x (val z) x' ->
  D g i m x -> D g y (nkids y) z -> D g i (S m) x').

Definition coll_mach : mach T := {|
  m_pc := coll_pc X; m_args := args; m_act := fun i _ => coll_act tr val rcv down i;
  m_start := fun i t => coll_start tr (fun i => start i t) i;
  m_okp := fun i _ => coll_okp tr down dataok i; m_inv := fun g => coll_inv tr val down dataok (D g);
  m_view := nat; m_inh := _; m_seen := coll_stage tr; m_level := fun _ s => s;
  m_top := coll_top tr down; m_wait := coll_wait tr;
  m_enabled := coll_enabled tr down; m_dec := _;
|}.

(** A thread that has returned. *)
Lemma coll_fin i (p : coll_pc X) :
  coll_okp tr down dataok i p -> coll_stage tr i p = coll_top tr down i ->
  exists x, p = CDown (if down then nkids i else 0%nat) x.
Proof using Type.
  intros [Hok _] Hf. unfold coll_top in Hf.
  destruct p as [| | | | | |j x]; simpl in *; try (destruct down; lia).
  exists x. f_equal. destruct down; lia.
Qed.

Lemma coll_mach_init g :
  args_ok len coll_mach g -> m_inv coll_mach g (AM (coll_start tr (fun i => start i (g i))) no_msgs).
Proof using Hwf Hstart Hbegin.
  intros Hg. apply coll_inv_init; [done|]. intros i Hi. split; [|by apply Hbegin]. apply Hstart; [done|by apply Hg].
Qed.

Lemma coll_mach_ok : mach_ok len (len + 3) (at_end tr) coll_mach.
Proof using Hwf Hsome Hstart Hbegin Hrcv HD.
  split; simpl.
  - exact Hsome.
  - exact coll_mach_init.
  - intros g _. apply (coll_staged tr Hwf val rcv down dataok (D g) Hrcv (HD g)). intros i Hi. pose proof (kids_bound tr Hwf i Hi). lia.
  - intros g a i _ Ha Hi. by apply (ci_node _ _ _ _ _ _ Ha i Hi).
  - intros i t Hi Ht. split; [|by apply Hstart]. simpl. rewrite length_replicate. split; [done|lia].
  - intros i _ p Hi [Hok _]. unfold coll_top. destruct p; simpl in *; destruct down; lia.
  - intros i _ p Hi Hok Hf. destruct (coll_fin i p Hok Hf) as [x ->]. simpl. rewrite decide_False; [done|].
    destruct down; intros [? ?]; [lia|done].
  - intros i _ p d x k Hi [Hok _].
    assert (Hpar : forall y l, t_par tr i = Some (y, l) -> at_end tr i Dst y l).
    { intros y l Ep. destruct (par_child tr Hwf y l i Hi Ep) as [Hy Hk]. split; [done|]. split; [|done]. by eapply lookup_lt_Some. }
    destruct p as [rv l z|rv l z|rv l z|z|z|z|j z]; simpl in *; try done.
    + by case_decide.
    + intros (<- & <- & <-). destruct Hok as [Hl Hk]. apply lookup_lt_Some in Hk. rewrite Hl in Hk. done.
    + intros (<- & <- & <-). destruct Hok as [Hl Hk]. apply lookup_lt_Some in Hk. rewrite Hl in Hk. done.
    + destruct (t_par tr i) as [[y l]|]; [|done]. intros (<- & <- & <-). by apply Hpar.
    + destruct (t_par tr i) as [[y l]|]; [|done]. intros (<- & <- & <-). by apply Hpar.
    + case_decide as Hj; [|done]. intros (<- & <- & <-). destruct Hj. done.
  - intros g a i d x k _ Ha Hi Est He. apply at_end_child_at in He. destruct d.
    + destruct He as [<- [y Hy]]. destruct (ci_edge _ _ _ _ _ _ Ha _ _ _ Hy) as [_ -> _ _ _]. by rewrite Est.
    + destruct (ci_edge _ _ _ _ _ _ Ha _ _ _ He) as [-> _ _ _ _]. by rewrite Est.
  - intros g a i d x k _ Ha Hi Hf He. destruct (ci_node _ _ _ _ _ _ Ha i Hi) as [Hok _].
    destruct (coll_fin i _ Hok Hf) as [z Ez]. apply at_end_child_at in He. destruct d; simpl.
    + destruct He as [<- [y Hy]]. destruct (ci_edge _ _ _ _ _ _ Ha _ _ _ Hy) as [-> _ _ _ _]. rewrite Ez. simpl.
      by rewrite andb_false_r.
    + destruct (ci_edge _ _ _ _ _ _ Ha _ _ _ He) as [_ -> _ _ _]. rewrite Ez. simpl.
      destruct down; [by rewrite andb_false_r|]. by destruct (a_pc a x).
  - intros g a i j d x k _ Ha Hi Hj Haw He Hf.
    destruct (ci_node _ _ _ _ _ _ Ha i Hi) as [[Hoki _] _].
    destruct (ci_node _ _ _ _ _ _ Ha j Hj) as [Hokj _]. destruct (coll_fin j _ Hokj Hf) as [z Ez].
    assert (Hup : forall y, child_at tr i k y -> d = Src -> x = i -> pc_received (a_pc a i) k = false -> a_q a (peer d) x k <> []).
    { intros y Hy -> -> Hr. pose proof (at_end_child _ _ _ _ _ Hy He) as Ej. simpl in Ej |- *. subst j.
      destruct (ci_edge _ _ _ _ _ _ Ha _ _ _ Hy) as [-> _ _ _ _]. by rewrite Ez, Hr. }
    destruct (a_pc a i) as [rv l u|rv l u|rv l u|u|u|u|l u] eqn:Ei; simpl in Haw, Hoki; try done; try (by case_decide).
    + destruct Haw as (<- & <- & <-). destruct Hoki as [Hl Hk]. pose proof (lookup_lt_Some _ _ _ Hk).
      destruct (nth_child tr i l Hi ltac:(lia)) as [y Hy]. apply (Hup y); try done. simpl. by rewrite Hk.
    + destruct Haw as (<- & <- & <-). destruct Hoki as [Hl Hk]. pose proof (lookup_lt_Some _ _ _ Hk).
      destruct (nth_child tr i l Hi ltac:(lia)) as [y Hy]. apply (Hup y); try done. simpl. by rewrite Hk.
    + by destruct (t_par tr i) as [[? ?]|].
    + destruct Hoki as [_ Hd]. destruct (t_par tr i) as [[y l]|] eqn:Ep; [|done]. destruct Haw as (<- & <- & <-).
      pose proof (par_child tr Hwf y l i Hi Ep) as Hy. pose proof (at_end_child _ _ _ _ _ Hy He) as Ej. simpl in Ej |- *. subst j.
      destruct (ci_edge _ _ _ _ _ _ Ha _ _ _ Hy) as [_ -> _ _ _]. rewrite Ez, Ei. simpl.
      rewrite Hd, bool_decide_true by (by eapply child_lt). done.
Qed.

(** A node that has passed its subtree's result on, or kept it, has heard of the whole
    subtree. *)
Lemma upped_below g a i j :
  coll_inv tr val down dataok (D g) a -> below tr i j -> pc_upped (a_pc a i) = true -> pc_upped (a_pc a j) = true.
Proof using Hwf.
  intros Ha Hb. induction Hb as [i|i k y j Hy _ IH]; [done|]. intros Hu. apply IH.
  eapply upped_children; [exact Ha|exact Hy|]. by destruct (a_pc a i).
Qed.
End collective.
End tree_calls.

(** ** The calls of a client *)

(** The error a call returns, and the message it leaves. *)
Definition call_result : Type := Z * option smlt_msg.
Definition with_msg (r : Z * smlt_msg) : call_result := (r.1, Some r.2).
Definition without_msg (err : Z) : call_result := (err, None).

(** The arguments of the threads' calls, given the results of the thread's earlier calls:
    a thread may send the message the last call has left in its buffer.  [w]: the words of
    the messages. *)
Inductive client_call :=
| DoBroadcast (w : nat) (msgs : nat -> list call_result -> smlt_msg)
| DoReduce (w : nat) (input result : nat -> list call_result -> smlt_msg) (op : smlt_reduce_fn_t)
| DoReduceAll (w : nat) (input result : nat -> list call_result -> smlt_msg) (op : smlt_reduce_fn_t)
| DoBarrier.

Definition call_code {C} (ctx : smlt_context C) (i : nat) (c : client_call) (rs : list call_result) : prog call_result :=
  match c with
  | DoBroadcast _ msgs => returning with_msg (smlt_broadcast ctx (Z.of_nat i) (msgs i rs))
  | DoReduce _ input result op => returning with_msg (smlt_reduce ctx (Z.of_nat i) (input i rs) (result i rs) (Some op))
  | DoReduceAll _ input result op => returning with_msg (smlt_reduce_all ctx (Z.of_nat i) (input i rs) (result i rs) (Some op))
  | DoBarrier => returning without_msg (smlt_barrier_wait ctx (Z.of_nat i))
  end.

(** A thread's contribution to a reduction. *)
Definition given (input result : nat -> list call_result -> smlt_msg) op (i : nat) (rs : list call_result) : smlt_msg :=
  contribution (fun i => input i rs) (fun i => result i rs) op i.

(** What a call may return. *)
Definition result_ok (c : client_call) (r : call_result) : Prop :=
  match c with
  | DoBroadcast w _ | DoReduce w _ _ _ | DoReduceAll w _ _ _ => exists m, r = (err_value SMLT_SUCCESS, Some m) /\ msg_ok w m
  | DoBarrier => r = (err_value SMLT_SUCCESS, None)
  end.
Definition earlier : list client_call -> list call_result -> Prop := Forall2 result_ok.

(** The messages of a call have [w] words at every node, whatever it may have got before. *)
Definition call_wf (tr : tree) (args : nat -> list call_result -> Prop) (c : client_call) : Prop :=
  match c with
  | DoBroadcast w msgs => forall i rs, (i < t_len tr)%nat -> args i rs -> msg_ok w (msgs i rs)
  | DoReduce w input result op | DoReduceAll w input result op =>
      forall i rs, (i < t_len tr)%nat -> args i rs -> msg_ok w (given input result op i rs)
  | DoBarrier => True
  end.
Definition script_wf (tr : tree) (prior l : list client_call) : Prop :=
  forall r c, l !! r = Some c -> call_wf tr (fun _ => earlier (prior ++ take r l)) c.

(** What a call promises to the threads that have returned from it, when thread [j] has
    brought [h j]: the root's message; a contribution of the subtree; the same contribution
    for all; and that the root, the subtree, every thread has entered the call. *)
Definition call_post (tr : tree) (c : client_call) (h : nat -> list call_result) (st : nat -> status call_result) : Prop :=
  match c with
  | DoBroadcast _ msgs => forall i r, (i < t_len tr)%nat -> st i = Returned r ->
      st (t_root tr) <> NotEntered /\
      exists m, r = (err_value SMLT_SUCCESS, Some m) /\ payload m = payload (msgs (t_root tr) (h (t_root tr)))
  | DoReduce _ input result op => forall i r, (i < t_len tr)%nat -> st i = Returned r ->
      (forall j, below tr i j -> st j <> NotEntered) /\
      exists m, r = (err_value SMLT_SUCCESS, Some m) /\ from_leaf tr (fun j => given input result op j (h j)) i m
  | DoReduceAll _ input result op => exists words, forall i r, (i < t_len tr)%nat -> st i = Returned r ->
      all_entered (t_len tr) st /\
      exists m, r = (err_value SMLT_SUCCESS, Some m) /\ payload m = words /\
        from_leaf tr (fun j => given input result op j (h j)) (t_root tr) m
  | DoBarrier => forall i r, (i < t_len tr)%nat -> st i = Returned r ->
      all_entered (t_len tr) st /\ r = (err_value SMLT_SUCCESS, None)
  end.

Lemma below_len tr i j : tree_wf tr -> (i < t_len tr)%nat -> below tr i j -> (j < t_len tr)%nat.
Proof. intros Hwf Hi Hb. induction Hb as [|i k y j Hy _ IH]; [done|]. apply IH. by apply (child_par tr Hwf i k). Qed.

(** Only what the threads that have entered bring matters. *)
Lemma call_post_ext tr c h h' st :
  tree_wf tr -> (forall i, (i < t_len tr)%nat -> st i <> NotEntered -> h i = h' i) ->
  call_post tr c h st -> call_post tr c h' st.
Proof.
  intros Hwf Hh.
  assert (Hleaf : forall input result op i m, (i < t_len tr)%nat -> (forall j, below tr i j -> st j <> NotEntered) ->
    from_leaf tr (fun j => given input result op j (h j)) i m -> from_leaf tr (fun j => given input result op j (h' j)) i m).
  { intros input result op i m Hi He (j & Hb & Hl & Hp). exists j. split; [done|]. split; [done|].
    rewrite <- Hh; [done|by eapply below_len|by apply He]. }
  destruct c as [w msgs|w input result op|w input result op|]; simpl.
  - intros Hp i r Hi Er. destruct (Hp i r Hi Er) as (He & m & -> & Hm). split; [done|]. exists m. split; [done|].
    by rewrite <- Hh; [|apply tw_root|].
  - intros Hp i r Hi Er. destruct (Hp i r Hi Er) as (He & m & -> & Hm). split; [done|]. exists m. split; [done|]. by apply Hleaf.
  - intros [ws Hp]. exists ws. intros i r Hi Er. destruct (Hp i r Hi Er) as (He & m & -> & Hm & Hl). split; [done|].
    exists m. split; [done|]. split; [done|]. apply Hleaf; [by apply tw_root| |done].
    intros j Hb. apply He. by eapply below_len; [|apply tw_root|].
  - done.
Qed.

Section client.
Context {C : Type} {HC : ChanOps C} {HT : TreeEdge C}.
Context (tr : tree) (ctx : smlt_context C) (Hc : tree_ctx tr no_msgs ctx) (Hlen : Z.of_nat (t_len tr) < 2 ^ 32).
Abbreviation len := (t_len tr).
Abbreviation nkids i := (length (t_kids tr i)).
Abbreviation net := (tree_net (C := C) tr).
Let Hwf : tree_wf tr := cxr_wf _ _ _ Hc.
(** What the threads may have got from their earlier calls. *)
Context (args : nat -> list call_result -> Prop) (Hsome : forall i, (i < len)%nat -> exists t, args i t).

(** A call that returns what it may. *)
Definition made_after (c : client_call) (cl : call call_result) : Prop :=
  call_ok net (len + 3) cl /\ m_args (cl_mach cl) = args /\
  (forall i t p x, (i < len)%nat -> m_args (cl_mach cl) i t -> m_okp (cl_mach cl) i t p -> m_fin (cl_mach cl) i p ->
     cl_prog cl i t p = PRet x -> result_ok c x).

Section bcast.
Context (w : nat) (msgs : nat -> list call_result -> smlt_msg) (Hm : call_wf tr args (DoBroadcast w msgs)).
Abbreviation at_ t := (fun i => msgs i t).

Definition bcast_call : call call_result :=
  Call (bcast_mach tr msgs args) (fun i t p => returning with_msg (bcast_prog tr (at_ t) ctx i p))
    (fun i => call_code ctx i (DoBroadcast w msgs)) (call_post tr (DoBroadcast w msgs)).

Lemma bcast_ended f i p :
  (i < len)%nat -> bcast_okp tr f i p ->
  (bcast_stage p <> S (nkids i) /\ running (bcast_prog tr f ctx i p)) \/
  (exists m, p = BSend (nkids i) m /\ bcast_prog tr f ctx i p = PRet (err_value SMLT_SUCCESS, m)).
Proof using Hc.
  intros Hi Hok. destruct p as [|j m]; simpl in Hok.
  - left. split; [done|]. destruct Hok as [Hne _]. destruct (has_parent tr Hwf i Hi Hne) as (x & k & He).
    destruct (child_par tr Hwf _ _ _ He) as [_ Hp]. simpl.
    by rewrite (bcast_wait_prog tr f ctx _ Hc i x k Hi Hne Hp).
  - destruct (decide (j < nkids i)%nat) as [D|D]; [left|right].
    + split; [simpl; lia|]. simpl. by rewrite subtree_loop_step by done.
    + exists m. assert (j = nkids i) as -> by lia. split; [done|]. simpl. by rewrite Nat.sub_diag.
Qed.

Lemma bcast_call_after : made_after (DoBroadcast w msgs) bcast_call.
Proof using Hc Hm Hsome.
  split; [split|split; [done|]].
  - simpl. exact (bcast_mach_ok tr Hwf msgs w args Hsome Hm _).
  - intros i t Hi. simpl. f_equal. symmetry. exact (bcast_prog_start tr (at_ t) ctx _ Hc i Hi).
  - intros i t p Hi _ Hok. apply implements_returning.
    + destruct (bcast_ended _ i p Hi Hok) as [[_ Hr]|(m & _ & E)]; [by left|right; by eexists].
    + by apply (bcast_implements tr Hwf (at_ t) ctx _ Hc).
  - intros i t p Hi _ Hok Hf. destruct (bcast_ended _ i p Hi Hok) as [[_ Hr]|(m & -> & _)]; [|by destruct Hf].
    simpl. by destruct (bcast_prog tr (at_ t) ctx i p).
  - intros i t p Hi _ Hok Hf. destruct (bcast_ended _ i p Hi Hok) as [[Hs _]|(m & _ & E)]; [done|].
    simpl. rewrite E. by eexists.
  - intros g a st Hg [Ha Hok] Hst i r Hi Er. pose proof (Hst i Hi) as Hsi. rewrite Er in Hsi. destruct Hsi as [Hf Ep].
    destruct (bcast_ended _ i _ Hi (Hok i Hi)) as [[Hs _]|(m & Em & E)]; [done|].
    rewrite (returning_ret _ _ _ _ E Ep). split; [|exists m; split; [done|]; by eapply (bi_msg _ _ _ Ha)].
    intros En. destruct (bcast_root_sent tr Hwf _ a i Ha Hi) as [->|Hr]; [by rewrite Em; simpl; lia|congruence|].
    pose proof (Hst _ (tw_root _ Hwf)) as Hsr. rewrite En in Hsr. simpl in Hsr. rewrite Hsr in Hr.
    unfold bcast_start in Hr. rewrite decide_True in Hr by done. simpl in Hr. lia.
  - intros i t p x Hi Ht Hok Hf Ep. destruct (bcast_ended _ i p Hi Hok) as [[Hs _]|(m & -> & E)]; [done|].
    rewrite (returning_ret _ _ _ _ E Ep). exists m. split; [done|].
    destruct Hok as (Hs & Hw & _). split; [done|]. rewrite Hw. by apply Hm.
Qed.
End bcast.

(** A collective of the second kind, given what its programs do. *)
Section coll.
Context {X B : Type} (val : X -> list Z) (rcv : X -> list Z -> X -> Prop) (start : nat -> list call_result -> X) (down : bool).
Context (dataok : X -> Prop) (D : (nat -> list call_result) -> nat -> nat -> X -> Prop).
Context (Hstart : forall i t, (i < len)%nat -> args i t -> dataok (start i t))
  (Hbegin : forall g i, (i < len)%nat -> D g i 0%nat (start i (g i))).
Context (Hrcv : forall x z x', dataok x -> dataok z -> rcv x (val z) x' -> dataok x' /\ val x' = val z).
Context (HD : forall g i k y m x z x', child_at tr i k y -> dataok x -> dataok z -> rcv x (val z) x' ->
  D g i m x -> D g y (nkids y) z -> D g i (S m) x').
Context (pr : nat -> coll_pc X -> prog B) (f : B -> call_result) (res : X -> B) (c : client_call).
Abbreviation okp := (coll_okp tr down dataok).
Context (Himpl : forall i p, (i < len)%nat -> okp i p -> implements (C := C) net (coll_act tr val rcv down) pr okp i p).
Context (Hcode : forall i t, (i < len)%nat ->
  returning f (pr i (coll_start tr (fun i => start i t) i)) = call_code ctx i c t).
Context (Hrun : forall i p, (i < len)%nat -> okp i p -> coll_stage tr i p <> coll_top tr down i -> running (pr i p)).
Context (Hret : forall i x, pr i (CDown (if down then nkids i else 0%nat) x) = PRet (res x)).
Context (Hres : forall x, dataok x -> result_ok c (f (res x))).

Definition coll_call : call call_result :=
  Call (coll_mach tr val rcv start down args dataok D) (fun i _ p => returning f (pr i p)) (fun i => call_code ctx i c) (call_post tr c).

Lemma coll_ended i p : okp i p -> coll_stage tr i p = coll_top tr down i ->
  exists x, p = CDown (if down then nkids i else 0%nat) x /\ dataok x /\ pr i p = PRet (res x).
Proof using Hret.
  intros Hok Hf. destruct (coll_fin tr down dataok i p Hok Hf) as [x ->]. exists x. split; [done|].
  split; [apply Hok|apply Hret].
Qed.

Section entered.
Context (g : nat -> list call_result) (a : amach (coll_pc X)) (st : nat -> status call_result).
Context (Ha : coll_inv tr val down dataok (D g) a).
Context (Hst : forall i, (i < len)%nat -> has_status coll_call i (g i) (a_pc a i) (st i)).

Lemma upped_entered j : (j < len)%nat -> pc_upped (a_pc a j) = true -> st j <> NotEntered.
Proof using Hst. intros Hj Hu E. specialize (Hst j Hj). rewrite E in Hst. simpl in Hst. by rewrite Hst in Hu. Qed.

Lemma coll_returned i r : (i < len)%nat -> st i = Returned r ->
  exists x, a_pc a i = CDown (if down then nkids i else 0%nat) x /\ r = f (res x).
Proof using Ha Hst Hret.
  intros Hi Er. specialize (Hst i Hi). rewrite Er in Hst. destruct Hst as [Hf Ep].
  destruct (ci_node _ _ _ _ _ _ Ha i Hi) as [Hok _].
  destruct (coll_ended i _ Hok Hf) as (x & Ex & _ & E). exists x. split; [done|]. exact (returning_ret _ _ _ _ E Ep).
Qed.

(** When one thread has its answer, its subtree has entered; if the answer comes from the
    root, every thread has. *)
Lemma coll_below i r : (i < len)%nat -> st i = Returned r -> forall j, below tr i j -> st j <> NotEntered.
Proof using Ha Hst Hret Hc.
  intros Hi Er j Hb. destruct (coll_returned i r Hi Er) as (x & Ex & _).
  apply upped_entered; [by eapply below_len|]. eapply (upped_below tr Hwf val down dataok D g); [exact Ha|exact Hb|by rewrite Ex].
Qed.
Lemma coll_all_entered i r : (i < len)%nat -> st i = Returned r -> down = true -> all_entered len st.
Proof using Ha Hst Hret Hc.
  intros Hi Er Hd j Hj. destruct (coll_returned i r Hi Er) as (x & Ex & _). apply upped_entered; [done|].
  apply (got_all_upped tr Hwf val down dataok (D g) a i Ha Hi); [by rewrite Ex|done].
Qed.
End entered.

Lemma coll_call_after :
  (forall g a st, coll_inv tr val down dataok (D g) a -> (forall i r, (i < len)%nat -> st i = Returned r ->
     (exists x, a_pc a i = CDown (if down then nkids i else 0%nat) x /\ r = f (res x)) /\
     (forall j, below tr i j -> st j <> NotEntered) /\ (down = true -> all_entered len st)) -> call_post tr c g st) ->
  made_after c coll_call.
Proof using Type*.
  intros Hpost. split; [split|split; [done|]]; cbn [coll_call cl_mach cl_prog cl_code cl_post].
  - by apply coll_mach_ok.
  - exact Hcode.
  - intros i t p Hi _ Hok. apply implements_returning; [|by apply Himpl].
    destruct (decide (coll_stage tr i p = coll_top tr down i)) as [Hf|Hf]; [right|by left; apply Hrun].
    destruct (coll_ended i p Hok Hf) as (x & _ & _ & E). by eexists.
  - intros i t p Hi _ Hok Hf. specialize (Hrun i p Hi Hok Hf). by destruct (pr i p).
  - intros i t p Hi _ Hok Hf. destruct (coll_ended i p Hok Hf) as (x & _ & _ & E). rewrite E. by eexists.
  - intros g a st _ Ha Hst. apply (Hpost g a st Ha). intros i r Hi Er. split; [by apply (coll_returned g a st)|].
    split; [by apply (coll_below g a st Ha Hst i r)|by apply (coll_all_entered g a st Ha Hst i r)].
  - intros i t p x Hi _ Hok Hf Ep. destruct (coll_ended i p Hok Hf) as (z & _ & Hz & E).
    rewrite (returning_ret _ _ _ _ E Ep). by apply Hres.
Qed.

End coll.

Definition barrier_call : call call_result :=
  coll_call no_words any_data (fun _ _ => tt) true always (fun _ => nothing_known)
    (coll_prog tr take_notification (barrier_after ctx) (fun i _ => smlt_broadcast_notify ctx (Z.of_nat i)) (notify_down tr))
    without_msg DoBarrier.

Lemma barrier_call_after : made_after DoBarrier barrier_call.
Proof using Hc Hlen Hsome.
  apply coll_call_after with (res := fun _ => err_value SMLT_SUCCESS); try done.
  - apply (barrier_implements tr ctx Hc Hlen).
  - intros i t Hi. simpl. f_equal. symmetry. exact (barrier_start tr ctx Hc i Hi).
  - intros i p Hi Hok Hf.
    destruct (coll_prog_running tr Hwf no_words true always take_notification (barrier_after ctx)
      (fun i _ => smlt_broadcast_notify ctx (Z.of_nat i)) (notify_down tr) (barrier_up tr ctx Hc) i p Hi Hok) as [Hr|(j & u & ->)].
    + intros u [[Hne _] _]. simpl in Hne. destruct (has_parent tr Hwf i Hi Hne) as (y & k & Hy).
      pose proof (child_par tr Hwf _ _ _ Hy) as [_ Hp]. by rewrite (broadcast_notify_run tr ctx Hc), Hp.
    + done.
    + destruct Hok as [Hj _]. simpl in Hj, Hf. unfold coll_top in Hf.
      destruct (notify_down_ended tr i j u Hj) as [|[-> _]]; [done|lia].
  - intros i u. simpl. unfold notify_down. by rewrite Nat.sub_diag.
  - intros g a st Ha Hst i r Hi Er. destruct (Hst i r Hi Er) as ((x & _ & ->) & _ & He). split; [by apply He|done].
Qed.

Section reduce.
Context (w : nat) (input result : nat -> list call_result -> smlt_msg) (op : smlt_reduce_fn_t).
Context (Hop : call_wf tr args (DoReduce w input result op)).
Abbreviation st := (given input result op).
Abbreviation at_ g := (fun i => st i (g i)).
Abbreviation known := (fun g => reduce_known tr (at_ g)).

Lemma reduce_begins g i : (i < len)%nat -> known g i 0%nat (st i (g i)).
Proof using Type. done. Qed.

Definition reduce_call : call call_result :=
  coll_call payload recv_msg st false (msg_ok w) known
    (coll_prog tr take_message (reduce_after ctx) (fun _ _ => PUndef) (fun _ _ x => PRet (err_value SMLT_SUCCESS, x)))
    with_msg (DoReduce w input result op).

Lemma reduce_call_after : made_after (DoReduce w input result op) reduce_call.
Proof using Hc Hlen Hop Hsome.
  apply coll_call_after with (res := fun x => (err_value SMLT_SUCCESS, x)).
  - intros i t Hi Ht. by apply Hop.
  - exact reduce_begins.
  - apply received_ok.
  - intros g. apply reduce_known_step.
  - apply (reduce_implements tr ctx w Hc Hlen).
  - intros i t Hi. simpl. f_equal. symmetry.
    exact (reduce_start tr ctx (fun i => input i t) (fun i => result i t) op Hc i Hi).
  - intros i p Hi Hok Hf.
    destruct (coll_prog_running tr Hwf payload false (msg_ok w) take_message
      (reduce_after ctx) (fun _ _ => PUndef) (fun _ _ x => PRet (err_value SMLT_SUCCESS, x))
      (reduce_up tr ctx w Hc) i p Hi Hok) as [Hr|(j & x & ->)]; [by intros x [[_ Hd] _]|done|].
    destruct Hok as [Hj _]. simpl in Hj, Hf. unfold coll_top in Hf. lia.
  - done.
  - intros x Hx. by exists x.
  - intros g a s Ha Hst i r Hi Er. destruct (Hst i r Hi Er) as ((x & Ex & ->) & Hb & _). split; [done|].
    exists x. split; [done|]. destruct (ci_node _ _ _ _ _ _ Ha i Hi) as [_ Hk]. rewrite Ex in Hk.
    apply reduce_known_all. by apply Hk.
Qed.

Definition reduce_all_call : call call_result :=
  coll_call payload recv_msg st true (msg_ok w) known
    (coll_prog tr take_message (reduce_all_after ctx) (fun i x => smlt_broadcast ctx (Z.of_nat i) x) (down_with tr ctx))
    with_msg (DoReduceAll w input result op).

Lemma down_with_all i x : down_with tr ctx i (nkids i) x = PRet (err_value SMLT_SUCCESS, x).
Proof using Type. unfold down_with. simpl. by rewrite Nat.sub_diag. Qed.

Lemma reduce_all_call_after : made_after (DoReduceAll w input result op) reduce_all_call.
Proof using Hc Hlen Hop Hsome.
  apply coll_call_after with (res := fun x => (err_value SMLT_SUCCESS, x)).
  - intros i t Hi Ht. by apply Hop.
  - exact reduce_begins.
  - apply received_ok.
  - intros g. apply reduce_known_step.
  - apply (reduce_all_implements tr ctx w Hc Hlen).
  - intros i t Hi. simpl. f_equal. symmetry.
    exact (reduce_all_start tr ctx (fun i => input i t) (fun i => result i t) op Hc i Hi).
  - intros i p Hi Hok Hf.
    destruct (coll_prog_running tr Hwf payload true (msg_ok w) take_message
      (reduce_all_after ctx) (fun i x => smlt_broadcast ctx (Z.of_nat i) x) (down_with tr ctx)
      (reduce_all_up tr ctx w Hc) i p Hi Hok) as [Hr|(j & x & ->)]; [|done|].
    + intros x. by apply (wait_for_running tr ctx w Hc).
    + destruct Hok as [Hj _]. simpl in Hj, Hf. unfold coll_top in Hf.
      destruct (down_with_ended tr ctx i j x Hi Hj) as [|[-> _]]; [done|lia].
  - intros i x. apply down_with_all.
  - intros x Hx. by exists x.
  - intros g a s Ha Hst. exists (payload (coll_data (a_pc a (t_root tr)))). intros i r Hi Er.
    destruct (Hst i r Hi Er) as ((x & Ex & ->) & _ & He). split; [by apply He|]. exists x. split; [done|].
    destruct (got_root tr Hwf payload true (msg_ok w) _ a i Ha Hi) as [Hg Hv]; [by rewrite Ex|].
    rewrite Ex in Hv. simpl in Hv. split; [done|]. unfold from_leaf. rewrite Hv.
    destruct (ci_node _ _ _ _ _ _ Ha _ (tw_root _ Hwf)) as [_ Hkr].
    destruct (a_pc a (t_root tr)) as [| | | | | |jr xr]; try done. simpl in Hkr |- *.
    apply reduce_known_all. by apply Hkr.
Qed.
End reduce.

Definition call_of (c : client_call) : call call_result :=
  match c with
  | DoBroadcast w msgs => bcast_call w msgs
  | DoReduce w input result op => reduce_call w input result op
  | DoReduceAll w input result op => reduce_all_call w input result op
  | DoBarrier => barrier_call
  end.

Lemma call_of_after c : call_wf tr args c -> made_after c (call_of c).
Proof using Hc Hlen Hsome.
  destruct c; intros Hw; [by apply bcast_call_after|by apply reduce_call_after|by apply reduce_all_call_after|apply barrier_call_after].
Qed.

Lemma call_of_is c :
  m_args (cl_mach (call_of c)) = args /\ cl_post (call_of c) = call_post tr c /\ cl_code (call_of c) = fun i => call_code ctx i c.
Proof using Type. by destruct c. Qed.

Lemma call_has_result c : (0 < len)%nat -> call_wf tr args c -> exists x, result_ok c x.
Proof using Hsome.
  intros Hlt Hw. destruct (Hsome 0%nat Hlt) as [rs Hrs].
  destruct c; simpl in *; (by eexists) || (eexists; eexists; split; [reflexivity|by apply (Hw 0%nat rs Hlt)]).
Qed.
End client.

(** The threads' stages in a call. *)
Definition call_top (tr : tree) (i : nat) (c : client_call) : nat :=
  let n := length (t_kids tr i) in
  match c with DoBroadcast _ _ => S n | DoReduce _ _ _ _ => n + 4 | DoReduceAll _ _ _ _ | DoBarrier => n + 4 + n end%nat.

(** Every node makes the calls [l], one after another. *)
Definition client_sys {C} (tr : tree) (ctx : smlt_context C) (l : list client_call) : sys (smlt_context C) (list call_result) :=
  Sys (tab (t_len tr) (fun i => in_turn [] (call_code ctx i <$> l))) ctx.

(** The results [F] of the calls the threads have returned from: a thread has returned from
    all of them, or is in the next one; and each call keeps its promise, whatever the
    threads have brought to it. *)
Definition client_state {C} (tr : tree) (ctx : smlt_context C) (l : list client_call)
    (s : sys (smlt_context C) (list call_result)) (F : nat -> list call_result) : Prop :=
  (forall i p, sy_threads s !! i = Some p ->
     (length (F i) = length l /\ p = PRet (F i)) \/
     (exists p', (length (F i) < length l)%nat /\ running p' /\
        p = pbind (fun x => in_turn (F i ++ [x]) (call_code ctx i <$> drop (S (length (F i))) l)) p')) /\
  (forall r c, l !! r = Some c -> call_post tr c (fun i => take r (F i)) (fun i => status_at r (Some (F i)))).

Section sequences.
Context {C : Type} {HC : ChanOps C} {HT : TreeEdge C}.
Context (tr : tree) (ctx : smlt_context C) (Hc : tree_ctx tr no_msgs ctx) (Hlen : Z.of_nat (t_len tr) < 2 ^ 32).
Abbreviation net := (tree_net (C := C) tr).

(** The call [c], made after [prior]. *)
Definition after (prior : list client_call) (c : client_call) : call call_result := call_of tr ctx (fun _ => earlier prior) c.

Lemma after_is prior c :
  call_is (call_code ctx) (fun _ => result_ok) (call_post tr) (call_top tr) after prior c.
Proof using Type. split; by destruct c. Qed.

Lemma after_ok prior c :
  (forall i, (i < t_len tr)%nat -> exists rs, earlier prior rs) -> call_wf tr (fun _ => earlier prior) c ->
  call_ok net (t_len tr + 3) (after prior c) /\ (forall i, (i < t_len tr)%nat -> exists x, result_ok c x) /\
  (forall i t p x, (i < t_len tr)%nat -> m_args (cl_mach (after prior c)) i t -> m_okp (cl_mach (after prior c)) i t p ->
     m_fin (cl_mach (after prior c)) i p -> cl_prog (after prior c) i t p = PRet x -> result_ok c x).
Proof using Hc Hlen.
  intros Hp Hw. destruct (call_of_after tr ctx Hc Hlen (fun _ => earlier prior) Hp c Hw) as (Hok & _ & Hr).
  split; [done|]. split; [|done]. intros i Hi. apply (call_has_result tr (fun _ => earlier prior) Hp); [lia|done].
Qed.

Lemma after_ext c h h' st :
  (forall i, (i < t_len tr)%nat -> st i <> NotEntered -> h i = h' i) -> call_post tr c h st -> call_post tr c h' st.
Proof using Hc. intros Hh. by apply call_post_ext; [exact (cxr_wf _ _ _ Hc)|]. Qed.
End sequences.

(** [C10] Collective calls do not interfere: let every node of a tree of empty channels make
    the same sequence of broadcasts, reductions and barriers, each going on to its next call
    as soon as it has returned, and computing the messages it passes from what its earlier
    calls have left in its buffers.  Under every schedule no call panics or runs into
    undefined behaviour, and every call gives the threads that have returned from it what it
    gives when it is the only one, although messages of several calls are under way in the
    same channels: the message the root has passed, a contribution, the same contribution
    for all, and the separation of the barrier - whoever has returned from it, all the
    others have returned from the calls before it.  Once every node has run in enough
    rounds all calls have returned, and the channels are empty. *)
Theorem calls_in_order {C} {HC : ChanOps C} {HT : TreeEdge C} tr (ctx : smlt_context C) l :
  tree_ctx tr no_msgs ctx -> Z.of_nat (t_len tr) < 2 ^ 32 -> script_wf tr [] l ->
  (forall sched, Forall (fun i => (i < t_len tr)%nat) sched ->
     exists F, client_state tr ctx l (sys_run Z.of_nat (client_sys tr ctx l) sched) F) /\
  (forall rounds, Forall (fair_round (t_len tr) (t_len tr + 3)) rounds ->
     (sum_upto (t_len tr) (fun i => sum_list (call_top tr i <$> l)) < length rounds)%nat ->
     let s := sys_run Z.of_nat (client_sys tr ctx l) (concat rounds) in
     tree_ctx tr no_msgs (sy_store s) /\
     exists F, client_state tr ctx l s F /\
       forall i, (i < t_len tr)%nat -> sy_threads s !! i = Some (PRet (F i)) /\ length (F i) = length l).
Proof.
  intros Hc Hlen Hl. pose proof (cxr_wf _ _ _ Hc) as Hwf.
  pose proof (script_promise (tree_net tr) (t_len tr + 3) (tree_ends tr Hwf) (call_code ctx) (fun _ => result_ok)
    (fun prior => call_wf tr (fun _ => earlier prior)) (call_post tr) (call_top tr) (after tr ctx) (after_is tr ctx)
    (after_ok tr ctx Hc Hlen) (after_ext tr ctx Hc) l Hl ctx Hc) as Hp.
  pose proof (script_end (tree_net tr) (t_len tr + 3) (tree_ends tr Hwf) (call_code ctx) (fun _ => result_ok)
    (fun prior => call_wf tr (fun _ => earlier prior)) (call_post tr) (call_top tr) (after tr ctx) (after_is tr ctx)
    (after_ok tr ctx Hc Hlen) (after_ext tr ctx Hc) l Hl ctx Hc) as He.
  split; [exact Hp|]. intros rounds Hr Hn s. destruct (He rounds Hr Hn) as ((q & Hq & Hqe & _) & HF). split; [|exact HF].
  eapply tree_ctx_empty; [exact Hq|]. intros x k y Hy. apply (Hqe x Src); [apply Hy|].
  split; [apply Hy|]. split; [by eapply child_lt|done].
Qed.

(** A broadcast, a barrier and a reduction of the message just broadcast, on three nodes. *)
Definition first_buffer (rs : list call_result) : smlt_msg :=
  match rs with (_, Some m) :: _ => m | _ => Msg 1 1 [0] end.
Definition three_calls : list client_call :=
  [DoBroadcast 1 (fun i _ => bcast_bufs i); DoBarrier;
   DoReduceAll 1 (fun _ rs => first_buffer rs) (fun _ _ => Msg 1 1 [0]) add_op].

Lemma three_calls_wf tr : script_wf tr [] three_calls.
Proof.
  intros [|[|[|r]]] c [= <-]; simpl.
  - intros i rs _ _. repeat split; vm_compute; congruence.
  - done.
  - intros i rs _ _. repeat split; vm_compute; congruence.
Qed.

Lemma three_results {A} (l : list A) : length l = 3%nat -> exists x y z, l = [x; y; z].
Proof. intros H. destruct l as [|x [|y [|z [|]]]]; try discriminate H. by exists x, y, z. Qed.

(** The threads' results. *)
Lemma three_calls_end {C} tr (ctx : smlt_context C) s F :
  tree_wf tr -> client_state tr ctx three_calls s F -> (forall i, (i < t_len tr)%nat -> length (F i) = 3%nat) ->
  forall i, (i < t_len tr)%nat -> exists m m',
    F i = [(err_value SMLT_SUCCESS, Some m); (err_value SMLT_SUCCESS, None); (err_value SMLT_SUCCESS, Some m')] /\
    payload m = payload (bcast_bufs (t_root tr)) /\
    payload m' = [hd 0 (payload (bcast_bufs (t_root tr)))].
Proof.
  intros Hwf [_ HF] Hlen.
  assert (Hb : forall i x l, (i < t_len tr)%nat -> F i = x :: l -> exists m, x = (err_value SMLT_SUCCESS, Some m) /\
    payload m = payload (bcast_bufs (t_root tr))).
  { intros i x l Hi E. apply (HF 0%nat _ eq_refl i x Hi). simpl. by rewrite E. }
  intros i Hi. destruct (three_results (F i) (Hlen i Hi)) as (x & y & z & E).
  destruct (Hb i _ _ Hi E) as (m & -> & Hm).
  destruct (HF 1%nat _ eq_refl i y Hi) as [_ ->]; [simpl; by rewrite E|].
  destruct (HF 2%nat _ eq_refl) as [ws Hw]. destruct (Hw i z Hi) as (_ & m' & -> & _ & (j & Hj & _ & Hp)); [simpl; by rewrite E|].
  exists m, m'. split; [done|]. split; [done|]. rewrite Hp.
  pose proof (below_len tr _ j Hwf (tw_root _ Hwf) Hj) as Hjl.
  destruct (three_results (F j) (Hlen j Hjl)) as (xj & yj & zj & Ej).
  destruct (Hb j _ _ Hjl Ej) as (mj & Exj & Hmj). rewrite Ej, Exj.
  unfold payload in Hmj |- *. simpl in Hmj |- *.
  destruct (Z.to_nat (words mj)), (msg_data mj); simplify_eq Hmj. by intros ->.
Qed.

Lemma calls_in_order_witness :
  exists t, smlt_topology_create (fun _ => true) 3 None "bin" = Ret (err_value SMLT_SUCCESS, t) /\
  exists ctx w', create_three_nodes t = (Ret (err_value SMLT_SUCCESS, Some ctx), w') /\
    exists m m', sy_threads (sys_run Z.of_nat (client_sys (bin_tree 3) ctx three_calls)
                (concat (replicate 40 (concat (replicate 7 [1; 2; 0]%nat))))) !! 2%nat =
              Some (PRet [(err_value SMLT_SUCCESS, Some m); (err_value SMLT_SUCCESS, None); (err_value SMLT_SUCCESS, Some m')]) /\
              payload m = [7] /\ payload m' = [7].
Proof.
  destruct three_nodes as (t & E & ctx & w' & Ec & Hc).
  exists t. split; [exact E|]. exists ctx, w'. split; [exact Ec|].
  destruct (calls_in_order (bin_tree 3) ctx three_calls Hc ltac:(done) (three_calls_wf _)) as [_ Hf].
  destruct (Hf (replicate 40 (concat (replicate 7 [1; 2; 0]%nat)))) as [_ (F & HF & Hdone)].
  - apply Forall_replicate. split; [repeat constructor; simpl; lia|].
    intros i Hi. simpl in Hi. destruct i as [|[|[|i]]]; [..|lia]; vm_compute; lia.
  - vm_compute. lia.
  - assert (Hi : (2 < t_len (bin_tree 3))%nat) by (simpl; lia).
    destruct (three_calls_end (bin_tree 3) ctx _ F (cxr_wf _ _ _ Hc) HF (fun i Hi => proj2 (Hdone i Hi)) 2%nat Hi)
      as (m & m' & EF & Hm & Hm').
    exists m, m'. rewrite <- EF. split; [exact (proj1 (Hdone 2%nat Hi))|]. split; [exact Hm|exact Hm'].
Defined.
