(* ===== verification/Peers.v ===== *)
(** The partners of the dissemination barriers: in round [r] thread [i] signals the thread
    [2^r] further on and waits for the one [2^r] before, around the ring of [n]. *)
From S2P Require Import Prelude.

Section peers.
Context (n : nat) (Hn : (1 < n)%nat).

Definition rounds_of : nat := Z.to_nat (Z.log2_up (Z.of_nat n)).
Definition fwd (i r : nat) : nat := ((i + 2 ^ r) mod n)%nat.
Definition bwd (i r : nat) : nat := ((i + (n - 2 ^ r)) mod n)%nat.

Lemma pow2_Z r : Z.of_nat (2 ^ r) = 2 ^ Z.of_nat r.
Proof. by rewrite Nat2Z.inj_pow. Qed.

Lemma round_step r : (r < rounds_of)%nat -> (0 < 2 ^ r < n)%nat.
Proof using Hn.
  intros Hr. unfold rounds_of in Hr. destruct (Z.log2_up_spec (Z.of_nat n) ltac:(lia)) as [Hlo _].
  assert (H : 2 ^ Z.of_nat r <= 2 ^ Z.pred (Z.log2_up (Z.of_nat n))) by (apply Z.pow_le_mono_r; lia).
  rewrite <- pow2_Z in H. assert (0 < 2 ^ r)%nat by (apply Nat.neq_0_lt_0, Nat.pow_nonzero; lia). lia.
Qed.

Lemma rounds_cover : (n <= 2 ^ rounds_of)%nat.
Proof using Hn.
  destruct (Z.log2_up_spec (Z.of_nat n) ltac:(lia)) as [_ Hhi]. unfold rounds_of.
  pose proof (Z.log2_up_nonneg (Z.of_nat n)). apply Nat2Z.inj_le. rewrite pow2_Z, Z2Nat.id by lia. done.
Qed.

Lemma mod_cases a : (a < 2 * n)%nat -> (a mod n)%nat = if decide (a < n)%nat then a else (a - n)%nat.
Proof using Hn.
  intros Ha. case_decide; [by apply Nat.mod_small|].
  replace a with ((a - n) + 1 * n)%nat at 1 by lia. rewrite Nat.Div0.mod_add. apply Nat.mod_small. lia.
Qed.

Lemma fwd_cases i r :
  (i < n)%nat -> (r < rounds_of)%nat -> fwd i r = if decide (i + 2 ^ r < n)%nat then (i + 2 ^ r)%nat else (i + 2 ^ r - n)%nat.
Proof using Hn. intros Hi Hr. pose proof (round_step r Hr). apply mod_cases. lia. Qed.
Lemma bwd_cases i r :
  (i < n)%nat -> (r < rounds_of)%nat -> bwd i r = if decide (i < 2 ^ r)%nat then (i + n - 2 ^ r)%nat else (i - 2 ^ r)%nat.
Proof using Hn.
  intros Hi Hr. pose proof (round_step r Hr). unfold bwd. rewrite mod_cases by lia. repeat case_decide; lia.
Qed.

Ltac peers := intros; rewrite ?fwd_cases, ?bwd_cases by (done || lia); repeat case_decide; lia.

Lemma fwd_lt i r : (fwd i r < n)%nat.
Proof using Hn. apply Nat.mod_upper_bound. lia. Qed.
Lemma bwd_lt i r : (bwd i r < n)%nat.
Proof using Hn. apply Nat.mod_upper_bound. lia. Qed.
Lemma fwd_ne i r : (i < n)%nat -> (r < rounds_of)%nat -> fwd i r <> i.
Proof using Hn. intros Hi Hr. pose proof (round_step r Hr). peers. Qed.
Lemma bwd_ne i r : (i < n)%nat -> (r < rounds_of)%nat -> bwd i r <> i.
Proof using Hn. intros Hi Hr. pose proof (round_step r Hr). peers. Qed.
Lemma fwd_bwd i r : (i < n)%nat -> (r < rounds_of)%nat -> fwd (bwd i r) r = i.
Proof using Hn.
  intros Hi Hr. pose proof (round_step r Hr). pose proof (bwd_lt i r). rewrite fwd_cases by done.
  rewrite bwd_cases by done. repeat case_decide; lia.
Qed.
Lemma bwd_fwd i r : (i < n)%nat -> (r < rounds_of)%nat -> bwd (fwd i r) r = i.
Proof using Hn.
  intros Hi Hr. pose proof (round_step r Hr). pose proof (fwd_lt i r). rewrite bwd_cases by done.
  rewrite fwd_cases by done. repeat case_decide; lia.
Qed.
Lemma fwd_inj i r r' :
  (i < n)%nat -> (r < rounds_of)%nat -> (r' < rounds_of)%nat -> fwd i r = fwd i r' -> r = r'.
Proof using Hn.
  intros Hi Hr Hr'. pose proof (round_step r Hr). pose proof (round_step r' Hr').
  rewrite !fwd_cases by done. intros E. apply (Nat.pow_inj_r 2); [lia|].
  repeat case_decide; lia.
Qed.

(** [i - m], around the ring. *)
Definition back (i m : nat) : nat := ((i + (n - m)) mod n)%nat.
Lemma back_bwd i r m :
  (i < n)%nat -> (r < rounds_of)%nat -> (2 ^ r + m < n)%nat -> back (bwd i r) m = back i (2 ^ r + m).
Proof using Hn.
  intros Hi Hr Hm. pose proof (round_step r Hr). pose proof (bwd_lt i r). unfold back.
  rewrite !mod_cases by lia. rewrite bwd_cases by done. repeat case_decide; lia.
Qed.
Lemma back_any i j : (i < n)%nat -> (j < n)%nat -> exists m, (m < n)%nat /\ back i m = j.
Proof using Hn.
  intros Hi Hj. exists ((i + (n - j)) mod n)%nat. split; [apply Nat.mod_upper_bound; lia|].
  unfold back. rewrite (mod_cases (i + (n - j))) by lia. case_decide; rewrite mod_cases by lia; case_decide; lia.
Qed.
End peers.
