(* ===== verification/Dissem.v ===== *)
(** The dissemination barrier ([smlt_dissem_barrier_*] of [src/barrier.c]): a channel for
    every pair of threads, and log2 n rounds in which a thread notifies the thread [2^r]
    further on and waits for the one [2^r] before. *)
From S2P Require Import Prelude Errors Message Platform Fifo Pair UmpQueue UmpQueuepair.
From S2P Require Import Queuepair Channel Edge Topology Context Process Layers Peers.

(** ** Data *)
Record smlt_dissem_barrier := Dissem {
  db_num_threads : Z;
  db_rounds : Z;
  db_cores : list Z;
  db_channels : list (option Z);   (** pointers to channels, by row and column *)
}.

(** The barrier and the channel structures it points to; a structure whose channel could
    not be created is [None]. *)
Record dissem_mem (C : Type) := DM { dm_bar : smlt_dissem_barrier; dm_chans : list (option C) }.
Arguments DM {C}. Arguments dm_bar {C}. Arguments dm_chans {C}.

(** ** Initialisation *)
Section init.
Context {C W : Type}.
(** [smlt_channel_create] from one core to one core, and whether the k-th allocation of
    the barrier itself succeeds. *)
Context (channel_create : Z -> Z -> M W (Z * option C)) (alloc_ok : nat -> bool).

Record di_st := DI { di_allocs : nat; di_world : W; di_mem : dissem_mem C }.

Definition di_alloc : M di_st bool := fun s =>
  (Ret (alloc_ok (di_allocs s)), DI (S (di_allocs s)) (di_world s) (di_mem s)).
Definition di_in_world {A} (m : M W A) : M di_st A :=
  zoom di_world (fun w s => DI (di_allocs s) w (di_mem s)) m.
Definition di_set_mem (m : dissem_mem C) (s : di_st) : di_st := DI (di_allocs s) (di_world s) m.

(** [b->channels[i] = p]. *)
Definition di_set_pointer (i : Z) (p : option Z) : M di_st unit :=
  m ← gets di_mem;
  let b := dm_bar m in
  a ← defined (arr_set (db_channels b) i p);
  modify (di_set_mem (DM (Dissem (db_num_threads b) (db_rounds b) (db_cores b) a) (dm_chans m))).
Definition di_set_chan (p : Z) (c : option C) : M di_st unit :=
  m ← gets di_mem;
  a ← defined (arr_set (dm_chans m) p c);
  modify (di_set_mem (DM (dm_bar m) a)).
(** A zeroed channel structure. *)
Definition di_new_chan : M di_st Z :=
  m ← gets di_mem;
  _ ← modify (di_set_mem (DM (dm_bar m) (dm_chans m ++ [None])));
  mret (Z.of_nat (length (dm_chans m))).

(** The channel of the pair [(i, j)]; [Some err] is a [return err]. *)
Definition dissem_pair (cores : list Z) (num_cores i j : Z) : M di_st (option Z) :=
  ok ← di_alloc;
  p ← di_new_chan;
  _ ← di_set_pointer (u32 (u32 (i * num_cores) + j)) (if ok : bool then Some p else None);
  src ← defined (arr_get cores i);
  dst ← defined (arr_get cores j);
  _ ← assert_ ok;
  r ← di_in_world (channel_create src dst);
  _ ← di_set_chan p r.2;
  if smlt_err_is_fail r.1 then mret (Some (err_value SMLT_ERR_CHAN_CREATE)) else
  _ ← di_set_pointer (u32 (u32 (j * num_cores) + i)) (Some p);
  mret None.

(** The error, and the barrier at [*bar].  The results of the three allocations are not
    tested before they are written to; [ceil(log2(0))] has no integer value. *)
Definition smlt_dissem_barrier_init (cores : list Z) (num_cores : Z) (w : W)
  : outcome (Z * dissem_mem C) * W :=
  let n := Z.to_nat num_cores in
  let '(o, s) :=
    (b ← di_alloc; c ← di_alloc; a ← di_alloc;
     _ ← (if b && c && a then mret tt else undef);
     e ← mfor_ret n 0 (fun i => mfor_ret (n - Z.to_nat i) i (fun j => dissem_pair cores num_cores i j));
     m ← gets di_mem;
     match e with
     | Some err => mret (err, m)
     | None =>
         if num_cores =? 0 then undef else
         let b := dm_bar m in
         mret (err_value SMLT_SUCCESS,
               DM (Dissem (db_num_threads b) (Z.log2_up num_cores) (db_cores b) (db_channels b)) (dm_chans m))
     end)
    (DI 0 w (DM (Dissem num_cores 0 (take n cores) (replicate (n * n) None)) [])) in
  (o, di_world s).
End init.

(** ** Destruction

    The barrier, its core array and its pointer array are given by address; the channels
    behind the structures that are freed are not destroyed. *)
Definition smlt_dissem_barrier_destroy {S} (platform_free : option Z -> M S unit)
    (bar_p cores_p channels_p : Z) (bar : smlt_dissem_barrier) : M S Z :=
  let n := db_num_threads bar in
  _ ← mfor (Z.to_nat n) 0 (fun i => mfor (Z.to_nat (n - i)) i (fun j =>
        p ← defined (arr_get (db_channels bar) (i * n + j));
        platform_free p));
  _ ← platform_free (Some cores_p);
  _ ← platform_free (Some channels_p);
  _ ← platform_free (Some bar_p);
  mret (err_value SMLT_SUCCESS).

(** ** Waiting *)

(** [for (i < num_threads) if (cores[i] == self) my_id = i]: the last position. *)
Fixpoint find_core (l : list Z) (self i my_id : Z) : Z :=
  match l with
  | [] => my_id
  | c :: l' => find_core l' self (i + 1) (if c =? self then i else my_id)
  end.

(** [while (peer < 0) peer = peer + num_threads;] *)
Fixpoint wrap_peer (fuel : nat) (num_threads peer : Z) : Z :=
  match fuel with
  | O => peer
  | S f => if peer <? 0 then wrap_peer f num_threads (peer + num_threads) else peer
  end.

Section wait.
Context (bar : smlt_dissem_barrier).

Fixpoint dissem_rounds (k : nat) (my_id step : Z) : prog Z :=
  match k with
  | O => mret (err_value SMLT_SUCCESS)
  | S k' =>
      let n := db_num_threads bar in
      err ← pev (EvNotify (my_id, Z.rem (my_id + step) n));
      if smlt_err_is_fail err then mret err else
      err ← pev (EvRecvNotification (my_id, wrap_peer (Z.to_nat step) n (my_id - step)));
      if smlt_err_is_fail err then mret err else
      dissem_rounds k' my_id (step * 2)
  end.

Definition smlt_dissem_barrier_wait (self : Z) : prog Z :=
  dissem_rounds (Z.to_nat (db_rounds bar)) (find_core (db_cores bar) self 0 0) 1.
End wait.

(** [bar->channels[i * num_threads + j]]. *)
#[export] Instance dissem_store C : ChanStore C (dissem_mem C) := fun A r m s =>
  match arr_get (db_channels (dm_bar s)) (r.1 * db_num_threads (dm_bar s) + r.2) with
  | Some (Some p) =>
      match arr_get (dm_chans s) p with
      | Some (Some c) =>
          let '(o, c') := m c in (o, DM (dm_bar s) (<[Z.to_nat p := Some c']> (dm_chans s)))
      | _ => (Undef, s)
      end
  | _ => (Undef, s)
  end.

(** ** The pairs as a network

    The channel of the threads [x < k] is owned by [x]. *)
Section net.
Context {C : Type} {HC : ChanOps C} {HT : TreeEdge C} (n : nat) (cores : list Z).

Definition core_of (i : nat) : Z := default 0 (cores !! i).
Definition dissem_end (i : nat) (d : side) (x k : nat) : Prop :=
  (x < k < n)%nat /\ i = match d with Src => x | Dst => k end.
Definition dissem_ref (i x k : nat) : chan_ref :=
  if decide (i = x) then (Z.of_nat x, Z.of_nat k) else (Z.of_nat k, Z.of_nat x).

(** The pointers of a pair, at both of its places, lead to its channel; different pairs
    have different channels. *)
Record pair_ok (q : queues) (s : dissem_mem C) (ptr : nat -> nat -> nat) (x k : nat) : Prop := {
  po_row : db_channels (dm_bar s) !! (x * n + k)%nat = Some (Some (Z.of_nat (ptr x k)));
  po_col : db_channels (dm_bar s) !! (k * n + x)%nat = Some (Some (Z.of_nat (ptr x k)));
  po_chan : exists c, dm_chans s !! ptr x k = Some (Some c) /\ edge (core_of x) c Src (q Src x k) (q Dst x k);
}.
Record dissem_ok (q : queues) (s : dissem_mem C) : Prop := {
  do_cores : length cores = n /\ NoDup cores;
  do_bar : exists a, dm_bar s = Dissem (Z.of_nat n) (Z.log2_up (Z.of_nat n)) cores a;
  do_pairs : exists ptr, (forall x k, (x < k < n)%nat -> pair_ok q s ptr x k) /\
    (forall x k x' k', (x < k < n)%nat -> (x' < k' < n)%nat -> ptr x k = ptr x' k' -> x = x' /\ k = k');
}.

Lemma core_of_inj q s i j : dissem_ok q s -> (i < n)%nat -> (j < n)%nat -> core_of i = core_of j -> i = j.
Proof using Type.
  intros [[Hl Hnd] _ _] Hi Hj. unfold core_of.
  destruct (lookup_lt_is_Some_2 cores i ltac:(lia)) as [a Ha], (lookup_lt_is_Some_2 cores j ltac:(lia)) as [b Hb].
  rewrite Ha, Hb. simpl. intros <-. by eapply NoDup_lookup.
Qed.

Lemma dissem_end_side q s i d x k :
  dissem_ok q s -> dissem_end i d x k -> chan_end (core_of x) (core_of i) = d.
Proof using Type.
  intros Hs [Hxk ->]. unfold chan_end. destruct d; [by rewrite Z.eqb_refl|].
  destruct (Z.eqb_spec (core_of x) (core_of k)) as [E|]; [|done].
  apply (core_of_inj q s) in E; [lia|done|lia..].
Qed.

Lemma dissem_with q s i d x k :
  dissem_ok q s -> dissem_end i d x k ->
  exists c, edge (core_of x) c (chan_end (core_of x) (core_of i)) (q d x k) (q (peer d) x k) /\
    forall A (m : M C A) r c' v v', m c = (r, c') ->
      edge (core_of x) c' (chan_end (core_of x) (core_of i)) v v' ->
      exists s', with_chan (dissem_ref i x k) m s = (r, s') /\
        dissem_ok (q_set d x k v (q_set (peer d) x k v' q)) s'.
Proof using Type.
  intros Hs He. rewrite (dissem_end_side q s i d x k Hs He). destruct He as [Hxk Hi].
  destruct Hs as [Hcs (a & Hbar) (ptr & Hp & Hinj)]. destruct (Hp x k Hxk) as [P1 P2 (c & Hc & Ec)].
  exists c. split; [destruct d; [done|by apply (edge_flip _ _ Src)]|].
  intros A m r c' v v' E Ec'.
  assert (Hw : with_chan (dissem_ref i x k) m s = (r, DM (dm_bar s) (<[ptr x k := Some c']> (dm_chans s)))).
  { unfold with_chan, dissem_store. rewrite Hbar in *. simpl in *.
    assert (Hidx : exists y, arr_get a ((dissem_ref i x k).1 * Z.of_nat n + (dissem_ref i x k).2) = y /\
      y = Some (Some (Z.of_nat (ptr x k)))).
    { eexists. split; [done|]. unfold dissem_ref. case_decide; simpl;
        rewrite <- Nat2Z.inj_mul, <- Nat2Z.inj_add, arr_get_nat; done. }
    destruct Hidx as (y & -> & ->). rewrite arr_get_nat, Hc, E, Nat2Z.id. done. }
  rewrite Hw. eexists. split; [done|]. split; [done|by exists a|]. exists ptr. split; [|done].
  intros x' k' Hxk'. destruct (Hp x' k' Hxk') as [R1 R2 (c0 & Hc0 & E0)]. split; simpl; try done.
  destruct (decide (x' = x /\ k' = k)) as [[-> ->]|Dne].
  - exists c'. split; [apply list_lookup_insert_eq; by eapply lookup_lt_Some|]. destruct d.
    + rewrite q_set_same, q_set_other, q_set_same by (intuition congruence). done.
    + rewrite q_set_other, q_set_same, q_set_same by (intuition congruence). by apply (edge_flip _ _ Dst).
  - exists c0. split.
    + rewrite list_lookup_insert_ne; [done|]. intros E'. apply Dne.
      destruct (Hinj x k x' k' Hxk Hxk' E') as [-> ->]. done.
    + by rewrite !q_set_other by (intuition congruence).
Qed.

Lemma dissem_drained q s :
  dissem_ok q s -> (forall x k, (x < k < n)%nat -> q Src x k = [] /\ q Dst x k = []) -> dissem_ok no_msgs s.
Proof using Type.
  intros [H1 H2 (ptr & H3 & H4)] Hq. split; [done..|]. exists ptr. split; [|done].
  intros x k Hxk. destruct (H3 x k Hxk) as [P1 P2 (c & Hc & Ec)]. split; try done.
  exists c. split; [done|]. destruct (Hq x k Hxk) as [E1 E2]. by rewrite E1, E2 in Ec.
Qed.

Definition dissem_net : network C (dissem_mem C).
Proof.
  refine {| n_len := n; n_id := core_of; n_end := dissem_end; n_ref := dissem_ref; n_ok := dissem_ok |}.
  - intros q q' s Hq [H1 H2 (ptr & H3 & H4)]. split; [done..|]. exists ptr. split; [|done].
    intros x k Hxk. destruct (H3 x k Hxk) as [P1 P2 (c & Hc & Ec)]. split; try done.
    exists c. split; [done|]. by rewrite <- !Hq.
  - intros q s i d x k Hs He. destruct (dissem_with q s i d x k Hs He) as (c & Ec & Hw).
    by exists (core_of x), c.
Defined.
End net.

(** ** Peers *)
Section peers.
Context (n : nat) (Hn : (1 < n)%nat).
Abbreviation rounds_of := (rounds_of n).
Abbreviation fwd := (fwd n).
Abbreviation bwd := (bwd n).

(** The peers as the code computes them. *)
Lemma send_peer i r :
  (i < n)%nat -> (r < rounds_of)%nat -> Z.rem (Z.of_nat i + 2 ^ Z.of_nat r) (Z.of_nat n) = Z.of_nat (fwd i r).
Proof using Hn.
  intros Hi Hr. pose proof (round_step n Hn r Hr). rewrite <- pow2_Z, Z.rem_mod_nonneg by lia.
  unfold fwd. by rewrite Nat2Z.inj_mod, Nat2Z.inj_add.
Qed.
Lemma recv_peer i r :
  (i < n)%nat -> (r < rounds_of)%nat ->
  wrap_peer (Z.to_nat (2 ^ Z.of_nat r)) (Z.of_nat n) (Z.of_nat i - 2 ^ Z.of_nat r) = Z.of_nat (bwd i r).
Proof using Hn.
  intros Hi Hr. pose proof (round_step n Hn r Hr). rewrite <- pow2_Z, Nat2Z.id.
  destruct (2 ^ r)%nat as [|s] eqn:Es; [lia|]. cbn [wrap_peer]. rewrite (bwd_cases n Hn), Es by done.
  case_decide; destruct (Z.ltb_spec (Z.of_nat i - Z.of_nat (S s)) 0); try lia.
  destruct s; cbn [wrap_peer]; [lia|].
  destruct (Z.ltb_spec (Z.of_nat i - Z.of_nat (S (S s)) + Z.of_nat n) 0); lia.
Qed.
End peers.

Lemma find_core_at l i k my :
  NoDup l -> (i < length l)%nat -> find_core l (default 0 (l !! i)) k my = k + Z.of_nat i.
Proof.
  assert (Hnone : forall l self k my, ~ self ∈ l -> find_core l self k my = my).
  { induction l0 as [|c l0 IH]; intros self k0 my0 Hs; simpl; [done|].
    apply not_elem_of_cons in Hs as [Hne Hs]. destruct (Z.eqb_spec c self); [congruence|]. by apply IH. }
  revert i k my. induction l as [|c l IH]; intros i k my Hnd Hi; simpl in *; [lia|].
  apply NoDup_cons in Hnd as [Hc Hnd]. destruct i as [|i]; simpl.
  - rewrite Z.eqb_refl, Hnone by done. lia.
  - rewrite IH by (done || lia). lia.
Qed.

(** ** The abstract thread *)

(** About to notify, or waiting, in round [r]. *)
Inductive dissem_pc := DSend (r : nat) | DRecv (r : nat).

Section machine.
Context (n : nat) (Hn : (1 < n)%nat).
Abbreviation R := (rounds_of n).
Abbreviation fwd := (fwd n).
Abbreviation bwd := (bwd n).

(** The end of the pair at which [i] talks to [p], and what is under way from [i] to [p]. *)
Definition side_of (i p : nat) : side := if decide (i < p)%nat then Src else Dst.
Definition under_way (q : queues) (i p : nat) : list (list Z) := q (side_of i p) (i `min` p)%nat (i `max` p)%nat.

Definition dissem_act (i : nat) (p : dissem_pc) : action dissem_pc :=
  match p with
  | DSend r =>
      if decide (r < R)%nat then
        ASend (side_of i (fwd i r)) (i `min` fwd i r)%nat (i `max` fwd i r)%nat [] (DRecv r)
      else AStop
  | DRecv r =>
      ARecv (side_of i (bwd i r)) (i `min` bwd i r)%nat (i `max` bwd i r)%nat (fun _ p' => p' = DSend (S r))
  end.
Definition dissem_stage (p : dissem_pc) : nat := match p with DSend r => 2 * r | DRecv r => 2 * r + 1 end.
Definition dissem_okp (i : nat) (p : dissem_pc) : Prop := (dissem_stage p <= 2 * R)%nat.
Abbreviation stage a i := (dissem_stage (a_pc a i)).

(** In round [r] the notification from [i] is under way from when it is sent until it is
    received; nothing else ever is. *)
Record dissem_inv (a : amach dissem_pc) : Prop := {
  di_ok i : (i < n)%nat -> dissem_okp i (a_pc a i);
  di_queue i r : (i < n)%nat -> (r < R)%nat ->
    under_way (a_q a) i (fwd i r) =
      (if decide (2 * r < stage a i /\ stage a (fwd i r) <= 2 * r + 1)%nat then [[]] else []) /\
    (2 * r + 1 < stage a (fwd i r) -> 2 * r < stage a i)%nat;
  di_other i p : (i < n)%nat -> (p < n)%nat -> i <> p -> (forall r, (r < R)%nat -> p <> fwd i r) ->
    under_way (a_q a) i p = [];
}.

Lemma under_way_peer q i p : i <> p -> q (peer (side_of i p)) (i `min` p)%nat (i `max` p)%nat = under_way q p i.
Proof.
  intros Hne. unfold under_way, side_of. rewrite Nat.min_comm, Nat.max_comm. repeat case_decide; try done; lia.
Qed.

(** Only one queue changes. *)
Lemma under_way_set q i p v j p' :
  j <> p' ->
  under_way (q_set (side_of i p) (i `min` p)%nat (i `max` p)%nat v q) j p' =
    if decide (j = i /\ p' = p) then v else under_way q j p'.
Proof.
  intros Hne. unfold under_way. case_decide as D.
  - destruct D as [-> ->]. apply q_set_same.
  - apply q_set_other. intros (E1 & E2 & E3). apply D. unfold side_of in E1. repeat case_decide; try done; lia.
Qed.
Lemma peer_side i p : i <> p -> peer (side_of i p) = side_of p i.
Proof. intros. unfold side_of. repeat case_decide; try done; lia. Qed.

Lemma dissem_inv_init : dissem_inv (AM (fun _ => DSend 0) no_msgs).
Proof.
  split; simpl.
  - intros i Hi. unfold dissem_okp. simpl. lia.
  - intros i r Hi Hr. split; [done|lia].
  - done.
Qed.

(** A step of [i] to [p] that replaces what is under way from [s] to [d]. *)
Lemma dissem_local i a p s d v :
  (i < n)%nat -> dissem_inv a -> dissem_okp i p -> s <> d -> (s < n)%nat ->
  (exists r, (r < R)%nat /\ d = fwd s r) ->
  (forall j r, (j < n)%nat -> (r < R)%nat ->
     let st x := dissem_stage (if decide (x = i) then p else a_pc a x) in
     (if decide (j = s /\ fwd j r = d) then v else under_way (a_q a) j (fwd j r)) =
       (if decide (2 * r < st j /\ st (fwd j r) <= 2 * r + 1)%nat then [[]] else []) /\
     (2 * r + 1 < st (fwd j r) -> 2 * r < st j)%nat) ->
  dissem_inv (AM (pc_set i p (a_pc a)) (q_set (side_of s d) (s `min` d)%nat (s `max` d)%nat v (a_q a))).
Proof using Hn.
  intros Hi Ha Hok Hsd Hs (r0 & Hr0 & Ed) Hstep. split; simpl.
  - intros j Hj. unfold pc_set. case_decide; [by subst|]. by apply Ha.
  - intros j r Hj Hr. rewrite under_way_set by (symmetry; by apply fwd_ne). by apply Hstep.
  - intros j p' Hj Hp' Hne Hno. rewrite under_way_set by done. rewrite decide_False.
    + by apply (di_other _ Ha).
    + intros [-> ->]. by apply (Hno r0).
Qed.

Lemma dissem_inv_step i a a' :
  (i < n)%nat -> dissem_inv a -> astep dissem_act i a a' ->
  dissem_inv a' /\ (stage a i <= stage a' i)%nat.
Proof using Hn.
  intros Hi Ha Hs. apply astep_inv in Hs. pose proof (di_ok _ Ha i Hi) as Hok. unfold dissem_okp in Hok.
  destruct (a_pc a i) as [r|r] eqn:E; simpl in Hs, Hok |- *.
  - case_decide as Hr; [|subst; rewrite E; by split].
    destruct Hs as [->|[-> _]]; [|rewrite E; by split]. simpl. rewrite pc_set_same. split; [|simpl; lia].
    pose proof (di_queue _ Ha i r Hi Hr) as [Hq Hrs]. rewrite E in Hq, Hrs. simpl in Hq, Hrs.
    pose proof (fwd_ne n Hn i r Hi Hr) as Hne. fold (under_way (a_q a) i (fwd i r)). 
    apply dissem_local; try done; [unfold dissem_okp; simpl; lia|by exists r|].
    intros j r' Hj Hr'. cbv zeta. pose proof (di_queue _ Ha j r' Hj Hr') as [Hq' Hrs'].
    destruct (decide (j = i)) as [->|Dj].
    + destruct (decide (r' = r)) as [->|Dr].
      * rewrite decide_True, (decide_False (P := fwd i r = i)) by done. rewrite Hq.
        rewrite (decide_False (P := (2 * r < 2 * r /\ _)%nat)) by lia. simpl. rewrite decide_True by lia.
        split; [done|lia].
      * rewrite decide_False by (intros [_ E']; by apply Dr, (fwd_inj n Hn i)).
        rewrite (decide_False (P := fwd i r' = i)) by (by apply fwd_ne).
        rewrite Hq', E in *. simpl in *. split; [|lia]. repeat case_decide; try done; lia.
    + rewrite decide_False by (by intros [-> _]). rewrite Hq'.
      destruct (decide (fwd j r' = i)) as [Ef|Df]; [|done]. rewrite Ef, E in *. simpl in *.
      split; [|lia]. repeat case_decide; try done; lia.
  - assert (Hr : (r < R)%nat) by lia. pose proof (bwd_ne n Hn i r Hi Hr) as Hne.
    pose proof (bwd_lt n Hn i r) as Hb. pose proof (fwd_bwd n Hn i r Hi Hr) as Hfb.
    rewrite under_way_peer in Hs by done.
    destruct Hs as [(v & q & p & Hqv & -> & ->)|[-> _]]; [|rewrite E; by split].
    simpl. rewrite pc_set_same. split; [|simpl; lia]. rewrite peer_side by done.
    rewrite (Nat.min_comm i), (Nat.max_comm i).
    pose proof (di_queue _ Ha (bwd i r) r Hb Hr) as [Hq Hrs]. rewrite Hfb, E in Hq, Hrs. simpl in Hq, Hrs.
    rewrite Hqv in Hq. case_decide as Dq; [|done]. injection Hq as -> ->.
    apply dissem_local; try done; [unfold dissem_okp; simpl; lia|by exists r|].
    intros j r' Hj Hr'. cbv zeta. pose proof (di_queue _ Ha j r' Hj Hr') as [Hq' Hrs'].
    destruct (decide (fwd j r' = i)) as [Ef|Df].
    + rewrite Ef, E in *. simpl in *. pose proof (fwd_ne n Hn j r' Hj Hr') as Hfj.
      rewrite Ef in Hfj. rewrite (decide_False (P := j = i)) by done.
      destruct (decide (r' = r)) as [->|Dr].
      * assert (j = bwd i r) as -> by (rewrite <- Ef; symmetry; by apply bwd_fwd).
        rewrite decide_True, decide_False by (done || lia). split; [done|lia].
      * rewrite decide_False.
        -- rewrite Hq'. split; [|lia]. repeat case_decide; try done; lia.
        -- intros [-> _]. apply Dr. apply (fwd_inj n Hn (bwd i r)); try done. by rewrite Hfb.
    + rewrite decide_False by (by intros [_ ?]). rewrite Hq'.
      destruct (decide (j = i)) as [->|Dj]; [|done]. rewrite E in *. simpl in *.
      split; [|lia]. repeat case_decide; try done; lia.
Qed.

(** ** Who has entered *)

(** A thread past round [k] has, through its predecessors, heard from the [2^k] threads
    up to itself. *)
Lemma dissem_heard a :
  dissem_inv a -> forall k i m, (k <= R)%nat -> (i < n)%nat -> (0 < stage a i)%nat -> (2 * k <= stage a i)%nat ->
  (m < 2 ^ k)%nat -> (m < n)%nat -> (0 < stage a (back n i m))%nat.
Proof using Hn.
  intros Ha k. induction k as [|k IH]; intros i m Hk Hi Hs0 Hs Hm Hmn.
  - assert (m = 0%nat) as -> by (simpl in Hm; lia). unfold back.
    rewrite mod_cases, decide_False by lia. by replace (i + (n - 0) - n)%nat with i by lia.
  - destruct (decide (m < 2 ^ k)%nat) as [Dm|Dm]; [apply IH; lia|].
    pose proof (round_step n Hn k ltac:(lia)) as Hrs. simpl in Hm.
    replace m with (2 ^ k + (m - 2 ^ k))%nat by lia. rewrite <- back_bwd by lia.
    destruct (di_queue _ Ha (bwd i k) k (bwd_lt n Hn i k) ltac:(lia)) as [_ Hrec].
    rewrite fwd_bwd in Hrec by lia. specialize (Hrec ltac:(lia)).
    apply IH; try lia. apply bwd_lt, Hn.
Qed.

Lemma dissem_all_entered a i j :
  dissem_inv a -> (i < n)%nat -> (j < n)%nat -> (stage a i = 2 * R)%nat -> (0 < stage a j)%nat.
Proof using Hn.
  intros Ha Hi Hj Hs. destruct (back_any n Hn i j Hi Hj) as (m & Hm & <-).
  pose proof (rounds_cover n Hn) as Hc. assert (0 < R)%nat.
  { destruct R as [|r]; [simpl in Hc; lia|lia]. }
  apply (dissem_heard a Ha R i m); lia.
Qed.

(** ** Progress *)
Definition dissem_enabled (s : nat -> nat) (i : nat) : Prop :=
  (s i < 2 * R /\ (s i = 2 * (s i / 2) \/ s i <= s (bwd i (s i / 2))))%nat.
#[export] Instance dissem_enabled_dec s i : Decision (dissem_enabled s i).
Proof. unfold dissem_enabled. apply _. Defined.

Lemma least_stage (s : nat -> nat) : exists i, (i < n)%nat /\ forall j, (j < n)%nat -> (s i <= s j)%nat.
Proof using Hn.
  assert (H : forall k, (0 < k)%nat -> exists i, (i < k)%nat /\ forall j, (j < k)%nat -> (s i <= s j)%nat).
  { induction k as [|k IH]; [lia|]. intros _. destruct (decide (k = 0%nat)) as [->|Dk].
    - exists 0%nat. split; [lia|]. intros j Hj. by replace j with 0%nat by lia.
    - destruct IH as (i & Hi & Hmin); [lia|]. destruct (decide (s i <= s k)%nat) as [D|D].
      + exists i. split; [lia|]. intros j Hj. destruct (decide (j = k)) as [->|]; [done|]. apply Hmin. lia.
      + exists k. split; [lia|]. intros j Hj. destruct (decide (j = k)) as [->|]; [done|].
        pose proof (Hmin j ltac:(lia)). lia. }
  apply H. lia.
Qed.

Lemma stage_half r : ((2 * r) / 2 = r /\ (2 * r + 1) / 2 = r)%nat.
Proof.
  rewrite (Nat.mul_comm 2). split; [apply Nat.div_mul; lia|].
  rewrite Nat.add_comm, Nat.div_add by lia. done.
Qed.

Lemma dissem_staged :
  staged dissem_act n 0 dissem_inv (fun _ => dissem_stage) (fun _ s => s) (fun _ => 2 * R)%nat (fun _ _ => 0%nat) dissem_enabled.
Proof using Hn.
  split.
  - intros i a a' Hi Ha Hs. destruct (dissem_inv_step i a a' Hi Ha Hs) as [Ha' Hle]. split; [exact Ha'|cbv beta; lia].
  - intros i a Hi Ha. by apply (di_ok _ Ha).
  - intros s s' i Hs Hi [H1 H2]. unfold dissem_enabled. rewrite <- (Hs i Hi).
    rewrite <- (Hs (bwd i (s i / 2))) by (by apply bwd_lt). done.
  - intros i a a' Hi Ha [He1 He2] Hs. left. apply astep_inv in Hs.
    destruct (a_pc a i) as [r|r] eqn:E; cbn [dissem_stage] in He1, He2; simpl in Hs |- *;
      rewrite ?(proj1 (stage_half r)), ?(proj2 (stage_half r)) in He2.
    + assert (Hr : (r < R)%nat) by lia. rewrite decide_True in Hs by done.
      destruct Hs as [->|[-> Hq]]; [simpl; rewrite pc_set_same; simpl; lia|].
      destruct (di_queue _ Ha i r Hi Hr) as [Hq' _]. unfold under_way in Hq'. rewrite E in Hq'. simpl in Hq'.
      rewrite decide_False in Hq' by lia. done.
    + assert (Hr : (r < R)%nat) by lia. rewrite under_way_peer in Hs by (symmetry; by apply bwd_ne).
      destruct Hs as [(v & q & p & _ & -> & ->)|[-> Hq]]; [simpl; rewrite pc_set_same; simpl; lia|].
      destruct (di_queue _ Ha (bwd i r) r (bwd_lt n Hn i r) Hr) as [Hq' _].
      rewrite fwd_bwd, E, Hq in Hq' by done. simpl in Hq'. rewrite decide_True in Hq' by lia. done.
  - intros i a Hi Ha Hlt. destruct (least_stage (fun j => stage a j)) as (j & Hj & Hmin).
    exists j. split; [done|]. split; [pose proof (Hmin i Hi); lia|]. right. apply Hmin, bwd_lt, Hn.
  - lia.
Qed.

(** ** One use of the barrier as a call *)
Definition dissem_mach {T} : mach T := {|
  m_pc := dissem_pc; m_args := fun _ _ => True; m_act := fun i _ => dissem_act i; m_start := fun _ _ => DSend 0;
  m_okp := fun i _ => dissem_okp i; m_inv := fun _ => dissem_inv;
  m_view := nat; m_inh := _; m_seen := fun _ => dissem_stage; m_level := fun _ s => s;
  m_top := fun _ => (2 * R)%nat; m_wait := fun _ _ => 0%nat; m_enabled := dissem_enabled; m_dec := _;
|}.

(** Between threads that are not peers nothing is ever under way. *)
Lemma under_way_none a i p :
  dissem_inv a -> (i < n)%nat -> (p < n)%nat -> i <> p ->
  (forall r, (r < R)%nat -> p = fwd i r -> (2 * r < stage a i /\ stage a p <= 2 * r + 1)%nat -> False) ->
  under_way (a_q a) i p = [].
Proof using Hn.
  intros Ha Hi Hp Hne Hno. destruct (decide (Exists (fun r => p = fwd i r) (seq 0 R))) as [He|Hnp].
  - apply Exists_exists in He as (r & Hr & ->). apply elem_of_seq in Hr.
    destruct (di_queue _ Ha i r Hi) as [-> _]; [lia|]. rewrite decide_False; [done|]. intros Hd. apply (Hno r); [lia|done|done].
  - apply (di_other _ Ha); try done. intros r Hr ->. apply Hnp, Exists_exists. exists r.
    split; [apply elem_of_seq; lia|done].
Qed.

(** The two ends of a pair, and what an end sends and receives. *)
Lemma dissem_end_pair i d x k :
  dissem_end n i d x k -> exists p, (i < n)%nat /\ (p < n)%nat /\ i <> p /\ d = side_of i p /\ x = (i `min` p)%nat /\
    k = (i `max` p)%nat /\ dissem_end n p (peer d) x k.
Proof using Type.
  clear Hn. intros [Hxk ->]. unfold side_of, dissem_end. destruct d.
  - exists k. rewrite Nat.min_l, Nat.max_r, decide_True by lia. split_and!; try lia; done.
  - exists x. rewrite Nat.min_r, Nat.max_l, decide_False by lia. split_and!; try lia; done.
Qed.

Lemma dissem_act_end i p d x k :
  (i < n)%nat -> dissem_okp i p -> act_at (dissem_act i p) d x k -> dissem_end n i d x k.
Proof using Hn.
  intros Hi Hok Hat. unfold dissem_okp in Hok. assert (Hend : forall p, (p < n)%nat -> i <> p ->
    dissem_end n i (side_of i p) (i `min` p)%nat (i `max` p)%nat).
  { intros q Hq Hne. unfold dissem_end, side_of. case_decide; lia. }
  destruct p as [r|r]; simpl in Hat, Hok.
  - case_decide as Hr; [|done]. destruct Hat as (<- & <- & <-). apply Hend; [apply fwd_lt, Hn|symmetry; by apply fwd_ne].
  - destruct Hat as (<- & <- & <-). apply Hend; [apply bwd_lt, Hn|]. symmetry. apply bwd_ne; [done..|lia].
Qed.

Lemma dissem_mach_ok {T} `{!Inhabited T} : mach_ok n 0 (dissem_end n) (dissem_mach (T := T)).
Proof using Hn.
  split; simpl.
  - intros _ _. by exists inhabitant.
  - intros _ _. exact dissem_inv_init.
  - intros _ _. exact dissem_staged.
  - intros _ a i _ Ha Hi. by apply (di_ok _ Ha).
  - intros i _ Hi _. unfold dissem_okp. simpl. lia.
  - done.
  - intros i _ p Hi Hok Hf. unfold m_fin in Hf. destruct p as [r|r]; simpl in *; [|lia]. by rewrite decide_False by lia.
  - intros i _ p d x k. apply dissem_act_end.
  - intros _ a i d x k _ Ha Hi Est He. destruct (dissem_end_pair i d x k He) as (p & _ & Hp & Hne & -> & -> & -> & _).
    apply (under_way_none a i p); try done. intros r _ _. rewrite Est. simpl. lia.
  - intros _ a i d x k _ Ha Hi Hf He. destruct (dissem_end_pair i d x k He) as (p & _ & Hp & Hne & -> & -> & -> & _).
    rewrite under_way_peer by done. apply (under_way_none a p i); try done.
    intros r Hr _. unfold m_fin in Hf. simpl in Hf. lia.
  - intros _ a i j d x k _ Ha Hi Hj Haw He Hf. pose proof (di_ok _ Ha i Hi) as Hok. unfold dissem_okp in Hok.
    destruct (a_pc a i) as [r|r] eqn:E; simpl in Haw, Hok; [by case_decide|]. destruct Haw as (<- & <- & <-).
    assert (Hr : (r < R)%nat) by lia. rewrite under_way_peer by (symmetry; by apply bwd_ne).
    assert (j = bwd i r) as ->.
    { pose proof (bwd_ne n Hn i r Hi Hr). destruct He as [_ ->]. unfold side_of. case_decide; simpl; lia. }
    destruct (di_queue _ Ha (bwd i r) r Hj Hr) as [Hq _]. rewrite fwd_bwd, E in Hq by done. rewrite Hq.
    unfold m_fin in Hf. simpl in Hf |- *. rewrite decide_True by lia. done.
Qed.
End machine.

(** ** The system *)
Section system.
Context {C : Type} {HC : ChanOps C} {HT : TreeEdge C}.
Context (n : nat) (Hn : (1 < n)%nat) (cores : list Z) (s0 : dissem_mem C).
Context (Hs0 : dissem_ok n cores no_msgs s0).
Abbreviation bar := (dm_bar s0).
Abbreviation R := (rounds_of n).

(** Every thread calls [smlt_dissem_barrier_wait] [uses] times. *)
Definition dissem_sys (uses : nat) : sys (dissem_mem C) (list Z) :=
  Sys (tab n (fun i => in_turn [] (replicate uses (fun _ => smlt_dissem_barrier_wait bar (core_of cores i))))) s0.

Definition dissem_prog (i : nat) (p : dissem_pc) : prog Z :=
  match p with
  | DSend r => dissem_rounds bar (R - r) (Z.of_nat i) (2 ^ Z.of_nat r)
  | DRecv r =>
      err ← pev (EvRecvNotification (Z.of_nat i, Z.of_nat (bwd n i r)));
      if smlt_err_is_fail err then mret err else
      dissem_rounds bar (R - S r) (Z.of_nat i) (2 ^ Z.of_nat (S r))
  end.

Lemma dissem_rounds_step i r :
  (i < n)%nat -> (r < R)%nat ->
  dissem_rounds bar (R - r) (Z.of_nat i) (2 ^ Z.of_nat r) =
    PEv (EvNotify (Z.of_nat i, Z.of_nat (fwd n i r))) (fun err =>
      if smlt_err_is_fail err then mret err else dissem_prog i (DRecv r)).
Proof using Hn Hs0.
  intros Hi Hr. destruct (do_bar _ _ _ _ Hs0) as (a & Hb). rewrite Hb.
  replace (R - r)%nat with (S (R - S r)) by lia. cbn [dissem_rounds db_num_threads].
  rewrite send_peer, recv_peer by done.
  replace (2 ^ Z.of_nat r * 2) with (2 ^ Z.of_nat (S r)); [by rewrite <- Hb|].
  rewrite Nat2Z.inj_succ, Z.pow_succ_r by lia. lia.
Qed.

Lemma dissem_ref_to i p :
  (i < n)%nat -> (p < n)%nat -> i <> p ->
  dissem_end n i (side_of i p) (i `min` p)%nat (i `max` p)%nat /\
  dissem_ref i (i `min` p)%nat (i `max` p)%nat = (Z.of_nat i, Z.of_nat p).
Proof using Hn.
  intros Hi Hp Hne. unfold dissem_end, dissem_ref, side_of. split.
  - case_decide; lia.
  - destruct (decide (i < p)%nat).
    + rewrite Nat.min_l, Nat.max_r by lia. by rewrite decide_True.
    + rewrite Nat.min_r, Nat.max_l by lia. by rewrite decide_False.
Qed.

Lemma dissem_implements i p :
  (i < n)%nat -> dissem_okp n i p ->
  implements (C := C) (dissem_net n cores) (dissem_act n) dissem_prog (dissem_okp n) i p.
Proof using Hn Hs0.
  intros Hi Hok. unfold dissem_okp in Hok. unfold implements. destruct p as [r|r]; simpl in Hok |- *.
  - case_decide as Hr.
    + destruct (dissem_ref_to i (fwd n i r) Hi (fwd_lt n Hn i r)) as [He Href]; [symmetry; by apply fwd_ne|].
      split; [exact He|]. split; [unfold dissem_okp; simpl; lia|].
      rewrite Href. eexists (EvNotify _), _. split; [by right|]. split.
      { apply does_eq. by apply dissem_rounds_step. }
      done.
    + intros W' HS' w. simpl. by replace (R - r)%nat with 0%nat by lia.
  - assert (Hr : (r < R)%nat) by lia.
    destruct (dissem_ref_to i (bwd n i r) Hi (bwd_lt n Hn i r)) as [He Href]; [symmetry; by apply bwd_ne|].
    split; [exact He|]. right. rewrite Href. eexists. split; [apply does_eq; reflexivity|].
    intros v. exists (DSend (S r)). split; [done|]. split; [unfold dissem_okp; simpl; lia|done].
Qed.

Lemma dissem_start i :
  (i < n)%nat -> smlt_dissem_barrier_wait bar (core_of cores i) = dissem_prog i (DSend 0).
Proof using Hn Hs0.
  intros Hi. destruct (do_bar _ _ _ _ Hs0) as (a & Hb). destruct (do_cores _ _ _ _ Hs0) as [Hl Hnd].
  unfold smlt_dissem_barrier_wait. rewrite Hb. unfold core_of. simpl db_cores. simpl db_rounds.
  rewrite find_core_at by (done || lia). rewrite <- Hb. unfold dissem_prog. by rewrite Nat.sub_0_r.
Qed.

Lemma dissem_ended i p :
  (i < n)%nat -> dissem_okp n i p ->
  (exists X (e : chan_ev X) k, dissem_prog i p = PEv e k) \/
  (dissem_stage p = 2 * R /\ dissem_prog i p = PRet (err_value SMLT_SUCCESS))%nat.
Proof using Hn Hs0.
  intros Hi Hok. unfold dissem_okp in Hok. destruct p as [r|r]; simpl in Hok |- *; [|left; by do 3 eexists].
  destruct (decide (r < R)%nat) as [Hr|Hr].
  - left. rewrite dissem_rounds_step by done. by do 3 eexists.
  - right. split; [lia|]. by replace (R - r)%nat with 0%nat by lia.
Qed.

(** A thread that has returned has success, and every thread has entered. *)
Definition dissem_call : call Z :=
  Call (dissem_mach n) (fun i _ => dissem_prog i) (fun i _ => smlt_dissem_barrier_wait bar (core_of cores i))
    (fun _ st => forall i err, (i < n)%nat -> st i = Returned err ->
    err = err_value SMLT_SUCCESS /\ all_entered n st).

Lemma dissem_call_ok : call_ok (dissem_net n cores) 0 dissem_call.
Proof using Hn Hs0.
  split.
  - exact (dissem_mach_ok n Hn).
  - intros i t Hi. symmetry. by apply dissem_start.
  - intros i t p Hi _. by apply dissem_implements.
  - intros i t p Hi _ Hok Hf. cbn [dissem_call cl_prog]. by destruct (dissem_ended i p Hi Hok) as [(X & e & k & ->)|[? _]].
  - intros i t p Hi _ Hok Hf. destruct (dissem_ended i p Hi Hok) as [(X & e & k & E)|[_ E]]; [|by eexists].
    exfalso. pose proof (mo_stop _ _ _ _ (dissem_mach_ok n Hn) i t p Hi Hok Hf) as Hst.
    unfold m_fin in Hf. simpl in *. destruct p as [r|r]; simpl in *; [|lia].
    by replace (R - r)%nat with 0%nat in E by lia.
  - intros g a st _ Ha Hst i err Hi Er. pose proof (Hst i Hi) as Hsi. rewrite Er in Hsi. destruct Hsi as [Hf Ep]. simpl in Ep.
    destruct (dissem_ended i _ Hi (di_ok _ _ Ha i Hi)) as [(X & e & k & E)|[_ E]]; rewrite E in Ep; [done|].
    injection Ep as <-. split; [done|]. intros j Hj Ej. specialize (Hst j Hj). rewrite Ej in Hst. simpl in Hst.
    pose proof (dissem_all_entered n Hn a i j Ha Hi Hj Hf) as He. rewrite Hst in He. simpl in He. lia.
Qed.

(** Nothing the calls return matters to the next. *)
Lemma dissem_args uses i t : m_args (calls_mach (dissem_net n cores) (replicate uses dissem_call)) i t.
Proof using Type. by destruct uses. Qed.
Lemma dissem_chained uses : chained (dissem_net n cores) 0 (replicate uses dissem_call).
Proof using Hn Hs0.
  induction uses as [|uses IH]; simpl; constructor; [exact dissem_call_ok| |exact IH].
  intros i t p x _ _ _ _ _. apply dissem_args.
Qed.

(** [F]: how many calls each thread has returned from, all with success; no thread is more
    than one call ahead of another. *)
Definition dissem_state (uses : nat) (s : sys (dissem_mem C) (list Z)) (F : nat -> nat) : Prop :=
  (forall i p, sy_threads s !! i = Some p ->
     (F i = uses /\ p = PRet (replicate uses (err_value SMLT_SUCCESS))) \/
     (exists p', (F i < uses)%nat /\ running p' /\
        p = pbind (fun err => in_turn (replicate (F i) (err_value SMLT_SUCCESS) ++ [err])
              (replicate (uses - S (F i)) (fun _ => smlt_dissem_barrier_wait bar (core_of cores i)))) p')) /\
  (forall i j, (i < n)%nat -> (j < n)%nat -> F i <= S (F j))%nat.

Lemma dissem_codes uses i :
  codes (replicate uses dissem_call) i = replicate uses (fun _ => smlt_dissem_barrier_wait bar (core_of cores i)).
Proof using Type. unfold codes. by rewrite fmap_replicate. Qed.

Lemma dissem_sys_calls uses : dissem_sys uses = calls_sys (dissem_net n cores) (replicate uses dissem_call) s0.
Proof using Type. unfold dissem_sys, calls_sys. f_equal. apply tab_ext. intros i Hi. by rewrite dissem_codes. Qed.

Lemma dissem_state_calls uses s F :
  length (sy_threads s) = n -> calls_state (dissem_net n cores) (replicate uses dissem_call) s F -> dissem_state uses s (fun i => length (F i)).
Proof using Hn Hs0.
  intros Hl [H1 H2].
  assert (Hle : forall i, (i < n)%nat -> (length (F i) <= uses)%nat).
  { intros i Hi. destruct (lookup_lt_is_Some_2 (sy_threads s) i) as [p Hp]; [lia|].
    destruct (H1 i p Hp) as [[E _]|(p' & E & _)]; rewrite length_replicate in E; lia. }
  assert (Hpost : forall r i x, (i < n)%nat -> F i !! r = Some x ->
    x = err_value SMLT_SUCCESS /\ forall j, (j < n)%nat -> (r <= length (F j))%nat).
  { intros r i x Hi Hx. assert (Hr : (r < uses)%nat).
    { pose proof (Hle i Hi). apply lookup_lt_Some in Hx. lia. }
    destruct (H2 r dissem_call (lookup_replicate_2 _ _ _ Hr)) as (h & _ & Hp & _).
    destruct (Hp i x Hi) as [E He]; [simpl; by rewrite Hx|].
    split; [done|]. intros j Hj. specialize (He j Hj). simpl in He.
    destruct (F j !! r) eqn:Ej; [apply lookup_lt_Some in Ej; lia|]. case_decide; [lia|done]. }
  assert (HF : forall i, (i < n)%nat -> F i = replicate (length (F i)) (err_value SMLT_SUCCESS)).
  { intros i Hi. apply list_eq. intros r. destruct (F i !! r) as [x|] eqn:Ex.
    - destruct (Hpost r i x Hi Ex) as [-> _]. symmetry. apply lookup_replicate_2. by eapply lookup_lt_Some.
    - symmetry. apply lookup_ge_None in Ex. apply lookup_ge_None. by rewrite length_replicate. }
  split.
  - intros i p Hp. assert (Hi : (i < n)%nat) by (rewrite <- Hl; by eapply lookup_lt_Some).
    destruct (H1 i p Hp) as [[E ->]|(p' & E & Hr & ->)]; rewrite length_replicate in E; [left|right].
    + split; [done|]. by rewrite (HF i Hi), E.
    + exists p'. split; [done|]. split; [done|].
      rewrite drop_replicate, dissem_codes. by rewrite (HF i Hi), length_replicate.
  - intros i j Hi Hj. destruct (length (F i)) as [|m] eqn:Em; [lia|].
    destruct (lookup_lt_is_Some_2 (F i) m) as [x Hx]; [lia|]. destruct (Hpost m i x Hi Hx) as [_ Hm].
    specialize (Hm j Hj). lia.
Qed.
End system.

(** ** Initialisation builds the network *)
Section init_ok.
Context {C : Type} {HC : ChanOps C} {HT : TreeEdge C} {W : Type}.
Context (channel_create : Z -> Z -> M W (Z * option C)) (alloc_ok : nat -> bool) (Halloc : forall k, alloc_ok k = true).
(** In a world with [ok (S b)] a channel can be created, which leaves [ok b]. *)
Context (ok : nat -> W -> Prop)
  (Hcreate : forall b w s d, ok (S b) w -> exists c w',
     channel_create s d w = (Ret (err_value SMLT_SUCCESS, Some c), w') /\ edge s c Src [] [] /\ ok b w').
Context (n : nat) (Hn : (0 < n)%nat) (Hn16 : Z.of_nat n <= 65536) (cores : list Z) (Hl : length cores = n)
  (Hnd : NoDup cores).

(** The pairs created before the pair [(i, j)], and how many are left from it on. *)
Definition before (i j x k : nat) : Prop := (x <= k < n)%nat /\ (x < i \/ x = i /\ k < j)%nat.
Definition pairs_left (i j : nat) : nat := (n - j) + sum_upto (n - S i) S.

Record init_inv (i j : nat) (s : di_st (C := C) (W := W)) : Prop := {
  ii_world : ok (pairs_left i j) (di_world s);
  ii_bar : exists a, dm_bar (di_mem s) = Dissem (Z.of_nat n) 0 cores a /\ length a = (n * n)%nat;
  ii_pairs : exists ptr,
    (forall x k, before i j x k ->
       pair_ok n cores no_msgs (di_mem s) ptr x k /\ (ptr x k < length (dm_chans (di_mem s)))%nat) /\
    (forall x k x' k', before i j x k -> before i j x' k' -> ptr x k = ptr x' k' -> x = x' /\ k = k');
}.

Lemma index_wrap i j :
  (i < n)%nat -> (j < n)%nat ->
  u32 (u32 (Z.of_nat i * Z.of_nat n) + Z.of_nat j) = Z.of_nat (i * n + j) /\ (i * n + j < n * n)%nat.
Proof using Hl Hn Hn16.
  intros Hi Hj. assert (Hlt : (i * n + j < n * n)%nat) by nia. split; [|done].
  assert (Hb : Z.of_nat (i * n + j) < 2 ^ 32).
  { apply Z.lt_le_trans with (Z.of_nat n * Z.of_nat n); [lia|]. pow_consts. nia. }
  rewrite wrap_add_l by lia. rewrite wrap_small by lia. lia.
Qed.

Lemma index_inj i j i' j' :
  (j < n)%nat -> (j' < n)%nat -> (i * n + j = i' * n + j')%nat -> i = i' /\ j = j'.
Proof using Type. clear. intros Hj Hj' E. assert (i = i') by nia. split; [done|nia]. Qed.

Lemma dissem_pair_run i j s :
  (i <= j < n)%nat -> init_inv i j s ->
  exists s', dissem_pair channel_create alloc_ok cores (Z.of_nat n) (Z.of_nat i) (Z.of_nat j) s = (Ret None, s') /\
    init_inv i (S j) s'.
Proof using Type*.
  intros Hij [Hw (a & Hb & Hla) (ptr & Hp & Hinj)].
  destruct (index_wrap i j ltac:(lia) ltac:(lia)) as [Ei Hi], (index_wrap j i ltac:(lia) ltac:(lia)) as [Ej Hj].
  destruct (lookup_lt_is_Some_2 cores i ltac:(lia)) as [ci Hci], (lookup_lt_is_Some_2 cores j ltac:(lia)) as [cj Hcj].
  assert (Hleft : pairs_left i j = S (pairs_left i (S j))) by (unfold pairs_left; lia).
  rewrite Hleft in Hw. destruct (Hcreate _ _ ci cj Hw) as (c & w' & Ec & Ee & Hw').
  destruct s as [na w [bar chans]]. simpl in *. subst bar. simpl in *.
  set (p := length chans). set (a1 := <[(i * n + j)%nat := Some (Z.of_nat p)]> a).
  set (a2 := <[(j * n + i)%nat := Some (Z.of_nat p)]> a1).
  exists (DI (S na) w' (DM (Dissem (Z.of_nat n) 0 cores a2) (<[p := Some c]> (chans ++ [None])))). split.
  { unfold dissem_pair, di_alloc, di_new_chan, di_set_pointer, di_set_chan, di_in_world, zoom, gets, modify,
      assert_, di_set_mem, mbind, M_bind, mret, M_ret. simpl. rewrite Halloc, Ei, Ej.
    rewrite arr_set_nat by lia. simpl. rewrite !arr_get_nat, Hci, Hcj. simpl. rewrite Ec. simpl.
    rewrite arr_set_nat by (rewrite length_app; simpl; lia). simpl.
    rewrite arr_set_nat by (rewrite length_insert; lia). done. }
  split; simpl; [done| |].
  { eexists. split; [done|]. unfold a2, a1. by rewrite !length_insert. }
  exists (fun x k => if decide (x = i /\ k = j) then p else ptr x k).
  assert (Hold : forall x k, before i (S j) x k -> ~ (x = i /\ k = j) -> before i j x k).
  { intros x k [H1 H2] D. split; [done|]. destruct H2 as [|[-> H2]]; [by left|right]. split; [done|].
    destruct (decide (k = j)) as [->|]; [by destruct D|lia]. }
  split.
  - intros x k Hxk. case_decide as D.
    + destruct D as [-> ->]. split; [|rewrite length_insert, length_app; simpl; lia]. split; simpl.
      * rewrite decide_True by done. unfold a2. destruct (decide (i = j)) as [->|Dij].
        -- apply list_lookup_insert_eq. unfold a1. rewrite length_insert. lia.
        -- rewrite list_lookup_insert_ne by (intros E; apply index_inj in E; lia).
           apply list_lookup_insert_eq. lia.
      * rewrite decide_True by done. unfold a2. apply list_lookup_insert_eq. unfold a1. rewrite length_insert. lia.
      * rewrite decide_True by done. exists c. split; [apply list_lookup_insert_eq; rewrite length_app; simpl; lia|].
        unfold core_of. by rewrite Hci.
    + destruct (Hp x k (Hold x k Hxk D)) as [[P1 P2 (c0 & Hc0 & E0)] Hlt]. simpl in *.
      destruct Hxk as [Hxk _]. split; [|rewrite length_insert, length_app; lia]. split; simpl; rewrite decide_False by done.
      * unfold a2, a1. rewrite !list_lookup_insert_ne; [done|intros E; apply index_inj in E; lia..].
      * unfold a2, a1. rewrite !list_lookup_insert_ne; [done|intros E; apply index_inj in E; lia..].
      * exists c0. split; [|done]. rewrite list_lookup_insert_ne by (unfold p; lia).
        by apply lookup_app_l_Some.
  - intros x k x' k' Hxk Hxk'. case_decide as D; case_decide as D'; try (intuition congruence).
    + destruct (Hp x' k' (Hold _ _ Hxk' D')) as [_ Hlt]. simpl in Hlt. unfold p. intros E. rewrite <- E in Hlt. lia.
    + destruct (Hp x k (Hold _ _ Hxk D)) as [_ Hlt]. simpl in Hlt. unfold p. intros E. rewrite E in Hlt. lia.
    + apply Hinj; by apply Hold.
Qed.

Lemma before_row i x k : (i < n)%nat -> before i n x k <-> before (S i) (S i) x k.
Proof using Type. clear. unfold before. lia. Qed.

Lemma init_inv_row i s : (i < n)%nat -> init_inv i n s -> init_inv (S i) (S i) s.
Proof using Type.
  clear. intros Hi [Hw Hb (ptr & Hp & Hinj)]. split; [|done|].
  - assert (E : pairs_left i n = pairs_left (S i) (S i)); [|by rewrite <- E]. unfold pairs_left.
    destruct (decide (S i = n)) as [<-|D].
    + by rewrite !Nat.sub_diag, (proj2 (Nat.sub_0_le (S i) (S (S i))) ltac:(lia)).
    + replace (n - S i)%nat with (S (n - S (S i))) by lia. simpl. lia.
  - exists ptr. split.
    + intros x k Hxk. apply Hp. by apply before_row.
    + intros x k x' k' H1 H2. apply Hinj; by apply before_row.
Qed.

Lemma dissem_init_run w :
  ok (sum_upto n S) w ->
  exists m w', smlt_dissem_barrier_init channel_create alloc_ok cores (Z.of_nat n) w =
      (Ret (err_value SMLT_SUCCESS, m), w') /\ dissem_ok n cores no_msgs m.
Proof using Type*.
  intros Hw. unfold smlt_dissem_barrier_init. rewrite Nat2Z.id, <- Hl, firstn_all, Hl.
  set (st := DI (C := C) 3 w (DM (Dissem (Z.of_nat n) 0 cores (replicate (n * n) None)) [])).
  assert (I0 : init_inv 0 0 st).
  { split; simpl.
    - replace (pairs_left 0 0) with (sum_upto n S); [done|]. unfold pairs_left. destruct n as [|m]; [lia|].
      simpl. rewrite Nat.sub_0_r. lia.
    - eexists. split; [done|]. apply length_replicate.
    - exists (fun _ _ => 0%nat). split; intros x k; unfold before; intros; exfalso; lia. }
  destruct (mfor_ret_run (fun i => mfor_ret (n - Z.to_nat i) i (fun j =>
    dissem_pair channel_create alloc_ok cores (Z.of_nat n) i j)) (fun i => init_inv i i) n 0 st I0)
    as (s1 & E & [_ (a & Hb & Hla) (ptr & Hp & Hinj)]).
  { intros i s Hi HI. rewrite Nat2Z.id.
    destruct (mfor_ret_run (fun j => dissem_pair channel_create alloc_ok cores (Z.of_nat n) (Z.of_nat i) j)
      (init_inv i) (n - i) i s HI) as (s' & E & HI').
    - intros j s2 Hj. apply dissem_pair_run. lia.
    - exists s'. split; [done|]. apply init_inv_row; [lia|]. by replace n with (i + (n - i))%nat at 1 by lia. }
  unfold di_alloc at 1 2 3. unfold mbind at 1 2 3, M_bind at 1 2 3. simpl. rewrite !Halloc. simpl.
  change (Z.of_nat 0) with 0 in E. unfold mbind at 1, M_bind at 1, mret at 1, M_ret at 1.
  rewrite (bind_ret _ _ _ _ _ E). unfold gets, mbind, M_bind. simpl.
  destruct (Z.eqb_spec (Z.of_nat n) 0); [lia|]. rewrite Hb. simpl.
  eexists _, _. split; [reflexivity|]. split; simpl; [done|by eexists|].
  exists ptr. simpl in *. split.
  - intros x k Hxk. destruct (Hp x k) as [[P1 P2 P3] _]; [unfold before; lia|]. rewrite Hb in P1, P2.
    split; simpl; [done..|]. destruct (decide (x = k)); [lia|done].
  - intros x k x' k' H1 H2. apply Hinj; unfold before; lia.
Qed.
End init_ok.

(** The creation of a channel as the barrier calls it. *)
Definition create_pair alloc numa node_of mal ctx_ok (s d : Z) :=
  smlt_channel_create alloc numa node_of mal ctx_ok [s] [d] 1 1.

(** [C13] The dissemination barrier separates: on different cores and when the allocations
    succeed, [smlt_dissem_barrier_init] succeeds, and over the channels it leaves every
    thread may call [smlt_dissem_barrier_wait] any number of times, without waiting between
    the calls: no call panics, fails or runs into undefined behaviour, under any schedule,
    and no thread is ever more than one call ahead of another - once one has returned from
    a call, every thread has entered it.  Once every thread has run in enough rounds of the
    schedule - two per thread, call and round of the barrier - all calls have returned and
    all channels are empty again. *)
Theorem dissem_separates n cores alloc_ok alloc numa node_of mal ctx_ok w :
  (1 < n)%nat -> Z.of_nat n <= 65536 -> length cores = n -> NoDup cores ->
  (forall k, alloc_ok k = true) -> channels_left (sum_upto n S) w ->
  exists m w', smlt_dissem_barrier_init (create_pair alloc numa node_of mal ctx_ok) alloc_ok cores (Z.of_nat n) w =
      (Ret (err_value SMLT_SUCCESS, m), w') /\ dissem_ok n cores no_msgs m /\
  forall s0 uses, dissem_ok n cores no_msgs s0 ->
    (forall sched, Forall (fun i => (i < n)%nat) sched ->
       exists F, dissem_state n cores s0 uses (sys_run (core_of cores) (dissem_sys n cores s0 uses) sched) F) /\
    (forall rounds, Forall (fair_round n 0) rounds ->
       (sum_upto n (fun _ => uses * (2 * Z.to_nat (Z.log2_up (Z.of_nat n))))%nat < length rounds)%nat ->
       let s := sys_run (core_of cores) (dissem_sys n cores s0 uses) (concat rounds) in
       dissem_ok n cores no_msgs (sy_store s) /\
       forall i, (i < n)%nat -> sy_threads s !! i = Some (PRet (replicate uses (err_value SMLT_SUCCESS)))).
Proof.
  intros Hn H16 Hl Hnd Ha Hw.
  destruct (dissem_init_run (create_pair alloc numa node_of mal ctx_ok) alloc_ok Ha channels_left) with
    (n := n) (cores := cores) (w := w) as (m & w' & E & Hm); try done; [|lia|].
  { intros b w0 s d Hb. unfold create_pair.
    destruct (channel_create_empty alloc numa node_of mal ctx_ok b w0 s d Hb) as (c & w1 & E & He & _ & Hb1).
    by exists c, w1. }
  exists m, w'. split; [done|]. split; [done|]. clear m E Hm w' Hw. intros s0 uses Hs0.
  set (cs := replicate uses (dissem_call n cores s0)).
  pose proof (dissem_chained n Hn cores s0 Hs0 uses : chained (dissem_net n cores) 0 cs) as Hcs.
  assert (Hargs : args_ok n (calls_mach (dissem_net n cores) cs) (fun _ => [])) by (intros i _; apply dissem_args).
  assert (Hends : forall i d x k, (i < n)%nat -> dissem_end n i d x k -> exists j, (j < n)%nat /\ dissem_end n j (peer d) x k).
  { intros i d x k _ He. destruct (dissem_end_pair n i d x k He) as (p & ? & ? & _ & _ & _ & _ & ?). by exists p. }
  pose proof (fun sched => sys_run_length (core_of cores) (dissem_sys n cores s0 uses) sched) as Hlt.
  simpl in Hlt. rewrite length_tab in Hlt. rewrite (dissem_sys_calls n cores s0) in Hlt |- *. split.
  - intros sched Hs. destruct (calls_promise (dissem_net n cores) 0 Hends cs s0 Hcs Hargs Hs0 sched Hs) as [F HF].
    eexists. by apply dissem_state_calls.
  - intros rounds Hr Hlen s.
    destruct (calls_end (dissem_net n cores) 0 Hends cs s0 Hcs Hargs Hs0 rounds Hr) as (F & q & HF & Hp & Hq & Hqe & _).
    { eapply Nat.le_lt_trans; [|exact Hlen]. apply sum_upto_le. intros i _. rewrite calls_top. unfold cs.
      rewrite fmap_replicate. by rewrite sum_list_replicate. }
    split.
    + eapply dissem_drained; [exact Hq|]. intros x k Hxk. apply (Hqe x Src); [simpl; lia|done].
    + intros i Hi. pose proof (Hp i Hi) as Hpi. apply (dissem_state_calls n Hn cores s0 Hs0) in HF; [|apply Hlt].
      destruct (proj1 HF i _ Hpi) as [[_ E]|(p' & _ & Hrun & E)]; [by rewrite <- E|by destruct p'].
Qed.

(** Six channels' worth of allocations. *)
Definition six_scripts : list (Z * Z * (Z * Z)) :=
  tab 6 (fun i => let a := 16384 * Z.of_nat (S i) in (64 * Z.of_nat i, 64 * Z.of_nat i + 1024, (a, a + 8192))).
Definition six_channels_world : qp_world := QW (AllocSt (alloc_script six_scripts ++ []) []) ∅ ∅ ∅.

Lemma six_channels_left : channels_left 6 six_channels_world.
Proof.
  exists six_scripts, [], [], ∅, ∅, ∅. split; [done|]. split; [done|].
  repeat constructor; vm_compute; done.
Qed.

Lemma dissem_separates_witness :
  exists m w', smlt_dissem_barrier_init
      (create_pair (fun _ => None) (fun _ _ => None) (fun _ => 0) true (fun _ => true)) (fun _ => true)
      [4; 0; 9] 3 six_channels_world = (Ret (err_value SMLT_SUCCESS, m), w') /\
    sy_threads (sys_run (core_of [4; 0; 9]) (dissem_sys 3 [4; 0; 9] m 2) (concat (replicate 25 [2; 0; 1]%nat)))
      !! 1%nat = Some (PRet [err_value SMLT_SUCCESS; err_value SMLT_SUCCESS]).
Proof.
  destruct (dissem_separates 3 [4; 0; 9] (fun _ => true) (fun _ => None) (fun _ _ => None) (fun _ => 0) true
    (fun _ => true) six_channels_world) as (m & w' & E & Hm & Hall);
    [lia|lia|done| |done|exact six_channels_left|].
  { apply (bool_decide_unpack (NoDup [4; 0; 9])). vm_compute. exact I. }
  exists m, w'. split; [exact E|]. destruct (Hall m 2%nat Hm) as [_ Hf].
  destruct (Hf (replicate 25 [2; 0; 1]%nat)) as [_ Hdone].
  - apply Forall_replicate. split; [repeat constructor; simpl; lia|].
    intros i Hi. destruct i as [|[|[|i]]]; [..|lia]; vm_compute; lia.
  - vm_compute. lia.
  - apply Hdone. lia.
Defined.
