(* ===== verification/Rounds.v ===== *)
(** How far the threads of a dissemination barrier have come.  A call consists of entering
    it, of writing a flag and waiting for the flag of a partner in each round, and of
    returning; the number of steps each thread has made determines everything else.  Both
    barriers of the benchmarks are run by these steps: in the one the partner writes the
    flag that is waited for ([Mcs]), in the other it writes its own ([FlagBarrier]). *)
From S2P Require Import Prelude Peers.

(** ** Arrays of arrays *)

(** [a[p][k]] and [a[p][k] = x]. *)
Definition get2 {A} (a : list (list A)) (p k : Z) : option A := r ← arr_get a p; arr_get r k.
Definition set2 {A} (a : list (list A)) (p k : Z) (x : A) : option (list (list A)) :=
  r ← arr_get a p; r' ← arr_set r k x; arr_set a p r'.

(** [a[s][p][k]] *)
Definition get3 {A} (a : list (list (list A))) (s p k : Z) : option A := r ← arr_get a s; get2 r p k.
Definition set3 {A} (a : list (list (list A))) (s p k : Z) (x : A) : option (list (list (list A))) :=
  r ← arr_get a s; r' ← set2 r p k x; arr_set a s r'.

Lemma get2_tab {A} a b (f : nat -> nat -> A) p k :
  (p < a)%nat -> (k < b)%nat ->
  get2 (tab a (fun p => tab b (f p))) (Z.of_nat p) (Z.of_nat k) = Some (f p k).
Proof. intros. unfold get2. rewrite arr_get_tab by done. simpl. by rewrite arr_get_tab. Qed.
Lemma set2_tab {A} a b (f : nat -> nat -> A) p k x :
  (p < a)%nat -> (k < b)%nat ->
  set2 (tab a (fun p => tab b (f p))) (Z.of_nat p) (Z.of_nat k) x =
    Some (tab a (fun p' => tab b (fun k' => if decide (p' = p /\ k' = k) then x else f p' k'))).
Proof.
  intros Hp Hk. unfold set2. rewrite arr_get_tab by done. simpl.
  rewrite arr_set_nat by (by rewrite length_tab). simpl. rewrite arr_set_nat by (by rewrite length_tab).
  f_equal. rewrite !tab_insert. apply tab_ext. intros p' Hp'. destruct (decide (p' = p)) as [->|Hne].
  - apply tab_ext. intros k' Hk'. repeat case_decide; naive_solver.
  - apply tab_ext. intros k' Hk'. rewrite decide_False by naive_solver. done.
Qed.

Lemma get3_tab {A} a b c (f : nat -> nat -> nat -> A) s p k :
  (s < a)%nat -> (p < b)%nat -> (k < c)%nat ->
  get3 (tab a (fun s => tab b (fun p => tab c (f s p)))) (Z.of_nat s) (Z.of_nat p) (Z.of_nat k) = Some (f s p k).
Proof. intros. unfold get3. rewrite arr_get_tab by done. simpl. by apply get2_tab. Qed.
(** The rows need not be equally long. *)
Lemma set3_line {A} a b c (line : nat -> nat -> list A) (g : nat -> A) s p k x :
  (s < a)%nat -> (p < b)%nat -> (k < c)%nat -> line s p = tab c g ->
  set3 (tab a (fun s => tab b (line s))) (Z.of_nat s) (Z.of_nat p) (Z.of_nat k) x =
    Some (tab a (fun s' => tab b (fun p' =>
      if decide (s' = s /\ p' = p) then tab c (fun k' => if decide (k' = k) then x else g k') else line s' p'))).
Proof.
  intros Hs Hp Hk Hl. unfold set3, set2. rewrite arr_get_tab by done. simpl. rewrite arr_get_tab by done. simpl.
  rewrite Hl, arr_set_nat by (by rewrite length_tab). simpl. rewrite arr_set_nat by (by rewrite length_tab). simpl.
  rewrite arr_set_nat by (by rewrite length_tab). f_equal. rewrite !tab_insert. apply tab_ext. intros s' Hs'.
  destruct (decide (s' = s)) as [->|Hne].
  - apply tab_ext. intros p' Hp'. repeat case_decide; naive_solver.
  - apply tab_ext. intros p' Hp'. by rewrite decide_False by naive_solver.
Qed.
Lemma set3_tab {A} a b c (f : nat -> nat -> nat -> A) s p k x :
  (s < a)%nat -> (p < b)%nat -> (k < c)%nat ->
  set3 (tab a (fun s => tab b (fun p => tab c (f s p)))) (Z.of_nat s) (Z.of_nat p) (Z.of_nat k) x =
    Some (tab a (fun s' => tab b (fun p' => tab c (fun k' =>
      if decide (s' = s /\ p' = p /\ k' = k) then x else f s' p' k')))).
Proof.
  intros Hs Hp Hk. rewrite (set3_line a b c (fun s p => tab c (f s p)) (f s p)) by done. f_equal.
  apply tab_ext. intros s' Hs'. apply tab_ext. intros p' Hp'. case_decide as D.
  - destruct D as [-> ->]. apply tab_ext. intros k' Hk'. repeat case_decide; naive_solver.
  - apply tab_ext. intros k' Hk'. by rewrite decide_False by naive_solver.
Qed.

(** ** Progress *)
#[export] Instance exists_upto_dec m (R : nat -> Prop) `{!forall t, Decision (R t)} : Decision (exists t, (t < m)%nat /\ R t).
Proof.
  destruct (decide (Exists R (seq 0 m))) as [E|E]; [left|right].
  - apply Exists_exists in E as (t & Ht & E). apply elem_of_seq in Ht. exists t. split; [lia|done].
  - intros (t & Ht & HR). apply E, Exists_exists. exists t. split; [apply elem_of_seq; lia|done].
Defined.

Section rounds.
Context (n : nat) (Hn : (1 < n)%nat).
Abbreviation L := (rounds_of n).
Abbreviation bwd := (bwd n).
Implicit Types P : nat -> nat.

(** [P i] counts the steps of thread [i]. *)
Definition steps : nat := 2 * L + 2.

Definition calls P i : nat := P i / steps.
Definition stage P i : nat := P i mod steps.
(** The calls in which thread [i] has written its flag of round [k]. *)
Definition writes P i k : nat := calls P i + if decide (2 * k + 2 <= stage P i)%nat then 1 else 0.
(** One step of thread [i]. *)
Definition bump (i : nat) P : nat -> nat := fun j => if decide (j = i) then S (P i) else P j.

(** Thread [i] waits for a flag that its partner has not written in this call. *)
Definition blocked P i : Prop :=
  exists k, (k < L)%nat /\ stage P i = (2 * k + 2)%nat /\ (writes P (bwd i k) k <= calls P i)%nat.
#[export] Instance blocked_dec P i : Decision (blocked P i).
Proof using Type. clear Hn. unfold blocked. apply _. Defined.

(** *** Counting steps *)
Lemma steps_pos : (0 < steps)%nat.
Proof using Hn. unfold steps. lia. Qed.
Lemma stage_lt P i : (stage P i < steps)%nat.
Proof using Hn. apply Nat.mod_upper_bound. unfold steps. lia. Qed.
Lemma stage_cases P i :
  stage P i = 0%nat \/ (exists r, (r < L)%nat /\ stage P i = (2 * r + 1)%nat) \/
  (exists r, (r < L)%nat /\ stage P i = (2 * r + 2)%nat) \/ stage P i = (2 * L + 1)%nat.
Proof using Hn.
  pose proof (stage_lt P i) as Hlt. unfold steps in Hlt.
  destruct (Nat.Even_or_Odd (stage P i)) as [[x Hx]|[x Hx]].
  - destruct x as [|x]; [by left|]. right; right; left. exists x. lia.
  - destruct (decide (x = L)); [right; right; right; lia|]. right; left. exists x. lia.
Qed.
Lemma bump_other i j P : j <> i -> calls (bump i P) j = calls P j /\ stage (bump i P) j = stage P j.
Proof using Hn. intros. unfold calls, stage, bump. by rewrite decide_False. Qed.
Lemma bump_self i P :
  calls (bump i P) i = (if decide (stage P i = 2 * L + 1) then S (calls P i) else calls P i)%nat /\
  stage (bump i P) i = (if decide (stage P i = 2 * L + 1) then 0 else S (stage P i))%nat.
Proof using Hn.
  unfold calls, stage, bump. rewrite decide_True by done.
  destruct (ring_next steps steps_pos (P i)) as [-> ->]. unfold steps. repeat case_decide; split; lia.
Qed.

Lemma writes_bump i j k P :
  (k < L)%nat -> writes (bump i P) j k =
    if decide (j = i /\ stage P i = 2 * k + 1)%nat then S (writes P j k) else writes P j k.
Proof using Hn.
  intros Hk. unfold writes. destruct (decide (j = i)) as [->|Hne].
  - destruct (bump_self i P) as [-> ->]. repeat case_decide; lia.
  - destruct (bump_other i j P Hne) as [-> ->]. by rewrite (decide_False (P := _ /\ _)) by (intros [? _]; done).
Qed.

(** *** The invariant and separation *)

(** The calls in which thread [i] has passed its wait of round [k], and those it has entered. *)
Definition waits P i k : nat := calls P i + if decide (2 * k + 3 <= stage P i)%nat then 1 else 0.
Definition entries P i : nat := calls P i + if decide (1 <= stage P i)%nat then 1 else 0.
Definition waits_inv P : Prop :=
  forall j k, (j < n)%nat -> (k < L)%nat -> (waits P j k <= writes P (bwd j k) k)%nat.

Lemma waits_inv_bump i P : (i < n)%nat -> waits_inv P -> ~ blocked P i -> waits_inv (bump i P).
Proof using Hn.
  intros Hi I Hb j k Hj Hk. pose proof (I j k Hj Hk) as Hjk.
  assert (Hmono : (writes P (bwd j k) k <= writes (bump i P) (bwd j k) k)%nat).
  { rewrite writes_bump by done. case_decide; lia. }
  destruct (decide (j = i)) as [->|Hne].
  - destruct (decide (stage P i = 2 * k + 2)%nat) as [Hs|Hs].
    + assert (Hw : (calls P i < writes P (bwd i k) k)%nat).
      { destruct (decide (calls P i < writes P (bwd i k) k)%nat) as [|Hno]; [done|].
        exfalso. apply Hb. exists k. split; [done|]. split; [done|lia]. }
      unfold waits. destruct (bump_self i P) as [-> ->]. repeat case_decide; lia.
    + unfold waits in *. destruct (bump_self i P) as [-> ->]. repeat case_decide; lia.
  - unfold waits in *. destruct (bump_other i j P Hne) as [-> ->]. lia.
Qed.

(** The calls in which thread [i] has heard of all threads up to [2^r - 1] before it. *)
Definition heard P i r : nat := calls P i + if decide (2 * r + 1 <= stage P i)%nat then 1 else 0.
Lemma heard_entries P r :
  waits_inv P -> (r <= L)%nat ->
  forall i, (i < n)%nat -> forall m, (m < 2 ^ r)%nat -> (m < n)%nat -> (heard P i r <= entries P (back n i m))%nat.
Proof using Hn.
  intros I. induction r as [|r IH]; intros Hr i Hi m Hm Hmn.
  - simpl in Hm. replace m with 0%nat by lia. unfold back. rewrite Nat.sub_0_r.
    replace (i + n)%nat with (i + 1 * n)%nat by lia. rewrite Nat.Div0.mod_add, Nat.mod_small by done.
    unfold heard, entries. done.
  - assert (Hle : (heard P i (S r) <= heard P i r)%nat) by (unfold heard; repeat case_decide; lia).
    destruct (decide (m < 2 ^ r)%nat) as [D|D]; [specialize (IH ltac:(lia) i Hi m D Hmn); lia|].
    pose proof (round_step n Hn r ltac:(lia)) as Hstep. simpl in Hm.
    replace m with (2 ^ r + (m - 2 ^ r))%nat by lia. rewrite <- (back_bwd n Hn) by lia.
    specialize (IH ltac:(lia) (bwd i r) (bwd_lt n Hn i r) (m - 2 ^ r)%nat ltac:(lia) ltac:(lia)).
    specialize (I i r Hi ltac:(lia)). unfold heard, waits, writes in *. repeat case_decide; lia.
Qed.

(** A thread has returned from no more calls than every other has entered. *)
Lemma separation P i j : waits_inv P -> (i < n)%nat -> (j < n)%nat -> (calls P i <= entries P j)%nat.
Proof using Hn.
  intros I Hi Hj. destruct (back_any n Hn i j Hi Hj) as (m & Hm & <-).
  pose proof (rounds_cover n Hn) as Hcov. pose proof (heard_entries P L I ltac:(lia) i Hi m ltac:(lia) Hm) as H.
  unfold heard in H. lia.
Qed.

(** A step of the thread, if it does not wait. *)
Definition advance P i : nat -> nat := if decide (blocked P i) then P else bump i P.

Lemma advance_le P i j : (P j <= advance P i j)%nat.
Proof using Type. clear Hn. unfold advance, bump. repeat case_decide; subst; lia. Qed.
Lemma waits_inv_advance P i : (i < n)%nat -> waits_inv P -> waits_inv (advance P i).
Proof using Hn. intros Hi I. unfold advance. case_decide; [done|by apply waits_inv_bump]. Qed.
Lemma waits_inv_start : waits_inv (fun _ => 0%nat).
Proof using Type. clear Hn. intros j k Hj Hk. unfold waits, writes, calls, stage. rewrite Nat.Div0.div_0_l, Nat.Div0.mod_0_l. repeat case_decide; lia. Qed.

(** The thread that has come least far never waits. *)
Lemma least_not_blocked P i m :
  (forall j, (j < n)%nat -> (m <= P j)%nat) -> P i = m -> ~ blocked P i.
Proof using Hn.
  intros Hm <- (k & Hk & Hs & Hw). pose proof (Hm (bwd i k) (bwd_lt n Hn i k)) as Hle.
  unfold writes, calls, stage in *. pose proof steps_pos as Hp.
  pose proof (Nat.div_mod_eq (P i) steps) as E1. pose proof (Nat.div_mod_eq (P (bwd i k)) steps) as E2.
  pose proof (Nat.Div0.div_le_mono _ _ steps Hle) as Hd. case_decide as D; nia.
Qed.
End rounds.
