(* ===== verification/Networks.v ===== *)
(** Networks side by side: the threads of two networks of channels use both.  What was
    shown for calls over one of them holds over both, because a call leaves the channels
    alone that it does not use. *)
From S2P Require Import Prelude Errors Message Fifo Pair UmpQueue UmpQueuepair.
From S2P Require Import Queuepair Channel Edge Process Layers.

(** ** A call in a larger network *)
Section widen.
Context {T : Type} `{!Inhabited T} (n K : nat) (ends ends' : nat -> side -> nat -> nat -> Prop).

Context (Hsub : forall i d x k, (i < n)%nat -> ends i d x k -> ends' i d x k).
Context (Hunused : forall i d x k, (i < n)%nat -> ends' i d x k -> ends i d x k \/ unused n ends d x k).

Definition wide (P : mach T) : mach T := {|
  m_pc := m_pc P; m_args := m_args P; m_act := m_act P; m_start := m_start P; m_okp := m_okp P;
  m_inv := fun g a => m_inv P g a /\ forall d x k, unused n ends d x k -> a_q a d x k = [];
  m_view := m_view P; m_inh := _; m_seen := m_seen P; m_level := m_level P; m_top := m_top P;
  m_wait := m_wait P; m_enabled := m_enabled P; m_dec := _;
|}.

Lemma wide_ok (P : mach T) : mach_ok n K ends P -> mach_ok n K ends' (wide P).
Proof using Hsub Hunused.
  intros HP. split; simpl.
  - apply HP.
  - intros g Hg. split; [by apply (mo_init _ _ _ _ HP)|done].
  - intros g Hg. destruct (mo_staged _ _ _ _ HP g Hg) as [S1 S2 S3 S4 S5 S6]. split; simpl.
    + intros i a a' Hi [Ha Hq] Hs. destruct (S1 i a a' Hi Ha Hs) as [Ha' Hv]. split; [split; [done|]|done].
      intros d x k Hu. rewrite (unused_step n K ends P g a a' i) by done. by apply Hq.
    + intros i a Hi [Ha _]. by apply S2.
    + exact S3.
    + intros i a a' Hi [Ha _]. by apply S4.
    + intros i a Hi [Ha _]. by apply S5.
    + intros i a Hi [Ha _]. by apply S6.
  - intros g a i Hg [Ha _] Hi. by apply (mo_okp _ _ _ _ HP).
  - apply HP.
  - apply HP.
  - apply HP.
  - intros i t p d x k Hi Hp Hat. apply Hsub; [done|]. by apply (mo_ends _ _ _ _ HP i t p).
  - intros g a i d x k Hg [Ha Hq] Hi Hp He. destruct (Hunused i d x k Hi He) as [He'|Hu]; [|by apply Hq].
    by apply (mo_unsent _ _ _ _ HP g a i).
  - intros g a i d x k Hg [Ha Hq] Hi Hp He. destruct (Hunused i d x k Hi He) as [He'|Hu]; [|by apply Hq, (unused_peer n ends)].
    by apply (mo_taken _ _ _ _ HP g a i).
  - intros g a i j d x k Hg [Ha Hq] Hi Hj Haw He Hf.
    assert (Hat : act_at (m_act P i (g i) (a_pc a i)) d x k) by (by apply act_awaits_at).
    destruct (Hunused j (peer d) x k Hj He) as [He'|Hu].
    + by apply (mo_awaits _ _ _ _ HP g a i j).
    + by destruct (unused_not_at n K ends P g a i d x k HP Hg Ha Hi Hat).
Qed.
End widen.

Section nets.
Context {C : Type} {HC : ChanOps C} {HT : TreeEdge C}.

(** The thread uses its channels of the first network in the same way in the second. *)
Definition uses_as {W W'} {HS : ChanStore C W} {HS' : ChanStore C W'} (net : network C W) (net' : network C W') (i : nat) : Prop :=
  n_id net' i = n_id net i /\
  forall d x k, n_end net i d x k -> n_end net' i d x k /\ n_ref net' i x k = n_ref net i x k.

Lemma implements_net {W W'} {HS : ChanStore C W} {HS' : ChanStore C W'} (net : network C W) (net' : network C W')
    {A pc} (act : nat -> pc -> action pc) (prog_of : nat -> pc -> prog A) okp i p :
  uses_as net net' i -> implements net act prog_of okp i p -> implements net' act prog_of okp i p.
Proof.
  intros [Eid Hends]. unfold implements, does, moves_to. rewrite Eid.
  destruct (act i p) as [p'|d x k v p'|d x k f|d x k f|]; try done.
  - intros [He H]. destruct (Hends _ _ _ He) as [He' ->]. done.
  - intros [He H]. destruct (Hends _ _ _ He) as [He' ->]. done.
  - intros [He H]. destruct (Hends _ _ _ He) as [He' ->]. done.
Qed.

Section call_widen.
Context {W W' : Type} {HS : ChanStore C W} {HS' : ChanStore C W'} (net : network C W) (net' : network C W') (K : nat) {A : Type}.
Context (Hlen : n_len net' = n_len net) (Huses : forall i, (i < n_len net)%nat -> uses_as net net' i).
Context (Hunused : forall i d x k, (i < n_len net)%nat -> n_end net' i d x k ->
  n_end net i d x k \/ unused (n_len net) (n_end net) d x k).

Definition wide_call (c : call A) : call A :=
  Call (wide (n_len net) (n_end net) (cl_mach c)) (cl_prog c) (cl_code c) (cl_post c).

Lemma wide_call_ok c : call_ok net K c -> call_ok net' K (wide_call c).
Proof using Hlen Huses Hunused.
  intros Hc. split; simpl; rewrite ?Hlen.
  - apply (wide_ok _ _ _ _ (fun i d x k Hi He => proj1 (proj2 (Huses i Hi) d x k He)) Hunused), Hc.
  - apply Hc.
  - intros i t p Hi Ht Hp. apply (implements_net net net'); [by apply Huses|]. by apply (co_impl _ _ _ Hc).
  - apply Hc.
  - apply Hc.
  - intros g a st Hg [Ha _] Hst. by apply (co_post _ _ _ Hc g a st).
Qed.
End call_widen.
End nets.

(** ** Two networks *)

(** References with a negative second number lead to the second store. *)
Definition second_ref (r : chan_ref) : chan_ref := (r.1, -1 - r.2).
#[export] Instance sum_store {C W1 W2} {HS1 : ChanStore C W1} {HS2 : ChanStore C W2} : ChanStore C (W1 * W2) :=
  fun A r m w =>
    if 0 <=? r.2 then let '(o, w1) := with_chan r m w.1 in (o, (w1, w.2))
    else let '(o, w2) := with_chan (second_ref r) m w.2 in (o, (w.1, w2)).

Section sum.
Context {C : Type} {HC : ChanOps C} {HT : TreeEdge C}.
Context {W1 W2 : Type} {HS1 : ChanStore C W1} {HS2 : ChanStore C W2} (net1 : network C W1) (net2 : network C W2) (b : nat).
Context (Hid : forall i, n_id net2 i = n_id net1 i).
Context (Href1 : forall i d x k, n_end net1 i d x k -> (k < b)%nat /\ 0 <= (n_ref net1 i x k).2).
Context (Href2 : forall i d x k, n_end net2 i d x k -> 0 <= (n_ref net2 i x k).2).

(** The edges of the second network are numbered from [b] on. *)
Definition fst_q (q : queues) : queues := fun d x k => if decide (k < b)%nat then q d x k else [].
Definition snd_q (q : queues) : queues := fun d x k => q d x (b + k)%nat.
Definition sum_end (i : nat) (d : side) (x k : nat) : Prop :=
  if decide (k < b)%nat then n_end net1 i d x k else n_end net2 i d x (k - b).
Definition sum_ref (i x k : nat) : chan_ref :=
  if decide (k < b)%nat then n_ref net1 i x k else second_ref (n_ref net2 i x (k - b)).
Definition sum_ok (q : queues) (w : W1 * W2) : Prop := n_ok net1 (fst_q q) w.1 /\ n_ok net2 (snd_q q) w.2.

Lemma fst_q_set d x k v q : (k < b)%nat -> forall d' x' k', q_set d x k v (fst_q q) d' x' k' = fst_q (q_set d x k v q) d' x' k'.
Proof using Type. clear. intros Hk d' x' k'. unfold q_set, fst_q. repeat case_decide; try done; exfalso; intuition lia. Qed.
Lemma fst_q_other d x k v q : (b <= k)%nat -> forall d' x' k', fst_q q d' x' k' = fst_q (q_set d x k v q) d' x' k'.
Proof using Type. clear. intros Hk d' x' k'. unfold q_set, fst_q. repeat case_decide; try done. lia. Qed.
Lemma snd_q_set d x k v q d' x' k' : q_set d x k v (snd_q q) d' x' k' = snd_q (q_set d x (b + k) v q) d' x' k'.
Proof using Type. clear. unfold q_set, snd_q. repeat case_decide; try done; exfalso; intuition lia. Qed.
Lemma snd_q_other d x k v q : (k < b)%nat -> forall d' x' k', snd_q q d' x' k' = snd_q (q_set d x k v q) d' x' k'.
Proof using Type. clear. intros Hk d' x' k'. unfold q_set, snd_q. case_decide; [|done]. lia. Qed.

Lemma sum_with q w i d x k :
  sum_ok q w -> sum_end i d x k ->
  exists o c, edge o c (chan_end o (n_id net1 i)) (q d x k) (q (peer d) x k) /\
    forall A (m : M C A) r c' v v', m c = (r, c') ->
      edge o c' (chan_end o (n_id net1 i)) v v' ->
      exists w', with_chan (sum_ref i x k) m w = (r, w') /\
        sum_ok (q_set d x k v (q_set (peer d) x k v' q)) w'.
Proof using Hid Href1 Href2.
  intros [H1 H2] He. unfold sum_end, sum_ref in *. destruct w as [w1 w2]. cbn [fst snd] in H1, H2. case_decide as D.
  - destruct (n_with net1 _ _ _ _ _ _ H1 He) as (o & c & Ec & Hw). exists o, c.
    unfold fst_q in Ec. rewrite !decide_True in Ec by done. split; [done|].
    intros A m r c' v v' E Ec'. destruct (Hw A m r c' v v' E Ec') as (w' & Ew & Hok). exists (w', w2).
    unfold with_chan at 1, sum_store. rewrite (proj2 (Z.leb_le _ _)) by (by eapply Href1). cbn [fst snd]. rewrite Ew.
    split; [done|]. split; cbn [fst snd].
    + eapply (n_ext net1); [|exact Hok]. intros d' x' k'.
      rewrite <- (fst_q_set d x k v) by done. unfold q_set at 1 3. case_decide; [done|]. by rewrite fst_q_set.
    + eapply (n_ext net2); [|exact H2]. intros d' x' k'. by rewrite <- !snd_q_other by done.
  - destruct (n_with net2 _ _ _ _ _ _ H2 He) as (o & c & Ec & Hw). rewrite Hid in Ec, Hw. exists o, c.
    assert (Ek : (b + (k - b) = k)%nat) by lia. unfold snd_q in Ec. rewrite Ek in Ec. split; [done|].
    intros A m r c' v v' E Ec'. destruct (Hw A m r c' v v' E Ec') as (w' & Ew & Hok). exists (w1, w').
    unfold with_chan at 1, sum_store. pose proof (Href2 _ _ _ _ He). cbn [second_ref snd].
    rewrite (proj2 (Z.leb_gt _ _)) by lia. cbn [fst snd].
    assert (second_ref (second_ref (n_ref net2 i x (k - b))) = n_ref net2 i x (k - b)) as E2.
    { unfold second_ref. destruct (n_ref net2 i x (k - b)) as [r1 r2]. cbn. f_equal. lia. }
    rewrite E2, Ew. split; [done|]. split; cbn [fst snd].
    + eapply (n_ext net1); [|exact H1]. intros d' x' k'. by rewrite <- !fst_q_other by lia.
    + eapply (n_ext net2); [|exact Hok]. intros d' x' k'.
      transitivity (snd_q (q_set d x (b + (k - b)) v (q_set (peer d) x (b + (k - b)) v' q)) d' x' k'); [|by rewrite Ek].
      rewrite <- snd_q_set. unfold q_set at 1 3. case_decide; [done|]. by rewrite snd_q_set.
Qed.

Definition net_sum : network C (W1 * W2).
Proof using Hid Href1 Href2.
  refine {| n_len := n_len net1; n_id := n_id net1; n_end := sum_end; n_ref := sum_ref; n_ok := sum_ok |}.
  - intros q q' w Hq [H1 H2]. split; [eapply (n_ext net1); [|exact H1]|eapply (n_ext net2); [|exact H2]].
    + intros d x k. unfold fst_q. by case_decide.
    + intros d x k. apply Hq.
  - intros q w i d x k. apply sum_with.
Defined.

Lemma sum_uses_fst i : uses_as net1 net_sum i.
Proof using Type.
  split; [done|]. intros d x k He. cbn. unfold sum_end, sum_ref. destruct (Href1 _ _ _ _ He) as [? _].
  by rewrite !decide_True by done.
Qed.
Lemma sum_unused_fst i d x k : n_end net_sum i d x k -> n_end net1 i d x k \/ unused (n_len net1) (n_end net1) d x k.
Proof using Type.
  cbn. unfold sum_end. case_decide as D; [by left|]. intros _. right. intros j _.
  split; intros H; by destruct (Href1 _ _ _ _ H).
Qed.
End sum.
