(* ===== verification/Direct.v ===== *)
(** Messages among collectives: the threads of a context that also have a channel for
    every pair of nodes.  A call is a collective or a message from one thread to another,
    over one of these channels. *)
From S2P Require Import Prelude Errors Message Fifo Pair UmpQueue UmpQueuepair.
From S2P Require Import Queuepair Channel Topology Edge Context Process TreeNet Layers Reduction Calls Rounds Networks.

(** ** A channel for every pair of nodes *)

(** [chan[i][j]]; an entry that has not been created is [None]. *)
Definition chan_table (C : Type) : Type := list (list (option C)).
#[export] Instance table_store C : ChanStore C (chan_table C) := fun A r m s =>
  match get2 s r.1 r.2 with
  | Some (Some c) =>
      let '(o, c') := m c in
      match set2 s r.1 r.2 (Some c') with Some s' => (o, s') | None => (Undef, s) end
  | _ => (Undef, s)
  end.

Section mesh.
Context {C : Type} {HC : ChanOps C} {HT : TreeEdge C}.
(** [n] threads, a table of [size] rows, and the thread that uses the end of [chan[x][k]]
    that does not belong to [x]. *)
Context (n size : nat) (far : nat -> nat -> nat).

Definition user (d : side) (x k : nat) : nat := match d with Src => x | Dst => far x k end.
Definition mesh_end (i : nat) (d : side) (x k : nat) : Prop :=
  (x < n)%nat /\ (x < size)%nat /\ (k < size)%nat /\ (far x k < n)%nat /\ far x k <> x /\ i = user d x k.

Definition mesh_ok (q : queues) (s : chan_table C) : Prop :=
  exists f, s = tab size (fun x => tab size (f x)) /\
    forall x k, (x < size)%nat -> (k < size)%nat ->
      exists c, f x k = Some c /\ edge (Z.of_nat x) c Src (q Src x k) (q Dst x k).

Lemma mesh_chan_end i d x k : mesh_end i d x k -> chan_end (Z.of_nat x) (Z.of_nat i) = d.
Proof using Type.
  intros (_ & _ & _ & _ & Hne & ->). unfold chan_end. destruct d; simpl; [by rewrite Z.eqb_refl|].
  by rewrite (proj2 (Z.eqb_neq _ _)) by lia.
Qed.

Lemma edge_at (o : Z) (c : C) d q qo : edge o c Src (match d with Src => q | Dst => qo end) (match d with Src => qo | Dst => q end) <-> edge o c d q qo.
Proof using Type. destruct d; [done|]. split; apply (edge_flip o c). Qed.

Lemma table_with q s i d x k :
  mesh_ok q s -> mesh_end i d x k ->
  exists o c, edge o c (chan_end o (Z.of_nat i)) (q d x k) (q (peer d) x k) /\
    forall A (m : M C A) r c' v v', m c = (r, c') ->
      edge o c' (chan_end o (Z.of_nat i)) v v' ->
      exists s', with_chan (Z.of_nat x, Z.of_nat k) m s = (r, s') /\
        mesh_ok (q_set d x k v (q_set (peer d) x k v' q)) s'.
Proof using Type.
  intros (f & -> & Hf) He. pose proof (mesh_chan_end _ _ _ _ He) as Hd. destruct He as (_ & Hx & Hk & _).
  destruct (Hf x k Hx Hk) as (c & Efc & Ec0).
  exists (Z.of_nat x), c. rewrite Hd. split; [apply edge_at; by destruct d|].
  intros A m r c' v v' E Ec. eexists. split.
  { unfold with_chan, table_store. cbn [fst snd]. rewrite get2_tab, Efc by done. rewrite E.
    by rewrite set2_tab by done. }
  eexists. split; [reflexivity|]. intros x' k' Hx' Hk'. cbv beta. unfold q_set. case_decide as D.
  - destruct D as [-> ->]. exists c'. split; [done|]. apply edge_at in Ec. by destruct d; rewrite ?decide_True, ?decide_False in * by naive_solver;
    repeat (rewrite decide_True by naive_solver || rewrite decide_False by naive_solver).
  - rewrite !decide_False by naive_solver. by apply Hf.
Qed.

Definition mesh_net : network C (chan_table C).
Proof using far n size HT.
  refine {| n_len := n; n_id := Z.of_nat; n_end := mesh_end; n_ref := fun _ x k => (Z.of_nat x, Z.of_nat k); n_ok := mesh_ok |}.
  - intros q q' s Hq (f & Hs & Hf). exists f. split; [done|]. intros x k Hx Hk. rewrite <- !Hq. by apply Hf.
  - intros q s i d x k. apply table_with.
Defined.

Lemma mesh_ends i d x k : mesh_end i d x k -> exists j, (j < n)%nat /\ mesh_end j (peer d) x k.
Proof using Type.
  intros (H1 & H2 & H3 & H4 & H5 & ->). exists (user (peer d) x k). split; [by destruct d|]. by split_and!.
Qed.

Lemma mesh_end_user i d x k : mesh_end i d x k -> i = user d x k /\ (user d x k < n)%nat /\ (user (peer d) x k < n)%nat /\ user d x k <> user (peer d) x k.
Proof using Type. intros (? & ? & ? & ? & ? & ?). destruct d; simpl in *; auto. Qed.
End mesh.

(** ** A message from one thread to another *)
Section message.
Context {C W : Type} {HS : ChanStore C W} {HC : ChanOps C} {HT : TreeEdge C} (net : network C W) (K : nat).
Abbreviation n := (n_len net).
(** [s] and [r] are the two ends of an edge that no other thread uses. *)
Context (d : side) (x k s r : nat) (Hs : (s < n)%nat) (Hr : (r < n)%nat) (Hne : s <> r).
Context (Ends : forall i, n_end net i d x k <-> i = s) (Endr : forall i, n_end net i (peer d) x k <-> i = r).
(** The messages of the threads, of [w] words. *)
Context (w : nat) (msgs : nat -> list call_result -> smlt_msg) (args : nat -> list call_result -> Prop).
Context (Hsome : forall i, (i < n)%nat -> exists t, args i t).
Context (Hmsgs : forall i t, (i < n)%nat -> args i t -> msg_ok w (msgs i t)).

Definition nothing : call_result := without_msg (err_value SMLT_SUCCESS).
Definition message_result (i : nat) (res : call_result) : Prop :=
  if decide (i = r) then exists m, res = (err_value SMLT_SUCCESS, Some m) /\ msg_ok w m else res = nothing.
(** What thread [i] runs, if its messages are [msg]. *)
Definition message_prog (ref : chan_ref) (i : nat) (msg : smlt_msg) : prog call_result :=
  if decide (i = s) then returning without_msg (pev (EvSend ref msg))
  else if decide (i = r) then returning with_msg (pev (EvRecv ref msg))
  else mret nothing.

(** A thread has not made its step, or has returned. *)
Definition message_act (i : nat) (t : list call_result) (p : option call_result) : action (option call_result) :=
  match p with
  | Some _ => AStop
  | None =>
      if decide (i = s) then ASend d x k (payload (msgs i t)) (Some nothing)
      else ARecv (peer d) x k (fun v p => exists m, received v (msgs i t) m /\ p = Some (with_msg (err_value SMLT_SUCCESS, m)))
  end.
Definition message_start (i : nat) : option call_result := if decide (i = s \/ i = r) then None else Some nothing.
Definition message_okp (i : nat) (p : option call_result) : Prop :=
  match p with None => i = s \/ i = r | Some res => message_result i res end.

Record message_inv (v : list Z) (a : amach (option call_result)) : Prop := {
  mi_okp i : (i < n)%nat -> message_okp i (a_pc a i);
  mi_queue : a_q a d x k = if decide (a_pc a s <> None /\ a_pc a r = None) then [v] else [];
  mi_other d' x' k' : ~ (d' = d /\ x' = x /\ k' = k) -> a_q a d' x' k' = [];
  mi_order : a_pc a r <> None -> a_pc a s <> None;
  mi_got m : a_pc a r = Some (with_msg (err_value SMLT_SUCCESS, m)) -> payload m = v;
}.

Definition message_mach : mach (list call_result) := {|
  m_pc := option call_result; m_args := args; m_act := message_act; m_start := fun i _ => message_start i;
  m_okp := fun i _ => message_okp i; m_inv := fun g => message_inv (payload (msgs s (g s)));
  m_view := bool; m_inh := _; m_seen := fun _ p => bool_decide (p <> None); m_level := fun _ b => if b : bool then 1%nat else 0%nat;
  m_top := fun _ => 1%nat; m_wait := fun _ _ => 0%nat;
  m_enabled := fun seen i => seen i = false /\ (i = s \/ seen s = true); m_dec := _;
|}.

Lemma message_start_okp i : message_okp i (message_start i).
Proof using Type.
  unfold message_start. case_decide as D; [done|]. simpl. unfold message_result. rewrite decide_False; [done|]. intros E. apply D. by right.
Qed.

Lemma message_init v : message_inv v (AM message_start no_msgs).
Proof using Type*.
  split; simpl.
  - intros i _. apply message_start_okp.
  - unfold message_start. rewrite decide_False; [done|]. intros [H _]. destruct H. by rewrite decide_True by auto.
  - done.
  - intros H. destruct H. unfold message_start. by rewrite decide_True by auto.
  - intros m. unfold message_start. by rewrite decide_True by auto.
Qed.


Lemma unreceived v a : message_inv v a -> a_pc a s = None -> a_pc a r = None.
Proof using Type*. intros Ha E. destruct (a_pc a r) eqn:Er; [|done]. by destruct (mi_order _ _ Ha); rewrite ?Er. Qed.

Lemma message_sent v a :
  message_inv v a -> a_pc a s = None ->
  message_inv v (AM (pc_set s (Some nothing) (a_pc a)) (q_set d x k (a_q a d x k ++ [v]) (a_q a))).
Proof using Type*.
  intros Ha Hp. pose proof (unreceived v a Ha Hp) as Ern. destruct Ha as [H1 H2 H3 H4 H5].
  split; simpl; rewrite ?pc_set_same, ?(pc_set_other s _ _ r) by done.
  - intros i Hi. destruct (decide (i = s)) as [->|D]; [|rewrite pc_set_other by done; by apply H1].
    rewrite pc_set_same. simpl. unfold message_result. by rewrite decide_False.
  - rewrite q_set_same, H2, decide_False by naive_solver. by rewrite decide_True.
  - intros d' x' k' H. rewrite q_set_other by done. by apply H3.
  - done.
  - congruence.
Qed.

Lemma message_got v a q m :
  message_inv v a -> a_pc a r = None -> a_q a d x k = v :: q -> msg_ok w m -> payload m = v ->
  message_inv v (AM (pc_set r (Some (with_msg (err_value SMLT_SUCCESS, m))) (a_pc a)) (q_set d x k q (a_q a))).
Proof using Type*.
  intros [H1 H2 H3 H4 H5] Hp Hq Hm Hv. rewrite Hq in H2. case_decide as D; [|done]. destruct D as [Hps _].
  injection H2 as ->.
  split; simpl; rewrite ?pc_set_same, ?(pc_set_other r _ _ s) by congruence.
  - intros i Hi. destruct (decide (i = r)) as [->|D]; [|rewrite pc_set_other by done; by apply H1].
    rewrite pc_set_same. simpl. unfold message_result. rewrite decide_True by done. by exists m.
  - rewrite q_set_same, decide_False by naive_solver. done.
  - intros d' x' k' H. rewrite q_set_other by done. by apply H3.
  - done.
  - intros m' [= <-]. done.
Qed.

Section message_args.
Context (g : nat -> list call_result) (Hg : args_ok n message_mach g).
Abbreviation v := (payload (msgs s (g s))).
Abbreviation act := (fun i => message_act i (g i)).
Implicit Types a : amach (option call_result).

Lemma message_msgs i : (i < n)%nat -> msg_ok w (msgs i (g i)).
Proof using Type*. intros Hi. apply Hmsgs; [done|by apply Hg]. Qed.

(** A step of a thread: it has returned and stays, it sends, it receives, or it waits. *)
Lemma message_steps i a a' :
  (i < n)%nat -> message_inv v a -> astep act i a a' ->
  message_inv v a' /\
  (a' = a /\ (a_pc a i <> None \/ a_pc a i = None /\ i = r /\ a_pc a s = None) \/
   a_pc a i = None /\ a_pc a' i <> None).
Proof using Type*.
  intros Hi Ha Hst. apply astep_inv in Hst. pose proof (mi_okp _ _ Ha i Hi) as Hok. unfold message_act in Hst.
  destruct (a_pc a i) as [res|] eqn:E; [subst; split; [done|left; by split; [|left]]|].
  destruct (decide (i = s)) as [->|D].
  - destruct Hst as [->|[_ Hq]].
    + split; [by apply message_sent|]. right. simpl. by rewrite pc_set_same.
    + destruct Hq. rewrite (mi_queue _ _ Ha), decide_False by naive_solver. done.
  - destruct Hok as [? | ->]; [done|]. rewrite peer_peer in Hst. destruct Hst as [(z & q & p & Eq & (m & Hm & ->) & ->)|[-> Hq]].
    + pose proof (mi_queue _ _ Ha) as H2. rewrite Eq in H2. case_decide; [|done]. injection H2 as -> ->.
      destruct (received_ok w (msgs r (g r)) (msgs s (g s)) m) as [Hm1 Hm2]; [by apply message_msgs..|done|].
      split; [by apply message_got|]. right. simpl. by rewrite pc_set_same.
    + split; [done|]. left. split; [done|]. right. split; [done|]. split; [done|].
      rewrite (mi_queue _ _ Ha) in Hq. case_decide as D'; [done|]. destruct (a_pc a s) eqn:Es; [|done]. by destruct D'.
Qed.

Lemma message_staged :
  staged act n K (message_inv v) (m_seen message_mach) (m_level message_mach) (m_top message_mach)
    (m_wait message_mach) (m_enabled message_mach).
Proof using Type*.
  split; simpl.
  - intros i a a' Hi Ha Hst. destruct (message_steps i a a' Hi Ha Hst) as [Ha' [[-> _]|[E E']]]; (split; [done|]); [by left|right].
    rewrite E, (bool_decide_true _ E'). rewrite bool_decide_false by naive_solver. lia.
  - intros i a _ _. case_bool_decide; lia.
  - intros z z' i Hz Hi. by rewrite !Hz.
  - intros i a a' Hi Ha [E Hen] Hst. apply bool_decide_eq_false in E. left.
    destruct (message_steps i a a' Hi Ha Hst) as [_ [[-> Hw]|[_ E']]].
    + exfalso. destruct Hw as [Hw|(_ & -> & Hw)]; [done|]. destruct Hen as [|Hen]; [done|].
      by apply bool_decide_eq_true in Hen.
    + rewrite (bool_decide_true _ E'). rewrite bool_decide_false by done. lia.
  - intros i a Hi Ha. case_bool_decide as E; [lia|]. intros _. destruct (decide (a_pc a s = None)) as [Es|Es].
    + exists s. split; [done|]. split; [apply bool_decide_eq_false; by rewrite Es; intros []|by left].
    + exists i. split; [done|]. split; [apply bool_decide_eq_false; by rewrite E; intros []|right; by apply bool_decide_eq_true].
  - lia.
Qed.
End message_args.

Lemma message_fin i p : m_fin message_mach i p <-> p <> None.
Proof using Type. unfold m_fin. simpl. by case_bool_decide. Qed.

Lemma message_mach_ok : mach_ok n K (n_end net) message_mach.
Proof using Type*.
  split; simpl.
  - exact Hsome.
  - intros g _. apply message_init.
  - apply message_staged.
  - intros g a i _ Ha. by apply (mi_okp _ _ Ha).
  - intros i t _ _. apply message_start_okp.
  - intros i t p _ _. case_bool_decide; lia.
  - intros i t p _ _ Hf. apply message_fin in Hf. by destruct p.
  - intros i t [res|] d' x' k' _ Hok; simpl; [done|]. destruct (decide (i = s)) as [->|D].
    + intros (<- & <- & <-). by apply Ends.
    + intros (<- & <- & <-). apply Endr. by destruct Hok.
  - intros g a i d' x' k' _ Ha Hi Est He. destruct (decide (d' = d /\ x' = x /\ k' = k)) as [(-> & -> & ->)|D]; [|by apply (mi_other _ _ Ha)].
    apply Ends in He as ->. unfold message_start in Est. rewrite decide_True in Est by auto.
    rewrite (mi_queue _ _ Ha), decide_False by naive_solver. done.
  - intros g a i d' x' k' _ Ha Hi Hf He. apply message_fin in Hf.
    destruct (decide (peer d' = d /\ x' = x /\ k' = k)) as [(Ed & -> & ->)|D]; [|by apply (mi_other _ _ Ha)].
    rewrite <- Ed, peer_peer in Endr. apply Endr in He as ->. rewrite Ed, (mi_queue _ _ Ha), decide_False by naive_solver. done.
  - intros g a i j d' x' k' _ Ha Hi Hj Haw He Hf. apply message_fin in Hf.
    pose proof (mi_okp _ _ Ha i Hi) as Hok.
    destruct (a_pc a i) eqn:E; [done|]. simpl in Haw. case_decide; [done|]. destruct Haw as (<- & <- & <-).
    destruct Hok as [? | ->]; [done|]. rewrite peer_peer in He |- *. apply Ends in He as ->.
    by rewrite (mi_queue _ _ Ha), decide_True.
Qed.

(** *** The programs *)
Context (ref : chan_ref) (Hrefs : n_ref net s x k = ref) (Hrefr : n_ref net r x k = ref).

Definition message_call (code : nat -> list call_result -> prog call_result)
    (post : (nat -> list call_result) -> (nat -> status call_result) -> Prop) : call call_result :=
  Call message_mach (fun i t p => match p with None => message_prog ref i (msgs i t) | Some res => PRet res end) code post.

(** The receiver gets what the sender has brought, which has entered the call. *)
Definition message_post (h : nat -> list call_result) (st : nat -> status call_result) : Prop :=
  forall i res, (i < n)%nat -> st i = Returned res ->
    message_result i res /\
    (i = r -> (s < n)%nat /\ st s <> NotEntered /\
       exists m, res = (err_value SMLT_SUCCESS, Some m) /\ payload m = payload (msgs s (h s))).

Lemma message_implements i t p :
  (i < n)%nat -> args i t -> message_okp i p ->
  implements net (fun i => message_act i t)
    (fun i p => match p with None => message_prog ref i (msgs i t) | Some res => PRet res end) message_okp i p.
Proof using Type*.
  intros Hi Ht Hok. pose proof (Hmsgs i t Hi Ht) as Hm. unfold implements, message_act. destruct p as [res|]; [by intros W' HS' w'|].
  simpl in Hok. destruct (decide (i = s)) as [->|D].
  - split; [by apply Ends|]. split; [simpl; unfold message_result; by rewrite decide_False|].
    exists (EvSend ref (msgs s t)), (fun err => PRet (without_msg err)). split; [|split; [|done]].
    + left. exists (msgs s t). rewrite Hrefs. split; [done|]. split; [apply Hm|done].
    + apply does_eq. unfold message_prog. by rewrite decide_True.
  - destruct Hok as [? | ->]; [done|]. split; [by apply Endr|]. left.
    exists (EvRecv ref (msgs r t)), (fun res => PRet (with_msg res)), (msgs r t). split; [|split].
    + rewrite Hrefr. split; [apply Hm|by left].
    + apply does_eq. unfold message_prog. by rewrite decide_False, decide_True.
    + intros z m Hrec. exists (Some (with_msg (err_value SMLT_SUCCESS, m))). split; [by exists m|]. split; [|done].
      simpl. unfold message_result. rewrite decide_True by done. exists m. split; [done|]. destruct Hm as [Hm1 Hm2].
      split; [by eapply received_sendable|]. by rewrite (proj1 Hrec).
Qed.

Lemma message_call_ok code :
  (forall i t, (i < n)%nat -> code i t = message_prog ref i (msgs i t)) ->
  call_ok net K (message_call code message_post) /\
  (forall i, (i < n)%nat -> exists res, message_result i res) /\
  (forall i t p res, (i < n)%nat -> m_okp message_mach i t p -> m_fin message_mach i p ->
     cl_prog (message_call code message_post) i t p = PRet res -> message_result i res).
Proof using Type*.
  intros Hcode. split; [split|split]; cbn [message_call cl_mach cl_prog cl_code cl_post].
  - exact message_mach_ok.
  - intros i t Hi. rewrite Hcode by done. simpl. unfold message_start, message_prog. case_decide as D; [done|].
    rewrite !decide_False by (intros ->; apply D; auto). done.
  - intros i t p Hi Ht Hok. by apply message_implements.
  - intros i t p Hi _ Hok Hf. rewrite message_fin in Hf. simpl in Hok. destruct p; [by destruct Hf|].
    unfold message_prog. repeat case_decide; [done..|]. by destruct Hok.
  - intros i t p _ _ _ Hf. apply message_fin in Hf. destruct p as [res|]; [by exists res|done].
  - intros g a st _ Ha Hst i res Hi Er. cbn [message_mach message_call cl_mach m_pc m_inv] in a, Ha, Hst. pose proof (Hst i Hi) as Hsi. rewrite Er in Hsi. destruct Hsi as [Hf Ep].
    apply message_fin in Hf. destruct (a_pc a i) as [res'|] eqn:E; [|done]. injection Ep as ->.
    pose proof (mi_okp _ _ Ha i Hi) as Hok. rewrite E in Hok. split; [done|]. intros ->. split; [done|]. split.
    + intros En. pose proof (Hst s Hs) as Hss. rewrite En in Hss. simpl in Hss. unfold message_start in Hss.
      rewrite decide_True in Hss by auto. apply (mi_order _ _ Ha); [by rewrite E|done].
    + simpl in Hok. unfold message_result in Hok. rewrite decide_True in Hok by done. destruct Hok as (m & -> & _).
      exists m. split; [done|]. by apply (mi_got _ _ Ha).
  - intros i Hi. unfold message_result. case_decide; [|by eexists]. destruct (Hsome r Hr) as [t Ht].
    exists (err_value SMLT_SUCCESS, Some (msgs r t)), (msgs r t). split; [done|by apply Hmsgs].
  - intros i t p res Hi Hok Hf Ep. apply message_fin in Hf. destruct p as [res'|]; [|done]. by injection Ep as ->.
Qed.
End message.

(** ** Collectives and messages *)

(** In [DoMessage d x k w msgs] the thread at the end [d] of [chan[x][k]] sends its message
    and the thread at the other end receives into its own; both have [w] words. *)
Inductive comm_op :=
| Collective (c : client_call)
| DoMessage (d : side) (x k w : nat) (msgs : nat -> list call_result -> smlt_msg).

Section ops.
Context {C : Type} {HC : ChanOps C} {HT : TreeEdge C}.
Context (tr : tree) (size : nat) (far : nat -> nat -> nat) (ctx : smlt_context C).
Abbreviation len := (t_len tr).
Abbreviation user := (user far).

(** Channels of the table, in a store that begins with the context. *)
Definition table_ref (x k : nat) : chan_ref := second_ref (Z.of_nat x, Z.of_nat k).
Definition op_code (i : nat) (o : comm_op) (rs : list call_result) : prog call_result :=
  match o with
  | Collective c => call_code ctx i c rs
  | DoMessage d x k _ msgs => message_prog (user d x k) (user (peer d) x k) (table_ref x k) i (msgs i rs)
  end.
Definition op_result (i : nat) (o : comm_op) (r : call_result) : Prop :=
  match o with
  | Collective c => result_ok c r
  | DoMessage d x k w _ => message_result (user (peer d) x k) w i r
  end.
Definition op_post (o : comm_op) (h : nat -> list call_result) (st : nat -> status call_result) : Prop :=
  match o with
  | Collective c => call_post tr c h st
  | DoMessage d x k w msgs => forall i r, (i < len)%nat -> st i = Returned r ->
      message_result (user (peer d) x k) w i r /\
      (i = user (peer d) x k -> (user d x k < len)%nat /\ st (user d x k) <> NotEntered /\
         exists m, r = (err_value SMLT_SUCCESS, Some m) /\ payload m = payload (msgs (user d x k) (h (user d x k))))
  end.
Definition op_top (i : nat) (o : comm_op) : nat := match o with Collective c => call_top tr i c | DoMessage _ _ _ _ _ => 1%nat end.

(** What thread [i] may have got from the calls before. *)
Definition had (i : nat) : list comm_op -> list call_result -> Prop := Forall2 (op_result i).
Definition op_wf (prior : list comm_op) (o : comm_op) : Prop :=
  match o with
  | Collective c => call_wf tr (fun i => had i prior) c
  | DoMessage d x k w msgs =>
      (x < len)%nat /\ (x < size)%nat /\ (k < size)%nat /\ (far x k < len)%nat /\ far x k <> x /\
      forall i rs, (i < len)%nat -> had i prior rs -> msg_ok w (msgs i rs)
  end.
Definition ops_wf (l : list comm_op) : Prop := forall r o, l !! r = Some o -> op_wf (take r l) o.

Section over.
Context (Hc : tree_ctx tr no_msgs ctx) (Hlen : Z.of_nat len < 2 ^ 32).
Let Hwf : tree_wf tr := cxr_wf _ _ _ Hc.

Lemma tree_refs i d x k : n_end (tree_net (C := C) tr) i d x k -> (k < len)%nat /\ 0 <= (n_ref (tree_net (C := C) tr) i x k).2.
Proof using Hwf. intros (Hx & Hk & _). pose proof (kids_bound tr Hwf x Hx). simpl. split; lia. Qed.
Lemma table_refs i d x k : n_end (mesh_net len size far (C := C)) i d x k -> 0 <= (n_ref (mesh_net len size far (C := C)) i x k).2.
Proof using Type. simpl. lia. Qed.

Definition both : network C (smlt_context C * chan_table C) :=
  net_sum (tree_net tr) (mesh_net len size far) len (fun _ => eq_refl) tree_refs table_refs.

Lemma both_ends i d x k : (i < len)%nat -> n_end both i d x k -> exists j, (j < len)%nat /\ n_end both j (peer d) x k.
Proof using Hwf.
  cbn. unfold sum_end. case_decide; intros Hi He; [by apply (tree_ends tr Hwf i)|by apply (mesh_ends len size far i)].
Qed.

Definition op_call (prior : list comm_op) (o : comm_op) : call call_result :=
  match o with
  | Collective c => wide_call (tree_net tr) (call_of tr ctx (fun i => had i prior) c)
  | DoMessage d x k w msgs =>
      message_call both d x (len + k) (user d x k) (user (peer d) x k) w msgs (fun i => had i prior) (table_ref x k)
        (fun i => op_code i o) (op_post o)
  end.

Lemma op_call_is prior o : call_is op_code op_result op_post op_top op_call prior o.
Proof using Type. split; destruct o as [c|]; try done; by destruct c. Qed.

Lemma op_call_ok prior o :
  (forall i, (i < len)%nat -> exists rs, had i prior rs) -> op_wf prior o ->
  call_ok both (len + 3) (op_call prior o) /\ (forall i, (i < len)%nat -> exists x, op_result i o x) /\
  (forall i t p x, (i < len)%nat -> m_args (cl_mach (op_call prior o)) i t -> m_okp (cl_mach (op_call prior o)) i t p ->
     m_fin (cl_mach (op_call prior o)) i p -> cl_prog (op_call prior o) i t p = PRet x -> op_result i o x).
Proof using Hc Hlen.
  intros Hp Hw. destruct o as [c|d x k w msgs]; simpl in Hw.
  - destruct (call_of_after tr ctx Hc Hlen (fun i => had i prior) Hp c Hw) as (Hok & _ & Hr). split.
    + apply (wide_call_ok (tree_net tr) both); [done| | |done].
      * intros i _. apply sum_uses_fst.
      * intros i d x k _. apply sum_unused_fst.
    + split; [|done]. intros i Hi. apply (call_has_result tr (fun i => had i prior) Hp); [lia|done].
  - destruct Hw as (Hx & Hxs & Hks & Hf & Hne & Hm).
    assert (Hends : forall d' i, n_end both i d' x (len + k) <-> i = user d' x k).
    { intros d' i. cbn. unfold sum_end, mesh_end. rewrite decide_False by lia. replace (len + k - len)%nat with k by lia.
      split; [intros H; apply H|intros ->; by split_and!]. }
    destruct (message_call_ok both (len + 3) d x (len + k) (user d x k) (user (peer d) x k)) with
      (w := w) (msgs := msgs) (args := fun i => had i prior) (ref := table_ref x k)
      (code := fun i => op_code i (DoMessage d x k w msgs)) as (H1 & H2 & H3); try done.
    + by destruct d.
    + by destruct d.
    + destruct d; simpl; congruence.
    + cbn. unfold sum_ref. rewrite decide_False by lia. by replace (len + k - len)%nat with k by lia.
    + cbn. unfold sum_ref. rewrite decide_False by lia. by replace (len + k - len)%nat with k by lia.
    + split; [done|]. split; [done|]. intros i t p z Hi _. by apply H3.
Qed.

Lemma op_post_ext o h h' st :
  (forall i, (i < len)%nat -> st i <> NotEntered -> h i = h' i) -> op_post o h st -> op_post o h' st.
Proof using Hwf.
  intros Hh. destruct o as [c|d x k w msgs]; [by apply call_post_ext|]. simpl. intros Hp i r Hi Er.
  destruct (Hp i r Hi Er) as [H1 H2]. split; [done|]. intros Ei. destruct (H2 Ei) as (H3 & H4 & m & -> & H5).
  split; [done|]. split; [done|]. exists m. split; [done|]. by rewrite <- Hh.
Qed.
End over.
End ops.

(** ** The system *)

(** Every node makes the calls [l], one after another. *)
Definition ops_sys {C} (tr : tree) (far : nat -> nat -> nat) (ctx : smlt_context C) (chan : chan_table C) (l : list comm_op)
  : sys (smlt_context C * chan_table C) (list call_result) :=
  Sys (tab (t_len tr) (fun i => in_turn [] (op_code far ctx i <$> l))) (ctx, chan).

(** As for the collectives alone: the results [F] of the calls the threads have returned
    from, and that each call keeps its promise. *)
Definition ops_state {C} (tr : tree) (far : nat -> nat -> nat) (ctx : smlt_context C) (l : list comm_op)
    (s : sys (smlt_context C * chan_table C) (list call_result)) (F : nat -> list call_result) : Prop :=
  (forall i p, sy_threads s !! i = Some p ->
     (length (F i) = length l /\ p = PRet (F i)) \/
     (exists p', (length (F i) < length l)%nat /\ running p' /\
        p = pbind (fun x => in_turn (F i ++ [x]) (op_code far ctx i <$> drop (S (length (F i))) l)) p')) /\
  (forall r o, l !! r = Some o -> op_post tr far o (fun i => take r (F i)) (fun i => status_at r (Some (F i)))).

(** Messages between two nodes and collective calls do not interfere: let every node of a
    tree of empty channels, which are also joined by a table of empty channels, make the
    same sequence of broadcasts, reductions, barriers and messages from one node to another,
    each going on to its next call as soon as it has returned.  Under every schedule no call
    panics or runs into undefined behaviour, and every call gives the threads that have
    returned from it what it promises.  Once every node has run in enough rounds all calls
    have returned, and the channels are empty. *)
Theorem messages_in_order {C} {HC : ChanOps C} {HT : TreeEdge C} tr size far (ctx : smlt_context C) chan l :
  tree_ctx tr no_msgs ctx -> Z.of_nat (t_len tr) < 2 ^ 32 -> mesh_ok size no_msgs chan -> ops_wf tr size far l ->
  (forall sched, Forall (fun i => (i < t_len tr)%nat) sched ->
     exists F, ops_state tr far ctx l (sys_run Z.of_nat (ops_sys tr far ctx chan l) sched) F) /\
  (forall rounds, Forall (fair_round (t_len tr) (t_len tr + 3)) rounds ->
     (sum_upto (t_len tr) (fun i => sum_list (op_top tr i <$> l)) < length rounds)%nat ->
     let s := sys_run Z.of_nat (ops_sys tr far ctx chan l) (concat rounds) in
     tree_ctx tr no_msgs (sy_store s).1 /\ mesh_ok size no_msgs (sy_store s).2 /\
     exists F, ops_state tr far ctx l s F /\
       forall i, (i < t_len tr)%nat -> sy_threads s !! i = Some (PRet (F i)) /\ length (F i) = length l).
Proof.
  intros Hc Hlen Hm Hl. pose proof (cxr_wf _ _ _ Hc) as Hwf. set (net := both tr size far ctx Hc).
  assert (Hw : n_ok net no_msgs (ctx, chan)).
  { split; cbn; [|exact Hm]. eapply tree_ctx_ext; [|exact Hc]. intros d x k. unfold fst_q. by case_decide. }
  pose proof (script_promise net (t_len tr + 3) (both_ends tr size far ctx Hc) (op_code far ctx) (op_result far)
    (op_wf tr size far) (op_post tr far) (op_top tr) (op_call tr size far ctx Hc) (op_call_is tr size far ctx Hc)
    (op_call_ok tr size far ctx Hc Hlen) (op_post_ext tr far ctx Hc) l Hl (ctx, chan) Hw) as Hp.
  pose proof (script_end net (t_len tr + 3) (both_ends tr size far ctx Hc) (op_code far ctx) (op_result far)
    (op_wf tr size far) (op_post tr far) (op_top tr) (op_call tr size far ctx Hc) (op_call_is tr size far ctx Hc)
    (op_call_ok tr size far ctx Hc Hlen) (op_post_ext tr far ctx Hc) l Hl (ctx, chan) Hw) as He.
  split; [exact Hp|]. intros rounds Hr Hn s. destruct (He rounds Hr Hn) as ((q & [Hq1 Hq2] & Hqe & Hqu) & HF).
  split; [|split; [|exact HF]].
  - eapply tree_ctx_empty; [exact Hq1|]. intros x k y Hy. pose proof (kids_bound tr Hwf x (proj1 Hy)) as Hkb.
    destruct Hy as [Hx Hk]. pose proof (lookup_lt_Some _ _ _ Hk).
    unfold fst_q. rewrite !decide_True by lia. apply (Hqe x Src); [done|]. cbn. unfold sum_end. rewrite decide_True by lia.
    by split_and!.
  - assert (Hq : forall d x k, (x < size)%nat -> (k < size)%nat -> snd_q (t_len tr) q d x k = []).
    { intros d x k Hx Hk. unfold snd_q.
      assert (Hend : forall i d', n_end net i d' x (t_len tr + k) <-> mesh_end (t_len tr) size far i d' x k).
      { intros i d'. cbn. unfold sum_end. rewrite decide_False by lia. by replace (t_len tr + k - t_len tr)%nat with k by lia. }
      destruct (decide ((x < t_len tr)%nat /\ (far x k < t_len tr)%nat /\ far x k <> x)) as [(H1 & H2 & H3)|D].
      - apply (Hqe (user far d x k)); [by destruct d|]. apply Hend. by split_and!.
      - apply Hqu. intros i Hi. rewrite !Hend. split; intros (? & _ & _ & ? & ? & _); by apply D. }
    destruct Hq2 as (f & Ef & Hf). exists f. split; [exact Ef|]. intros x k Hx Hk. destruct (Hf x k Hx Hk) as (c & Ec & Hce).
    exists c. split; [done|]. by rewrite !Hq in Hce by done.
Qed.
