(* ===== verification/Experiments.v ===== *)
(** The workers of [bench/ab-bench.c]: ping-pong, atomic broadcast, reduction, agreement
    and barrier, run by every node of a topology over a context and a channel for every
    pair of nodes.  The measurements and the output are left out. *)
From Stdlib Require Import FunctionalExtensionality.
From stdpp Require Import strings.
From S2P Require Import Prelude Errors Message Fifo Pair Platform UmpQueue UmpQueuepair.
From S2P Require Import Queuepair Channel Topology Edge Context Process TreeNet Broadcast.
From S2P Require Import Collective Reduction Barrier Layers Calls Peers Dissem Rounds Networks Direct.

(** ** The workers *)
Definition operation (m1 m2 : smlt_msg) : Z * smlt_msg := (0, m1).

Section get_leafs.
Context (topo : smlt_topology).

Fixpoint count_leafs (n : nat) (tn : Z) (num_leafs : Z) : option Z :=
  match n with
  | O => Some num_leafs
  | S n' =>
      x ← arr_get (tp_all_nodes topo) tn;
      count_leafs n' (smlt_topology_node_next tn) (if smlt_topology_node_is_leaf x then num_leafs + 1 else num_leafs)
  end.
Fixpoint fill_leafs (n : nat) (tn index : Z) (ret : list Z) : option (list Z) :=
  match n with
  | O => Some ret
  | S n' =>
      x ← arr_get (tp_all_nodes topo) tn;
      if smlt_topology_node_is_leaf x then
        ret' ← arr_set ret index (smlt_topology_node_get_id x);
        fill_leafs n' (smlt_topology_node_next tn) (index + 1) ret'
      else fill_leafs n' (smlt_topology_node_next tn) index ret
  end.
(** The array and its length; [junk] is what the allocated array holds at first. *)
Definition get_leafs (num_threads : nat) (junk : Z) : option (list Z * Z) :=
  num_leafs ← count_leafs num_threads (smlt_topology_get_first_node topo) 0;
  ret ← fill_leafs num_threads (smlt_topology_get_first_node topo) 0 (replicate (Z.to_nat num_leafs) junk);
  Some (ret, num_leafs).
End get_leafs.

(** [&chan[x][k]]: the channels of the table come after those of the context. *)
Definition chan (x k : Z) : chan_ref := second_ref (x, k).

Section worker_code.
Context {C : Type} (context : smlt_context C) (topo : smlt_topology) (num_threads runs : nat) (junk : Z).
(** The node the thread runs on; its message is handed through. *)
Context (self : Z).

(** [for (j = 0; j < NUM_RUNS; j++)] and [for (i = 0; i < count; i++)]. *)
Fixpoint for_runs (m : nat) (body : smlt_msg -> prog smlt_msg) (msg : smlt_msg) : prog smlt_msg :=
  match m with O => mret msg | S m' => msg' ← body msg; for_runs m' body msg' end.
Fixpoint for_each (l : list Z) (body : Z -> smlt_msg -> prog smlt_msg) (msg : smlt_msg) : prog smlt_msg :=
  match l with [] => mret msg | last_node :: l' => msg' ← for_runs runs (body last_node) msg; for_each l' body msg' end.
Definition for_leafs (body : Z -> smlt_msg -> prog smlt_msg) (msg : smlt_msg) : prog smlt_msg :=
  of_ctx (get_leafs topo num_threads junk) (fun l => for_each l.1 body msg).

Definition send_msg (c : chan_ref) (msg : smlt_msg) : prog smlt_msg := _ ← pev (EvSend c msg); mret msg.
Definition recv_into (c : chan_ref) (msg : smlt_msg) : prog smlt_msg := r ← pev (EvRecv c msg); mret r.2.
Definition broadcast_msg (msg : smlt_msg) : prog smlt_msg := r ← smlt_broadcast context self msg; mret r.2.
Definition reduce_msg (msg : smlt_msg) : prog smlt_msg := r ← smlt_reduce context self msg msg (Some operation); mret r.2.

Definition pingpong (msg : smlt_msg) : prog smlt_msg :=
  let last := Z.of_nat num_threads - 1 in
  let c := chan 0 last in
  msg ← (if self =? last then for_runs runs (fun m => m ← send_msg c m; recv_into c m) msg else mret msg);
  if self =? 0 then for_runs runs (fun m => m ← recv_into c m; send_msg c m) msg else mret msg.

(** The last node sends to [chan[last][k]], the root receives and broadcasts. *)
Definition ab_round (k last_node : Z) (msg : smlt_msg) : prog smlt_msg :=
  msg ← (if self =? last_node then send_msg (chan last_node k) msg else mret msg);
  of_ctx (smlt_context_node_is_root context self) (fun root =>
    if root : bool then m ← recv_into (chan last_node k) msg; broadcast_msg m else broadcast_msg msg).
Definition ab (msg : smlt_msg) : prog smlt_msg := for_leafs (ab_round 0) msg.

Definition reduction_round (last_node : Z) (msg : smlt_msg) : prog smlt_msg :=
  msg ← reduce_msg msg;
  of_ctx (smlt_context_node_is_root context self) (fun root =>
    if root : bool then send_msg (chan last_node 0) msg
    else if self =? last_node then recv_into (chan last_node 0) msg else mret msg).
Definition reduction (msg : smlt_msg) : prog smlt_msg := for_leafs reduction_round msg.

Definition agreement_round (root last_node : Z) (msg : smlt_msg) : prog smlt_msg :=
  msg ← ab_round root last_node msg;
  msg ← reduce_msg msg;
  broadcast_msg msg.
Definition agreement (msg : smlt_msg) : prog smlt_msg :=
  of_ctx (smlt_topology_get_root_id topo) (fun root => for_leafs (agreement_round root) msg).

Definition barrier (msg : smlt_msg) : prog smlt_msg :=
  for_runs runs (fun m => _ ← smlt_barrier_wait context self; mret m) msg.
End worker_code.

Inductive experiment := Pingpong | Ab | Reduce | Agreement | Barriers.
(** [workers[i]]. *)
Definition workers {C} (e : experiment) (context : smlt_context C) topo (num_threads runs : nat) junk (self : Z)
    : smlt_msg -> prog smlt_msg :=
  match e with
  | Pingpong => pingpong num_threads runs self
  | Ab => ab context topo num_threads runs junk self
  | Reduce => reduction context topo num_threads runs junk self
  | Agreement => agreement context topo num_threads runs junk self
  | Barriers => barrier context runs self
  end.

(** *** The channels of [main] *)
Section create.
Context {C W : Type} (channel_create : Z -> Z -> M W (Z * option C)).
Definition in_chan_world {A} (m : M W A) : M (W * chan_table C) A := zoom fst (fun w s => (w, s.2)) m.
Definition set_chan (i j : Z) (c : option C) : M (W * chan_table C) unit :=
  s ← get; t ← defined (set2 s.2 i j c); modify (fun s => (s.1, t)).

(** The value [main] returns when a channel cannot be created. *)
Definition create_chans (num_threads : nat) (w : W) : outcome (option Z) * (W * chan_table C) :=
  mfor_ret num_threads 0 (fun i => mfor_ret num_threads 0 (fun j =>
    r ← in_chan_world (channel_create i j);
    _ ← set_chan i j r.2;
    mret (if smlt_err_is_fail r.1 then Some 1 else None)))
  (w, tab num_threads (fun _ => replicate num_threads None)).
End create.

(** ** The leaves *)
Definition tree_leafs (tr : tree) : list nat := filter (fun i => t_kids tr i = []) (seq 0 (t_len tr)).

Section leafs.
Context (tr : tree) (t : smlt_topology) (Ht : topo_repr tr t).
Abbreviation leafs_from j m := (filter (fun i => t_kids tr i = []) (seq j m)).

Lemma leaf_at i : (i < t_len tr)%nat -> exists x, arr_get (tp_all_nodes t) (Z.of_nat i) = Some x /\
  smlt_topology_node_is_leaf x = bool_decide (t_kids tr i = []) /\ smlt_topology_node_get_id x = Z.of_nat i.
Proof using Ht.
  intros Hi. destruct (lookup_lt_is_Some_2 (tp_all_nodes t) i) as [x Hx]; [by rewrite (tr_length _ _ Ht)|].
  exists x. rewrite arr_get_nat. split; [done|]. pose proof (tr_nodes _ _ Ht i x Hx) as Hn.
  unfold smlt_topology_node_is_leaf. rewrite (nr_num _ _ _ Hn), (nr_num_shm _ _ _ Hn), (nr_id _ _ _ Hn : smlt_topology_node_get_id x = _).
  split; [|done]. rewrite andb_true_r. destruct (t_kids tr i); [done|]. by rewrite bool_decide_false.
Qed.

Lemma count_leafs_run m : forall j c, (j + m <= t_len tr)%nat ->
  count_leafs t m (Z.of_nat j) c = Some (c + Z.of_nat (length (leafs_from j m))).
Proof using Ht.
  induction m as [|m IH]; intros j c Hj; [simpl; f_equal; lia|]. cbn [count_leafs seq].
  destruct (leaf_at j) as (x & -> & Hx & _); [lia|]. cbn [mbind option_bind]. rewrite Hx, filter_cons.
  unfold smlt_topology_node_next. replace (Z.of_nat j + 1) with (Z.of_nat (S j)) by lia. rewrite IH by lia.
  f_equal. case_bool_decide; case_decide; try done; simpl; lia.
Qed.

Lemma fill_leafs_run junk m : forall j (ret : list Z), (j + m <= t_len tr)%nat ->
  fill_leafs t m (Z.of_nat j) (Z.of_nat (length ret)) (ret ++ replicate (length (leafs_from j m)) junk) =
    Some (ret ++ (Z.of_nat <$> leafs_from j m)).
Proof using Ht.
  induction m as [|m IH]; intros j ret Hj; [done|]. cbn [fill_leafs seq].
  destruct (leaf_at j) as (x & -> & Hx & Hid); [lia|]. cbn [mbind option_bind]. rewrite Hx, filter_cons.
  unfold smlt_topology_node_next. replace (Z.of_nat j + 1) with (Z.of_nat (S j)) by lia.
  case_bool_decide; case_decide; try done; [|by apply IH; lia].
  rewrite arr_set_nat by (rewrite length_app; simpl; lia). cbn [mbind option_bind length replicate].
  rewrite insert_app_r_alt, Nat.sub_diag by lia. simpl. rewrite Hid.
  specialize (IH (S j) (ret ++ [Z.of_nat j])). rewrite length_app in IH. simpl in IH.
  replace (Z.of_nat (length ret) + 1) with (Z.of_nat (length ret + 1)) by lia.
  rewrite <- !app_assoc in IH. apply IH. lia.
Qed.

Lemma get_leafs_run junk :
  get_leafs t (t_len tr) junk = Some (Z.of_nat <$> tree_leafs tr, Z.of_nat (length (tree_leafs tr))).
Proof using Ht.
  unfold get_leafs, smlt_topology_get_first_node. pose proof (count_leafs_run (t_len tr) 0 0 ltac:(lia)) as E0.
  change (Z.of_nat 0) with 0 in E0. rewrite E0.
  cbn [mbind option_bind]. rewrite Z.add_0_l, Nat2Z.id.
  pose proof (fill_leafs_run junk (t_len tr) 0 [] ltac:(lia)) as E. cbn [length app] in E.
  change (Z.of_nat 0) with 0 in E. rewrite E. done.
Qed.
End leafs.

Lemma tree_leafs_lt tr a : a ∈ tree_leafs tr -> (a < t_len tr)%nat /\ t_kids tr a = [].
Proof. unfold tree_leafs. rewrite list_elem_of_filter, elem_of_seq. intros [? ?]. split; [lia|done]. Qed.

(** The root of more than one node has children. *)
Lemma root_not_leaf tr : tree_wf tr -> (1 < t_len tr)%nat -> t_kids tr (t_root tr) <> [].
Proof.
  intros Hwf Hn Hk.
  assert (H : forall i, (i < t_len tr)%nat -> i = t_root tr).
  { apply (tree_down tr Hwf); [done|]. intros x k y [_ Hy] ->. by rewrite Hk in Hy. }
  pose proof (H 0%nat ltac:(lia)). pose proof (H 1%nat ltac:(lia)). lia.
Qed.

(** ** Programs and scripts *)
Lemma pbind_assoc {A B D} (f : A -> prog B) (g : B -> prog D) (p : prog A) :
  pbind g (pbind f p) = pbind (fun x => pbind g (f x)) p.
Proof.
  induction p as [a|X e k IH|L R body s k IH| |]; simpl; try done; f_equal; apply functional_extensionality; exact IH.
Qed.

Lemma in_turn_app {A} (l1 l2 : list (list A -> prog A)) : forall rs,
  in_turn rs (l1 ++ l2) = pbind (fun rs' => in_turn rs' l2) (in_turn rs l1).
Proof.
  induction l1 as [|p l1 IH]; intros rs; [done|]. simpl. rewrite pbind_assoc. f_equal.
  apply functional_extensionality. intros x. apply IH.
Qed.

Lemma pbind_PRet {A} (p : prog A) : pbind PRet p = p.
Proof. induction p as [a|X e k IH|L R body s k IH| |]; simpl; try done; f_equal; apply functional_extensionality; exact IH. Qed.

Lemma for_runs_ext runs f f' m : (forall m, f m = f' m) -> for_runs runs f m = for_runs runs f' m.
Proof.
  intros H. revert m. induction runs as [|r IH]; intros m; [done|]. simpl. rewrite H. f_equal.
  apply functional_extensionality. exact IH.
Qed.
Lemma for_runs_idle runs f m : (forall m, f m = mret m) -> mret m = for_runs runs f m.
Proof. intros H. induction runs as [|r IH]; [done|]. simpl. by rewrite H. Qed.

(** A system whose threads go on with [f] when they are done. *)
Section returning.
Context {C W A B : Type} {HS : ChanStore C W} {HC : ChanOps C} (ids : nat -> Z) (f : nat -> A -> B).

Lemma step_returning i self p (w : W) :
  step_prog (C := C) self (returning (f i) p) w = let '(p', w') := step_prog (C := C) self p w in (returning (f i) p', w').
Proof using Type. destruct p; try done; by apply step_pbind. Qed.

Definition goes_on (s : sys W A) (s' : sys W B) : Prop :=
  sy_store s' = sy_store s /\ forall i, sy_threads s' !! i = returning (f i) <$> sy_threads s !! i.
Lemma goes_on_step s s' i :
  goes_on s s' -> goes_on (sys_step (C := C) ids s i) (sys_step (C := C) ids s' i).
Proof using Type.
  intros [Hw Ht]. unfold sys_step. rewrite Ht, Hw. destruct (sy_threads s !! i) as [p|] eqn:E; [|done]. simpl.
  rewrite step_returning. destruct (step_prog (ids i) p (sy_store s)) as [p' w']. split; [done|]. simpl. intros j.
  destruct (decide (j = i)) as [->|Hne].
  - rewrite !list_lookup_insert_eq; [done| |]; apply lookup_lt_is_Some; [by rewrite E|by rewrite Ht, E].
  - by rewrite !list_lookup_insert_ne by done.
Qed.
Lemma goes_on_run sched : forall s s', goes_on s s' -> goes_on (sys_run (C := C) ids s sched) (sys_run (C := C) ids s' sched).
Proof using Type. induction sched as [|i sched IH]; intros s s' H; [done|]. by apply IH, goes_on_step. Qed.
End returning.

Section scripts.
Context {C : Type} (tr : tree) (context : smlt_context C) (topo : smlt_topology) (runs : nat) (junk : Z).
(** The messages of the threads at first, of [w] words. *)
Context (w : nat) (init : nat -> smlt_msg).
Abbreviation n := (t_len tr).

(** What the earlier calls have left in a thread's message. *)
Definition buffer (msg : smlt_msg) (rs : list call_result) : smlt_msg := foldl (fun m r => default m r.2) msg rs.
Definition bufs (i : nat) (rs : list call_result) : smlt_msg := buffer (init i) rs.
(** The users of [chan[last][0]], [chan[last][root]] and [chan[0][n-1]]. *)
Definition far_end (x k : nat) : nat := if decide (k = 0%nat) then t_root tr else k.

Abbreviation Bcast := (Collective (DoBroadcast w bufs)).
Abbreviation Red := (Collective (DoReduce w bufs bufs operation)).
Definition ab_ops (k last : nat) : list comm_op := [DoMessage Src last k w bufs; Bcast].
Definition reduction_ops (last : nat) : list comm_op := [Red; DoMessage Dst last 0 w bufs].
Definition agreement_ops (last : nat) : list comm_op := ab_ops (t_root tr) last ++ [Red; Bcast].
Definition pingpong_ops : list comm_op := [DoMessage Dst 0 (n - 1) w bufs; DoMessage Src 0 (n - 1) w bufs].

Definition runs_of (l : list comm_op) : list comm_op := concat (replicate runs l).
Definition script (e : experiment) : list comm_op :=
  match e with
  | Pingpong => runs_of pingpong_ops
  | Ab => concat ((fun last => runs_of (ab_ops 0 last)) <$> tree_leafs tr)
  | Reduce => concat ((fun last => runs_of (reduction_ops last)) <$> tree_leafs tr)
  | Agreement => concat ((fun last => runs_of (agreement_ops last)) <$> tree_leafs tr)
  | Barriers => runs_of [Collective DoBarrier]
  end.

Lemma buffer_snoc m rs r : buffer m (rs ++ [r]) = default (buffer m rs) r.2.
Proof using Type. unfold buffer. by rewrite foldl_app. Qed.

(** The program [f] of thread [i] makes the calls [l]. *)
Definition makes (i : nat) (f : smlt_msg -> prog smlt_msg) (l : list comm_op) : Prop :=
  forall rs, f (bufs i rs) = returning (bufs i) (in_turn rs (op_code far_end context i <$> l)).

Lemma makes_nil i : makes i mret [].
Proof using Type. done. Qed.
Lemma makes_app i f1 f2 l1 l2 : makes i f1 l1 -> makes i f2 l2 -> makes i (fun m => m' ← f1 m; f2 m') (l1 ++ l2).
Proof using Type.
  intros H1 H2 rs. rewrite fmap_app, in_turn_app. unfold returning. cbn [mbind prog_bind]. unfold prog_bind.
  rewrite H1. unfold returning. rewrite !pbind_assoc. f_equal. apply functional_extensionality. intros rs'.
  cbn [pbind]. apply H2.
Qed.
Lemma makes_ext i f f' l : (forall m, f m = f' m) -> makes i f' l -> makes i f l.
Proof using Type. intros E H rs. by rewrite E. Qed.
Lemma makes_one i f o :
  (forall rs, f (bufs i rs) = pbind (fun x => PRet (default (bufs i rs) x.2)) (op_code far_end context i o rs)) -> makes i f [o].
Proof using Type.
  intros H rs. rewrite H. unfold returning. simpl. rewrite pbind_assoc. f_equal. apply functional_extensionality. intros x.
  simpl. unfold bufs. by rewrite buffer_snoc.
Qed.

Lemma makes_runs i f l : makes i f l -> makes i (for_runs runs f) (runs_of l).
Proof using Type.
  intros H. unfold runs_of. induction runs as [|m IH]; [apply makes_nil|]. cbn [replicate concat].
  exact (makes_app i f (for_runs m f) l _ H IH).
Qed.
Lemma makes_each i (f : Z -> smlt_msg -> prog smlt_msg) (L : nat -> list comm_op) leafs :
  (forall a, a ∈ leafs -> makes i (f (Z.of_nat a)) (L a)) ->
  makes i (for_each runs (Z.of_nat <$> leafs) f) (concat ((fun a => runs_of (L a)) <$> leafs)).
Proof using Type.
  induction leafs as [|a leafs IH]; intros H; [apply makes_nil|].
  rewrite !fmap_cons. cbn [concat for_each].
  apply (makes_app i (for_runs runs (f (Z.of_nat a))) (for_each runs (Z.of_nat <$> leafs) f)).
  - apply makes_runs, H. left.
  - apply IH. intros b Hb. apply H. by right.
Qed.

(** *** The operations *)
Lemma makes_broadcast i : makes i (broadcast_msg context (Z.of_nat i)) [Bcast].
Proof using Type. apply makes_one. intros rs. unfold broadcast_msg. simpl. unfold returning. by rewrite pbind_assoc. Qed.
Lemma makes_reduce i : makes i (reduce_msg context (Z.of_nat i)) [Red].
Proof using Type. apply makes_one. intros rs. unfold reduce_msg. cbn [op_code call_code]. unfold returning. by rewrite pbind_assoc. Qed.
Lemma makes_barrier i : makes i (fun m => _ ← smlt_barrier_wait context (Z.of_nat i); mret m) [Collective DoBarrier].
Proof using Type. apply makes_one. intros rs. cbn [op_code call_code]. unfold returning. by rewrite pbind_assoc. Qed.

Lemma makes_message i d x k :
  makes i (fun m => if decide (i = user far_end d x k) then send_msg (chan (Z.of_nat x) (Z.of_nat k)) m
                    else if decide (i = user far_end (peer d) x k) then recv_into (chan (Z.of_nat x) (Z.of_nat k)) m else mret m)
    [DoMessage d x k w bufs].
Proof using Type. apply makes_one. intros rs. simpl. unfold message_prog. by repeat case_decide. Qed.

(** *** The workers *)
Section workers_make.
Context {HC : ChanOps C} {HT : TreeEdge C} (Hc : tree_ctx tr no_msgs context) (Ht : topo_repr tr topo) (Hn : (1 < n)%nat).
Let Hwf : tree_wf tr := tr_wf _ _ Ht.

Lemma leaf_user a : a ∈ tree_leafs tr -> (a < n)%nat /\ a <> t_root tr.
Proof using Hn Hwf.
  intros [Ha Hk]%tree_leafs_lt. split; [done|]. intros ->. by apply (root_not_leaf tr Hwf Hn).
Qed.
Lemma far_end_root : far_end 0 0 = t_root tr /\ (forall a, far_end a 0 = t_root tr) /\ (forall a, far_end a (t_root tr) = t_root tr).
Proof using Type. unfold far_end. repeat split; intros; by repeat case_decide. Qed.

Lemma makes_ab_round i k a :
  (i < n)%nat -> a ∈ tree_leafs tr -> far_end a k = t_root tr ->
  makes i (ab_round context (Z.of_nat i) (Z.of_nat k) (Z.of_nat a)) (ab_ops k a).
Proof using Hc Hn Hwf.
  intros Hi [Ha Hne]%leaf_user Hk.
  eapply makes_ext; [|exact (makes_app i _ _ _ _ (makes_message i Src a k) (makes_broadcast i))].
  intros m. unfold ab_round. rewrite (is_root_run _ _ _ Hc) by done. simpl. rewrite Hk.
  destruct (Z.eqb_spec (Z.of_nat i) (Z.of_nat a)); destruct (decide (i = a)) as [->|]; try lia.
  - by rewrite bool_decide_false.
  - destruct (decide (i = t_root tr)); [by rewrite bool_decide_true|by rewrite bool_decide_false].
Qed.

Lemma makes_reduction_round i a :
  (i < n)%nat -> a ∈ tree_leafs tr -> makes i (reduction_round context (Z.of_nat i) (Z.of_nat a)) (reduction_ops a).
Proof using Hc Hn Hwf.
  intros Hi [Ha Hne]%leaf_user.
  eapply makes_ext; [|exact (makes_app i _ _ _ _ (makes_reduce i) (makes_message i Dst a 0))].
  intros m. unfold reduction_round. rewrite (is_root_run _ _ _ Hc) by done. f_equal. apply functional_extensionality. intros m'.
  simpl. rewrite (proj1 (proj2 far_end_root)).
  destruct (decide (i = t_root tr)); [by rewrite bool_decide_true|]. rewrite bool_decide_false by done.
  destruct (Z.eqb_spec (Z.of_nat i) (Z.of_nat a)); destruct (decide (i = a)); try lia; done.
Qed.

Lemma makes_agreement_round i a :
  (i < n)%nat -> a ∈ tree_leafs tr ->
  makes i (agreement_round context (Z.of_nat i) (Z.of_nat (t_root tr)) (Z.of_nat a)) (agreement_ops a).
Proof using Hc Hn Hwf.
  intros Hi Ha.
  exact (makes_app i _ _ _ _ (makes_ab_round i (t_root tr) a Hi Ha (proj2 (proj2 far_end_root) a))
    (makes_app i _ _ _ _ (makes_reduce i) (makes_broadcast i))).
Qed.

Lemma root_id_run : smlt_topology_get_root_id topo = Some (Z.of_nat (t_root tr)).
Proof using Ht.
  unfold smlt_topology_get_root_id. rewrite (tr_root _ _ Ht), arr_get_nat.
  destruct (lookup_lt_is_Some_2 (tp_all_nodes topo) (t_root tr)) as [x Hx]; [rewrite (tr_length _ _ Ht); apply (tw_root _ Hwf)|].
  rewrite Hx. simpl. by rewrite (nr_id _ _ _ (tr_nodes _ _ Ht _ _ Hx)).
Qed.

Lemma makes_pingpong i : (i < n)%nat -> makes i (pingpong n runs (Z.of_nat i)) (runs_of pingpong_ops).
Proof using Hn.
  intros Hi. set (c := chan (Z.of_nat 0) (Z.of_nat (n - 1))).
  set (f := fun m => if decide (i = (n - 1)%nat) then send_msg c m else if decide (i = 0%nat) then recv_into c m else mret m).
  set (g := fun m => if decide (i = 0%nat) then send_msg c m else if decide (i = (n - 1)%nat) then recv_into c m else mret m).
  assert (H : makes i (fun m => m' ← f m; g m') pingpong_ops).
  { assert (E : far_end 0 (n - 1) = (n - 1)%nat) by (unfold far_end; rewrite decide_False by lia; done).
    apply (makes_app i f g [_] [_]); (eapply makes_ext; [|apply makes_message]); intros m; simpl; rewrite E; done. }
  eapply makes_ext; [|exact (makes_runs i _ _ H)]. intros m. unfold pingpong.
  replace (Z.of_nat n - 1) with (Z.of_nat (n - 1)) by lia. fold c.
  destruct (Z.eqb_spec (Z.of_nat i) (Z.of_nat (n - 1))), (Z.eqb_spec (Z.of_nat i) 0); try lia.
  - transitivity (for_runs runs (fun m => m' ← f m; g m') m); [|done]. change (mbind (M := prog) mret ?p) with (pbind PRet p).
    rewrite pbind_PRet. apply for_runs_ext. clear m. intros m. subst f g. simpl. repeat (case_decide; try lia); done.
  - apply for_runs_ext. clear m. intros m. subst f g. simpl. repeat (case_decide; try lia); done.
  - apply for_runs_idle. clear m. intros m. subst f g. simpl. repeat (case_decide; try lia); done.
Qed.

Lemma makes_worker e i : (i < n)%nat -> makes i (workers e context topo n runs junk (Z.of_nat i)) (script e).
Proof using Hc Ht Hn.
  intros Hi. destruct e; simpl.
  - by apply makes_pingpong.
  - eapply makes_ext; [intros m; unfold ab, for_leafs; by rewrite (get_leafs_run tr topo Ht junk)|].
    apply makes_each. intros a Ha. by apply (makes_ab_round i 0); [..|apply far_end_root].
  - eapply makes_ext; [intros m; unfold reduction, for_leafs; by rewrite (get_leafs_run tr topo Ht junk)|].
    apply makes_each. intros a Ha. by apply makes_reduction_round.
  - eapply makes_ext; [intros m; unfold agreement, for_leafs; by rewrite root_id_run, (get_leafs_run tr topo Ht junk)|].
    apply makes_each. intros a Ha. by apply makes_agreement_round.
  - apply makes_runs, makes_barrier.
Qed.
End workers_make.
End scripts.

(** ** What the calls do to the messages *)

(** A message [c i] at every node before the call, [c' i] after it. *)
Section contents.
Context (tr : tree) (runs w : nat) (init : nat -> smlt_msg).
Abbreviation n := (t_len tr).
Abbreviation far := (far_end tr).
Abbreviation bufs := (bufs init).
Implicit Types c : nat -> list Z.

Definition moves (o : comm_op) (c c' : nat -> list Z) : Prop :=
  match o with
  | DoMessage d x k _ _ => forall i, (i < n)%nat ->
      if decide (i = user far (peer d) x k) then (user far d x k < n)%nat /\ c' i = c (user far d x k) else c' i = c i
  | Collective (DoBroadcast _ _) => forall i, (i < n)%nat -> c' i = c (t_root tr)
  | Collective (DoReduce _ _ _ _) => forall i, (i < n)%nat -> exists j, (j < n)%nat /\ c' i = c j
  | Collective DoBarrier => forall i, (i < n)%nat -> c' i = c i
  | Collective (DoReduceAll _ _ _ _) => True
  end.
Fixpoint all_move (l : list comm_op) (c c' : nat -> list Z) : Prop :=
  match l with
  | [] => forall i, (i < n)%nat -> c' i = c i
  | o :: l' => exists c1, moves o c c1 /\ all_move l' c1 c'
  end.

(** The calls the workers make: messages of [w] words, taken from the buffers. *)
Definition plain (o : comm_op) : Prop :=
  match o with
  | DoMessage d x k w' msgs =>
      w' = w /\ msgs = bufs /\ (x < n)%nat /\ (k < n)%nat /\ (far x k < n)%nat /\ far x k <> x
  | Collective (DoBroadcast w' msgs) => w' = w /\ msgs = bufs
  | Collective (DoReduce w' input result op) => w' = w /\ input = bufs /\ result = bufs /\ op = operation
  | Collective DoBarrier => True
  | Collective (DoReduceAll _ _ _ _) => False
  end.

Context (Hwf : tree_wf tr) (Hinit : forall i, (i < n)%nat -> msg_ok w (init i)).

Lemma plain_buffer i l rs : (i < n)%nat -> Forall plain l -> had far i l rs -> msg_ok w (bufs i rs).
Proof using Hinit.
  intros Hi Hl. revert rs. induction l as [|o l IH] using rev_ind; intros rs Hrs.
  - apply Forall2_nil_inv_l in Hrs as ->. by apply Hinit.
  - apply Forall_app in Hl as [Hl [Ho _]%Forall_cons]. apply Forall2_app_inv_l in Hrs as (rs1 & rs2 & H1 & H2 & ->).
    apply Forall2_cons_inv_l in H2 as (x & ? & Hx & ->%Forall2_nil_inv_l & ->).
    unfold Experiments.bufs. rewrite buffer_snoc. specialize (IH Hl rs1 H1).
    destruct o as [[w' m|w' m m' op|w' m m' op|]|d y k w' m]; cbn [op_result result_ok plain] in Hx, Ho; try done.
    + destruct Hx as (m' & -> & Hm). destruct Ho as [-> _]. done.
    + destruct Hx as (mm & -> & Hm). destruct Ho as [-> _]. done.
    + by subst.
    + destruct Ho as (-> & _). unfold message_result in Hx. case_decide; [|by subst]. by destruct Hx as (? & -> & ?).
Qed.

Lemma plain_wf l : Forall plain l -> ops_wf tr n far l.
Proof using Hinit.
  intros Hl r o Hr. pose proof (Forall_lookup_1 _ _ _ _ Hl Hr) as Ho.
  assert (Hp : forall i rs, (i < n)%nat -> had far i (take r l) rs -> msg_ok w (bufs i rs)).
  { intros i rs Hi. by apply plain_buffer, Forall_take. }
  destruct o as [[w' m|w' m m' op|w' m m' op|]|d y k w' m]; cbn [plain op_wf call_wf] in Ho |- *; try done.
  - by destruct Ho as [-> ->].
  - by destruct Ho as (-> & -> & -> & ->).
  - destruct Ho as (-> & -> & H). by split_and!; try apply H.
Qed.

Lemma moves_ext o c1 c1' c2 c2' :
  (forall i, (i < n)%nat -> c1 i = c1' i) -> (forall i, (i < n)%nat -> c2 i = c2' i) -> moves o c1 c2 -> moves o c1' c2'.
Proof using Hwf.
  intros E1 E2. destruct o as [[]|d x k w' m]; cbn [moves]; try done.
  - intros H i Hi. rewrite <- E2, <- E1 by (done || by apply tw_root). by apply H.
  - intros H i Hi. destruct (H i Hi) as (j & Hj & E). exists j. by rewrite <- E2, <- E1.
  - intros H i Hi. rewrite <- E2, <- E1 by done. by apply H.
  - intros H i Hi. specialize (H i Hi). rewrite <- E2 by done. case_decide; [|by rewrite <- E1].
    destruct H. by rewrite <- E1.
Qed.
Lemma all_move_ext l : forall c1 c1' c2 c2',
  (forall i, (i < n)%nat -> c1 i = c1' i) -> (forall i, (i < n)%nat -> c2 i = c2' i) -> all_move l c1 c2 -> all_move l c1' c2'.
Proof using Hwf.
  induction l as [|o l IH]; intros c1 c1' c2 c2' E1 E2; cbn [all_move].
  - intros H i Hi. rewrite <- E2, <- E1 by done. by apply H.
  - intros (c & H1 & H2). exists c. split; [by eapply moves_ext|by eapply IH].
Qed.

(** The results of the threads make the messages move. *)
Section results.
Context (l : list comm_op) (F : nat -> list call_result) (Hl : Forall plain l).
Context (Hlen : forall i, (i < n)%nat -> length (F i) = length l).
Context (Hpost : forall r o, l !! r = Some o -> op_post tr far o (fun i => take r (F i)) (fun i => status_at r (Some (F i)))).
Abbreviation at_ r := (fun i => payload (bufs i (take r (F i)))).

Lemma moves_at r o : l !! r = Some o -> moves o (at_ r) (at_ (S r)).
Proof using Hl Hlen Hpost Hwf.
  intros Hr. pose proof (Forall_lookup_1 _ _ _ _ Hl Hr) as Ho. pose proof (Hpost r o Hr) as Hp.
  assert (Hnext : forall i, (i < n)%nat -> exists x, F i !! r = Some x /\ status_at r (Some (F i)) = Returned x /\
    bufs i (take (S r) (F i)) = default (bufs i (take r (F i))) x.2).
  { intros i Hi. destruct (lookup_lt_is_Some_2 (F i) r) as [x Hx]; [rewrite Hlen by done; by eapply lookup_lt_Some|].
    exists x. split; [done|]. simpl. rewrite Hx. split; [done|]. rewrite (take_S_r _ _ _ Hx).
    unfold Experiments.bufs. by rewrite buffer_snoc. }
  destruct o as [[w' m|w' m m' op|w' m m' op|]|d y k w' m]; cbn [plain op_post call_post moves] in Ho, Hp |- *; try done.
  - destruct Ho as [-> ->]. intros i Hi. destruct (Hnext i Hi) as (x & Hx & Hs & ->).
    destruct (Hp i x Hi) as (_ & m & -> & Hm); [by rewrite <- Hs|]. done.
  - destruct Ho as (-> & -> & -> & ->). intros i Hi. destruct (Hnext i Hi) as (x & Hx & Hs & ->).
    destruct (Hp i x Hi) as (_ & m & -> & (j & Hj & _ & Hm)); [by rewrite <- Hs|]. exists j. split; [by eapply below_len|done].
  - intros i Hi. destruct (Hnext i Hi) as (x & Hx & Hs & ->). destruct (Hp i x Hi) as (_ & ->); [by rewrite <- Hs|]. done.
  - destruct Ho as (-> & -> & _). intros i Hi. destruct (Hnext i Hi) as (x & Hx & Hs & ->).
    destruct (Hp i x Hi) as [H1 H2]; [by rewrite <- Hs|]. case_decide as D.
    + destruct (H2 D) as (H3 & _ & m & -> & Hm). by split.
    + unfold message_result in H1. rewrite decide_False in H1 by done. by rewrite H1.
Qed.

Lemma all_move_from r : (r <= length l)%nat -> all_move (drop r l) (at_ r) (at_ (length l)).
Proof using Hl Hlen Hpost Hwf.
  intros Hr. remember (length l - r)%nat as m eqn:Em. revert r Hr Em. induction m as [|m IH]; intros r Hr Em.
  - replace r with (length l) by lia. by rewrite drop_all.
  - destruct (lookup_lt_is_Some_2 l r) as [o Ho]; [lia|]. rewrite (drop_S _ _ _ Ho). exists (at_ (S r)).
    split; [by apply moves_at|]. apply IH; lia.
Qed.

Lemma results_move : all_move l (fun i => payload (init i)) (fun i => payload (bufs i (F i))).
Proof using Hl Hlen Hpost Hwf.
  pose proof (all_move_from 0 ltac:(lia)) as H. rewrite drop_0 in H.
  apply (all_move_ext l) with (3 := H); intros i Hi; [by rewrite take_0|]. by rewrite take_ge by (by rewrite Hlen).
Qed.
End results.

(** *** The outcome of an experiment *)
Lemma all_move_app l1 l2 : forall c c', all_move (l1 ++ l2) c c' -> exists c1, all_move l1 c c1 /\ all_move l2 c1 c'.
Proof using Type.
  induction l1 as [|o l1 IH]; intros c c'; cbn [all_move app].
  - intros H. by exists c.
  - intros (c1 & H1 & H2). destruct (IH c1 c' H2) as (c2 & H3 & H4). exists c2. split; [by exists c1|done].
Qed.

(** Every message was at some node before. *)
Lemma all_move_some l : Forall plain l -> forall c c', all_move l c c' -> forall i, (i < n)%nat -> exists j, (j < n)%nat /\ c' i = c j.
Proof using Hwf.
  induction 1 as [|o l Ho _ IH]; intros c c'; cbn [all_move].
  - intros H i Hi. exists i. split; [done|by apply H].
  - intros (c1 & H1 & H2) i Hi. destruct (IH c1 c' H2 i Hi) as (j & Hj & ->).
    destruct o as [[]|d x k w' m]; cbn [moves plain] in H1, Ho; try done.
    + exists (t_root tr). split; [by apply tw_root|by apply H1].
    + by apply H1.
    + exists j. split; [done|by apply H1].
    + specialize (H1 j Hj). case_decide; [|by exists j]. destruct H1 as [H3 ->]. eexists; split; [exact H3|done].
Qed.

(** If every round of [L a] hands the message of [a] to all, so do all rounds together. *)
Lemma spread_same (L : nat -> list comm_op) v leafs m :
  (forall a c c', a ∈ leafs -> all_move (L a) c c' -> forall i, (i < n)%nat -> c' i = c a) ->
  (forall a, a ∈ leafs -> (a < n)%nat) ->
  forall c c', (forall i, (i < n)%nat -> c i = v) ->
    all_move (concat ((fun a => concat (replicate m (L a))) <$> leafs)) c c' -> forall i, (i < n)%nat -> c' i = v.
Proof using Type.
  intros HL. induction leafs as [|a leafs IH]; intros Hlt c c' Hv; cbn [fmap list_fmap concat all_move].
  { intros H i Hi. rewrite H by done. by apply Hv. }
  intros (c1 & H1 & H2)%all_move_app. assert (Hv1 : forall i, (i < n)%nat -> c1 i = v).
  { clear H2 IH. revert c c1 Hv H1. induction m as [|m IHm]; intros c c1 Hv; cbn [replicate concat all_move].
    - intros H i Hi. rewrite H by done. by apply Hv.
    - intros (c2 & H2 & H3)%all_move_app. apply (IHm c2 c1); [|done]. intros i Hi.
      rewrite (HL a c c2 ltac:(left) H2 i Hi). apply Hv, Hlt. left. }
  apply (IH (fun b cb cb' Hb => HL b cb cb' ltac:(by right)) (fun b Hb => Hlt b ltac:(by right)) c1 c' Hv1 H2).
Qed.

Lemma spread_first (L : nat -> list comm_op) leafs m b :
  (forall a c c', a ∈ leafs -> all_move (L a) c c' -> forall i, (i < n)%nat -> c' i = c a) ->
  (forall a, a ∈ leafs -> (a < n)%nat) -> head leafs = Some b -> m <> 0%nat ->
  forall c c', all_move (concat ((fun a => concat (replicate m (L a))) <$> leafs)) c c' -> forall i, (i < n)%nat -> c' i = c b.
Proof using Type.
  intros HL Hlt Hh Hm c c'. destruct leafs as [|a leafs]; [done|]. injection Hh as ->. destruct m as [|m]; [done|].
  cbn [fmap list_fmap replicate concat]. rewrite <- app_assoc. intros (c1 & H1 & H2)%all_move_app.
  pose proof (HL b c c1 ltac:(left) H1) as Hc1. apply all_move_app in H2 as (c2 & H2 & H3).
  assert (Hc2 : forall i, (i < n)%nat -> c2 i = c b).
  { pose proof (spread_same L (c b) [b] m) as Hs. cbn [fmap list_fmap concat] in Hs. rewrite app_nil_r in Hs.
    apply (Hs ltac:(intros a ca ca' ->%list_elem_of_singleton; apply HL; left) ltac:(intros a ->%list_elem_of_singleton; apply Hlt; left) c1 c2 Hc1 H2). }
  exact (spread_same L (c b) leafs (S m) (fun a ca ca' Ha => HL a ca ca' ltac:(by right)) (fun a Ha => Hlt a ltac:(by right)) c2 c' Hc2 H3).
Qed.

Lemma all_move_ab k a c c' : far a k = t_root tr -> all_move (ab_ops w init k a) c c' -> forall i, (i < n)%nat -> c' i = c a.
Proof using Hwf.
  intros Hk (c1 & H1 & c2 & H2 & H3) i Hi. rewrite H3 by done. cbn [moves] in H1, H2. rewrite H2 by done.
  specialize (H1 (t_root tr) (tw_root _ Hwf)). simpl in H1. rewrite Hk, decide_True in H1 by done. apply H1.
Qed.
Lemma all_move_agreement a c c' : far a (t_root tr) = t_root tr ->
  all_move (agreement_ops tr w init a) c c' -> forall i, (i < n)%nat -> c' i = c a.
Proof using Hwf.
  intros Hk (c1 & H1 & c2 & H2 & c3 & H3 & H4)%all_move_app i Hi. rewrite H4 by done. cbn [moves] in H2, H3.
  rewrite H3 by done. destruct (H2 _ (tw_root _ Hwf)) as (j & Hj & ->). by apply (all_move_ab (t_root tr) a c c1 Hk H1).
Qed.

Lemma all_move_pingpong m c c' : (1 < n)%nat -> all_move (concat (replicate m (pingpong_ops tr w init))) c c' ->
  forall i, (i < n)%nat -> c' i = c (if decide (i = 0%nat /\ m <> 0%nat) then (n - 1)%nat else i).
Proof using Type.
  intros Hn. revert c. induction m as [|m IH]; intros c; cbn [replicate concat].
  { intros H i Hi. rewrite decide_False by naive_solver. by apply H. }
  intros (c1 & H1 & H2)%all_move_app. destruct H1 as (c2 & H3 & c3 & H4 & H5).
  assert (E : far 0 (n - 1) = (n - 1)%nat) by (unfold far_end; rewrite decide_False by lia; done).
  cbn [moves] in H3, H4. simpl in H3, H4. rewrite E in H3, H4.
  assert (H6 : forall i, (i < n)%nat -> c1 i = c (if decide (i = 0%nat) then (n - 1)%nat else i)).
  { intros i Hi. rewrite H5 by done. pose proof (H4 i Hi) as H4i. pose proof (H3 0%nat ltac:(lia)) as H30.
    rewrite decide_True in H30 by done. destruct H30 as [_ H30]. case_decide as D.
    - destruct H4i as [_ ->]. rewrite H30, decide_False by lia. by subst.
    - rewrite H4i. pose proof (H3 i Hi) as H3i. case_decide; [by destruct H3i|done]. }
  intros i Hi. rewrite (IH c1 H2 i Hi). clear H2 H3 H4 H5 IH. destruct (decide (i = 0%nat)) as [->|D].
  - rewrite (decide_True (P := _ /\ S m <> _)) by done. case_decide; rewrite H6 by lia; [by rewrite decide_False by lia|done].
  - rewrite !(decide_False (P := _ /\ _)) by (intros [? _]; done). rewrite H6 by done. by rewrite decide_False.
Qed.

Definition outcome_of (e : experiment) c c' : Prop :=
  match e with
  | Pingpong => forall i, (i < n)%nat -> c' i = c (if decide (i = 0%nat /\ runs <> 0%nat) then (n - 1)%nat else i)
  | Ab | Agreement => runs <> 0%nat -> forall a, head (tree_leafs tr) = Some a -> forall i, (i < n)%nat -> c' i = c a
  | Reduce => forall i, (i < n)%nat -> exists j, (j < n)%nat /\ c' i = c j
  | Barriers => forall i, (i < n)%nat -> c' i = c i
  end.

Lemma plain_runs l : Forall plain l -> Forall plain (runs_of runs l).
Proof using Type. intros H. unfold runs_of. apply Forall_concat. by apply Forall_replicate. Qed.
Lemma plain_each (L : nat -> list comm_op) : (forall a, a ∈ tree_leafs tr -> Forall plain (L a)) ->
  Forall plain (concat ((fun a => runs_of runs (L a)) <$> tree_leafs tr)).
Proof using Type.
  intros H. apply Forall_concat, Forall_fmap, Forall_forall. intros a Ha. by apply plain_runs, H.
Qed.

Lemma script_plain e : (1 < n)%nat -> Forall plain (script tr runs w init e).
Proof using Hwf.
  intros Hn. pose proof (tw_root _ Hwf) as Hroot.
  assert (Hm : forall d a k, a ∈ tree_leafs tr -> far a k = t_root tr -> (k < n)%nat -> plain (DoMessage d a k w bufs)).
  { intros d a k Ha Hk Hkn. pose proof (tree_leafs_lt _ _ Ha) as [Hlt Hka]. cbn [plain]. rewrite Hk. split_and!; try done.
    intros <-. by apply (root_not_leaf tr Hwf Hn). }
  pose proof (far_end_root tr) as (_ & H0 & Hr).
  assert (Hab : forall a k, a ∈ tree_leafs tr -> far a k = t_root tr -> (k < n)%nat -> Forall plain (ab_ops w init k a)).
  { intros a k Ha Hk Hkn. apply Forall_cons. split; [by apply Hm|]. by apply Forall_singleton. }
  destruct e; simpl.
  - apply plain_runs. assert (E : far 0 (n - 1) = (n - 1)%nat) by (unfold far_end; rewrite decide_False by lia; done).
    apply Forall_cons. split; [|apply Forall_singleton]; cbn [plain]; rewrite E; split_and!; (done || lia).
  - apply plain_each. intros a Ha. apply Hab; [done|done|lia].
  - apply plain_each. intros a Ha. apply Forall_cons. split; [by split_and!|]. apply Forall_singleton. apply Hm; [done|done|lia].
  - apply plain_each. intros a Ha. apply Forall_app. split; [by apply Hab|].
    apply Forall_cons. split; [by split_and!|]. by apply Forall_singleton.
  - apply plain_runs. by apply Forall_singleton.
Qed.

Lemma script_outcome e c c' : (1 < n)%nat -> all_move (script tr runs w init e) c c' -> outcome_of e c c'.
Proof using Hwf.
  intros Hn H. pose proof (far_end_root tr) as (_ & H0 & Hr). pose proof (script_plain e Hn) as Hp.
  assert (Hlt : forall a, a ∈ tree_leafs tr -> (a < n)%nat) by (intros a Ha; by apply tree_leafs_lt).
  destruct e; cbn [outcome_of].
  - by apply all_move_pingpong.
  - intros Hruns a Ha. apply (spread_first (ab_ops w init 0) (tree_leafs tr) runs a); try done.
    intros b cb cb' _. apply all_move_ab. apply H0.
  - by apply (all_move_some _ Hp).
  - intros Hruns a Ha. apply (spread_first (agreement_ops tr w init) (tree_leafs tr) runs a); try done.
    intros b cb cb' _. apply all_move_agreement. apply Hr.
  - clear Hp. simpl in H. unfold runs_of in H. revert c H. induction runs as [|m IH]; intros c; cbn [replicate concat app all_move]; [done|].
    intros (c1 & H1 & H2) i Hi. rewrite (IH c1 H2 i Hi). by apply H1.
Qed.
End contents.

(** ** The system *)
Definition experiment_sys {C} (tr : tree) (topo : smlt_topology) (ctx : smlt_context C) (chan : chan_table C)
    (runs : nat) (junk : Z) (init : nat -> smlt_msg) (e : experiment) : sys (smlt_context C * chan_table C) smlt_msg :=
  Sys (tab (t_len tr) (fun i => workers e ctx topo (t_len tr) runs junk (Z.of_nat i) (init i))) (ctx, chan).
(** An upper bound of the stages the threads go through. *)
Definition experiment_steps (tr : tree) (runs w : nat) (init : nat -> smlt_msg) (e : experiment) : nat :=
  sum_upto (t_len tr) (fun i => sum_list (op_top tr i <$> script tr runs w init e)).

(** The channels are there and empty. *)
Definition ready {C} {HC : ChanOps C} {HT : TreeEdge C} tr (ctx : smlt_context C) (chan : chan_table C) : Prop :=
  tree_ctx tr no_msgs ctx /\ mesh_ok (t_len tr) no_msgs chan.
(** Under every schedule a worker is under way or has returned; enough fair rounds end all
    of them, with empty channels and the messages of the outcome. *)
Definition experiment_ends {C} {HC : ChanOps C} {HT : TreeEdge C} tr t (ctx : smlt_context C) chan runs junk w init e : Prop :=
  (forall sched, Forall (fun i => (i < t_len tr)%nat) sched ->
     forall i p, sy_threads (sys_run Z.of_nat (experiment_sys tr t ctx chan runs junk init e) sched) !! i = Some p ->
       running p \/ exists m, p = PRet m) /\
  (forall rounds, Forall (fair_round (t_len tr) (t_len tr + 3)) rounds -> (experiment_steps tr runs w init e < length rounds)%nat ->
     let s := sys_run Z.of_nat (experiment_sys tr t ctx chan runs junk init e) (concat rounds) in
     ready tr (sy_store s).1 (sy_store s).2 /\
     exists m, (forall i, (i < t_len tr)%nat -> sy_threads s !! i = Some (PRet (m i))) /\
       outcome_of tr runs e (fun i => payload (init i)) (fun i => payload (m i))).

(** *** The channels *)
Section create_run.
Context {W : Type} (channel_create : Z -> Z -> M W (Z * option smlt_channel)) (left : nat -> W -> Prop).
Context (Hcreate : forall b w s d, left (S b) w -> exists c w',
  channel_create s d w = (Ret (err_value SMLT_SUCCESS, Some c), w') /\ edge s c Src [] [] /\ left b w').
Context (n b : nat).

(** The first [m] channels have been created. *)
Definition created (m : nat) (s : W * chan_table smlt_channel) : Prop :=
  exists f, s.2 = tab n (fun x => tab n (f x)) /\ left (b + n * n - m) s.1 /\
    forall x k, (k < n)%nat -> (x * n + k < m)%nat -> exists c, f x k = Some c /\ edge (Z.of_nat x) c Src [] [].

Lemma create_one i j s :
  (i < n)%nat -> (j < n)%nat -> created (i * n + j) s ->
  exists s', (r ← in_chan_world (channel_create (Z.of_nat i) (Z.of_nat j));
              _ ← set_chan (Z.of_nat i) (Z.of_nat j) r.2;
              mret (if smlt_err_is_fail r.1 then Some 1 else None)) s = (Ret None, s') /\ created (S (i * n + j)) s'.
Proof using Hcreate.
  intros Hi Hj (f & Ef & Hw & Hf). destruct s as [w t]. cbn [fst snd] in *.
  assert (Hlt : (i * n + j < n * n)%nat) by nia.
  replace (b + n * n - (i * n + j))%nat with (S (b + n * n - S (i * n + j))) in Hw by lia.
  destruct (Hcreate _ w (Z.of_nat i) (Z.of_nat j) Hw) as (c & w' & Ec & He & Hw').
  unfold in_chan_world, set_chan, zoom, get, modify, defined, mbind, M_bind. cbn [fst snd]. rewrite Ec. cbn [fst snd].
  rewrite Ef, set2_tab by done. simpl. eexists. split; [reflexivity|].
  eexists. split; [reflexivity|]. split; [exact Hw'|]. cbv beta. intros x k Hk Hlt'. case_decide as D.
  - destruct D as [-> ->]. by exists c.
  - apply Hf; [done|]. destruct (decide (x * n + k = i * n + j)%nat) as [E|]; [|lia].
    exfalso. apply D. assert (x = i) by nia. split; [done|nia].
Qed.

Lemma create_chans_run w : left (b + n * n) w ->
  exists w' t, create_chans channel_create n w = (Ret None, (w', t)) /\ mesh_ok n no_msgs t /\ left b w'.
Proof using Hcreate.
  intros Hw. unfold create_chans.
  set (row := fun i : Z => mfor_ret n 0 (fun j => r ← in_chan_world (channel_create i j); _ ← set_chan i j r.2;
    mret (if smlt_err_is_fail r.1 then Some 1 else None))).
  assert (Hrow : forall i s, (0 <= i < 0 + n)%nat -> created (i * n) s -> exists s', row (Z.of_nat i) s = (Ret None, s') /\ created (S i * n) s').
  { intros i s Hi Hs. unfold row.
    destruct (mfor_ret_run (fun j => r ← in_chan_world (channel_create (Z.of_nat i) j); _ ← set_chan (Z.of_nat i) j r.2;
      mret (if smlt_err_is_fail r.1 then Some 1 else None)) (fun j => created (i * n + j)) n 0 s) as (s' & E & Hs').
    - by rewrite Nat.add_0_r.
    - intros j s1 Hj Hs1. rewrite Nat.add_succ_r. apply create_one; [lia|lia|done].
    - exists s'. split; [exact E|]. by replace (S i * n)%nat with (i * n + (0 + n))%nat by lia. }
  destruct (mfor_ret_run row (fun i => created (i * n)) n 0 (w, tab n (fun _ => replicate n None))) as ([w' t] & E & Hs); [|done|].
  - exists (fun _ _ => None). cbn [fst snd]. split; [|split].
    + apply tab_ext. intros x _. apply list_eq. intros k. destruct (decide (k < n)%nat).
      * by rewrite lookup_replicate_2, lookup_tab.
      * by rewrite !lookup_ge_None_2 by (rewrite ?length_replicate, ?length_tab; lia).
    + by rewrite Nat.sub_0_r.
    + intros x k _ Hlt. lia.
  - exists w', t. split; [exact E|]. destruct Hs as (f & Ef & Hl & Hf). cbn [fst snd Nat.add] in *.
    split; [|by replace b with (b + n * n - n * n)%nat by lia].
    exists f. split; [exact Ef|]. intros x k Hx Hk. apply Hf; [done|]. nia.
Qed.
End create_run.

(** The workers over a context and a table of empty channels. *)
Lemma experiments_end {C} {HC : ChanOps C} {HT : TreeEdge C} tr t (ctx : smlt_context C) chan runs junk w init e :
  (1 < t_len tr)%nat -> Z.of_nat (t_len tr) < 2 ^ 32 ->
  topo_repr tr t -> ready tr ctx chan ->
  (forall i, (i < t_len tr)%nat -> msg_ok w (init i)) ->
  (forall sched, Forall (fun i => (i < t_len tr)%nat) sched ->
     forall i p, sy_threads (sys_run Z.of_nat (experiment_sys tr t ctx chan runs junk init e) sched) !! i = Some p ->
       running p \/ exists m, p = PRet m) /\
  (forall rounds, Forall (fair_round (t_len tr) (t_len tr + 3)) rounds -> (experiment_steps tr runs w init e < length rounds)%nat ->
     let s := sys_run Z.of_nat (experiment_sys tr t ctx chan runs junk init e) (concat rounds) in
     ready tr (sy_store s).1 (sy_store s).2 /\
     exists m, (forall i, (i < t_len tr)%nat -> sy_threads s !! i = Some (PRet (m i))) /\
       outcome_of tr runs e (fun i => payload (init i)) (fun i => payload (m i))).
Proof.
  intros Hn Hlen Ht [Hc Hm] Hinit. pose proof (tr_wf _ _ Ht) as Hwf. pose proof (script_plain tr runs w init Hwf e Hn) as Hp.
  set (l := script tr runs w init e) in *. set (f := bufs init).
  destruct (messages_in_order tr (t_len tr) (far_end tr) ctx chan l Hc Hlen Hm (plain_wf tr w init Hinit l Hp)) as [Hsafe Hend].
  assert (Hstart : goes_on f (ops_sys tr (far_end tr) ctx chan l) (experiment_sys tr t ctx chan runs junk init e)).
  { split; [done|]. intros i. simpl. destruct (decide (i < t_len tr)%nat) as [Hi|Hi].
    - rewrite !lookup_tab by done. simpl. f_equal.
      exact (makes_worker tr ctx t runs junk w init Hc Ht Hn e i Hi []).
    - rewrite !lookup_ge_None_2 by (rewrite length_tab; lia). done. }
  split.
  - intros sched Hs i p. destruct (Hsafe sched Hs) as [F [HF _]].
    destruct (goes_on_run Z.of_nat f sched _ _ Hstart) as [_ Hth]. rewrite Hth, fmap_Some. intros (p' & Hp' & ->).
    destruct (HF i p' Hp') as [[_ ->]|(p1 & _ & Hr & ->)]; [right; by eexists|left]. unfold returning. rewrite pbind_assoc.
    by destruct p1.
  - intros rounds Hr Hb. destruct (Hend rounds Hr Hb) as (H1 & H2 & F & HF & HFi).
    destruct (goes_on_run Z.of_nat f (concat rounds) _ _ Hstart) as [Hst Hth]. cbv zeta. rewrite Hst. split; [by split|].
    exists (fun i => f i (F i)). split.
    + intros i Hi. rewrite Hth. destruct (HFi i Hi) as [-> _]. done.
    + apply (script_outcome tr runs w init Hwf e _ _ Hn).
      apply (results_move tr w init Hwf l F Hp); [intros i Hi; by apply HFi|apply HF].
Qed.

(** [C11] The benchmark [ab-bench] runs: for a topology of at least two nodes, when the
    allocations succeed, [main] creates a channel for every pair of nodes and the context;
    and each of its experiments, run by all nodes with any messages of equal length, then
    ends.  Under every schedule no worker panics, fails or runs into undefined behaviour.
    Once every node has run in enough rounds of the schedule all workers have returned and
    all channels are empty again, so that the next experiment may follow, and the experiment
    has done what its name says: the ping-pong has brought the message of the last node to
    node 0 and back; the atomic broadcast and the agreement have left the message of the
    first leaf, the first node to send, at every node; a reduction has left at every node a
    message that some node has had at the beginning; and the barriers have changed no
    message. *)
Theorem experiments_run tr t alloc_ok alloc numa node_of mal ctx_ok w0 :
  (1 < t_len tr)%nat -> Z.of_nat (t_len tr) < 2 ^ 32 -> topo_repr tr t -> (forall k, alloc_ok k = true) ->
  channels_left (kids_sum tr (t_len tr) 0 + t_len tr * t_len tr) w0 ->
  exists w1 chan ctx w2,
    create_chans (create_pair alloc numa node_of mal ctx_ok) (t_len tr) w0 = (Ret None, (w1, chan)) /\
    smlt_context_create (create_channel_1n alloc numa node_of mal ctx_ok) alloc_ok (Some t) w1 =
      (Ret (err_value SMLT_SUCCESS, Some ctx), w2) /\
    ready tr ctx chan /\
    forall ctx' chan', ready tr ctx' chan' ->
    forall e runs junk w init, (forall i, (i < t_len tr)%nat -> msg_ok w (init i)) ->
      experiment_ends tr t ctx' chan' runs junk w init e.
Proof.
  intros Hn Hlen Ht Ha Hw.
  destruct (create_chans_run (create_pair alloc numa node_of mal ctx_ok) channels_left) with
    (n := t_len tr) (b := kids_sum tr (t_len tr) 0) (w := w0) as (w1 & chan & E & Hm & Hw1); [|done|].
  { intros b w s d Hb. destruct (channel_create_empty alloc numa node_of mal ctx_ok b w s d Hb) as (c & w' & Ec & He & _ & Hb').
    by exists c, w'. }
  destruct (context_create_tree tr t alloc_ok alloc numa node_of mal ctx_ok w1 Ht Hlen Ha Hw1) as (ctx & w2 & Ec & Hc).
  exists w1, chan, ctx, w2. split; [done|]. split; [done|]. split; [by split|].
  intros ctx' chan' Hready e runs junk w init Hi. by apply experiments_end.
Qed.

(** Three nodes: nine channels for the pairs and two for the tree. *)
Definition eleven_scripts : list (Z * Z * (Z * Z)) :=
  tab 11 (fun i => let a := 16384 * Z.of_nat (S i) in (64 * Z.of_nat i, 64 * Z.of_nat i + 1024, (a, a + 8192))).
Definition eleven_channels_world : qp_world := QW (AllocSt (alloc_script eleven_scripts ++ []) []) ∅ ∅ ∅.

Lemma experiments_run_witness :
  exists t, smlt_topology_create (fun _ => true) 3 None "bin" = Ret (err_value SMLT_SUCCESS, t) /\
  exists w1 chan ctx w2,
    create_chans (create_pair (fun _ => None) (fun _ _ => None) (fun _ => 0) true (fun _ => true)) 3 eleven_channels_world =
      (Ret None, (w1, chan)) /\
    smlt_context_create (create_channel_1n (fun _ => None) (fun _ _ => None) (fun _ => 0) true (fun _ => true))
      (fun _ => true) (Some t) w1 = (Ret (err_value SMLT_SUCCESS, Some ctx), w2) /\
    exists m, sy_threads (sys_run Z.of_nat (experiment_sys (bin_tree 3) t ctx chan 2 0 bcast_bufs Agreement)
        (concat (replicate 150 (concat (replicate 7 [1; 2; 0]%nat))))) !! 2%nat = Some (PRet m) /\
      payload m = payload (bcast_bufs 1).
Proof.
  destruct (create_binary_tree (fun _ => true) 3 "bin" ltac:(lia) ltac:(lia) (fun _ => eq_refl)) as (t & E & Ht & _).
  exists t. split; [exact E|].
  destruct (experiments_run (bin_tree 3) t (fun _ => true) (fun _ => None) (fun _ _ => None) (fun _ => 0) true (fun _ => true)
    eleven_channels_world) as (w1 & chan & ctx & w2 & Ec & Ex & Hready & Hall); [simpl; lia|done|exact Ht|done| |].
  { exists eleven_scripts, [], [], ∅, ∅, ∅. split; [done|]. split; [vm_compute; lia|]. repeat constructor; vm_compute; done. }
  exists w1, chan, ctx, w2. split; [exact Ec|]. split; [exact Ex|].
  destruct (Hall ctx chan Hready Agreement 2%nat 0 1%nat bcast_bufs) as [_ Hf].
  { intros i _. repeat split; vm_compute; congruence. }
  destruct (Hf (replicate 150 (concat (replicate 7 [1; 2; 0]%nat)))) as (_ & m & Hm & Ho).
  - apply Forall_replicate. split; [repeat constructor; simpl; lia|].
    intros i Hi. simpl in Hi. destruct i as [|[|[|i]]]; [..|lia]; vm_compute; lia.
  - vm_compute. lia.
  - exists (m 2%nat). split; [apply Hm; simpl; lia|]. apply (Ho ltac:(done) 1%nat eq_refl 2%nat). simpl. lia.
Defined.
