(* ===== verification/Mcs.v ===== *)
(** The dissemination barrier of the benchmarks ([bench/diss_bar/mcs.c], [mcs.h]): threads
    that share flags, each written by one thread and awaited by another, with a parity and
    a sense so that no flag is ever reset.  Threads interleave between any two accesses
    to shared memory, which are sequentially consistent. *)
From S2P Require Import Prelude Peers Rounds.

(** ** Data *)
Definition MCS_LOG2_MAX_CORES : nat := 8.

(** [&b->allnodes[j].myflags[p][k]] *)
Record flag_ptr := FlagPtr { fp_node : Z; fp_parity : Z; fp_round : Z }.
Record mcs_dissem_flags := Flags {
  fl_my : list (list Z);
  fl_partner : list (list (option flag_ptr));
  fl_parity : Z;
  fl_sense : Z;
}.
Record mcs_barrier := McsBar {
  mb_nprocs : Z;
  mb_allnodes : list mcs_dissem_flags;
  mb_logp : Z;
}.
Definition zero_flags : mcs_dissem_flags :=
  Flags (replicate 2 (replicate MCS_LOG2_MAX_CORES 0)) (replicate 2 (replicate MCS_LOG2_MAX_CORES None)) 0 0.

Definition mb_set_nodes (l : list mcs_dissem_flags) (b : mcs_barrier) : mcs_barrier :=
  McsBar (mb_nprocs b) l (mb_logp b).
Definition mcs_node (i : Z) : M mcs_barrier mcs_dissem_flags := fun b => defined (arr_get (mb_allnodes b) i) b.
Definition mcs_set_node (i : Z) (f : mcs_dissem_flags) : M mcs_barrier unit := fun b =>
  match arr_set (mb_allnodes b) i f with
  | Some l => (Ret tt, mb_set_nodes l b)
  | None => (Undef, b)
  end.
(** ** Initialisation *)

(** [logp = (np & (np-1)) != 0; while (np >>= 1) logp++;]: 64 shifts exhaust a [size_t]. *)
Fixpoint shift_log (fuel : nat) (np logp : Z) : Z :=
  match fuel with
  | O => logp
  | S f => let np' := Z.shiftr np 1 in if np' =? 0 then logp else shift_log f np' (logp + 1)
  end.
Definition mcs_logp (np : Z) : Z := shift_log 64 np (Z.b2z (negb (Z.land np (u64 (np - 1)) =? 0))).

Definition set_partner (i p k : Z) (x : flag_ptr) : M mcs_barrier unit :=
  f ← mcs_node i;
  a ← defined (set2 (fl_partner f) p k (Some x));
  mcs_set_node i (Flags (fl_my f) a (fl_parity f) (fl_sense f)).
Definition init_round (i k : Z) : M mcs_barrier unit :=
  b ← get;
  let j := (i + Z.shiftl 1 k) mod mb_nprocs b in
  _ ← set_partner i 0 k (FlagPtr j 0 k);
  set_partner i 1 k (FlagPtr j 1 k).
Definition init_flags (i : Z) : M mcs_barrier unit :=
  f ← mcs_node i;
  _ ← mcs_set_node i (Flags (fl_my f) (fl_partner f) 0 1);
  b ← get;
  mfor (Z.to_nat (mb_logp b)) 0 (init_round i).
(** [memalign_ok]: whether [posix_memalign] succeeds; [abort] otherwise. *)
Definition mcs_barrier_init (memalign_ok : bool) (np : Z) : outcome mcs_barrier :=
  if negb memalign_ok then Panic else
  match mfor (Z.to_nat np) 0 init_flags (McsBar np (replicate (Z.to_nat np) zero_flags) (mcs_logp np)) with
  | (Ret _, b) => Ret b
  | (Spin, _) => Spin
  | (Panic, _) => Panic
  | (Undef, _) => Undef
  end.

(** ** Waiting *)

(** Where a call of [mcs_barrier_wait] is: before the test of the loop in round [i], at the
    inner loop of round [i], or not inside. *)
Inductive mcs_pc := McOut | McWrite (i : Z) | McSpin (i : Z).

(** One access to the flags, with the thread's own steps up to the next. *)
Definition mcs_barrier_wait (pid : Z) (pc : mcs_pc) : M mcs_barrier mcs_pc :=
  localflags ← mcs_node pid;
  let parity := fl_parity localflags in
  let sense := fl_sense localflags in
  match pc with
  | McOut => mret (McWrite 0)
  | McWrite i =>
      b ← get;
      if i <? mb_logp b then
        p ← defined (get2 (fl_partner localflags) parity i);
        p ← defined p;
        f ← mcs_node (fp_node p);
        my ← defined (set2 (fl_my f) (fp_parity p) (fp_round p) sense);
        _ ← mcs_set_node (fp_node p) (Flags my (fl_partner f) (fl_parity f) (fl_sense f));
        mret (McSpin i)
      else
        let sense := if negb (parity =? 0) then 1 - sense else sense in
        _ ← mcs_set_node pid (Flags (fl_my localflags) (fl_partner localflags) (1 - parity) sense);
        mret McOut
  | McSpin i =>
      x ← defined (get2 (fl_my localflags) parity i);
      mret (if negb (x =? sense) then McSpin i else McWrite (i + 1))
  end.

(** Threads that call the barrier for ever: the calls that have returned and where the
    current one is. *)
Record mcs_sys := McsSys { ms_bar : mcs_barrier; ms_threads : list (nat * mcs_pc) }.
Definition mcs_sys_step (s : mcs_sys) (i : nat) : option mcs_sys :=
  t ← ms_threads s !! i;
  match mcs_barrier_wait (Z.of_nat i) t.2 (ms_bar s) with
  | (Ret pc, b) =>
      let done := match t.2, pc with McWrite _, McOut => S t.1 | _, _ => t.1 end in
      Some (McsSys b (<[i := (done, pc)]> (ms_threads s)))
  | _ => None
  end.
Fixpoint mcs_sys_run (s : mcs_sys) (sched : list nat) : option mcs_sys :=
  match sched with
  | [] => Some s
  | i :: l => s' ← mcs_sys_step s i; mcs_sys_run s' l
  end.
Definition mcs_start (b : mcs_barrier) : mcs_sys := McsSys b (replicate (Z.to_nat (mb_nprocs b)) (0%nat, McOut)).

Example mcs_two : exists b s, mcs_barrier_init true 2 = Ret b /\
  mcs_sys_run (mcs_start b) [0; 0; 0; 1; 1; 1; 1; 0; 0; 0]%nat = Some s /\
  ms_threads s = [(1%nat, McWrite 0); (1%nat, McOut)].
Proof. eexists _, _. split; [vm_compute; reflexivity|]. by vm_compute. Qed.

(** ** Program points and senses *)
Definition pc_at (s : nat) : mcs_pc :=
  if decide (s = 0)%nat then McOut
  else if Nat.odd s then McWrite (Z.of_nat (s / 2)) else McSpin (Z.of_nat (s / 2 - 1)).
Definition sense_of (c : nat) : Z := Z.of_nat ((c / 2 + 1) mod 2).

Lemma pc_write r : pc_at (2 * r + 1) = McWrite (Z.of_nat r).
Proof.
  unfold pc_at. rewrite decide_False by lia.
  replace (Nat.odd (2 * r + 1)) with true by (symmetry; apply Nat.odd_spec; by exists r).
  do 2 f_equal. rewrite Nat.add_comm, Nat.mul_comm, Nat.div_add by lia. done.
Qed.
Lemma pc_spin r : pc_at (2 * r + 2) = McSpin (Z.of_nat r).
Proof.
  unfold pc_at. rewrite decide_False by lia. replace (2 * r + 2)%nat with (2 * (r + 1))%nat by lia.
  rewrite Nat.odd_mul. cbn [Nat.odd Nat.even negb andb]. rewrite Nat.mul_comm, Nat.div_mul by lia. f_equal. lia.
Qed.

(** The flag written in call [c] takes the sense of that call, the other stays. *)
Lemma flag_arith c p :
  (p < 2)%nat ->
  Z.of_nat (((S c + 1 - p) / 2) mod 2) =
    if decide (p = c mod 2)%nat then sense_of c else Z.of_nat (((c + 1 - p) / 2) mod 2).
Proof.
  intros Hp. unfold sense_of. pose proof (Nat.div_mod_eq c 2) as E. pose proof (Nat.mod_upper_bound c 2 ltac:(lia)).
  set (q := (c / 2)%nat) in *. set (m := (c mod 2)%nat) in *. case_decide as D; f_equal; f_equal.
  - subst p. replace (S c + 1 - m)%nat with ((q + 1) * 2)%nat by lia. by rewrite Nat.div_mul.
  - assert (Hx : (S c + 1 - p = q * 2 + (2 - p + m) /\ c + 1 - p = q * 2 + (1 - p + m))%nat). { lia. }
    destruct Hx as [-> ->]. rewrite !Nat.div_add_l by lia. f_equal.
    destruct p as [|[|p]], m as [|[|m]]; try lia; done.
Qed.

(** ** States by progress

    Everything is determined by how far each thread has come.  [P i] counts the steps of
    thread [i]; a call has [2 logp + 2] of them. *)
Section mcs.
Context (n : nat) (Hn : (1 < n)%nat) (Hn8 : (rounds_of n <= MCS_LOG2_MAX_CORES)%nat).
Abbreviation L := (rounds_of n).
Abbreviation fwd := (fwd n).
Abbreviation bwd := (bwd n).
Abbreviation steps := (steps n).
Abbreviation calls := (calls n).
Abbreviation stage := (stage n).
Abbreviation writes := (writes n).
Abbreviation blocked := (blocked n).
Abbreviation advance := (advance n).
Abbreviation mcs_inv := (waits_inv n).
(** Of those, the calls of parity [p] have alternated the flag. *)
Definition flag P j p k : Z := Z.of_nat (((writes P (bwd j k) k + 1 - p) / 2) mod 2).

Definition flags_row (f : nat -> Z) : list Z := tab MCS_LOG2_MAX_CORES (fun k => if decide (k < L)%nat then f k else 0).
Definition partner_row (i p : nat) : list (option flag_ptr) :=
  tab MCS_LOG2_MAX_CORES (fun k => if decide (k < L)%nat
    then Some (FlagPtr (Z.of_nat (fwd i k)) (Z.of_nat p) (Z.of_nat k)) else None).
Definition node_at P i : mcs_dissem_flags :=
  Flags (tab 2 (fun p => flags_row (flag P i p))) (tab 2 (partner_row i))
    (Z.of_nat (calls P i mod 2)) (sense_of (calls P i)).
Definition bar_at P : mcs_barrier := McsBar (Z.of_nat n) (tab n (node_at P)) (Z.of_nat L).
Definition sys_at P : mcs_sys := McsSys (bar_at P) (tab n (fun i => (calls P i, pc_at (stage P i)))).
Lemma flag_bump i P j p k :
  (j < n)%nat -> (p < 2)%nat -> (k < L)%nat -> flag (bump i P) j p k =
    if decide (bwd j k = i /\ stage P i = 2 * k + 1 /\ p = calls P i mod 2)%nat then sense_of (calls P i)
    else flag P j p k.
Proof using Type*.
  intros Hj Hp Hk. unfold flag. rewrite (writes_bump n Hn) by done.
  destruct (decide (bwd j k = i /\ stage P i = 2 * k + 1)%nat) as [[E Es]|D].
  - rewrite E. assert (Hw : writes P i k = calls P i) by (unfold writes; rewrite decide_False by lia; lia).
    rewrite Hw, flag_arith by done. repeat case_decide; naive_solver.
  - rewrite decide_False; [done|]. naive_solver.
Qed.

(** What a waiting thread reads. *)
Lemma spin_reads P j k :
  mcs_inv P -> (j < n)%nat -> (k < L)%nat -> stage P j = (2 * k + 2)%nat ->
  (flag P j (calls P j mod 2) k =? sense_of (calls P j)) = bool_decide (calls P j < writes P (bwd j k) k)%nat.
Proof using Type*.
  intros I Hj Hk Hs. pose proof (I j k Hj Hk) as Hlo. unfold waits in Hlo. rewrite decide_False in Hlo by lia.
  assert (Hhi : (writes P (bwd j k) k <= calls P j + 2)%nat).
  { pose proof (separation n Hn P (bwd j k) j I (bwd_lt n Hn j k) Hj) as H.
    unfold entries in H. unfold writes. repeat case_decide; lia. }
  unfold flag, sense_of. set (c := calls P j) in *. set (W := writes P (bwd j k) k) in *.
  pose proof (Nat.div_mod_eq c 2) as E. pose proof (Nat.mod_upper_bound c 2 ltac:(lia)) as Hm.
  set (q := (c / 2)%nat) in *. set (m := (c mod 2)%nat) in *.
  assert (Hq : ((W + 1 - m) / 2 = if decide (c < W) then q + 1 else q)%nat).
  { case_decide as D.
    - replace (W + 1 - m)%nat with ((q + 1) * 2 + (W - c - 1))%nat by lia. rewrite Nat.div_add_l by lia.
      rewrite (Nat.div_small (W - c - 1)) by lia. lia.
    - replace (W + 1 - m)%nat with (q * 2 + 1)%nat by lia. rewrite Nat.div_add_l by lia. simpl. lia. }
  rewrite Hq. pose proof (Nat.mod_upper_bound q 2 ltac:(lia)) as Hq2.
  destruct (decide (c < W)%nat) as [D|D]; [rewrite bool_decide_true by done|rewrite bool_decide_false by done].
  - apply Z.eqb_refl.
  - apply Z.eqb_neq. rewrite Nat.add_mod by lia. destruct (q mod 2)%nat as [|[|]]; simpl; lia.
Qed.

(** *** The code steps from progress to progress *)
Lemma bar_node P j : (j < n)%nat -> mcs_node (Z.of_nat j) (bar_at P) = (Ret (node_at P j), bar_at P).
Proof using Type*. intros. unfold mcs_node. simpl. by rewrite arr_get_tab. Qed.
Lemma bar_set_node P P' j f :
  (j < n)%nat -> f = node_at P' j -> (forall x, (x < n)%nat -> x <> j -> node_at P x = node_at P' x) ->
  mcs_set_node (Z.of_nat j) f (bar_at P) = (Ret tt, bar_at P').
Proof using Type*.
  intros Hj -> Hx. unfold mcs_set_node. simpl. rewrite arr_set_nat by (by rewrite length_tab).
  unfold mb_set_nodes, bar_at. simpl. do 2 f_equal. rewrite tab_insert. apply tab_ext. intros x Hlt.
  case_decide; [by subst|by apply Hx].
Qed.
Lemma node_at_ext P P' j :
  calls P j = calls P' j ->
  (forall p k, (p < 2)%nat -> (k < L)%nat -> flag P j p k = flag P' j p k) -> node_at P j = node_at P' j.
Proof using Type*.
  intros Hc Hf. unfold node_at. rewrite Hc. f_equal. apply tab_ext. intros p Hp. unfold flags_row. apply tab_ext.
  intros k Hk. case_decide; [by apply Hf|done].
Qed.
Lemma bar_at_ext P P' : (forall j, (j < n)%nat -> node_at P j = node_at P' j) -> bar_at P = bar_at P'.
Proof using Type*. intros H. unfold bar_at. f_equal. by apply tab_ext. Qed.

(** A step of thread [i] that is neither a write nor a return leaves the barrier as it was. *)
Lemma bar_bump_same i P :
  (i < n)%nat -> (forall k, (k < L)%nat -> stage P i <> (2 * k + 1)%nat) -> stage P i <> (2 * L + 1)%nat ->
  bar_at (bump i P) = bar_at P.
Proof using Type*.
  intros Hi Hw Hs. apply bar_at_ext. intros j Hj. apply node_at_ext.
  - destruct (decide (j = i)) as [->|Hne]; [|by apply (bump_other n Hn)].
    destruct (bump_self n Hn i P) as [-> _]. by rewrite decide_False.
  - intros p k Hp Hk. rewrite flag_bump by done. rewrite decide_False; [done|]. intros (_ & E & _). by eapply Hw.
Qed.

Lemma bar_write i P r :
  (i < n)%nat -> (r < L)%nat -> stage P i = (2 * r + 1)%nat ->
  mcs_barrier_wait (Z.of_nat i) (McWrite (Z.of_nat r)) (bar_at P) = (Ret (McSpin (Z.of_nat r)), bar_at (bump i P)).
Proof using Type*.
  intros Hi Hr Hs. unfold mcs_barrier_wait. rewrite (bind_ret _ _ _ _ _ (bar_node P i Hi)).
  unfold get. unfold mbind at 1, M_bind at 1. cbn [mb_logp bar_at].
  destruct (Z.ltb_spec (Z.of_nat r) (Z.of_nat L)); [|lia].
  assert (Hp : (calls P i mod 2 < 2)%nat) by (apply Nat.mod_upper_bound; lia).
  assert (Hptr : get2 (fl_partner (node_at P i)) (fl_parity (node_at P i)) (Z.of_nat r) =
    Some (Some (FlagPtr (Z.of_nat (fwd i r)) (Z.of_nat (calls P i mod 2)) (Z.of_nat r)))).
  { unfold node_at, partner_row. cbn [fl_partner fl_parity]. rewrite get2_tab by lia. by rewrite decide_True. }
  rewrite Hptr. cbn [defined]. unfold mbind at 1, M_bind at 1, mret at 1, M_ret at 1. cbn [defined].
  unfold mbind at 1, M_bind at 1, mret at 1, M_ret at 1. cbn [fp_node fp_parity fp_round].
  pose proof (fwd_lt n Hn i r) as Hj. rewrite (bind_ret _ _ _ _ _ (bar_node P (fwd i r) Hj)).
  assert (Hset : forall x, set2 (fl_my (node_at P (fwd i r))) (Z.of_nat (calls P i mod 2)) (Z.of_nat r) x =
    Some (tab 2 (fun p => tab MCS_LOG2_MAX_CORES (fun k =>
      if decide (p = calls P i mod 2 /\ k = r)%nat then x
      else if decide (k < L)%nat then flag P (fwd i r) p k else 0)))).
  { intros x. unfold node_at, flags_row. cbn [fl_my]. by rewrite set2_tab by lia. }
  rewrite Hset. cbn [defined]. unfold mbind at 1, M_bind at 1, mret at 1, M_ret at 1.
  erewrite bind_ret; [done|]. apply bar_set_node; [done| |].
  - pose proof (fwd_ne n Hn i r Hi Hr) as Hne. destruct (bump_other n Hn i (fwd i r) P Hne) as [Hc _].
    unfold node_at. cbn [fl_partner fl_parity fl_sense]. rewrite Hc. f_equal.
    apply tab_ext. intros p Hp'. unfold flags_row. apply tab_ext. intros k Hk.
    destruct (decide (k < L)%nat) as [HkL|HkL]; [|rewrite decide_False by lia; done].
    rewrite flag_bump by done. destruct (decide (k = r)) as [->|Hkr].
    + rewrite bwd_fwd by done. repeat case_decide; naive_solver.
    + rewrite !decide_False by lia. done.
  - intros x Hx Hne. apply node_at_ext.
    + destruct (decide (x = i)) as [->|Hxi]; [|symmetry; by apply (bump_other n Hn)].
      destruct (bump_self n Hn i P) as [-> _]. by rewrite decide_False by lia.
    + intros p k Hp' Hk. rewrite flag_bump by done. rewrite decide_False; [done|]. intros (E & E' & _).
      assert (k = r) as -> by lia. apply Hne. rewrite <- E. symmetry. by apply fwd_bwd.
Qed.

Lemma bar_return i P :
  (i < n)%nat -> stage P i = (2 * L + 1)%nat ->
  mcs_barrier_wait (Z.of_nat i) (McWrite (Z.of_nat L)) (bar_at P) = (Ret McOut, bar_at (bump i P)).
Proof using Type*.
  intros Hi Hs. unfold mcs_barrier_wait. rewrite (bind_ret _ _ _ _ _ (bar_node P i Hi)).
  unfold get. unfold mbind at 1, M_bind at 1. cbn [mb_logp bar_at]. rewrite Z.ltb_irrefl.
  erewrite bind_ret; [done|]. destruct (bump_self n Hn i P) as [Hc _]. rewrite decide_True in Hc by done.
  assert (Hf : forall j p k, (j < n)%nat -> (p < 2)%nat -> (k < L)%nat -> flag P j p k = flag (bump i P) j p k).
  { intros j p k Hj Hp Hk. rewrite flag_bump by done. rewrite decide_False; [done|]. intros (_ & E & _). lia. }
  apply bar_set_node; [done| |].
  - unfold node_at. cbn [fl_my fl_partner fl_parity fl_sense]. rewrite Hc.
    pose proof (Nat.div_mod_eq (calls P i) 2) as E. pose proof (Nat.mod_upper_bound (calls P i) 2 ltac:(lia)).
    destruct (ring_next 2 ltac:(lia) (calls P i)) as [E1 E2]. f_equal.
    + apply tab_ext. intros p Hp. unfold flags_row. apply tab_ext. intros k Hk.
      destruct (decide (k < L)%nat); [by apply Hf|done].
    + rewrite E1. case_decide; lia.
    + unfold sense_of. rewrite E2. destruct (decide (S (calls P i mod 2) = 2)%nat) as [D|D].
      * rewrite (proj2 (Z.eqb_neq _ 0)) by lia. cbn [negb].
        destruct (ring_next 2 ltac:(lia) (calls P i / 2 + 1)) as [E3 _].
        replace (S (calls P i / 2) + 1)%nat with (S (calls P i / 2 + 1)) by lia. rewrite E3.
        pose proof (Nat.mod_upper_bound (calls P i / 2 + 1) 2 ltac:(lia)). case_decide; lia.
      * rewrite (proj2 (Z.eqb_eq _ 0)) by lia. done.
  - intros x Hx Hne. apply node_at_ext; [symmetry; by apply (bump_other n Hn)|]. intros. by apply Hf.
Qed.

Lemma bar_spin i P r :
  mcs_inv P -> (i < n)%nat -> (r < L)%nat -> stage P i = (2 * r + 2)%nat ->
  mcs_barrier_wait (Z.of_nat i) (McSpin (Z.of_nat r)) (bar_at P) =
    (Ret (if decide (blocked P i) then McSpin (Z.of_nat r) else McWrite (Z.of_nat (S r))), bar_at P).
Proof using Type*.
  intros I Hi Hr Hs. unfold mcs_barrier_wait. rewrite (bind_ret _ _ _ _ _ (bar_node P i Hi)).
  assert (Hp : (calls P i mod 2 < 2)%nat) by (apply Nat.mod_upper_bound; lia).
  assert (Hx : get2 (fl_my (node_at P i)) (fl_parity (node_at P i)) (Z.of_nat r) = Some (flag P i (calls P i mod 2) r)).
  { unfold node_at, flags_row. cbn [fl_my fl_parity]. rewrite get2_tab by lia. by rewrite decide_True. }
  rewrite Hx. cbn [defined]. unfold mbind, M_bind, mret, M_ret, node_at. cbn [fl_sense].
  rewrite (spin_reads P i r I Hi Hr Hs). do 2 f_equal.
  case_bool_decide as D; destruct (decide (blocked P i)) as [B|B]; cbn [negb].
  - destruct B as (k & _ & Hk & Hw). assert (k = r) as -> by lia. lia.
  - f_equal. lia.
  - done.
  - exfalso. apply B. exists r. split; [done|]. split; [done|lia].
Qed.

(** One step of the program is one step of progress, unless the thread is blocked. *)
Lemma mcs_step_run i P :
  mcs_inv P -> (i < n)%nat ->
  mcs_sys_step (sys_at P) i = Some (sys_at (if decide (blocked P i) then P else bump i P)).
Proof using Type*.
  intros I Hi. unfold mcs_sys_step. simpl. rewrite lookup_tab by done. simpl.
  assert (Hsame : forall t, t = (calls P i, pc_at (stage P i)) ->
    <[i := t]> (tab n (fun i => (calls P i, pc_at (stage P i)))) = tab n (fun i => (calls P i, pc_at (stage P i)))).
  { intros t ->. apply list_insert_id. by rewrite lookup_tab. }
  assert (Hbump : forall t, t = (calls (bump i P) i, pc_at (stage (bump i P) i)) ->
    <[i := t]> (tab n (fun i => (calls P i, pc_at (stage P i)))) =
      tab n (fun j => (calls (bump i P) j, pc_at (stage (bump i P) j)))).
  { intros t ->. rewrite tab_insert. apply tab_ext. intros j Hj. case_decide as D; [by subst|].
    by destruct (bump_other n Hn i j P D) as [-> ->]. }
  destruct (bump_self n Hn i P) as [Bc Bs].
  destruct (stage_cases n Hn P i) as [Hs|[(r & Hr & Hs)|[(r & Hr & Hs)|Hs]]].
  - rewrite decide_False by (intros (k & _ & E & _); lia).
    rewrite Hs. change (pc_at 0) with McOut. unfold mcs_barrier_wait. rewrite (bind_ret _ _ _ _ _ (bar_node P i Hi)).
    unfold mret, M_ret, sys_at. rewrite bar_bump_same by (done || lia). do 2 f_equal.
    rewrite Hbump; [done|]. by rewrite Bc, Bs, Hs, !decide_False by lia.
  - rewrite decide_False by (intros (k & _ & E & _); lia).
    rewrite Hs at 1. rewrite pc_write, (bar_write i P r) by done. unfold sys_at. do 2 f_equal.
        rewrite Hbump; [done|]. rewrite Bc, Bs, !decide_False by lia. rewrite Hs at 1. rewrite pc_write.
    replace (S (stage P i)) with (2 * r + 2)%nat by lia. by rewrite pc_spin.
  - rewrite Hs at 1. rewrite pc_spin, (bar_spin i P r) by done. destruct (decide (blocked P i)) as [B|B]; unfold sys_at.
    + do 2 f_equal. rewrite Hsame; [done|]. by rewrite Hs, pc_spin.
    + rewrite bar_bump_same by (done || lia). do 2 f_equal.
      rewrite Hbump; [done|]. rewrite Bc, Bs, !decide_False by lia. rewrite Hs at 1. rewrite pc_spin.
      replace (S (stage P i)) with (2 * (S r) + 1)%nat by lia. by rewrite pc_write.
  - rewrite decide_False by (intros (k & _ & E & _); lia).
    rewrite Hs at 1. rewrite pc_write, bar_return by done. unfold sys_at. do 2 f_equal.
    rewrite Hbump; [done|]. rewrite Bc, Bs, !decide_True by done. rewrite Hs at 1. by rewrite pc_write.
Qed.

(** *** Runs *)
Lemma mcs_run_advance sched : forall P,
  mcs_inv P -> Forall (fun i => i < n)%nat sched ->
  mcs_sys_run (sys_at P) sched = Some (sys_at (foldl advance P sched)) /\
  mcs_inv (foldl advance P sched) /\ (forall j, (P j <= foldl advance P sched j)%nat).
Proof using Type*.
  induction sched as [|i l IH]; intros P I H; [done|].
  apply Forall_cons in H as [Hi Hl]. cbn [mcs_sys_run foldl]. rewrite mcs_step_run by done.
  destruct (IH (advance P i) (waits_inv_advance n Hn P i Hi I) Hl) as (E & I' & Hm).
  split; [exact E|]. split; [exact I'|]. intros j. pose proof (advance_le n P i j). specialize (Hm j). lia.
Qed.

(** In a round every thread moves on. *)
Lemma round_advances l P m :
  mcs_inv P -> Forall (fun i => i < n)%nat l -> (forall i, (i < n)%nat -> i ∈ l) ->
  (forall j, (j < n)%nat -> (m <= P j)%nat) -> forall j, (j < n)%nat -> (S m <= foldl advance P l j)%nat.
Proof using Type*.
  intros I Hl Hall Hm j Hj. destruct (list_elem_of_split l j (Hall j Hj)) as (l1 & l2 & ->).
  apply Forall_app in Hl as [Hl1 Hl2]. apply Forall_cons in Hl2 as [_ Hl2].
  destruct (mcs_run_advance l1 P I Hl1) as (_ & I1 & M1). rewrite foldl_app. cbn [foldl].
  set (P1 := foldl advance P l1) in *.
  assert (H1 : (S m <= advance P1 j j)%nat).
  { pose proof (M1 j) as Hj1. pose proof (Hm j Hj). destruct (decide (P1 j = m)) as [E|E].
    - unfold advance. rewrite decide_False; [unfold bump; rewrite decide_True by done; lia|].
      apply (least_not_blocked n Hn P1 j m); [|done]. intros x Hx. pose proof (Hm x Hx). pose proof (M1 x). lia.
    - pose proof (advance_le n P1 j j). lia. }
  destruct (mcs_run_advance l2 (advance P1 j) (waits_inv_advance n Hn P1 j Hj I1) Hl2) as (_ & _ & M2).
  specialize (M2 j). lia.
Qed.

Lemma rounds_advance rounds : forall P m,
  mcs_inv P -> Forall (fun i => i < n)%nat (concat rounds) ->
  Forall (fun l => forall i, (i < n)%nat -> i ∈ l) rounds ->
  (forall j, (j < n)%nat -> (m <= P j)%nat) ->
  forall j, (j < n)%nat -> (m + length rounds <= foldl advance P (concat rounds) j)%nat.
Proof using Type*.
  induction rounds as [|l ls IH]; intros P m I Hl Hall Hm j Hj; cbn [concat length foldl].
  - specialize (Hm j Hj). simpl. lia.
  - cbn [concat] in Hl. apply Forall_app in Hl as [Hl Hls]. apply Forall_cons in Hall as [Ha Has].
    rewrite foldl_app. destruct (mcs_run_advance l P I Hl) as (_ & I1 & _).
    pose proof (IH (foldl advance P l) (S m) I1 Hls Has (round_advances l P m I Hl Ha Hm) j Hj). lia.
Qed.

(** *** Initialisation *)
Definition bar_of (f : nat -> mcs_dissem_flags) : mcs_barrier := McsBar (Z.of_nat n) (tab n f) (Z.of_nat L).
Definition partners (i K p : nat) : list (option flag_ptr) :=
  tab MCS_LOG2_MAX_CORES (fun k => if decide (k < K)%nat
    then Some (FlagPtr (Z.of_nat (fwd i k)) (Z.of_nat p) (Z.of_nat k)) else None).
(** Node [i] with its partners of parity [p] set for the first [K p] rounds. *)
Definition dissem_init_node (i : nat) (K : nat -> nat) : mcs_dissem_flags :=
  Flags (fl_my zero_flags) (tab 2 (fun p => partners i (K p) p)) 0 1.
Definition init_at (i : nat) (K : nat -> nat) : mcs_barrier :=
  bar_of (fun j => if decide (j < i)%nat then dissem_init_node j (fun _ => L)
                   else if decide (j = i) then dissem_init_node i K else zero_flags).

Lemma bar_of_get f j : (j < n)%nat -> mcs_node (Z.of_nat j) (bar_of f) = (Ret (f j), bar_of f).
Proof using Type*. intros. unfold mcs_node. simpl. by rewrite arr_get_tab. Qed.
Lemma bar_of_set f g j x :
  (j < n)%nat -> (forall i, (i < n)%nat -> g i = if decide (i = j) then x else f i) ->
  mcs_set_node (Z.of_nat j) x (bar_of f) = (Ret tt, bar_of g).
Proof using Type*.
  intros Hj Hg. unfold mcs_set_node. simpl. rewrite arr_set_nat by (by rewrite length_tab).
  unfold mb_set_nodes, bar_of. simpl. do 2 f_equal. rewrite tab_insert. apply tab_ext. intros i Hi. by rewrite Hg.
Qed.

Lemma set_partner_run i p k K :
  (i < n)%nat -> (p < 2)%nat -> (k < L)%nat -> K p = k ->
  set_partner (Z.of_nat i) (Z.of_nat p) (Z.of_nat k) (FlagPtr (Z.of_nat (fwd i k)) (Z.of_nat p) (Z.of_nat k)) (init_at i K)
    = (Ret tt, init_at i (fun p' => if decide (p' = p) then S k else K p')).
Proof using Type*.
  intros Hi Hp Hk HK. unfold set_partner, init_at at 1. rewrite (bind_ret _ _ _ _ _ (bar_of_get _ i Hi)).
  rewrite decide_False by lia. rewrite decide_True by done. unfold dissem_init_node at 1 2 3 4 5. cbn [fl_partner fl_my fl_parity fl_sense].
  unfold partners at 1. rewrite set2_tab by lia. cbn [defined]. unfold mbind at 1, M_bind at 1, mret at 1, M_ret at 1.
  apply bar_of_set; [done|]. intros j Hj. destruct (decide (j < i)%nat) as [D|D]; [by rewrite decide_False by lia|].
  destruct (decide (j = i)) as [->|Hne]; [|done]. unfold dissem_init_node. f_equal.
  apply tab_ext. intros p' Hp'. unfold partners. apply tab_ext. intros k' Hk'.
  destruct (decide (p' = p)) as [->|Hne]; [|by rewrite (decide_False (P := _ /\ _)) by naive_solver].
  destruct (decide (k' = k)) as [->|Hkk].
  - rewrite (decide_True (P := _ /\ _)) by done. by rewrite decide_True by lia.
  - rewrite (decide_False (P := _ /\ _)) by naive_solver. repeat case_decide; lia || done.
Qed.

Lemma init_round_run i k :
  (i < n)%nat -> (k < L)%nat ->
  init_round (Z.of_nat i) (Z.of_nat k) (init_at i (fun _ => k)) = (Ret tt, init_at i (fun _ => S k)).
Proof using Type*.
  intros Hi Hk. unfold init_round. unfold get. unfold mbind at 1, M_bind at 1. cbn [mb_nprocs init_at bar_of].
  assert (Hj : (Z.of_nat i + Z.shiftl 1 (Z.of_nat k)) mod Z.of_nat n = Z.of_nat (fwd i k)).
  { unfold Peers.fwd. rewrite Nat2Z.inj_mod, Nat2Z.inj_add, pow2_Z, Z.shiftl_1_l. done. }
  rewrite Hj. rewrite (bind_ret _ _ _ _ _ (set_partner_run i 0 k (fun _ => k) Hi ltac:(lia) Hk eq_refl)).
  change 1 with (Z.of_nat 1). rewrite (set_partner_run i 1 k) by (done || lia). done.
Qed.

Lemma init_flags_run i :
  (i < n)%nat ->
  init_flags (Z.of_nat i) (bar_of (fun j => if decide (j < i)%nat then dissem_init_node j (fun _ => L) else zero_flags)) =
    (Ret tt, bar_of (fun j => if decide (j < S i)%nat then dissem_init_node j (fun _ => L) else zero_flags)).
Proof using Type*.
  intros Hi. unfold init_flags. rewrite (bind_ret _ _ _ _ _ (bar_of_get _ i Hi)). rewrite decide_False by lia.
  assert (Hset : mcs_set_node (Z.of_nat i) (Flags (fl_my zero_flags) (fl_partner zero_flags) 0 1)
    (bar_of (fun j => if decide (j < i)%nat then dissem_init_node j (fun _ => L) else zero_flags)) =
    (Ret tt, init_at i (fun _ => 0%nat))).
  { apply bar_of_set; [done|]. intros j Hj. repeat case_decide; lia || done. }
  rewrite (bind_ret _ _ _ _ _ Hset). unfold get. unfold mbind at 1, M_bind at 1. cbn [mb_logp init_at bar_of].
  rewrite Nat2Z.id. apply (mfor_run _ (fun k => init_at i (fun _ => k))); [done| |].
  - unfold init_at, bar_of. f_equal. apply tab_ext. intros j Hj. repeat case_decide; subst; lia || done.
  - intros k Hk. by apply init_round_run.
Qed.

Lemma init_run : mcs_logp (Z.of_nat n) = Z.of_nat L -> mcs_barrier_init true (Z.of_nat n) = Ret (bar_at (fun _ => 0%nat)).
Proof using Type*.
  intros HL. unfold mcs_barrier_init. cbn [negb]. rewrite HL, Nat2Z.id.
  rewrite (mfor_run init_flags (fun i => bar_of (fun j => if decide (j < i)%nat then dissem_init_node j (fun _ => L) else zero_flags))
    n _ (bar_at (fun _ => 0%nat))); [done| | |intros; by apply init_flags_run].
  - unfold bar_of. f_equal. symmetry. apply (tab_const n zero_flags).
  - unfold bar_at, bar_of. f_equal. apply tab_ext. intros j Hj. rewrite decide_True by done.
    assert (Hc : forall i, calls (fun _ => 0%nat) i = 0%nat) by (intros; apply Nat.Div0.div_0_l).
    unfold node_at, dissem_init_node. rewrite Hc. f_equal. symmetry. unfold zero_flags. cbn [fl_my].
    rewrite <- tab_const. apply tab_ext. intros p Hp. rewrite <- tab_const. apply tab_ext. intros k Hk.
    case_decide; [|done]. unfold flag, writes, stage. rewrite Hc, Nat.Div0.mod_0_l, decide_False by lia.
    by destruct p as [|[|p]]; [..|lia].
Qed.
End mcs.

Lemma mcs_logp_rounds n : (2 <= n <= 256)%nat -> mcs_logp (Z.of_nat n) = Z.of_nat (rounds_of n).
Proof.
  intros Hn. assert (H : forallb (fun n => mcs_logp (Z.of_nat n) =? Z.of_nat (rounds_of n)) (seq 2 255) = true)
    by (vm_compute; reflexivity).
  rewrite forallb_forall in H. apply Z.eqb_eq, H, in_seq. lia.
Qed.
Lemma rounds_at_most n : (2 <= n <= 256)%nat -> (rounds_of n <= MCS_LOG2_MAX_CORES)%nat.
Proof.
  intros Hn. unfold rounds_of, MCS_LOG2_MAX_CORES.
  pose proof (Z.log2_up_le_mono (Z.of_nat n) 256 ltac:(lia)) as H. change (Z.log2_up 256) with 8 in H. lia.
Qed.

(** ** Properties *)

(** [C14] The MCS barrier of up to 256 threads separates them, over any number of uses and
    any interleaving of their accesses to the flags: no step is undefined, and a thread
    never has returned from more calls than every other thread has entered, although no
    flag is ever reset (parity and sense tell a flag of this call from those of earlier
    ones).  And no thread is stuck: a schedule made of rounds in which every thread runs
    at least once returns one call of every thread for each [2 log n + 2] rounds. *)
Theorem mcs_separates (n : nat) (sched : list nat) :
  (2 <= n <= 256)%nat -> Forall (fun i => i < n)%nat sched ->
  exists b s, mcs_barrier_init true (Z.of_nat n) = Ret b /\
    mcs_sys_run (mcs_start b) sched = Some s /\ length (ms_threads s) = n /\
    (forall i j ti tj, ms_threads s !! i = Some ti -> ms_threads s !! j = Some tj ->
       (ti.1 <= tj.1 + match tj.2 with McOut => 0 | _ => 1 end)%nat) /\
    (forall rounds, sched = concat rounds -> Forall (fun l => forall i, (i < n)%nat -> i ∈ l) rounds ->
       forall i t, ms_threads s !! i = Some t -> (length rounds / (2 * rounds_of n + 2) <= t.1)%nat).
Proof.
  intros Hn Hs. pose proof (rounds_at_most n Hn) as H8. assert (Hn1 : (1 < n)%nat) by lia.
  set (P0 := fun _ : nat => 0%nat). pose proof (waits_inv_start n : waits_inv n P0) as I0.
  destruct (mcs_run_advance n Hn1 H8 sched P0 I0 Hs) as (E & I & _). set (P := foldl (Rounds.advance n) P0 sched) in *.
  exists (bar_at n P0), (sys_at n P). split; [by apply init_run, mcs_logp_rounds|]. split.
  { rewrite <- E. f_equal. unfold mcs_start, sys_at. cbn [mb_nprocs bar_at]. f_equal. rewrite Nat2Z.id, <- tab_const.
    apply tab_ext. intros j Hj. unfold Rounds.calls, Rounds.stage, P0. by rewrite Nat.Div0.div_0_l, Nat.Div0.mod_0_l. }
  split; [apply length_tab|]. split.
  - cbn [ms_threads sys_at]. intros i j ti tj [Hi ->]%lookup_tab_Some [Hj ->]%lookup_tab_Some. cbn [fst snd].
    pose proof (separation n Hn1 P i j I Hi Hj) as H. unfold entries in H. unfold pc_at.
    repeat case_decide; try lia. destruct (Nat.odd _); lia.
  - cbn [ms_threads sys_at]. intros rounds Hr Hall i t [Hi ->]%lookup_tab_Some. cbn [fst].
    pose proof (rounds_advance n Hn1 H8 rounds P0 0 I0) as H. rewrite <- Hr in H.
    specialize (H Hs Hall ltac:(intros; lia) i Hi). fold P in H. unfold calls. apply Nat.Div0.div_le_mono. lia.
Qed.
Lemma mcs_separates_witness :
  exists b s, mcs_barrier_init true 3 = Ret b /\ mcs_sys_run (mcs_start b) (concat (replicate 6 [2; 0; 1]%nat)) = Some s /\
    exists t, ms_threads s !! 0%nat = Some t /\ (1 <= t.1)%nat.
Proof.
  destruct (mcs_separates 3 (concat (replicate 6 [2; 0; 1]%nat)) ltac:(lia)) as (b & s & Hb & Hs & Hl & _ & Hlive).
  { repeat constructor. }
  exists b, s. split; [exact Hb|]. split; [exact Hs|].
  destruct (ms_threads s) as [|t l] eqn:E; [discriminate Hl|]. exists t. split; [reflexivity|].
  refine (Hlive (replicate 6 [2; 0; 1]%nat) eq_refl _ 0%nat t _); [|reflexivity].
  clear. apply Forall_replicate. intros i Hi. apply list_elem_of_In. simpl. lia.
Defined.
