(* ===== verification/McsLock.v ===== *)
(** The MCS queue lock of the benchmarks ([bench/diss_bar/mcs.c], [mcs.h]), whose unlock
    swaps the tail out and back in instead of comparing it: between the two swaps the
    lock looks free while threads wait, and others can take it.  Threads interleave
    between any two accesses to shared memory, which are sequentially consistent. *)
From stdpp Require Import functions.
From S2P Require Import Prelude.

(** ** Memory

    Nodes are named by their owner: node [i] is the one thread [i] passes to every call. *)
Record mcs_lock_qnode := QNode { qn_next : option nat; qn_locked : Z }.
Record mcs_mem := MemOf { mcs_lock : option nat; mem_node : nat -> mcs_lock_qnode }.

Definition node_next (i : nat) : M mcs_mem (option nat) := fun m => (Ret (qn_next (mem_node m i)), m).
Definition node_locked (i : nat) : M mcs_mem Z := fun m => (Ret (qn_locked (mem_node m i)), m).
Definition with_next (i : nat) (x : option nat) (m : mcs_mem) : mcs_mem :=
  MemOf (mcs_lock m) (<[i := QNode x (qn_locked (mem_node m i))]> (mem_node m)).
Definition with_locked (i : nat) (x : Z) (m : mcs_mem) : mcs_mem :=
  MemOf (mcs_lock m) (<[i := QNode (qn_next (mem_node m i)) x]> (mem_node m)).
Definition set_next (i : nat) (x : option nat) : M mcs_mem unit := fun m => (Ret tt, with_next i x m).
Definition set_locked (i : nat) (x : Z) : M mcs_mem unit := fun m => (Ret tt, with_locked i x m).

(** [memset] of the lock; the caller zeroes the nodes. *)
Definition mcs_lock_init : M mcs_mem unit := fun m => (Ret tt, MemOf None (mem_node m)).
Definition mcs_qnode_swap (val : option nat) : M mcs_mem (option nat) := fun m =>
  (Ret (mcs_lock m), MemOf val (mem_node m)).

(** ** The calls, one shared access at a time

    Where a thread is: outside; in [mcs_lock_lock] before clearing [next], before the
    swap, before setting [locked], before linking itself behind its predecessor, in the
    loop; holding the lock; in [mcs_lock_unlock] before the test, before the first swap,
    before the second (with the old tail), in the loop (with the usurper), before reading
    [next] and before handing over what it read. *)
Inductive lock_pc :=
  | LkOut
  | LkClear | LkSwap | LkMark (predecessor : nat) | LkLink (predecessor : nat) | LkSpin
  | LkHeld
  | UlTest | UlSwap | UlBack (old_tail : option nat) | UlWait (usurper : option nat)
  | UlLoad (usurper : option nat) | UlGive (usurper next : option nat).
#[global] Instance lock_pc_eq_dec : EqDecision lock_pc.
Proof. solve_decision. Defined.

Definition mcs_lock_lock (qnode : nat) (pc : lock_pc) : M mcs_mem lock_pc :=
  match pc with
  | LkClear => _ ← set_next qnode None; mret LkSwap
  | LkSwap =>
      predecessor ← mcs_qnode_swap (Some qnode);
      mret (match predecessor with Some p => LkMark p | None => LkHeld end)
  | LkMark p => _ ← set_locked qnode 1; mret (LkLink p)
  | LkLink p => _ ← set_next p (Some qnode); mret LkSpin
  | LkSpin => l ← node_locked qnode; mret (if negb (l =? 0) then LkSpin else LkHeld)
  | _ => mret pc
  end.

Definition mcs_lock_unlock (qnode : option nat) (pc : lock_pc) : M mcs_mem lock_pc :=
  match qnode with
  | None => mret LkOut
  | Some qnode =>
      match pc with
      | UlTest => next ← node_next qnode; mret (match next with None => UlSwap | Some _ => UlLoad None end)
      | UlSwap =>
          old_tail ← mcs_qnode_swap None;
          mret (if decide (old_tail = Some qnode) then LkOut else UlBack old_tail)
      | UlBack t => usurper ← mcs_qnode_swap t; mret (UlWait usurper)
      | UlWait u => next ← node_next qnode; mret (match next with None => UlWait u | Some _ => UlLoad u end)
      | UlLoad u => next ← node_next qnode; mret (UlGive u next)
      | UlGive (Some u) next => _ ← set_next u next; mret LkOut
      | UlGive None (Some next) => _ ← set_locked next 0; mret LkOut
      | UlGive None None => undef
      | _ => mret pc
      end
  end.

Definition mcs_pdr_init : M mcs_mem unit := mcs_lock_init.
Definition mcs_pdr_lock (qnode : nat) (pc : lock_pc) : M mcs_mem lock_pc := mcs_lock_lock qnode pc.
Definition mcs_pdr_unlock (qnode : option nat) (pc : lock_pc) : M mcs_mem lock_pc := mcs_lock_unlock qnode pc.

(** Threads that take and release the lock for ever. *)
Record lock_sys := LockSys { ls_mem : mcs_mem; ls_pc : nat -> lock_pc }.
Definition lock_thread (i : nat) (pc : lock_pc) : M mcs_mem lock_pc :=
  match pc with
  | LkOut => mret LkClear
  | LkHeld => mret UlTest
  | LkClear | LkSwap | LkMark _ | LkLink _ | LkSpin => mcs_lock_lock i pc
  | _ => mcs_lock_unlock (Some i) pc
  end.
Definition lock_step (s : lock_sys) (i : nat) : option lock_sys :=
  match lock_thread i (ls_pc s i) (ls_mem s) with
  | (Ret pc, m) => Some (LockSys m (<[i := pc]> (ls_pc s)))
  | _ => None
  end.
Fixpoint lock_run (s : lock_sys) (sched : list nat) : option lock_sys :=
  match sched with
  | [] => Some s
  | i :: l => s' ← lock_step s i; lock_run s' l
  end.
Definition lock_start : lock_sys :=
  LockSys (mcs_lock_init (MemOf None (fun _ => QNode None 0))).2 (fun _ => LkOut).

(** Thread 0 releases while 1 waits; 2 takes the lock between the two swaps, so that 1 ends
    up behind it. *)
Example lock_usurped : exists s,
  lock_run lock_start [0; 0; 0; 1; 1; 1; 0; 0; 0; 2; 2; 2; 0; 1; 1; 1; 0; 0; 0]%nat = Some s /\
  ls_pc s 0%nat = LkOut /\ ls_pc s 1%nat = LkSpin /\ ls_pc s 2%nat = LkHeld /\
  qn_next (mem_node (ls_mem s) 2%nat) = Some 1%nat /\ mcs_lock (ls_mem s) = Some 1%nat.
Proof. eexists. split; [vm_compute; reflexivity|]. by vm_compute. Qed.

(** ** The queue behind the pointers

    [nx], [lk]: the fields of the nodes; [pc]: where the threads are. *)
Definition joins (p : lock_pc) : option nat := match p with LkMark q | LkLink q => Some q | _ => None end.
Definition relinks (p : lock_pc) : option nat := match p with UlWait u | UlLoad u | UlGive u _ => u | _ => None end.

(** [src a b]: [b] is or will be the value of [a]'s next field: [b] is linked, is about to
    link itself, or is the next of a thread that will hand it over to [a]. *)
Inductive src (nx : nat -> option nat) (pc : nat -> lock_pc) : nat -> nat -> Prop :=
  | src_set a b : nx a = Some b -> pc b = LkSpin -> src nx pc a b
  | src_join a b : nx a = None -> joins (pc b) = Some a -> src nx pc a b
  | src_relink a r b : nx a = None -> relinks (pc r) = Some a -> src nx pc r b -> src nx pc a b.

(** Somebody will give [a] a next. *)
Inductive fed (nx : nat -> option nat) (pc : nat -> lock_pc) : nat -> Prop :=
  | fed_set a : nx a <> None -> fed nx pc a
  | fed_join a b : joins (pc b) = Some a -> fed nx pc a
  | fed_relink a r : relinks (pc r) = Some a -> fed nx pc r -> fed nx pc a.

Inductive role := Idle | Waiting | Owner | Detached (tail : option nat) | Leaving.
Definition role_of (p : lock_pc) (locked : Z) : role :=
  match p with
  | LkOut | LkClear | LkSwap => Idle
  | LkMark _ | LkLink _ => Waiting
  | LkSpin => if locked =? 0 then Owner else Waiting
  | LkHeld | UlTest | UlSwap => Owner
  | UlBack t => Detached t
  | UlWait None | UlLoad None | UlGive None _ => Owner
  | UlWait (Some _) | UlLoad (Some _) | UlGive (Some _) _ => Leaving
  end.
Definition targets (p : lock_pc) (q : nat) : Prop := joins p = Some q \/ relinks p = Some q.
Definition pc_ok (nx : nat -> option nat) (lk : nat -> Z) (pc : nat -> lock_pc) (i : nat) : Prop :=
  match pc i with
  | LkSwap => nx i = None
  | LkLink _ => lk i <> 0
  | UlLoad _ => nx i <> None
  | UlGive _ n => nx i = n /\ n <> None
  | UlWait _ => fed nx pc i
  | _ => True
  end.
Definition adj (c : list nat) (a b : nat) : Prop := exists l1 l2, c = l1 ++ a :: b :: l2.
(** Nobody is behind [a] yet. *)
Definition free nx (pc : nat -> lock_pc) (a : nat) : Prop := nx a = @None nat /\ forall z, ~ targets (pc z) a.

(** The queue [Q] of the lock, the owner first, and the detached queues [Ds], each led by a
    releasing thread that has yet to put its tail back. *)
Record lock_inv (lock : option nat) nx lk pc (Q : list nat) (Ds : list (list nat)) : Prop := {
  li_nodup : NoDup (concat (Q :: Ds));
  li_lock : lock = last Q;
  li_Q : match Q with
         | [] => True
         | h :: l => role_of (pc h) (lk h) = Owner /\ Forall (fun b => role_of (pc b) (lk b) = Waiting) l
         end;
  li_Ds c : c ∈ Ds -> exists r o t, c = r :: o /\ last o = Some t /\ pc r = UlBack (Some t) /\
              Forall (fun b => role_of (pc b) (lk b) = Waiting) o;
  li_out i : i ∉ concat (Q :: Ds) -> role_of (pc i) (lk i) = Idle \/ role_of (pc i) (lk i) = Leaving;
  li_adj c a b : c ∈ Q :: Ds -> adj c a b -> src nx pc a b;
  li_last c a : c ∈ Q :: Ds -> last c = Some a -> free nx pc a;
  li_targets z p : targets (pc z) p ->
    nx p = None /\ (forall z', targets (pc z') p -> z' = z) /\ role_of (pc p) (lk p) <> Idle;
  li_ok i : pc_ok nx lk pc i;
}.

(** *** Neighbours *)
Lemma adj_in c a b : adj c a b -> a ∈ c /\ b ∈ c.
Proof. intros (l1 & l2 & ->). set_solver. Qed.
Lemma adj_tail h l a b : adj (h :: l) a b -> b ∈ l.
Proof. intros (l1 & l2 & E). destruct l1 as [|x l1]; injection E as -> ->; set_solver. Qed.
Lemma adj_head h a b l : adj (h :: a :: l) h b -> NoDup (h :: a :: l) -> b = a.
Proof.
  intros (l1 & l2 & E) Hnd. destruct l1 as [|x l1]; [by injection E|]. injection E as _ E.
  apply NoDup_cons in Hnd as [Hnd _]. exfalso. apply Hnd. rewrite E. set_solver.
Qed.
Lemma adj_cons h l a b : adj l a b -> adj (h :: l) a b.
Proof. intros (l1 & l2 & ->). by exists (h :: l1), l2. Qed.
Lemma adj_first h a l : adj (h :: a :: l) h a.
Proof. by exists [], l. Qed.
Lemma adj_app l l' a b :
  adj (l ++ l') a b -> adj l a b \/ adj l' a b \/ (last l = Some a /\ head l' = Some b).
Proof.
  intros (l1 & l2 & E). apply app_eq_inv in E as [(k & -> & E)|(k & -> & ->)].
  - destruct k as [|x [|y k]]; simpl in E.
    + right; left. exists [], l2. done.
    + injection E as <- <-. right; right. by rewrite last_snoc.
    + injection E as <- <- ->. left. by exists l1, k.
  - right; left. by exists k, l2.
Qed.

Lemma concat_in (L : list (list nat)) x : x ∈ concat L <-> exists c, c ∈ L /\ x ∈ c.
Proof.
  rewrite list_elem_of_In, in_concat. split; intros (c & H1 & H2); exists c; rewrite !list_elem_of_In in *; done.
Qed.

(** *** Frames of [src] *)
Lemma src_frame nx pc nx' pc' i a b :
  src nx pc a b ->
  (forall j, j <> i -> nx' j = nx j) -> (forall j, j <> i -> pc' j = pc j) ->
  (forall q, joins (pc i) = Some q -> joins (pc' i) = Some q) ->
  (forall q, relinks (pc i) = Some q -> relinks (pc' i) = Some q) ->
  nx' i = nx i \/ (a <> i /\ relinks (pc i) = None) ->
  b <> i \/ pc i <> LkSpin \/ pc' i = LkSpin -> src nx' pc' a b.
Proof.
  intros H Hn Hp Hj Hr. induction H as [a b Ha Hb|a b Ha Hb|a r b Ha Hrl _ IH]; intros Hi Hs.
  - assert (nx' a = nx a) as E by (destruct (decide (a = i)) as [->|]; [tauto|by apply Hn]).
    apply src_set; [congruence|]. destruct (decide (b = i)) as [->|]; [naive_solver|by rewrite Hp].
  - assert (nx' a = nx a) as E by (destruct (decide (a = i)) as [->|]; [tauto|by apply Hn]).
    apply src_join; [congruence|]. destruct (decide (b = i)) as [->|]; [by apply Hj|by rewrite Hp].
  - assert (nx' a = nx a) as E by (destruct (decide (a = i)) as [->|]; [tauto|by apply Hn]).
    apply (src_relink _ _ a r); [congruence| |].
    + destruct (decide (r = i)) as [->|]; [by apply Hr|by rewrite Hp].
    + apply IH; [|done]. destruct Hi as [Hi|[_ Hi]]; [by left|right]. split; [|done]. intros ->. congruence.
Qed.

Lemma src_next nx pc a b n : src nx pc a b -> nx a = Some n -> b = n /\ pc b = LkSpin.
Proof. intros [x y Hx Hy|x y Hx _|x r y Hx _ _] Hn; [|congruence..]. split; [congruence|done]. Qed.
Lemma src_fed nx pc a b : src nx pc a b -> fed nx pc a.
Proof.
  induction 1 as [a b Ha _|a b _ Hb|a r b _ Hr _ IH].
  - apply fed_set. congruence.
  - by apply (fed_join _ _ a b).
  - by apply (fed_relink _ _ a r).
Qed.
(** [i] moves on without ceasing to target anything, unless it gave the target a next. *)
Lemma fed_frame nx pc nx' pc' i a :
  fed nx pc a -> (forall j, j <> i -> pc' j = pc j) ->
  (forall x, nx x <> None -> nx' x <> None \/ (x = i /\ x <> a /\ relinks (pc i) = None)) ->
  (forall q, targets (pc i) q -> nx' q <> None \/ (joins (pc' i) = joins (pc i) /\ relinks (pc' i) = relinks (pc i))) ->
  fed nx' pc' a.
Proof.
  intros H Hp Hn Ht. induction H as [a Ha|a b Hb|a r Hr H IH].
  - apply fed_set. destruct (Hn a Ha) as [?|(_ & ? & _)]; done.
  - destruct (decide (b = i)) as [->|Hne]; [|apply (fed_join _ _ a b); by rewrite Hp].
    destruct (Ht a ltac:(by left)) as [?|[E _]]; [by apply fed_set|]. apply (fed_join _ _ a i). congruence.
  - assert (IH' : fed nx' pc' r).
    { apply IH. intros x Hx. destruct (Hn x Hx) as [?|(-> & ? & E)]; [by left|right].
      split; [done|]. split; [|done]. intros ->. congruence. }
    destruct (decide (r = i)) as [->|Hne]; [|apply (fed_relink _ _ a r); [by rewrite Hp|done]].
    destruct (Ht a ltac:(by right)) as [?|[_ E]]; [by apply fed_set|]. apply (fed_relink _ _ a i); [congruence|done].
Qed.

Lemma targets_inj c p q : targets c p -> targets c q -> p = q.
Proof. unfold targets. destruct c as [| | | | | | | | |?|[]|[]|[] ?]; simpl; naive_solver. Qed.
Lemma role_detached p l t : role_of p l = Detached t -> p = UlBack t.
Proof. destruct p as [| | | | | | | | |?|[]|[]|[] ?]; simpl; repeat case_match; naive_solver. Qed.
Lemma role_not_idle p l l' : role_of p l <> Idle -> role_of p l' <> Idle.
Proof. destruct p as [| | | | | | | | |?|[]|[]|[] ?]; simpl; repeat case_match; naive_solver. Qed.
Lemma role_idle p l : role_of p l = Idle -> joins p = None /\ relinks p = None.
Proof. destruct p as [| | | | | | | | |?|[]|[]|[] ?]; simpl; repeat case_match; naive_solver. Qed.

Section inv.
Context (lock : option nat) (nx : nat -> option nat) (lk : nat -> Z) (pc : nat -> lock_pc)
  (Q : list nat) (Ds : list (list nat)) (I : lock_inv lock nx lk pc Q Ds).
Abbreviation R i := (role_of (pc i) (lk i)).

Lemma queue_roles c h l : c ∈ Q :: Ds -> c = h :: l -> Forall (fun b => R b = Waiting) l.
Proof using I.
  intros Hc ->. apply elem_of_cons in Hc as [<-|Hc].
  - exact (proj2 (li_Q _ _ _ _ _ _ I)).
  - by destruct (li_Ds _ _ _ _ _ _ I _ Hc) as (r & o & t & [= -> ->] & _ & _ & Hw).
Qed.
Lemma adj_waiting c a b : c ∈ Q :: Ds -> adj c a b -> R b = Waiting.
Proof using I.
  intros Hc Ha. destruct c as [|h l]; [by destruct Ha as ([|? ?] & ? & ?)|].
  pose proof (queue_roles _ h l Hc eq_refl) as Hw. rewrite Forall_forall in Hw. eapply Hw, adj_tail, Ha.
Qed.
Lemma queued_role c a : c ∈ Q :: Ds -> a ∈ c -> R a <> Idle /\ R a <> Leaving.
Proof using I.
  intros Hc Ha. destruct c as [|h l]; [by apply not_elem_of_nil in Ha|].
  pose proof (queue_roles _ h l Hc eq_refl) as Hw. rewrite Forall_forall in Hw.
  apply elem_of_cons in Ha as [->|Ha]; [|by rewrite Hw].
  apply elem_of_cons in Hc as [<-|Hc].
  - by rewrite (proj1 (li_Q _ _ _ _ _ _ I)).
  - destruct (li_Ds _ _ _ _ _ _ I _ Hc) as (r & o & t & [= <- <-] & _ & -> & _). done.
Qed.

(** *** Steps that leave the queues alone *)
Section quiet.
Context (i : nat) (nx' : nat -> option nat) (lk' : nat -> Z) (pc' : nat -> lock_pc)
  (Hnx : forall j, j <> i -> nx' j = nx j) (Hlk : forall j, j <> i -> lk' j = lk j)
  (Hpc : forall j, j <> i -> pc' j = pc j)
  (Hj : joins (pc' i) = joins (pc i)) (Hr : relinks (pc' i) = relinks (pc i))
  (Hrole : role_of (pc' i) (lk' i) = R i)
  (Hspin : pc i = LkSpin -> R i = Owner \/ pc' i = LkSpin)
  (Hnxi : nx' i = nx i \/ R i = Idle).

Lemma quiet_role j : role_of (pc' j) (lk' j) = R j.
Proof using Hlk Hpc Hrole. destruct (decide (j = i)) as [->|]; [done|by rewrite Hlk, Hpc]. Qed.
Lemma quiet_targets z p : targets (pc' z) p <-> targets (pc z) p.
Proof using Hpc Hj Hr.
  unfold targets. destruct (decide (z = i)) as [->|]; [by rewrite Hj, Hr|by rewrite Hpc].
Qed.
Lemma quiet_nx j : R j <> Idle -> nx' j = nx j.
Proof using Hnx Hnxi. intros H. destruct (decide (j = i)) as [->|]; [by destruct Hnxi|by apply Hnx]. Qed.
Lemma quiet_fed a : (a <> i \/ nx' i = nx i) -> fed nx pc a -> fed nx' pc' a.
Proof using Hnx Hpc Hj Hr Hnxi.
  intros Ha H. apply (fed_frame _ _ _ _ i a H Hpc); [|intros; right; done].
  intros x Hx. destruct (decide (x = i)) as [->|]; [|left; by rewrite Hnx].
  destruct Hnxi as [E|E]; [left; congruence|]. destruct Ha as [Ha|E']; [|left; congruence].
  right. apply role_idle in E as [_ E]. done.
Qed.

Lemma inv_quiet : pc_ok nx' lk' pc' i -> lock_inv lock nx' lk' pc' Q Ds.
Proof using Type*.
  intros Hok. split.
  - apply I.
  - apply I.
  - pose proof (li_Q _ _ _ _ _ _ I) as HQ. destruct Q as [|h l]; [done|]. rewrite quiet_role.
    split; [apply HQ|]. eapply Forall_impl; [apply HQ|]. intros b. cbv beta. by rewrite quiet_role.
  - intros c Hc. destruct (li_Ds _ _ _ _ _ _ I c Hc) as (r & o & t & -> & Ht & Hrt & Hw). exists r, o, t.
    split; [done|]. split; [done|]. split.
    + apply (role_detached _ (lk' r)). rewrite quiet_role. by rewrite Hrt.
    + eapply Forall_impl; [apply Hw|]. intros b. cbv beta. by rewrite quiet_role.
  - intros j Hout. rewrite quiet_role. by apply I.
  - intros c a b Hc Ha. pose proof (adj_waiting c a b Hc Ha) as Hb. destruct (adj_in _ _ _ Ha) as [Hac _].
    destruct (queued_role c a Hc Hac) as [Hia _].
    apply (src_frame nx pc nx' pc' i); try done.
    + by apply (li_adj _ _ _ _ _ _ I c).
    + intros q. by rewrite Hj.
    + intros q. by rewrite Hr.
    + destruct Hnxi as [E|E]; [by left|right]. split; [by intros ->|exact (proj2 (role_idle _ _ E))].
    + destruct (decide (b = i)) as [->|]; [right|by left].
      destruct (decide (pc i = LkSpin)) as [E|]; [|by left]. destruct (Hspin E) as [E'|E']; [congruence|by right].
  - intros c a Hc Ha. destruct (li_last _ _ _ _ _ _ I c a Hc Ha) as [H1 H2].
    destruct (queued_role c a Hc ltac:(by apply last_Some_elem_of)) as [Hia _]. split; [by rewrite quiet_nx|].
    intros z. by rewrite quiet_targets.
  - intros z p Hz. apply quiet_targets in Hz. destruct (li_targets _ _ _ _ _ _ I z p Hz) as (H1 & H2 & H3).
    split; [by rewrite quiet_nx|]. split; [|by rewrite quiet_role]. intros z' Hz'. apply H2. by apply quiet_targets.
  - intros j. destruct (decide (j = i)) as [->|Hne]; [done|]. pose proof (li_ok _ _ _ _ _ _ I j) as H.
    unfold pc_ok in *. rewrite Hpc, Hnx, Hlk by done. destruct (pc j); try done. apply quiet_fed; [by left|done].
Qed.
End quiet.

(** *** Swaps of the tail: the thread's place in the queues changes *)
Section swap.
Context (i : nat) (pc' : nat -> lock_pc) (Hpc : forall j, j <> i -> pc' j = pc j)
  (Hj : joins (pc i) = None) (Hr : relinks (pc i) = None) (Hspin : pc i <> LkSpin)
  (lk' : nat -> Z) (Hlk : forall j, lk' j = lk j \/ pc j = LkSpin).

Lemma swap_src a b : src nx pc a b -> src nx pc' a b.
Proof using Hpc Hj Hr Hspin.
  intros H. apply (src_frame nx pc nx pc' i); try done; [intros; congruence..|by left|by right; left].
Qed.
Lemma swap_fed a : fed nx pc a -> fed nx pc' a.
Proof using Hpc Hj Hr.
  intros H. apply (fed_frame nx pc nx pc' i); [done|done|by left|]. intros q [E|E]; congruence.
Qed.

Lemma inv_swap lock' Q' Ds' :
  NoDup (concat (Q' :: Ds')) -> lock' = last Q' ->
  match Q' with
  | [] => True
  | h :: l => role_of (pc' h) (lk' h) = Owner /\ Forall (fun b => role_of (pc' b) (lk' b) = Waiting) l
  end ->
  (forall c, c ∈ Ds' -> exists r o t, c = r :: o /\ last o = Some t /\ pc' r = UlBack (Some t) /\
     Forall (fun b => role_of (pc' b) (lk' b) = Waiting) o) ->
  (forall j, j ∉ concat (Q' :: Ds') -> role_of (pc' j) (lk' j) = Idle \/ role_of (pc' j) (lk' j) = Leaving) ->
  (forall c a b, c ∈ Q' :: Ds' -> adj c a b ->
     (exists c0, c0 ∈ Q :: Ds /\ adj c0 a b) \/
     (free nx pc a /\ (joins (pc' i) = Some a /\ b = i \/
                       relinks (pc' i) = Some a /\ exists c0, c0 ∈ Q :: Ds /\ adj c0 i b))) ->
  (forall c a, c ∈ Q' :: Ds' -> last c = Some a -> free nx pc a /\ ~ targets (pc' i) a) ->
  (forall p, targets (pc' i) p -> free nx pc p /\ p <> i /\ R p <> Idle) ->
  role_of (pc' i) (lk' i) <> Idle \/ (forall z, ~ targets (pc z) i) ->
  pc_ok nx lk' pc' i ->
  lock_inv lock' nx lk' pc' Q' Ds'.
Proof using Type*.
  intros Hnd Hlock HQ HDs Hout Hadj Hlast Htgt Hidle Hok. split; try done.
  - intros c a b Hc Hab. destruct (Hadj c a b Hc Hab) as [(c0 & Hc0 & H)|([Hf _] & [[E ->]|(E & c0 & Hc0 & H)])].
    + apply swap_src. by apply (li_adj _ _ _ _ _ _ I c0).
    + by apply src_join.
    + apply (src_relink _ _ a i); [done..|]. apply swap_src. by apply (li_adj _ _ _ _ _ _ I c0).
  - intros c a Hc Ha. destruct (Hlast c a Hc Ha) as [[H1 H2] H3]. split; [done|]. intros z.
    destruct (decide (z = i)) as [->|]; [done|by rewrite Hpc].
  - intros z p Hz. destruct (decide (z = i)) as [->|Hne].
    + destruct (Htgt p Hz) as ([H1 H2] & H3 & H4). split; [done|]. split; [|rewrite Hpc by done; by apply (role_not_idle _ (lk p))].
      intros z' Hz'. destruct (decide (z' = i)); [done|]. rewrite Hpc in Hz' by done. by apply H2 in Hz'.
    + rewrite Hpc in Hz by done. destruct (li_targets _ _ _ _ _ _ I z p Hz) as (H1 & H2 & H3).
      split; [done|]. split.
      * intros z' Hz'. destruct (decide (z' = i)) as [->|Hne']; [|rewrite Hpc in Hz' by done; by apply H2].
        destruct (Htgt p Hz') as ([_ H] & _). by apply H in Hz.
      * destruct (decide (p = i)) as [->|]; [|rewrite Hpc by done; by apply (role_not_idle _ (lk p))]. destruct Hidle as [?|H]; [done|]. by apply H in Hz.
  - intros j. destruct (decide (j = i)) as [->|Hne]; [done|]. pose proof (li_ok _ _ _ _ _ _ I j) as H.
    unfold pc_ok in *. rewrite Hpc by done. destruct (Hlk j) as [->|E]; [|by rewrite E].
    destruct (pc j); try done. by apply swap_fed.
Qed.
End swap.

(** *** Giving a thread its next *)
Section settle.
Context (i p : nat) (nx' : nat -> option nat) (pc' : nat -> lock_pc)
  (Hp : targets (pc i) p) (Hnxp : nx' p <> None) (Hnx : forall j, j <> p -> nx' j = nx j)
  (Hpc : forall j, j <> i -> pc' j = pc j) (Hj : joins (pc' i) = None) (Hr : relinks (pc' i) = None)
  (Hrole : role_of (pc' i) (lk i) = R i \/ R i = Leaving /\ role_of (pc' i) (lk i) = Idle /\ nx i <> None)
  (Hsrc : forall a b, src nx pc a b -> a <> i \/ R i <> Leaving -> src nx' pc' a b).

Lemma settle_role j : role_of (pc' j) (lk j) = R j \/ R j = Leaving /\ role_of (pc' j) (lk j) = Idle /\ nx j <> None.
Proof using Hpc Hrole. destruct (decide (j = i)) as [->|]; [done|left; by rewrite Hpc]. Qed.
Lemma settle_waiting l : Forall (fun b => R b = Waiting) l -> Forall (fun b => role_of (pc' b) (lk b) = Waiting) l.
Proof using Hpc Hrole.
  intros H. eapply Forall_impl; [exact H|]. intros b Hb. cbv beta in *. destruct (settle_role b) as [->|[E _]]; [done|congruence].
Qed.
Lemma inv_settle : pc_ok nx' lk pc' i -> lock_inv lock nx' lk pc' Q Ds.
Proof using Type*.
  intros Hok. destruct (li_targets _ _ _ _ _ _ I i p Hp) as (Hp1 & Hp2 & Hp3). split.
  - apply I.
  - apply I.
  - pose proof (li_Q _ _ _ _ _ _ I) as HQ. destruct Q as [|h l]; [done|]. destruct HQ as [Ho Hw].
    split; [|by apply settle_waiting]. destruct (settle_role h) as [->|[E _]]; [done|congruence].
  - intros c Hc. destruct (li_Ds _ _ _ _ _ _ I c Hc) as (r & o & t & -> & Ht & Hrt & Hw). exists r, o, t.
    split; [done|]. split; [done|]. split; [|by apply settle_waiting]. apply (role_detached _ (lk r)).
    destruct (settle_role r) as [->|[E _]]; [by rewrite Hrt|]. by rewrite Hrt in E.
  - intros j Hout. destruct (settle_role j) as [->|(_ & -> & _)]; [by apply I|by left].
  - intros c a b Hc Ha. destruct (adj_in _ _ _ Ha) as [Hac _].
    destruct (queued_role c a Hc Hac) as [_ Hle]. apply Hsrc; [by apply (li_adj _ _ _ _ _ _ I c)|].
    destruct (decide (a = i)) as [->|]; [by right|by left].
  - intros c a Hc Ha. destruct (li_last _ _ _ _ _ _ I c a Hc Ha) as [H1 H2].
    assert (a <> p) by (intros ->; by apply (H2 i)). split; [by rewrite Hnx|]. intros z [Hz|Hz];
      (destruct (decide (z = i)) as [->|]; [congruence|]); rewrite Hpc in Hz by done; apply (H2 z); [by left|by right].
  - intros z q Hz. assert (z <> i) as Hzi by (intros ->; destruct Hz; congruence). rewrite Hpc in Hz by done.
    destruct (li_targets _ _ _ _ _ _ I z q Hz) as (H1 & H2 & H3).
    assert (q <> p) as Hq by (intros ->; apply Hzi; symmetry; by apply H2). split; [by rewrite Hnx|]. split.
    + intros z' Hz'. apply H2. destruct (decide (z' = i)) as [->|]; [|by rewrite <- Hpc]. destruct Hz'; congruence.
    + destruct (settle_role q) as [->|(_ & _ & E)]; done.
  - intros j. destruct (decide (j = i)) as [->|Hne]; [done|]. pose proof (li_ok _ _ _ _ _ _ I j) as H.
    unfold pc_ok in *. rewrite Hpc by done. destruct (decide (j = p)) as [->|Hjp].
    + destruct (pc p) eqn:E; try done; [by apply fed_set|destruct H; congruence].
    + rewrite Hnx by done. destruct (pc j); try done. apply (fed_frame nx pc nx' pc' i); try done.
      * intros x Hx. left. destruct (decide (x = p)) as [->|]; [done|by rewrite Hnx].
      * intros q Hq. left. destruct (li_targets _ _ _ _ _ _ I i q Hq) as (H1 & H2 & H3).
        by rewrite (targets_inj _ _ _ Hq Hp).
Qed.
End settle.

Lemma src_link i p nx' pc' :
  pc i = LkLink p -> pc' i = LkSpin -> (forall j, j <> i -> pc' j = pc j) ->
  nx' p = Some i -> (forall j, j <> p -> nx' j = nx j) -> forall a b, src nx pc a b -> src nx' pc' a b.
Proof using I.
  intros Hi Hi' Hpc Hp Hnx a b H. assert (Ht : targets (pc i) p) by (left; by rewrite Hi).
  destruct (li_targets _ _ _ _ _ _ I i p Ht) as (Hp1 & Hp2 & _).
  induction H as [a b Ha Hb|a b Ha Hb|a r b Ha Hr _ IH].
  - apply src_set; [rewrite Hnx by congruence; done|]. rewrite Hpc by congruence. done.
  - destruct (decide (a = p)) as [->|Hne].
    + rewrite (Hp2 b ltac:(by left)). by apply src_set.
    + apply src_join; [by rewrite Hnx|]. rewrite Hpc; [done|]. intros ->. rewrite Hi in Hb. simpl in Hb. congruence.
  - destruct (decide (a = p)) as [->|Hne].
    + rewrite (Hp2 r ltac:(by right)), Hi in Hr. discriminate Hr.
    + apply (src_relink _ _ a r); [by rewrite Hnx| |done]. rewrite Hpc; [done|]. intros ->. by rewrite Hi in Hr.
Qed.
Lemma src_give i u n nx' pc' :
  pc i = UlGive (Some u) (Some n) -> nx i = Some n -> (forall j, j <> i -> pc' j = pc j) ->
  nx' u = Some n -> (forall j, j <> u -> nx' j = nx j) ->
  forall a b, src nx pc a b -> a <> i -> src nx' pc' a b.
Proof using I.
  intros Hi Hnxi Hpc Hu Hnx a b H. assert (Ht : targets (pc i) u) by (right; by rewrite Hi).
  destruct (li_targets _ _ _ _ _ _ I i u Ht) as (Hu1 & Hu2 & _).
  induction H as [a b Ha Hb|a b Ha Hb|a r b Ha Hr H IH]; intros Hai.
  - apply src_set; [rewrite Hnx by congruence; done|]. rewrite Hpc by congruence. done.
  - destruct (decide (a = u)) as [->|Hne].
    + rewrite (Hu2 b ltac:(by left)), Hi in Hb. discriminate Hb.
    + apply src_join; [by rewrite Hnx|]. rewrite Hpc; [done|]. intros ->. by rewrite Hi in Hb.
  - destruct (decide (r = i)) as [->|Hri].
    + assert (a = u) as -> by (rewrite Hi in Hr; simpl in Hr; congruence).
      destruct (src_next _ _ _ _ _ H Hnxi) as [-> Hb]. apply src_set; [done|]. rewrite Hpc by congruence. done.
    + apply (src_relink _ _ a r); [|by rewrite Hpc|by apply IH]. rewrite Hnx; [done|]. intros ->.
      apply Hri, Hu2. by right.
Qed.

Lemma inv_link i p nx' pc' :
  pc i = LkLink p -> pc' i = LkSpin -> (forall j, j <> i -> pc' j = pc j) ->
  nx' p = Some i -> (forall j, j <> p -> nx' j = nx j) -> lock_inv lock nx' lk pc' Q Ds.
Proof using I.
  intros Hi Hi' Hpc Hp Hnx. pose proof (li_ok _ _ _ _ _ _ I i) as Hok. unfold pc_ok in Hok. rewrite Hi in Hok.
  apply (inv_settle i p); try done; rewrite ?Hi, ?Hi'; try done.
  - by left.
  - congruence.
  - left. simpl. by rewrite (proj2 (Z.eqb_neq _ 0) Hok).
  - intros a b H _. by apply (src_link i p nx' pc').
  - unfold pc_ok. by rewrite Hi'.
Qed.
Lemma inv_give i u n nx' pc' :
  pc i = UlGive (Some u) n -> pc' i = LkOut -> (forall j, j <> i -> pc' j = pc j) ->
  nx' u = n -> (forall j, j <> u -> nx' j = nx j) -> lock_inv lock nx' lk pc' Q Ds.
Proof using I.
  intros Hi Hi' Hpc Hu Hnx. pose proof (li_ok _ _ _ _ _ _ I i) as Hok. unfold pc_ok in Hok. rewrite Hi in Hok.
  destruct Hok as [Hnxi Hn]. destruct n as [n|]; [|done].
  apply (inv_settle i u); try done; rewrite ?Hi, ?Hi'; try done.
  - by right.
  - congruence.
  - right. split; [done|]. split; [done|congruence].
  - intros a b H [Ha|Ha]; [by apply (src_give i u n nx' pc')|done].
  - unfold pc_ok. by rewrite Hi'.
Qed.

(** *** Where a thread is, from what it does *)
Lemma in_queue i : R i <> Idle -> R i <> Leaving -> exists c, c ∈ Q :: Ds /\ i ∈ c.
Proof using I.
  intros H1 H2. apply concat_in. destruct (decide (i ∈ concat (Q :: Ds))) as [|H]; [done|].
  apply (li_out _ _ _ _ _ _ I) in H as [?|?]; done.
Qed.
Lemma owner_head i : R i = Owner -> exists l, Q = i :: l.
Proof using I.
  intros Ho. destruct (in_queue i ltac:(congruence) ltac:(congruence)) as (c & Hc & Hi).
  destruct c as [|h l]; [by apply not_elem_of_nil in Hi|].
  pose proof (queue_roles _ h l Hc eq_refl) as Hw. rewrite Forall_forall in Hw.
  apply elem_of_cons in Hi as [->|Hi]; [|rewrite (Hw _ Hi) in Ho; done].
  apply elem_of_cons in Hc as [<-|Hc]; [by exists l|].
  destruct (li_Ds _ _ _ _ _ _ I _ Hc) as (r & o & t & [= <- <-] & _ & E & _). rewrite E in Ho. done.
Qed.
Lemma detached_head i t0 :
  pc i = UlBack t0 -> exists o t, i :: o ∈ Ds /\ last o = Some t /\ t0 = Some t /\ Forall (fun b => R b = Waiting) o.
Proof using I.
  intros Ho. assert (Hd : R i = Detached t0) by (by rewrite Ho).
  destruct (in_queue i ltac:(congruence) ltac:(congruence)) as (c & Hc & Hi).
  destruct c as [|h l]; [by apply not_elem_of_nil in Hi|].
  pose proof (queue_roles _ h l Hc eq_refl) as Hw. rewrite Forall_forall in Hw.
  apply elem_of_cons in Hi as [->|Hi]; [|rewrite (Hw _ Hi) in Hd; done].
  apply elem_of_cons in Hc as [<-|Hc].
  - pose proof (proj1 (li_Q _ _ _ _ _ _ I)) as H. rewrite Hd in H. done.
  - destruct (li_Ds _ _ _ _ _ _ I _ Hc) as (r & o & t & [= <- <-] & Ht & E & H). exists l, t.
    rewrite E in Ho. injection Ho as <-. done.
Qed.
Lemma one_queue c c' x : c ∈ Ds -> x ∈ c -> c' = Q -> x ∉ c'.
Proof using I.
  intros Hc Hx -> HQ. pose proof (li_nodup _ _ _ _ _ _ I) as H. simpl in H. apply NoDup_app in H as (_ & H & _).
  apply (H x HQ). apply concat_in. by exists c.
Qed.

(** *** The swaps of the program *)
Lemma inv_enqueue i pc' :
  pc i = LkSwap -> pc' i = match lock with Some p => LkMark p | None => LkHeld end ->
  (forall j, j <> i -> pc' j = pc j) -> lock_inv (Some i) nx lk pc' (Q ++ [i]) Ds.
Proof using I.
  intros Hi Hi' Hpc. pose proof (li_lock _ _ _ _ _ _ I) as Hlock.
  assert (Hout : forall c, c ∈ Q :: Ds -> i ∉ c).
  { intros c Hc Hic. destruct (queued_role c i Hc Hic) as [H _]. by rewrite Hi in H. }
  assert (Hsame : forall c j, c ∈ Q :: Ds -> j ∈ c -> pc' j = pc j).
  { intros c j Hc Hj. apply Hpc. intros ->. by apply (Hout c). }
  assert (Hw : forall c h l, c ∈ Q :: Ds -> c = h :: l -> Forall (fun b => role_of (pc' b) (lk b) = Waiting) l).
  { intros c h l Hc ->. apply Forall_forall. intros b Hb.
    rewrite (Hsame (h :: l) b Hc ltac:(by right)). pose proof (queue_roles _ h l Hc eq_refl) as H.
    rewrite Forall_forall in H. by apply H. }
  assert (Htgt : forall p, targets (pc' i) p -> last Q = Some p).
  { intros p. rewrite Hi', Hlock. by destruct (last Q); intros [H|H]. }
  apply (inv_swap i pc' Hpc); rewrite ?Hi; try done; try (by left).
  - pose proof (li_nodup _ _ _ _ _ _ I) as H. simpl in *. rewrite <- app_assoc. simpl.
    rewrite <- Permutation_middle. apply NoDup_cons. split; [|done]. intros Hin. apply (proj1 (concat_in (Q :: Ds) i)) in Hin as (c & Hc & Hic). by apply (Hout c).
  - by rewrite last_snoc.
  - destruct Q as [|h l] eqn:EQ; simpl.
    + simpl in Hlock. rewrite Hi', Hlock. done.
    + pose proof (li_Q _ _ _ _ _ _ I) as [Ho _]. rewrite (Hsame (h :: l) h) by (rewrite ?EQ; left). split; [done|].
      apply Forall_app. split; [apply (Hw (h :: l) h l); [by left|done]|]. constructor; [|done].
      assert (exists p, last (h :: l) = Some p) as [p Hp] by (destruct (last (h :: l)) eqn:E; [eauto|by apply last_None in E]).
      by rewrite Hi', Hlock, Hp.
  - intros c Hc. destruct (li_Ds _ _ _ _ _ _ I c Hc) as (r & o & t & -> & Ht & Hr & _). exists r, o, t.
    split; [done|]. split; [done|]. split; [rewrite (Hsame (r :: o)); [done|by right|by left]|].
    apply (Hw (r :: o) r o); [by right|done].
  - intros j Hj. assert (j <> i) as Hne by (intros ->; apply Hj; simpl; set_solver). rewrite Hpc by done.
    apply (li_out _ _ _ _ _ _ I). simpl in *. set_solver.
  - intros c a b Hc Hab. apply elem_of_cons in Hc as [->|Hc]; [|left; exists c; split; [by right|done]].
    apply adj_app in Hab as [H|[H|[Ha Hb]]].
    + left. exists Q. split; [by left|done].
    + by apply adj_tail, not_elem_of_nil in H.
    + right. split; [apply (li_last _ _ _ _ _ _ I Q); [by left|done]|]. left. rewrite Hi', Hlock, Ha.
      split; [done|]. by injection Hb.
  - intros c a Hc Ha. apply elem_of_cons in Hc as [->|Hc].
    + rewrite last_snoc in Ha. injection Ha as <-. split.
      * pose proof (li_ok _ _ _ _ _ _ I i) as Hok. unfold pc_ok in Hok. rewrite Hi in Hok. split; [done|].
        intros z Hz. destruct (li_targets _ _ _ _ _ _ I z i Hz) as (_ & _ & H). by rewrite Hi in H.
      * intros H. apply (Hout Q); [by left|]. by apply last_Some_elem_of, Htgt.
    + split; [apply (li_last _ _ _ _ _ _ I c); [by right|done]|]. intros H.
      apply (one_queue c Q a Hc); [by apply last_Some_elem_of|done|by apply last_Some_elem_of, Htgt].
  - intros p Hp. apply Htgt in Hp. pose proof (last_Some_elem_of _ _ Hp) as HpQ.
    split; [apply (li_last _ _ _ _ _ _ I Q); [by left|done]|]. split; [intros ->; by apply (Hout Q); [left|]|].
    apply (queued_role Q); [by left|done].
  - left. rewrite Hi', Hlock. by destruct (last Q).
  - unfold pc_ok. rewrite Hi', Hlock. by destruct (last Q).
Qed.

(** Roles and positions of all the others are as they were. *)
Lemma same_roles i pc' (l : list nat) :
  (forall j, j <> i -> pc' j = pc j) -> i ∉ l ->
  Forall (fun b => R b = Waiting) l -> Forall (fun b => role_of (pc' b) (lk b) = Waiting) l.
Proof using Type.
  clear I. intros Hpc Hi H. rewrite Forall_forall in *. intros b Hb. rewrite Hpc by (intros ->; done). by apply H.
Qed.
Lemma ds_others i pc' (Ds' : list (list nat)) :
  (forall j, j <> i -> pc' j = pc j) -> (forall c, c ∈ Ds' -> c ∈ Ds /\ i ∉ c) ->
  forall c, c ∈ Ds' -> exists r o t, c = r :: o /\ last o = Some t /\ pc' r = UlBack (Some t) /\
    Forall (fun b => role_of (pc' b) (lk b) = Waiting) o.
Proof using I.
  intros Hpc HD c Hc. destruct (HD c Hc) as [Hc' Hi].
  destruct (li_Ds _ _ _ _ _ _ I c Hc') as (r & o & t & -> & Ht & Hr & Hw). exists r, o, t.
  apply not_elem_of_cons in Hi as [Hir Hio].
  split; [done|]. split; [done|]. split; [by rewrite Hpc by done|by apply (same_roles i)].
Qed.

(** The last in the queue leaves it empty; another takes those behind it off. *)
Lemma inv_release_last i pc' :
  pc i = UlSwap -> Q = [i] -> pc' i = LkOut -> (forall j, j <> i -> pc' j = pc j) -> lock_inv None nx lk pc' [] Ds.
Proof using I.
  intros Hi HQ Hi' Hpc. pose proof (li_nodup _ _ _ _ _ _ I) as Hnd.
  rewrite HQ in Hnd. simpl in Hnd. apply NoDup_cons in Hnd as [HiD Hnd].
  assert (Hfree : free nx pc i) by (apply (li_last _ _ _ _ _ _ I Q); [by left|by rewrite HQ]).
  apply (inv_swap i pc' Hpc); rewrite ?Hi; try done; try (by left); rewrite ?Hi'.
  - apply (ds_others i); [done|]. intros c Hc. split; [done|]. intros Hic. apply HiD, concat_in. by exists c.
  - intros j Hj. destruct (decide (j = i)) as [->|]; [left; by rewrite Hi'|]. rewrite Hpc by done.
    apply (li_out _ _ _ _ _ _ I). rewrite HQ. simpl in *. by apply not_elem_of_cons.
  - intros c a b Hc Hab. left. exists c. split; [|done]. apply elem_of_cons in Hc as [->|Hc]; [|by right].
    by destruct Hab as ([|? ?] & ? & ?).
  - intros c a Hc Ha. apply elem_of_cons in Hc as [->|Hc]; [done|].
    split; [apply (li_last _ _ _ _ _ _ I c); [by right|done]|by intros [|]].
  - by intros p [|].
  - right. apply Hfree.
  - unfold pc_ok. by rewrite Hi'.
Qed.
Lemma inv_release_queue i b l t pc' :
  pc i = UlSwap -> Q = i :: b :: l -> last (b :: l) = Some t -> pc' i = UlBack (Some t) ->
  (forall j, j <> i -> pc' j = pc j) -> lock_inv None nx lk pc' [] (Q :: Ds).
Proof using I.
  intros Hi HQ Ht Hi' Hpc. pose proof (li_nodup _ _ _ _ _ _ I) as Hnd. pose proof Hnd as Hnd'.
  rewrite HQ in Hnd'. simpl in Hnd'. apply NoDup_cons in Hnd' as [HiD _]. rewrite app_comm_cons, not_elem_of_app in HiD.
  destruct HiD as [Hil HiD]. pose proof (li_Q _ _ _ _ _ _ I) as HQw. rewrite HQ in HQw. destruct HQw as [_ Hw].
  apply (inv_swap i pc' Hpc); rewrite ?Hi; try done; try (by left); rewrite ?Hi'.
  - intros c Hc. apply elem_of_cons in Hc as [->|Hc].
    + exists i, (b :: l), t. split; [done|]. split; [done|]. split; [done|]. by apply (same_roles i).
    + apply (ds_others i _ Ds); [done| |done]. intros c' Hc'. split; [done|]. intros Hic. apply HiD, concat_in. by exists c'.
  - intros j Hj. rewrite Hpc; [by apply (li_out _ _ _ _ _ _ I)|]. intros ->. apply Hj. simpl. rewrite HQ. set_solver.
  - intros c a b' Hc Hab. left. exists c. split; [|done]. apply elem_of_cons in Hc as [->|Hc]; [|done].
    by destruct Hab as ([|? ?] & ? & ?).
  - intros c a Hc Ha. apply elem_of_cons in Hc as [->|Hc]; [done|].
    split; [by apply (li_last _ _ _ _ _ _ I c)|by intros [|]].
  - by intros p [|].
  - by left.
  - unfold pc_ok. by rewrite Hi'.
Qed.
Lemma inv_release i pc' :
  pc i = UlSwap -> pc' i = (if decide (lock = Some i) then LkOut else UlBack lock) ->
  (forall j, j <> i -> pc' j = pc j) -> exists Q' Ds', lock_inv None nx lk pc' Q' Ds'.
Proof using I.
  intros Hi Hi' Hpc. pose proof (li_lock _ _ _ _ _ _ I) as Hlock.
  destruct (owner_head i ltac:(by rewrite Hi)) as [[|b l] HQ]; rewrite HQ in Hlock.
  - exists [], Ds. apply (inv_release_last i); try done. by rewrite Hi', Hlock, decide_True.
  - assert (exists t, last (b :: l) = Some t) as [t Ht] by (destruct (last (b :: l)) eqn:E; [eauto|by apply last_None in E]).
    change (last (i :: b :: l)) with (last (b :: l)) in Hlock. rewrite Ht in Hlock.
    exists [], (Q :: Ds). apply (inv_release_queue i b l t); try done. rewrite Hi', Hlock, decide_False; [done|].
    intros [= ->]. pose proof (li_nodup _ _ _ _ _ _ I) as Hnd. rewrite HQ in Hnd. simpl in Hnd.
    apply NoDup_cons in Hnd as [Hnd _]. apply Hnd. rewrite app_comm_cons. apply elem_of_app. left. by apply last_Some_elem_of.
Qed.

(** A releasing thread puts its tail back: it leads the queue again, or those behind it are
    queued behind the one that came meanwhile. *)
Section back.
Context (i b t : nat) (o : list nat) (D1 D2 : list (list nat)) (pc' : nat -> lock_pc)
  (Hi : pc i = UlBack (Some t)) (Hpc : forall j, j <> i -> pc' j = pc j)
  (HDs : Ds = D1 ++ (i :: b :: o) :: D2) (Ht : last (b :: o) = Some t)
  (Hw : Forall (fun b => R b = Waiting) (b :: o)).

Lemma back_in : i :: b :: o ∈ Q :: Ds.
Proof using Type*. right. rewrite HDs. set_solver. Qed.
Lemma back_perm : concat (Q :: Ds) ≡ₚ i :: ((Q ++ b :: o) ++ concat (D1 ++ D2)).
Proof using Type*.
  rewrite HDs. generalize (b :: o). intros x. simpl. rewrite !concat_app. simpl. rewrite <- (Permutation_middle (concat D1)), <- Permutation_middle.
  apply perm_skip. rewrite <- app_assoc. apply Permutation_app_head. rewrite !app_assoc.
  apply Permutation_app_tail, Permutation_app_comm.
Qed.
Lemma back_apart : NoDup ((Q ++ b :: o) ++ concat (D1 ++ D2)) /\ (i ∉ Q) /\ (i ∉ b :: o) /\ (i ∉ concat (D1 ++ D2)).
Proof using Type*.
  pose proof (li_nodup _ _ _ _ _ _ I) as Hnd. rewrite back_perm in Hnd. apply NoDup_cons in Hnd as [H Hnd].
  rewrite !elem_of_app in H. tauto.
Qed.
Lemma back_ds c : c ∈ D1 ++ D2 -> c ∈ Ds /\ i ∉ c.
Proof using Type*.
  intros Hc. split; [rewrite HDs; set_solver|]. intros Hic. apply back_apart, concat_in. by exists c.
Qed.
Lemma back_fed : fed nx pc' i.
Proof using Type*.
  apply (swap_fed i pc' Hpc); rewrite ?Hi; [done..|].
  apply (src_fed _ _ _ b), (li_adj _ _ _ _ _ _ I (i :: b :: o)); [apply back_in|apply adj_first].
Qed.
Lemma back_last c a : c ∈ D1 ++ D2 \/ c = Q ++ b :: o \/ c = i :: b :: o -> last c = Some a -> free nx pc a.
Proof using Type*.
  intros Hc Ha. destruct Hc as [Hc|Hc].
  - apply (li_last _ _ _ _ _ _ I c); [right; by apply back_ds|done].
  - apply (li_last _ _ _ _ _ _ I (i :: b :: o)); [apply back_in|].
    destruct Hc as [-> | ->]; [rewrite last_app, Ht in Ha|]; [|done]. injection Ha as <-. done.
Qed.

Lemma inv_back_free : Q = [] -> pc' i = UlWait None -> lock_inv (Some t) nx lk pc' (i :: b :: o) (D1 ++ D2).
Proof using Type*.
  intros HQ Hi'. destruct back_apart as (Hnd & _ & Hoi & HDi). rewrite HQ in Hnd. pose proof back_perm as HP. rewrite HQ in HP.
  apply (inv_swap i pc' Hpc); rewrite ?Hi; try done; try (by left); rewrite ?Hi'.
  - simpl in *. apply NoDup_cons. split; [|done]. rewrite app_comm_cons, elem_of_app. tauto.
  - split; [done|]. by apply (same_roles i).
  - apply (ds_others i); [done|apply back_ds].
  - intros j Hj. rewrite Hpc by (intros ->; apply Hj; simpl; by left). apply (li_out _ _ _ _ _ _ I). by rewrite HQ, HP.
  - intros c a b' Hc Hab. left. exists c. split; [|done]. apply elem_of_cons in Hc as [->|Hc]; [apply back_in|].
    right. by apply back_ds.
  - intros c a Hc Ha. split; [|by intros [|]]. apply elem_of_cons in Hc. apply (back_last c a); [tauto|done].
  - by intros p [|].
  - by left.
  - unfold pc_ok. rewrite Hi'. apply back_fed.
Qed.

Lemma inv_back_usurped u :
  last Q = Some u -> pc' i = UlWait (Some u) -> lock_inv (Some t) nx lk pc' (Q ++ b :: o) (D1 ++ D2).
Proof using Type*.
  intros Hu Hi'. destruct back_apart as (Hnd & HQi & Hoi & HDi). pose proof back_perm as HP.
  pose proof (last_Some_elem_of _ _ Hu) as HuQ. apply (inv_swap i pc' Hpc); rewrite ?Hi; try done; try (by left); rewrite ?Hi'.
  - by rewrite last_app, Ht.
  - pose proof (li_Q _ _ _ _ _ _ I) as HQ. destruct Q as [|h l]; [done|]. destruct HQ as [Ho Hl]. simpl.
    apply not_elem_of_cons in HQi as [Hhi Hli]. rewrite Hpc by done. split; [done|].
    apply Forall_app. split; by apply (same_roles i).
  - apply (ds_others i); [done|apply back_ds].
  - intros j Hj. destruct (decide (j = i)) as [->|Hne]; [right; by rewrite Hi'|]. rewrite Hpc by done.
    apply (li_out _ _ _ _ _ _ I). rewrite HP. by apply not_elem_of_cons.
  - intros c a b' Hc Hab. apply elem_of_cons in Hc as [->|Hc]; [|left; exists c; split; [right; by apply back_ds|done]].
    apply adj_app in Hab as [H|[H|[Ha Hb]]].
    + left. exists Q. split; [by left|done].
    + left. exists (i :: b :: o). split; [apply back_in|by apply adj_cons].
    + right. split; [apply (li_last _ _ _ _ _ _ I Q); [by left|done]|]. right. split; [simpl; congruence|].
      injection Hb as <-. exists (i :: b :: o). split; [apply back_in|apply adj_first].
  - intros c a Hc Ha. apply elem_of_cons in Hc. split; [apply (back_last c a); [tauto|done]|].
    intros [H|H]; [done|]. injection H as ->. apply NoDup_app in Hnd as (Hnd & Hd & _). destruct Hc as [->|Hc].
    + apply NoDup_app in Hnd as (_ & Hd' & _). rewrite last_app, Ht in Ha. injection Ha as ->.
      apply (Hd' _ HuQ). by apply last_Some_elem_of.
    + apply (Hd a); [apply elem_of_app; by left|]. apply concat_in. exists c. split; [done|by apply last_Some_elem_of].
  - intros p [H|H]; [done|]. injection H as <-. split; [apply (li_last _ _ _ _ _ _ I Q); [by left|done]|].
    split; [by intros ->|]. apply (queued_role Q); [by left|done].
  - by left.
  - unfold pc_ok. rewrite Hi'. apply back_fed.
Qed.
End back.

Lemma inv_back i t0 pc' :
  pc i = UlBack t0 -> pc' i = UlWait lock -> (forall j, j <> i -> pc' j = pc j) ->
  exists Q' Ds', lock_inv t0 nx lk pc' Q' Ds'.
Proof using I.
  intros Hi Hi' Hpc. pose proof (li_lock _ _ _ _ _ _ I) as Hlock.
  destruct (detached_head i t0 Hi) as (o & t & Hio & Ht & -> & Hw). destruct o as [|b o]; [done|].
  destruct (list_elem_of_split Ds _ Hio) as (D1 & D2 & HDs). destruct (last Q) as [u|] eqn:Hu.
  - eexists _, _. apply (inv_back_usurped i b t o D1 D2 pc' Hi Hpc HDs Ht Hw u Hu). by rewrite Hi', Hlock.
  - eexists _, _. apply (inv_back_free i b t o D1 D2 pc' Hi Hpc HDs Ht Hw); [by apply last_None|by rewrite Hi', Hlock].
Qed.

Lemma inv_pass i n lk' pc' :
  pc i = UlGive None (Some n) -> pc' i = LkOut -> (forall j, j <> i -> pc' j = pc j) ->
  lk' n = 0 -> (forall j, j <> n -> lk' j = lk j) -> exists Q', lock_inv lock nx lk' pc' Q' Ds.
Proof using I.
  intros Hi Hi' Hpc Hn Hlk. destruct (owner_head i ltac:(by rewrite Hi)) as [l HQ].
  pose proof (li_lock _ _ _ _ _ _ I) as Hlock. pose proof (li_nodup _ _ _ _ _ _ I) as Hnd.
  pose proof (li_ok _ _ _ _ _ _ I i) as Hok. unfold pc_ok in Hok. rewrite Hi in Hok. destruct Hok as [Hnx _].
  destruct l as [|b l].
  { destruct (li_last _ _ _ _ _ _ I Q i) as [H _]; [by left|by rewrite HQ|congruence]. }
  assert (Hib : src nx pc i b) by (apply (li_adj _ _ _ _ _ _ I Q); [by left|rewrite HQ; apply adj_first]).
  destruct (src_next _ _ _ _ _ Hib Hnx) as [-> Hb]. rewrite HQ in Hnd.
  simpl in Hnd. apply NoDup_cons in Hnd as [Hil Hnd]. pose proof Hnd as Hnd'. apply NoDup_cons in Hnd' as [Hnl _].
  rewrite !elem_of_cons, elem_of_app in Hil. rewrite elem_of_app in Hnl.
  pose proof (li_Q _ _ _ _ _ _ I) as Hw. rewrite HQ in Hw, Hlock. destruct Hw as [_ Hw]. apply Forall_cons in Hw as [_ Hw].
  assert (Hwait : forall o, n ∉ o -> i ∉ o -> Forall (fun b => R b = Waiting) o ->
    Forall (fun b => role_of (pc' b) (lk' b) = Waiting) o).
  { intros o Hno Hio H. rewrite Forall_forall in *. intros x Hx. rewrite Hpc by (intros ->; done).
    rewrite Hlk by (intros ->; done). by apply H. }
  exists (n :: l). apply (inv_swap i pc' Hpc); rewrite ?Hi; try done; try (by left); rewrite ?Hi'.
  - intros j. destruct (decide (j = n)) as [->|]; [by right|left; by apply Hlk].
  - rewrite Hpc by (intros ->; tauto). rewrite Hb, Hn. split; [done|]. apply Hwait; tauto.
  - intros c Hc. destruct (li_Ds _ _ _ _ _ _ I c Hc) as (r & o & t & -> & Ht & Hr & Hwo). exists r, o, t.
    assert (Hno : forall x, x ∉ concat Ds -> x ∉ r :: o) by (intros x Hx Hxo; apply Hx, concat_in; by exists (r :: o)).
    pose proof (Hno i ltac:(tauto)) as Hi1. pose proof (Hno n ltac:(tauto)) as Hn1.
    apply not_elem_of_cons in Hi1 as [? ?]. apply not_elem_of_cons in Hn1 as [? ?].
    split; [done|]. split; [done|]. split; [by rewrite Hpc|by apply Hwait].
  - intros j Hj. destruct (decide (j = i)) as [->|Hne]; [left; by rewrite Hi'|]. simpl in Hj.
    apply not_elem_of_cons in Hj as [Hjn Hj]. rewrite Hpc, Hlk by done. apply (li_out _ _ _ _ _ _ I).
    simpl. rewrite HQ. simpl. rewrite !not_elem_of_cons. done.
  - intros c a b Hc Hab. left. apply elem_of_cons in Hc as [->|Hc]; [|exists c; split; [by right|done]].
    exists Q. split; [by left|rewrite HQ; by apply adj_cons].
  - intros c a Hc Ha. split; [|by intros [|]]. apply elem_of_cons in Hc as [->|Hc];
      [|apply (li_last _ _ _ _ _ _ I c); [by right|done]].
    apply (li_last _ _ _ _ _ _ I Q); [by left|by rewrite HQ].
  - by intros p [|].
  - right. intros z Hz. destruct (li_targets _ _ _ _ _ _ I z i Hz) as (H & _). congruence.
  - unfold pc_ok. by rewrite Hi'.
Qed.
End inv.

Lemma lock_inv_ext lock nx lk pc Q Ds nx' lk' :
  lock_inv lock nx lk pc Q Ds -> (forall j, nx' j = nx j) -> (forall j, lk' j = lk j) ->
  lock_inv lock nx' lk' pc Q Ds.
Proof.
  intros I Hnx Hlk. apply (inv_quiet lock nx lk pc Q Ds I 0%nat); try done; [by rewrite Hlk|by right|by left|].
  pose proof (li_ok _ _ _ _ _ _ I 0%nat) as H. unfold pc_ok in *. rewrite Hnx, Hlk.
  destruct (pc 0%nat); try done. apply (quiet_fed nx lk pc 0%nat); try done; [by left|by right].
Qed.

(** ** Every step keeps the invariant *)
Definition nexts (m : mcs_mem) (j : nat) : option nat := qn_next (mem_node m j).
Definition lockeds (m : mcs_mem) (j : nat) : Z := qn_locked (mem_node m j).
Definition lock_ok (s : lock_sys) : Prop :=
  exists Q Ds, lock_inv (mcs_lock (ls_mem s)) (nexts (ls_mem s)) (lockeds (ls_mem s)) (ls_pc s) Q Ds.

Lemma lockeds_with_next i x m j : lockeds (with_next i x m) j = lockeds m j.
Proof.
  unfold lockeds, with_next. simpl. destruct (decide (j = i)) as [->|]; [by rewrite fn_lookup_insert|].
  by rewrite fn_lookup_insert_ne.
Qed.
Lemma nexts_with_locked i x m j : nexts (with_locked i x m) j = nexts m j.
Proof.
  unfold nexts, with_locked. simpl. destruct (decide (j = i)) as [->|]; [by rewrite fn_lookup_insert|].
  by rewrite fn_lookup_insert_ne.
Qed.

Ltac upd := intros; unfold nexts, lockeds; simpl; rewrite ?fn_lookup_insert, ?fn_lookup_insert_ne by done; try done.
Ltac quiet I i E := eexists; split; [reflexivity|]; eexists _, _;
  apply (inv_quiet _ _ _ _ _ _ I i); unfold pc_ok; rewrite ?E; upd; rewrite ?E; try (by left).

Lemma lock_step_ok s i : lock_ok s -> exists s', lock_step s i = Some s' /\ lock_ok s'.
Proof.
  intros (Q & Ds & I). pose proof (li_ok _ _ _ _ _ _ I i) as Hok. unfold pc_ok in Hok.
  unfold lock_step, lock_thread. destruct (ls_pc s i) as [| | |p|p| | | | |t|u|u|u n] eqn:E.
  - quiet I i E.
  - quiet I i E. by right.
  - eexists. split; [reflexivity|]. eexists _, _. apply (inv_enqueue _ _ _ _ _ _ I i); upd.
  - quiet I i E.
  - eexists. split; [reflexivity|]. eexists _, _. apply (lock_inv_ext _ (nexts (with_next p (Some i) (ls_mem s))) (lockeds (ls_mem s)));
      [apply (inv_link _ _ _ _ _ _ I i p); upd|done|apply lockeds_with_next].
  - unfold lockeds in *. simpl. destruct (qn_locked (mem_node (ls_mem s) i) =? 0) eqn:El; simpl.
    + quiet I i E; simpl; rewrite El; [done|by left].
    + quiet I i E. by right.
  - quiet I i E.
  - simpl. destruct (qn_next (mem_node (ls_mem s) i)) as [n|] eqn:En.
    + quiet I i E. by rewrite En.
    + quiet I i E.
  - eexists. split; [reflexivity|]. apply (inv_release _ _ _ _ _ _ I i); upd.
  - eexists. split; [reflexivity|]. apply (inv_back _ _ _ _ _ _ I i); upd.
  - simpl. destruct (qn_next (mem_node (ls_mem s) i)) as [n|] eqn:En.
    + quiet I i E. by rewrite En.
    + quiet I i E. apply (fed_frame _ _ _ _ i i Hok); upd; [by left|]. rewrite E. by right.
  - quiet I i E.
  - destruct Hok as [Hn Hne]. destruct u as [u|]; [|destruct n as [n|]; [|done]]; (eexists; split; [reflexivity|]).
    + eexists _, _. apply (lock_inv_ext _ (nexts (with_next u n (ls_mem s))) (lockeds (ls_mem s)));
        [apply (inv_give _ _ _ _ _ _ I i u n); upd|done|apply lockeds_with_next].
    + destruct (inv_pass _ _ _ _ _ _ I i n (lockeds (with_locked n 0 (ls_mem s))) (<[i:=LkOut]> (ls_pc s))) as [Q' I']; [upd..|].
      exists Q', Ds. apply (lock_inv_ext _ _ _ _ _ _ _ _ I'); [apply nexts_with_locked|done].
Qed.

Lemma lock_start_ok : lock_ok lock_start.
Proof.
  exists [], []. split; simpl; try done.
  - constructor.
  - by intros c Hc%not_elem_of_nil.
  - by left.
  - intros c a b ->%list_elem_of_singleton ([|? ?] & ? & ?); done.
  - by intros c a ->%list_elem_of_singleton.
  - by intros z p [|].
Qed.
Lemma lock_run_ok sched : forall s, lock_ok s -> exists s', lock_run s sched = Some s' /\ lock_ok s'.
Proof.
  induction sched as [|i l IH]; intros s Hs; [by exists s|]. cbn [lock_run].
  destruct (lock_step_ok s i Hs) as (s1 & -> & H1). apply (IH s1 H1).
Qed.

(** ** Somebody can always move on *)
Definition moves (s : lock_sys) (i : nat) : Prop :=
  ls_pc s i <> LkOut /\ exists s', lock_step s i = Some s' /\ ls_pc s' i <> ls_pc s i.

(** Only a waiting thread stays where it is. *)
Lemma moves_or_waits s i :
  lock_ok s -> ls_pc s i <> LkOut -> moves s i \/
  (ls_pc s i = LkSpin /\ role_of (ls_pc s i) (lockeds (ls_mem s) i) = Waiting) \/
  (exists u, ls_pc s i = UlWait u /\ nexts (ls_mem s) i = None).
Proof.
  intros (Q & Ds & I) Hi. unfold moves. pose proof (li_ok _ _ _ _ _ _ I i) as Hok. unfold pc_ok in Hok.
  unfold lock_step, lock_thread, nexts, lockeds in *. destruct (ls_pc s i) as [| | |p|p| | | | |t|u|u|u n]; simpl;
    try (left; split; [done|]; eexists; split; [reflexivity|]; simpl; rewrite fn_lookup_insert; done).
  - left. split; [done|]. eexists. split; [reflexivity|]. simpl. rewrite fn_lookup_insert. by destruct (mcs_lock _).
  - destruct (_ =? 0); [|by right; left]. left. split; [done|]. eexists. split; [reflexivity|]. simpl. by rewrite fn_lookup_insert.
  - left. split; [done|]. eexists. split; [reflexivity|]. simpl. rewrite fn_lookup_insert. by destruct (qn_next _).
  - left. split; [done|]. eexists. split; [reflexivity|]. simpl. rewrite fn_lookup_insert. by case_decide.
  - destruct (qn_next _) eqn:En; [|right; right; by exists u]. left. split; [done|]. eexists. split; [reflexivity|].
    simpl. by rewrite fn_lookup_insert.
  - left. split; [done|]. destruct Hok as [_ Hn]. destruct u, n; try done; (eexists; split; [reflexivity|]);
      simpl; by rewrite fn_lookup_insert.
Qed.
(** Whoever waits for its next field, waits for a thread that can move. *)
Lemma fed_moves s a :
  lock_ok s -> fed (nexts (ls_mem s)) (ls_pc s) a -> nexts (ls_mem s) a = None -> exists j, moves s j.
Proof.
  intros Hs. induction 1 as [a Ha|a b Hb|a r Hr Hf IH]; intros Hn; [done| |].
  - exists b. destruct (moves_or_waits s b Hs) as [H|[[E _]|(u & E & _)]]; [|done|by rewrite E in Hb..].
    by intros E; rewrite E in Hb.
  - destruct (moves_or_waits s r Hs) as [H|[[E _]|(u & E & En)]]; [|by exists r|by rewrite E in Hr|by apply IH].
    by intros E; rewrite E in Hr.
Qed.
Lemma some_moves s i : lock_ok s -> ls_pc s i <> LkOut -> exists j, moves s j.
Proof.
  intros Hs Hi. pose proof Hs as (Q & Ds & I).
  assert (Hwait : forall j u, ls_pc s j = UlWait u -> nexts (ls_mem s) j = None -> exists j, moves s j).
  { intros j u E En. pose proof (li_ok _ _ _ _ _ _ I j) as Hok. unfold pc_ok in Hok. rewrite E in Hok.
    by apply (fed_moves s j). }
  destruct (moves_or_waits s i Hs Hi) as [H|[[E Hw]|(u & E & En)]]; [by exists i| |by apply (Hwait i u)].
  destruct (in_queue _ _ _ _ _ _ I i ltac:(congruence) ltac:(congruence)) as (c & Hc & Hic).
  apply elem_of_cons in Hc as [->|Hc].
  - destruct Q as [|h l] eqn:EQ; [by apply not_elem_of_nil in Hic|]. pose proof (li_Q _ _ _ _ _ _ I) as [Ho _].
    destruct (moves_or_waits s h Hs) as [H|[[_ H]|(u & Eh & En)]]; [|by exists h|congruence|by apply (Hwait h u)].
    intros Eh. by rewrite Eh in Ho.
  - destruct (li_Ds _ _ _ _ _ _ I c Hc) as (r & o & t & _ & _ & Er & _).
    exists r. destruct (moves_or_waits s r Hs) as [H|[[E' _]|(u & E' & _)]]; [by rewrite Er|done|by rewrite Er in E'..].
Qed.

(** ** Properties *)

(** [C15] The MCS lock excludes, for any number of threads that take and release it over
    and over, under every interleaving of their accesses to its memory: no call ever
    follows a NULL pointer, at most one thread holds the lock, and unless all threads are
    outside there always is one inside that can go on - although the lock looks free
    between the two swaps of an unlock and can be taken there, ahead of the queue. *)
Theorem mcs_lock_excludes (sched : list nat) : exists s,
  lock_run lock_start sched = Some s /\
  (forall i j, ls_pc s i = LkHeld -> ls_pc s j = LkHeld -> i = j) /\
  (forall i, ls_pc s i <> LkOut ->
     exists j s', ls_pc s j <> LkOut /\ lock_step s j = Some s' /\ ls_pc s' j <> ls_pc s j).
Proof.
  destruct (lock_run_ok sched lock_start lock_start_ok) as (s & Hr & Hs). exists s. split; [done|]. split.
  - intros i j Hi Hj. destruct Hs as (Q & Ds & I).
    destruct (owner_head _ _ _ _ _ _ I i) as [l E]; [by rewrite Hi|].
    destruct (owner_head _ _ _ _ _ _ I j) as [l' E']; [by rewrite Hj|]. congruence.
  - intros i Hi. destruct (some_moves s i Hs Hi) as (j & Hj & s' & H). by exists j, s'.
Qed.
