(* ===== verification/FlagBarrier.v ===== *)
(** The flag barrier of the benchmarks ([bench/diss_bar/barrier.h], [sharedmemory.h]): a
    dissemination barrier in which a thread writes a growing tag into its own flag of the
    round and waits until the flags of the threads it follows have reached the tag.  The
    flags of a call are in one of ten sets, chosen by the tag.  Threads interleave between
    any two accesses to the flags, which are sequentially consistent. *)
From S2P Require Import Prelude Peers Rounds.

Definition MAXOPS : nat := 10.
Definition INT_MAX : Z := 2147483647.

(** [notification[s].notifications[p].notificationLines[k].flag] *)
Abbreviation flags := (list (list (list Z))).
Record sharedMemory := SharedMem { sm_rounds : Z; sm_m : Z; sm_notification : flags }.

(** ** Initialisation *)

(** The base-2 logarithm, rounded up; the code computes it in floating point. *)
Definition readFile (nthreads : Z) : Z * Z := (1, Z.log2_up nthreads).

Section init.
(** Whether the allocation of a set of flags, and of the flags of a thread in it, succeeds
    ([exit] otherwise), and what the memory holds. *)
Context (array_ok : Z -> bool) (lines_ok : Z -> Z -> bool) (junk : Z -> Z -> nat -> Z).

Definition set_flag (s p k x : Z) : M flags unit := fun f =>
  match set3 f s p k x with Some f' => (Ret tt, f') | None => (Undef, f) end.

Definition alloc_set (num_threads i : Z) : M flags unit :=
  if negb (array_ok i) then panic else fun f =>
  match arr_set f i (replicate (Z.to_nat num_threads) []) with Some f' => (Ret tt, f') | None => (Undef, f) end.
Definition alloc_lines (rounds i j : Z) : M flags unit :=
  if negb (lines_ok i j) then panic else fun f =>
  match set2 f i j (tab (Z.to_nat rounds) (junk i j)) with Some f' => (Ret tt, f') | None => (Undef, f) end.
Definition initnotification (num_threads rounds : Z) : M flags unit :=
  _ ← mfor MAXOPS 0 (alloc_set num_threads);
  mfor MAXOPS 0 (fun i => mfor (Z.to_nat num_threads) 0 (fun j =>
    _ ← alloc_lines rounds i j;
    mfor (Z.to_nat rounds) 0 (fun k => set_flag i j k 0))).

Definition initSharedMemory (nthreads : Z) : outcome sharedMemory :=
  let '(m, rounds) := readFile nthreads in
  match initnotification nthreads rounds (replicate MAXOPS []) with
  | (Ret _, f) => Ret (SharedMem rounds m f)
  | (Spin, _) => Spin
  | (Panic, _) => Panic
  | (Undef, _) => Undef
  end.
End init.

(** ** Waiting *)

(** Where a call of [barrier] is: not inside; before the test of the outer loop; at the wait
    for the [i]-th peer of round [r].  [index]: the set of flags, [step]: the distance of the
    first peer, [flag]: the tag of the round. *)
Inductive fb_pc := FbOut | FbRound (index r step flag : Z) | FbPeer (index r i step flag : Z).

(** Arithmetic on [int]s. *)
Definition int_ {S} (z : Z) : M S Z := if decide (- INT_MAX - 1 <= z <= INT_MAX) then mret z else undef.
(** [while (peer < 0) peer = nthreads + peer;] *)
Fixpoint wrap_peer {S} (fuel : nat) (nthreads peer : Z) : M S Z :=
  if peer <? 0 then match fuel with O => spin | S f => wrap_peer f nthreads (nthreads + peer) end
  else mret peer.

Definition next_round {S} (m index r step flag : Z) : M S fb_pc :=
  step ← int_ (step * (m + 1)); mret (FbRound index (r + 1) step (u32 (flag + 1))).

(** One access to the flags, with the thread's own steps up to the next; the state also has
    the thread's tag. *)
Definition barrier (nthreads m rounds my_id : Z) (tag : Z) (pc : fb_pc) : M flags (Z * fb_pc) :=
  match pc with
  | FbOut =>
      let op_tag := tag in
      let tag := if tag <? INT_MAX then u32 (tag + rounds) else 2 in
      mret (tag, FbRound (op_tag mod Z.of_nat MAXOPS) 0 1 op_tag)
  | FbRound index r step flag =>
      if r <? rounds then
        _ ← set_flag index my_id r flag;
        if 1 <=? m then mret (tag, FbPeer index r 1 step flag)
        else pc ← next_round m index r step flag; mret (tag, pc)
      else mret (tag, FbOut)
  | FbPeer index r i step flag =>
      d ← int_ (i * step);
      p ← int_ (my_id - d);
      peer ← wrap_peer (Z.to_nat (- p)) nthreads p;
      f ← get;
      x ← defined (get3 f index peer r);
      if x <? flag then mret (tag, FbPeer index r i step flag)
      else if i + 1 <=? m then mret (tag, FbPeer index r (i + 1) step flag)
      else pc ← next_round m index r step flag; mret (tag, pc)
  end.

(** Several steps in a row. *)
Fixpoint barrier_steps (k : nat) (nthreads m rounds my_id tag : Z) (pc : fb_pc) : M flags (Z * fb_pc) :=
  match k with
  | O => mret (tag, pc)
  | S k' => r ← barrier nthreads m rounds my_id tag pc; barrier_steps k' nthreads m rounds my_id r.1 r.2
  end.

(** Three threads meet once. *)
Fixpoint fb_run (ts : list (Z * fb_pc)) (f : flags) (sched : list nat) : option (list (Z * fb_pc) * flags) :=
  match sched with
  | [] => Some (ts, f)
  | i :: l =>
      t ← ts !! i;
      match barrier 3 1 2 (Z.of_nat i) t.1 t.2 f with (Ret t', f') => fb_run (<[i := t']> ts) f' l | _ => None end
  end.
Example fb_three : exists sh, initSharedMemory (fun _ => true) (fun _ _ => true) (fun _ _ _ => 9) 3 = Ret sh /\
  option_map fst (fb_run (replicate 3 (2, FbOut)) (sm_notification sh)
    (concat (replicate 6 [1; 0; 2]%nat))) =
    Some [(4, FbOut); (4, FbOut); (4, FbOut)].
Proof. eexists. split; [vm_compute; reflexivity|]. vm_compute. reflexivity. Qed.

(** ** States by progress *)
Section barrier.
Context (n : nat) (Hn : (1 < n)%nat).
Abbreviation L := (rounds_of n).
Abbreviation bwd := (bwd n).
Abbreviation calls := (calls n).
Abbreviation stage := (stage n).
Abbreviation writes := (writes n).
Abbreviation entries := (entries n).
Implicit Types P : nat -> nat.

(** The tag of the [c]-th call, if it has not been reset. *)
Definition tag_of (c : nat) : Z := 2 + Z.of_nat c * Z.of_nat L.
Definition set_of (c : nat) : nat := Z.to_nat (tag_of c mod Z.of_nat MAXOPS).
(** The flag of round [k] in set [s], when its thread has written [w] flags of that round. *)
Fixpoint last_flag (s k w : nat) : Z :=
  match w with
  | O => 0
  | S w' => if decide (set_of w' = s) then tag_of w' + Z.of_nat k else last_flag s k w'
  end.
Definition flags_at P : flags :=
  tab MAXOPS (fun s => tab n (fun j => tab L (fun k => last_flag s k (writes P j k)))).
Definition fb_at (c st : nat) : fb_pc :=
  if decide (st = 0)%nat then FbOut
  else let r := ((st - 1) / 2)%nat in
    if Nat.odd st then FbRound (Z.of_nat (set_of c)) (Z.of_nat r) (2 ^ Z.of_nat r) (tag_of c + Z.of_nat r)
    else FbPeer (Z.of_nat (set_of c)) (Z.of_nat r) 1 (2 ^ Z.of_nat r) (tag_of c + Z.of_nat r).

Lemma fb_round c r : fb_at c (2 * r + 1) =
  FbRound (Z.of_nat (set_of c)) (Z.of_nat r) (2 ^ Z.of_nat r) (tag_of c + Z.of_nat r).
Proof using Type.
  clear Hn. unfold fb_at. rewrite decide_False by lia.
  replace (Nat.odd (2 * r + 1)) with true by (symmetry; apply Nat.odd_spec; by exists r).
  replace (2 * r + 1 - 1)%nat with (r * 2)%nat by lia. by rewrite Nat.div_mul by lia.
Qed.
Lemma fb_peer c r : fb_at c (2 * r + 2) =
  FbPeer (Z.of_nat (set_of c)) (Z.of_nat r) 1 (2 ^ Z.of_nat r) (tag_of c + Z.of_nat r).
Proof using Type.
  clear Hn. unfold fb_at. rewrite decide_False by lia.
  replace (Nat.odd (2 * r + 2)) with false.
  - replace (2 * r + 2 - 1)%nat with (r * 2 + 1)%nat by lia. rewrite Nat.div_add_l by lia. simpl. by rewrite Nat.add_0_r.
  - symmetry. replace (2 * r + 2)%nat with (2 * (r + 1))%nat by lia. by rewrite Nat.odd_mul.
Qed.

Lemma set_of_lt c : (set_of c < MAXOPS)%nat.
Proof using Type.
  clear Hn. unfold set_of. pose proof (Z.mod_pos_bound (tag_of c) (Z.of_nat MAXOPS) ltac:(unfold MAXOPS; lia)). lia.
Qed.
Lemma set_of_Z c : Z.of_nat (set_of c) = tag_of c mod Z.of_nat MAXOPS.
Proof using Type.
  clear Hn. unfold set_of. rewrite Z2Nat.id; [done|]. apply Z.mod_pos_bound. unfold MAXOPS. lia.
Qed.
Lemma rounds_pos : (0 < L)%nat.
Proof using Hn. unfold rounds_of. pose proof (Z.log2_up_pos (Z.of_nat n) ltac:(lia)). lia. Qed.
Lemma tag_of_S c : tag_of (S c) = tag_of c + Z.of_nat L.
Proof using Type. clear Hn. unfold tag_of. lia. Qed.
Lemma tag_of_lt c c' : (c < c')%nat -> tag_of c < tag_of c'.
Proof using Hn. intros H. pose proof rounds_pos. unfold tag_of. nia. Qed.

(** A flag has reached the tag of a call if its thread has written it in that call. *)
Lemma last_flag_below s k w c : (w <= c)%nat -> last_flag s k w < tag_of c + Z.of_nat k.
Proof using Hn.
  induction w as [|w IH]; intros Hw; simpl; [unfold tag_of; nia|]. case_decide; [|apply IH; lia].
  pose proof (tag_of_lt w c ltac:(lia)). lia.
Qed.
Lemma last_flag_above k w c : (c < w)%nat -> tag_of c + Z.of_nat k <= last_flag (set_of c) k w.
Proof using Hn.
  induction w as [|w IH]; intros Hw; [lia|]. simpl. destruct (decide (w = c)) as [->|Hne]; [by rewrite decide_True by done|].
  case_decide; [pose proof (tag_of_lt c w ltac:(lia)); lia|apply IH; lia].
Qed.
Lemma flag_reached k w c :
  (last_flag (set_of c) k w <? tag_of c + Z.of_nat k) = bool_decide (w <= c)%nat.
Proof using Hn.
  destruct (decide (w <= c)%nat) as [D|D]; [rewrite bool_decide_true by done|rewrite bool_decide_false by done].
  - apply Z.ltb_lt. by apply last_flag_below.
  - apply Z.ltb_ge. apply last_flag_above. lia.
Qed.

(** *** Initialisation *)
Section init.
Context (array_ok : Z -> bool) (lines_ok : Z -> Z -> bool) (junk : Z -> Z -> nat -> Z).
Context (Ha : forall i, array_ok i = true) (Hl : forall i j, lines_ok i j = true).
Abbreviation rows line := (tab MAXOPS (fun s => tab n (line s))).
Abbreviation zeros := (tab L (fun _ => 0)).

Lemma alloc_sets_run : mfor MAXOPS 0 (alloc_set array_ok (Z.of_nat n)) (replicate MAXOPS []) = (Ret tt, rows (fun _ _ => [])).
Proof using Ha.
  clear Hn Hl. apply (mfor_run _ (fun i => tab MAXOPS (fun s => if decide (s < i)%nat then replicate n [] else []))).
  - rewrite <- tab_const. apply tab_ext. intros s _. by rewrite decide_False by lia.
  - apply tab_ext. intros s Hs. rewrite decide_True by done. by rewrite tab_const.
  - intros i Hi. unfold alloc_set. rewrite Ha. cbn [negb]. rewrite arr_set_nat by (by rewrite length_tab).
    rewrite tab_insert, Nat2Z.id. f_equal. apply tab_ext. intros s Hs. repeat case_decide; (done || lia).
Qed.

Lemma alloc_lines_run i j : (i < MAXOPS)%nat -> (j < n)%nat ->
  let line := fun s p => if decide (s < i \/ (s = i /\ p < j))%nat then zeros else [] in
  let line' := fun s p => if decide (s < i \/ (s = i /\ p < S j))%nat then zeros else [] in
  (_ ← alloc_lines lines_ok junk (Z.of_nat L) (Z.of_nat i) (Z.of_nat j);
   mfor (Z.to_nat (Z.of_nat L)) 0 (fun k => set_flag (Z.of_nat i) (Z.of_nat j) k 0)) (rows line) = (Ret tt, rows line').
Proof using Hl.
  clear Hn Ha. intros Hi Hj line line'.
  set (at_ := fun k s p => if decide (s = i /\ p = j)%nat then tab L (fun x => if decide (x < k)%nat then 0 else junk (Z.of_nat i) (Z.of_nat j) x) else line s p).
  erewrite bind_ret.
  2: { unfold alloc_lines. rewrite Hl. cbn [negb]. rewrite set2_tab by done. reflexivity. }
  rewrite !Nat2Z.id. apply (mfor_run _ (fun k => rows (at_ k))).
  - apply tab_ext. intros s Hs. apply tab_ext. intros p Hp. unfold at_. case_decide; [|done].
    apply tab_ext. intros x Hx. by rewrite decide_False by lia.
  - apply tab_ext. intros s Hs. apply tab_ext. intros p Hp. unfold at_, line, line'. repeat case_decide; try done; try lia.
    apply tab_ext. intros x Hx. by rewrite decide_True by done.
  - intros k Hk. unfold set_flag.
    rewrite (set3_line _ _ L _ (fun x => if decide (x < k)%nat then 0 else junk (Z.of_nat i) (Z.of_nat j) x)); try done.
    + f_equal. apply tab_ext. intros s Hs. apply tab_ext. intros p Hp. unfold at_. case_decide; [|done].
      apply tab_ext. intros x Hx. repeat case_decide; (done || lia).
    + unfold at_. by rewrite decide_True by done.
Qed.

Lemma initnotification_run :
  initnotification array_ok lines_ok junk (Z.of_nat n) (Z.of_nat L) (replicate MAXOPS []) = (Ret tt, rows (fun _ _ => zeros)).
Proof using Ha Hl.
  clear Hn. unfold initnotification. rewrite (bind_ret _ _ _ _ _ alloc_sets_run).
  apply (mfor_run _ (fun i => rows (fun s _ => if decide (s < i)%nat then zeros else []))).
  - apply tab_ext. intros s _. apply tab_ext. intros p _. by rewrite decide_False by lia.
  - apply tab_ext. intros s Hs. apply tab_ext. intros p _. by rewrite decide_True by done.
  - intros i Hi. rewrite Nat2Z.id.
    apply (mfor_run _ (fun j => rows (fun s p => if decide (s < i \/ (s = i /\ p < j))%nat then zeros else []))).
    + apply tab_ext. intros s Hs. apply tab_ext. intros p Hp. repeat case_decide; (done || lia).
    + apply tab_ext. intros s Hs. apply tab_ext. intros p Hp. repeat case_decide; (done || lia).
    + intros j Hj. by apply alloc_lines_run.
Qed.

Lemma initSharedMemory_run :
  initSharedMemory array_ok lines_ok junk (Z.of_nat n) = Ret (SharedMem (Z.of_nat L) 1 (flags_at (fun _ => 0%nat))).
Proof using Ha Hl.
  clear Hn. unfold initSharedMemory, readFile.
  assert (E : Z.log2_up (Z.of_nat n) = Z.of_nat L) by (unfold rounds_of; rewrite Z2Nat.id; [done|apply Z.log2_up_nonneg]).
  rewrite E, initnotification_run. do 2 f_equal. apply tab_ext. intros s _. apply tab_ext. intros j _. apply tab_ext. intros k _.
  unfold Rounds.writes, Rounds.calls, Rounds.stage. rewrite Nat.Div0.div_0_l, Nat.Div0.mod_0_l. by rewrite decide_False by lia.
Qed.
End init.

(** *** Steps *)
Context (Hint : Z.of_nat n <= 2 ^ 30).

Lemma int_run {S} z (s : S) : - 2 ^ 31 <= z < 2 ^ 31 -> int_ z s = (Ret z, s).
Proof using Type. clear. intros Hz. unfold int_. rewrite decide_True; [done|]. unfold INT_MAX. lia. Qed.

Lemma set_flag_run P P' i r (x : Z) c :
  (i < n)%nat -> (r < L)%nat ->
  (forall s j k, (s < MAXOPS)%nat -> (j < n)%nat -> (k < L)%nat ->
     last_flag s k (writes P' j k) = if decide (s = set_of c /\ j = i /\ k = r) then x else last_flag s k (writes P j k)) ->
  set_flag (Z.of_nat (set_of c)) (Z.of_nat i) (Z.of_nat r) x (flags_at P) = (Ret tt, flags_at P').
Proof using Type.
  clear Hn Hint. intros Hi Hr Hf. unfold set_flag, flags_at. rewrite set3_tab by (done || apply set_of_lt). f_equal.
  apply tab_ext. intros s Hs. apply tab_ext. intros j Hj. apply tab_ext. intros k Hk. symmetry. by apply Hf.
Qed.

Lemma flags_at_ext P P' : (forall j k, (j < n)%nat -> (k < L)%nat -> writes P j k = writes P' j k) -> flags_at P = flags_at P'.
Proof using Type.
  clear Hn Hint. intros H. apply tab_ext. intros s Hs. apply tab_ext. intros j Hj. apply tab_ext. intros k Hk. by rewrite H.
Qed.
Lemma flags_bump_same i P :
  (forall r, (r < L)%nat -> stage P i <> (2 * r + 1)%nat) -> flags_at (bump i P) = flags_at P.
Proof using Hn.
  clear Hint. intros Hs. apply flags_at_ext. intros j k Hj Hk. rewrite (writes_bump n Hn) by done.
  rewrite decide_False; [done|]. intros [_ E]. by apply (Hs k).
Qed.

Lemma rounds_lt : Z.of_nat L <= 30.
Proof using Hn Hint.
  unfold rounds_of. rewrite Z2Nat.id by (apply Z.log2_up_nonneg). change 30 with (Z.log2_up (2 ^ 30)).
  by apply Z.log2_up_le_mono.
Qed.
Lemma distance_lt r : (r < L)%nat -> 0 < 2 ^ Z.of_nat r < Z.of_nat n.
Proof using Hn. clear Hint. intros Hr. pose proof (round_step n Hn r Hr) as H. rewrite <- pow2_Z by done. lia. Qed.

(** The first peer of a round. *)
Lemma wrap_run {S} i r (s : S) : (i < n)%nat -> (r < L)%nat ->
  let p := Z.of_nat i - 2 ^ Z.of_nat r in
  wrap_peer (Z.to_nat (- p)) (Z.of_nat n) p s = (Ret (Z.of_nat (bwd i r)), s).
Proof using Hn.
  clear Hint. intros Hi Hr p. pose proof (distance_lt r Hr) as Hd. rewrite (bwd_cases n Hn) by done.
  assert (Hp : p = Z.of_nat i - Z.of_nat (2 ^ r)) by (unfold p; by rewrite pow2_Z).
  rewrite <- (pow2_Z r) in Hd. case_decide as D.
  - destruct (Z.to_nat (- p)) as [|f] eqn:Ef; [lia|]. simpl. rewrite (proj2 (Z.ltb_lt p 0)) by lia.
    assert (Hw : forall f z, 0 <= z -> wrap_peer f (Z.of_nat n) z s = (Ret z, s)).
    { intros [|f'] z Hz; simpl; by rewrite (proj2 (Z.ltb_ge z 0)) by lia. }
    rewrite Hw by lia. do 2 f_equal. lia.
  - assert (Hw : wrap_peer (Z.to_nat (- p)) (Z.of_nat n) p s = (Ret p, s)).
    { destruct (Z.to_nat (- p)); simpl; by rewrite (proj2 (Z.ltb_ge p 0)) by lia. }
    rewrite Hw. do 2 f_equal. lia.
Qed.

Section step.
Context (P : nat -> nat) (i : nat) (Hi : (i < n)%nat) (Htag : tag_of (calls P i) < INT_MAX).
Abbreviation call_at P := (barrier (Z.of_nat n) 1 (Z.of_nat L) (Z.of_nat i) (tag_of (entries P i))
  (fb_at (calls P i) (stage P i)) (flags_at P)).
Abbreviation stepped P' := (Ret (tag_of (entries P' i), fb_at (calls P' i) (stage P' i)), flags_at P').

Lemma tag_small k : 0 <= k <= 31 -> 0 <= tag_of (calls P i) + k < 2 ^ 32.
Proof using Htag. clear Hn Hint Hi. unfold INT_MAX, tag_of in *. lia. Qed.

Lemma step_enter : stage P i = 0%nat -> call_at P = stepped (bump i P).
Proof using Hn Hint Htag.
  clear Hi. intros Hs. destruct (bump_self n Hn i P) as [Bc Bs]. rewrite Hs, decide_False in Bc, Bs by lia.
  rewrite flags_bump_same by (intros; lia). unfold entries. rewrite Bc, Bs, Hs.
  rewrite (decide_False (P := (1 <= 0)%nat)), (decide_True (P := (1 <= 1)%nat)) by lia. rewrite Nat.add_0_r, Nat.add_1_r.
  change (fb_at (calls P i) 0) with FbOut. change (fb_at (calls P i) 1) with (fb_at (calls P i) (2 * 0 + 1)).
  rewrite fb_round. unfold barrier. cbv zeta. rewrite (proj2 (Z.ltb_lt _ _)) by done.
  pose proof rounds_lt. rewrite wrap_small by (apply tag_small; lia).
  rewrite set_of_Z, Z.add_0_r, tag_of_S. done.
Qed.

Lemma step_write r : (r < L)%nat -> stage P i = (2 * r + 1)%nat -> call_at P = stepped (bump i P).
Proof using Hn Hi.
  clear Hint Htag. intros Hr Hs. destruct (bump_self n Hn i P) as [Bc Bs]. rewrite decide_False in Bc, Bs by lia.
  unfold entries. rewrite Bc, Bs, !decide_True by lia. rewrite Hs.
  replace (S (2 * r + 1)) with (2 * r + 2)%nat by lia. rewrite fb_round, fb_peer.
  unfold barrier. rewrite (proj2 (Z.ltb_lt _ _)) by lia.
  erewrite bind_ret; [done|]. apply set_flag_run; [done|done|]. intros s j k Hs' Hj Hk.
  rewrite (writes_bump n Hn) by done. destruct (decide (j = i /\ stage P i = 2 * k + 1)%nat) as [[-> E]|D].
  - assert (k = r) as -> by lia. assert (Hw : writes P i r = calls P i) by (unfold writes; rewrite decide_False by lia; lia).
    rewrite Hw. simpl. repeat case_decide; naive_solver.
  - rewrite decide_False; [done|]. intros (_ & -> & ->). by apply D.
Qed.

Lemma step_peer r : (r < L)%nat -> stage P i = (2 * r + 2)%nat -> call_at P = stepped (advance n P i).
Proof using Hn Hint Hi Htag.
  intros Hr Hs. destruct (bump_self n Hn i P) as [Bc Bs]. rewrite decide_False in Bc, Bs by lia.
  pose proof (distance_lt r Hr) as Hd. pose proof rounds_lt as HL.
  rewrite Hs at 1. rewrite fb_peer. unfold barrier.
  rewrite Z.mul_1_l, (bind_ret _ _ _ _ _ (int_run (2 ^ Z.of_nat r) _ ltac:(lia))).
  rewrite (bind_ret _ _ _ _ _ (int_run (Z.of_nat i - 2 ^ Z.of_nat r) _ ltac:(lia))).
  rewrite (bind_ret _ _ _ _ _ (wrap_run i r _ Hi Hr)).
  rewrite (bind_ret get _ _ _ _ eq_refl). unfold flags_at at 1. rewrite get3_tab by (done || apply set_of_lt || apply (bwd_lt n Hn)).
  unfold defined. rewrite (bind_ret (mret _) _ _ _ _ eq_refl), flag_reached. unfold advance.
  assert (Hb : blocked n P i <-> (writes P (bwd i r) r <= calls P i)%nat).
  { split; [intros (k & Hk & E & H); by replace r with k by lia|]. intros H. by exists r. }
  destruct (decide (blocked n P i)) as [B|B].
  - rewrite bool_decide_true by (by apply Hb). rewrite Hs, fb_peer. done.
  - rewrite bool_decide_false by (by rewrite <- Hb). cbn [Z.leb Z.add Z.compare Pos.compare Pos.compare_cont Pos.add].
    unfold next_round. rewrite flags_bump_same by (intros; lia).
    unfold entries. rewrite Bc, Bs, !decide_True by lia. rewrite Hs.
    replace (S (2 * r + 2)) with (2 * S r + 1)%nat by lia. rewrite fb_round.
    change (1 + 1) with 2.
    change (2 <=? 1) with false. cbv iota. erewrite bind_ret; [reflexivity|]. rewrite (bind_ret _ _ _ _ _ (int_run (2 ^ Z.of_nat r * 2) _ ltac:(lia))).
    rewrite wrap_small by (rewrite <- Z.add_assoc; apply tag_small; lia).
    rewrite Nat2Z.inj_succ, Z.pow_succ_r by lia. unfold Z.succ.
    rewrite (Z.mul_comm 2), !Z.add_assoc. done.
Qed.

Lemma step_return : stage P i = (2 * L + 1)%nat -> call_at P = stepped (bump i P).
Proof using Hn.
  clear Hint Hi Htag. intros Hs. destruct (bump_self n Hn i P) as [Bc Bs]. rewrite decide_True in Bc, Bs by done.
  rewrite flags_bump_same by (intros; lia). unfold entries. rewrite Bc, Bs, Hs, decide_True, decide_False by lia.
  rewrite fb_round. unfold barrier. rewrite (proj2 (Z.ltb_ge _ _)) by lia.
  by rewrite Nat.add_0_r, Nat.add_1_r.
Qed.

(** One step of a call. *)
Lemma barrier_step : call_at P = stepped (advance n P i).
Proof using Hn Hint Hi Htag.
  assert (Hnb : (forall r, stage P i <> (2 * r + 2)%nat) -> advance n P i = bump i P).
  { intros Hs. unfold advance. rewrite decide_False; [done|]. intros (k & _ & E & _). by apply (Hs k). }
  destruct (stage_cases n Hn P i) as [Hs|[(r & Hr & Hs)|[(r & Hr & Hs)|Hs]]].
  - rewrite Hnb by (intros; lia). by apply step_enter.
  - rewrite Hnb by (intros; lia). by apply (step_write r).
  - by apply (step_peer r).
  - rewrite Hnb by (intros; lia). by apply step_return.
Qed.
End step.

(** *** A reset tag *)

(** The flags, with those of thread [i] replaced. *)
Definition with_own (g : nat -> nat -> nat -> Z) (i : nat) (own : nat -> nat -> Z) : flags :=
  tab MAXOPS (fun s => tab n (fun j => tab L (fun k => if decide (j = i) then own s k else g s j k))).

Lemma passes_round g i own r :
  (i < n)%nat -> (forall j k, (j < n)%nat -> (k < L)%nat -> 2 + Z.of_nat k <= g 2%nat j k) -> (r < L)%nat ->
  exists own', barrier_steps 2 (Z.of_nat n) 1 (Z.of_nat L) (Z.of_nat i) (tag_of 1) (fb_at 0 (2 * r + 1)) (with_own g i own) =
    (Ret (tag_of 1, fb_at 0 (2 * S r + 1)), with_own g i own').
Proof using Hn Hint.
  intros Hi Hg Hr. pose proof (distance_lt r Hr) as Hd. pose proof rounds_lt as HL.
  assert (E2 : set_of 0 = 2%nat) by (unfold set_of, tag_of; rewrite Z.add_0_r; done).
  assert (Et : tag_of 0 = 2) by (unfold tag_of; lia).
  set (own' := fun s k => if decide (s = 2 /\ k = r)%nat then 2 + Z.of_nat r else own s k). exists own'.
  rewrite !fb_round, E2, Et. set (bar := barrier (Z.of_nat n) 1 (Z.of_nat L) (Z.of_nat i) (tag_of 1)).
  assert (H1 : bar (FbRound (Z.of_nat 2) (Z.of_nat r) (2 ^ Z.of_nat r) (2 + Z.of_nat r)) (with_own g i own) =
    (Ret (tag_of 1, FbPeer (Z.of_nat 2) (Z.of_nat r) 1 (2 ^ Z.of_nat r) (2 + Z.of_nat r)), with_own g i own')).
  { unfold bar, barrier. rewrite (proj2 (Z.ltb_lt _ _)) by lia. erewrite bind_ret; [reflexivity|]. unfold set_flag, with_own.
    rewrite set3_tab by (done || unfold MAXOPS; lia). f_equal.
    apply tab_ext. intros s Hs. apply tab_ext. intros j Hj. apply tab_ext. intros k Hk. unfold own'. repeat case_decide; naive_solver. }
  assert (H2 : bar (FbPeer (Z.of_nat 2) (Z.of_nat r) 1 (2 ^ Z.of_nat r) (2 + Z.of_nat r)) (with_own g i own') =
    (Ret (tag_of 1, FbRound (Z.of_nat 2) (Z.of_nat (S r)) (2 ^ Z.of_nat (S r)) (2 + Z.of_nat (S r))), with_own g i own')).
  { unfold bar, barrier. rewrite Z.mul_1_l.
    rewrite (bind_ret _ _ _ _ _ (int_run (2 ^ Z.of_nat r) _ ltac:(lia))).
    rewrite (bind_ret _ _ _ _ _ (int_run (Z.of_nat i - 2 ^ Z.of_nat r) _ ltac:(lia))).
    rewrite (bind_ret _ _ _ _ _ (wrap_run i r _ Hi Hr)).
    rewrite (bind_ret get _ _ _ _ eq_refl). unfold with_own at 1.
    rewrite get3_tab by (done || apply (bwd_lt n Hn) || unfold MAXOPS; lia).
    rewrite decide_False by (by apply (bwd_ne n Hn)). unfold defined. rewrite (bind_ret (mret _) _ _ _ _ eq_refl).
    pose proof (Hg (bwd i r) r (bwd_lt n Hn i r) Hr) as Hge. rewrite (proj2 (Z.ltb_ge _ _)) by lia.
    change (1 + 1 <=? 1) with false. cbv iota. unfold next_round. change (1 + 1) with 2.
    erewrite bind_ret; [reflexivity|]. rewrite (bind_ret _ _ _ _ _ (int_run (2 ^ Z.of_nat r * 2) _ ltac:(lia))).
    rewrite wrap_small by lia. unfold mret, M_ret.
    rewrite (Nat2Z.inj_succ r), Z.pow_succ_r by lia. unfold Z.succ. by rewrite (Z.mul_comm 2), Z.add_assoc. }
  cbn [barrier_steps]. rewrite (bind_ret _ _ _ _ _ H1). cbn [fst snd]. by rewrite (bind_ret _ _ _ _ _ H2).
Qed.

Lemma barrier_steps_app a b nt m rounds id : forall tag pc f tag1 pc1 f1,
  barrier_steps a nt m rounds id tag pc f = (Ret (tag1, pc1), f1) ->
  barrier_steps (a + b) nt m rounds id tag pc f = barrier_steps b nt m rounds id tag1 pc1 f1.
Proof using Type.
  clear. induction a as [|a IH]; intros tag pc f tag1 pc1 f1; cbn [barrier_steps Nat.add]; [by intros [= -> -> ->]|].
  destruct (barrier nt m rounds id tag pc f) as [[[tag2 pc2]| | |] f2] eqn:E; unfold mbind, M_bind; rewrite E; try done. apply IH.
Qed.

Lemma passes_rounds g i own r :
  (i < n)%nat -> (forall j k, (j < n)%nat -> (k < L)%nat -> 2 + Z.of_nat k <= g 2%nat j k) -> (r <= L)%nat ->
  exists own', barrier_steps (2 * r) (Z.of_nat n) 1 (Z.of_nat L) (Z.of_nat i) (tag_of 1) (fb_at 0 1) (with_own g i own) =
    (Ret (tag_of 1, fb_at 0 (2 * r + 1)), with_own g i own').
Proof using Hn Hint.
  intros Hi Hg. induction r as [|r IH]; intros Hr; [by exists own|]. destruct (IH ltac:(lia)) as [own1 E1].
  destruct (passes_round g i own1 r Hi Hg ltac:(lia)) as [own2 E2]. exists own2.
  replace (2 * S r)%nat with (2 * r + 2)%nat at 1 by lia. by rewrite (barrier_steps_app _ _ _ _ _ _ _ _ _ _ _ _ E1).
Qed.

(** A call with the tag 2 passes every flag that has been written before. *)
Lemma passes_all g i :
  (i < n)%nat -> (forall j k, (j < n)%nat -> (k < L)%nat -> 2 + Z.of_nat k <= g 2%nat j k) ->
  exists f, barrier_steps (2 * L + 2) (Z.of_nat n) 1 (Z.of_nat L) (Z.of_nat i) 2 FbOut
    (tab MAXOPS (fun s => tab n (fun j => tab L (g s j)))) = (Ret (2 + Z.of_nat L, FbOut), f).
Proof using Hn Hint.
  intros Hi Hg. pose proof rounds_lt as HL. set (own := fun s => g s i).
  assert (Ef : tab MAXOPS (fun s => tab n (fun j => tab L (g s j))) = with_own g i own).
  { apply tab_ext. intros s Hs. apply tab_ext. intros j Hj. apply tab_ext. intros k Hk. unfold own. by case_decide; [subst|]. }
  destruct (passes_rounds g i own L Hi Hg ltac:(lia)) as [own' E]. exists (with_own g i own').
  replace (2 * L + 2)%nat with (1 + (2 * L + 1))%nat by lia. rewrite Ef.
  assert (Et : tag_of 1 = 2 + Z.of_nat L) by (unfold tag_of; lia).
  rewrite (barrier_steps_app 1 _ _ _ _ _ _ _ _ (tag_of 1) (fb_at 0 1) (with_own g i own)).
  - rewrite (barrier_steps_app _ _ _ _ _ _ _ _ _ _ _ _ E). rewrite fb_round. cbn [barrier_steps]. unfold barrier.
    rewrite (proj2 (Z.ltb_ge _ _)) by lia. by rewrite Et.
  - change (fb_at 0 1) with (fb_at 0 (2 * 0 + 1)). rewrite fb_round. cbn [barrier_steps]. unfold barrier.
    change (2 <? INT_MAX) with true. cbv iota. rewrite wrap_small by lia. rewrite set_of_Z, Et.
    replace (tag_of 0) with 2 by (unfold tag_of; lia). done.
Qed.
End barrier.

(** [C32] The tag of the flag barrier does not survive its reset: a call begun with the tag
    [INT_MAX] leaves the tag 2, and with that tag a call passes all rounds and returns by steps
    of its own thread alone, as soon as every thread has once written its flags of set 2 -
    whatever the other threads do, the barrier separates nothing. *)
Theorem tag_reset_passes n i (g : nat -> nat -> nat -> Z) f0 :
  (1 < n)%nat -> Z.of_nat n <= 2 ^ 30 -> (i < n)%nat ->
  (forall j k, (j < n)%nat -> (k < rounds_of n)%nat -> 2 + Z.of_nat k <= g 2%nat j k) ->
  let r := Z.of_nat (rounds_of n) in
  barrier (Z.of_nat n) 1 r (Z.of_nat i) INT_MAX FbOut f0 = (Ret (2, FbRound 7 0 1 INT_MAX), f0) /\
  exists f, barrier_steps (2 * rounds_of n + 2) (Z.of_nat n) 1 r (Z.of_nat i) 2 FbOut
    (tab MAXOPS (fun s => tab n (fun j => tab (rounds_of n) (g s j)))) = (Ret (2 + r, FbOut), f).
Proof. intros Hn Hint Hi Hg r. split; [done|by apply passes_all]. Qed.

Lemma tag_reset_passes_witness :
  exists f, barrier_steps 6 3 1 2 1 2 FbOut (replicate MAXOPS (replicate 3 (replicate 2 2147483642))) = (Ret (4, FbOut), f).
Proof.
  destruct (tag_reset_passes 3 1 (fun _ _ _ => 2147483642) []) as [_ H]; [lia|lia|lia| |exact H].
  intros j k Hj Hk. assert (E : rounds_of 3 = 2%nat) by reflexivity. lia.
Defined.
