(* ===== verification/BarrierRun.v ===== *)
(** The program that measures the flag barrier ([bench/diss_bar/barrier.c], [threads.h]): the
    main thread creates the workers one by one, waits until each has announced itself,
    then releases them and waits for their end; a worker calls the barrier three times in
    each iteration. *)
From S2P Require Import Prelude Peers Rounds FlagBarrier.

(** ** Data *)
Definition NITERS : Z := 1000.

Record threaddata := Threaddata {
  td_thread_id : Z;
  td_ack : Z;
  td_tag : Z;
  td_core_id : Z;
  td_m : Z;
  td_rounds : Z;
  td_num_threads : Z;
  td_fill : bool;
  td_smlt_dissem : bool;
}.
Definition td_set_ack (x : Z) (d : threaddata) : threaddata :=
  Threaddata (td_thread_id d) x (td_tag d) (td_core_id d) (td_m d) (td_rounds d) (td_num_threads d) (td_fill d) (td_smlt_dissem d).
Definition td_set_tag (x : Z) (d : threaddata) : threaddata :=
  Threaddata (td_thread_id d) (td_ack d) x (td_core_id d) (td_m d) (td_rounds d) (td_num_threads d) (td_fill d) (td_smlt_dissem d).

(** A worker: not yet created; before it announces itself; waiting for its release; in the
    [b]-th call of iteration [n]; returned. *)
Inductive worker := WNone | WBegin | WWait | WLoop (n b : Z) (pc : fb_pc) | WEnd.
(** The main thread: about to create worker [t]; waiting for its announcement; about to
    release it; waiting for its end; at the end. *)
Inductive main_pc := MCreate (t : Z) | MAck (t : Z) | MRelease (t : Z) | MJoin (t : Z) | MEnd.

Record run_state := RunState {
  rs_flags : flags;
  rs_td : list threaddata;
  rs_workers : list worker;
  rs_main : main_pc;
}.

(** ** Initialisation *)
Definition set_threaddata (i : Z) (d : threaddata) : M (list threaddata) unit := fun l =>
  match arr_set l i d with Some l' => (Ret tt, l') | None => (Undef, l) end.
Definition initThreads (num_threads m rounds : Z) (cores : list Z) (fill smlt_dissem : bool) : M (list threaddata) unit :=
  mfor (Z.to_nat num_threads) 0 (fun i =>
    core ← defined (arr_get cores i);
    set_threaddata i (Threaddata i 0 2 core m rounds num_threads fill smlt_dissem)).

Section start.
(** Whether the allocations succeed and what they hold. *)
Context (memalign_ok array_ok : Z -> bool) (lines_ok : Z -> Z -> bool) (junk : Z -> Z -> nat -> Z) (garbage : threaddata).

(** One round of [run_diss], up to the creation of the threads; [cores]: from [placement]. *)
Definition run_diss_start (n_thr : Z) (cores : list Z) (fill : bool) : outcome run_state :=
  if negb (memalign_ok 0) || negb (memalign_ok 1) || negb (memalign_ok 2) then Panic else
  match initSharedMemory array_ok lines_ok junk n_thr with
  | Ret shm =>
      match initThreads n_thr (sm_m shm) (sm_rounds shm) cores fill false (replicate (Z.to_nat n_thr) garbage) with
      | (Ret _, td) => Ret (RunState (sm_notification shm) td (replicate (Z.to_nat n_thr) WNone) (MCreate 0))
      | (Spin, _) => Spin
      | (Panic, _) => Panic
      | (Undef, _) => Undef
      end
  | Spin => Spin
  | Panic => Panic
  | Undef => Undef
  end.
End start.

(** ** Steps *)
Definition put_td (t : Z) (d : threaddata) : M run_state unit := fun s =>
  match arr_set (rs_td s) t d with
  | Some l => (Ret tt, RunState (rs_flags s) l (rs_workers s) (rs_main s)) | None => (Undef, s) end.
Definition put_worker (t : Z) (w : worker) : M run_state unit := fun s =>
  match arr_set (rs_workers s) t w with
  | Some l => (Ret tt, RunState (rs_flags s) (rs_td s) l (rs_main s)) | None => (Undef, s) end.
Definition put_main (p : main_pc) : M run_state unit :=
  modify (fun s => RunState (rs_flags s) (rs_td s) (rs_workers s) p).
Definition on_flags {A} : M flags A -> M run_state A :=
  zoom rs_flags (fun f s => RunState f (rs_td s) (rs_workers s) (rs_main s)).

(** The calls of an iteration: two to synchronise, one that is measured. *)
Definition next_call (n b : Z) : Z * Z := if b =? 2 then (n + 1, 0) else (n, b + 1).

(** One access to shared memory of worker [t]. *)
Definition function_thread (t : Z) : M run_state unit :=
  s ← get;
  d ← defined (arr_get (rs_td s) t);
  w ← defined (arr_get (rs_workers s) t);
  match w with
  | WNone | WEnd => mret tt
  | WBegin => _ ← put_td t (td_set_ack 1 d); put_worker t WWait
  | WWait => if negb (td_ack d =? 0) then mret tt else put_worker t (WLoop 0 0 FbOut)
  | WLoop n b pc =>
      if match pc with FbOut => (b =? 0) && negb (n <? NITERS) | _ => false end then put_worker t WEnd else
      r ← on_flags (barrier (td_num_threads d) (td_m d) (td_rounds d) (td_thread_id d) (td_tag d) pc);
      _ ← put_td t (td_set_tag r.1 d);
      let '(n', b') := match pc, r.2 with FbOut, _ => (n, b) | _, FbOut => next_call n b | _, _ => (n, b) end in
      put_worker t (WLoop n' b' r.2)
  end.

(** One access of the main thread. *)
Definition run_diss (n_thr : Z) : M run_state unit :=
  s ← get;
  match rs_main s with
  | MCreate t => if t <? n_thr then _ ← put_worker t WBegin; put_main (MAck t) else put_main (MRelease 0)
  | MAck t => d ← defined (arr_get (rs_td s) t); if td_ack d =? 0 then mret tt else put_main (MCreate (t + 1))
  | MRelease t =>
      if t <? n_thr then
        d ← defined (arr_get (rs_td s) t); _ ← put_td t (td_set_ack 0 d); put_main (MRelease (t + 1))
      else put_main (MJoin 0)
  | MJoin t =>
      if t <? n_thr then
        w ← defined (arr_get (rs_workers s) t);
        match w with WEnd => put_main (MJoin (t + 1)) | _ => mret tt end
      else put_main MEnd
  | MEnd => mret tt
  end.

(** The main thread is 0, worker [t] is [t + 1]. *)
Definition diss_step (n_thr : nat) (s : run_state) (a : nat) : option run_state :=
  match match a with O => run_diss (Z.of_nat n_thr) s | S t => function_thread (Z.of_nat t) s end with
  | (Ret _, s') => Some s'
  | _ => None
  end.
Fixpoint diss_run (n_thr : nat) (s : run_state) (sched : list nat) : option run_state :=
  match sched with
  | [] => Some s
  | a :: l => s' ← diss_step n_thr s a; diss_run n_thr s' l
  end.

Definition three_threads : outcome run_state :=
  run_diss_start (fun _ => true) (fun _ => true) (fun _ _ => true) (fun _ _ _ => 9) (Threaddata 0 0 0 0 0 0 0 true true) 3 [4; 0; 2] true.
Example workers_start : exists s s', three_threads = Ret s /\ diss_run 3 s (concat (replicate 20 [0; 1; 2; 3]%nat)) = Some s' /\
  rs_main s' = MJoin 0 /\ (td_tag <$> rs_td s') = [6; 6; 6] /\ rs_workers s' = replicate 3 (WLoop 0 1 (FbPeer 4 1 1 2 5)).
Proof. eexists _, _. split; [vm_compute; reflexivity|]. split; [vm_compute; reflexivity|]. by vm_compute. Qed.

(** ** States by progress *)
Section run.
Context (n : nat) (Hn : (1 < n)%nat) (Hint : Z.of_nat n <= 2 ^ 30) (cores : list Z) (fill : bool).
Abbreviation L := (rounds_of n).
Abbreviation calls := (calls n).
Abbreviation stage := (stage n).
Abbreviation entries := (entries n).
Implicit Types C : nat -> nat.

(** The calls a worker makes, and all of its steps. *)
Definition total_calls : nat := Z.to_nat (3 * NITERS).
Definition call_steps : nat := total_calls * steps n.
Definition worker_steps : nat := call_steps + 3.
Definition main_steps : nat := 4 * n + 3.

(** [C 0] counts the steps of the main thread, [C (S t)] those of worker [t]; two steps
    precede the first call. *)
Definition in_calls C (t : nat) : nat := (C (S t) - 2) `min` call_steps.
Definition ack_at C (t : nat) : Z := if decide (1 <= C (S t) /\ C 0%nat < 2 * n + 2 + t)%nat then 1 else 0.
Definition td_at C (t : nat) : threaddata :=
  Threaddata (Z.of_nat t) (ack_at C t) (tag_of n (entries (in_calls C) t)) (default 0 (cores !! t)) 1 (Z.of_nat L)
    (Z.of_nat n) fill false.
Definition loop_at (P : nat -> nat) (t : nat) : worker :=
  let c := calls P t in WLoop (Z.of_nat (c / 3)) (Z.of_nat (c mod 3)) (fb_at n c (stage P t)).
Definition worker_at C (t : nat) : worker :=
  match C (S t) with
  | 0 => if decide (2 * t < C 0)%nat then WBegin else WNone
  | 1 => WWait
  | w => if decide (w < worker_steps)%nat then loop_at (in_calls C) t else WEnd
  end%nat.
Definition main_at (q : nat) : main_pc :=
  if decide (q <= 2 * n)%nat then if Nat.even q then MCreate (Z.of_nat (q / 2)) else MAck (Z.of_nat (q / 2))
  else if decide (q <= 3 * n + 1)%nat then MRelease (Z.of_nat (q - (2 * n + 1)))
  else if decide (q <= 4 * n + 2)%nat then MJoin (Z.of_nat (q - (3 * n + 2)))
  else MEnd.
Definition state_at C : run_state :=
  RunState (flags_at n (in_calls C)) (tab n (td_at C)) (tab n (worker_at C)) (main_at (C 0%nat)).

(** The thread has ended, or waits for another. *)
Definition halted C (a : nat) : Prop :=
  match a with
  | O => (exists t, (t < n)%nat /\ C 0%nat = (2 * t + 1)%nat /\ C (S t) = 0%nat) \/
         (exists t, (t < n)%nat /\ C 0%nat = (3 * n + 2 + t)%nat /\ (C (S t) < worker_steps)%nat) \/ C 0%nat = main_steps
  | S t => (C (S t) = 0 /\ C 0 <= 2 * t)%nat \/ (C (S t) = 1 /\ C 0 < 2 * n + 2 + t)%nat \/
           ((2 <= C (S t))%nat /\ blocked n (in_calls C) t) \/ C (S t) = worker_steps
  end.
Record run_inv C : Prop := {
  ri_main : (C 0 <= main_steps)%nat;
  ri_worker t : (t < n)%nat -> (C (S t) <= worker_steps)%nat;
  ri_acked t : (t < n)%nat -> (2 * t + 2 <= C 0)%nat -> (1 <= C (S t))%nat;
  ri_created t : (t < n)%nat -> (1 <= C (S t))%nat -> (2 * t < C 0)%nat;
  ri_released t : (t < n)%nat -> (2 <= C (S t))%nat -> (2 * n + 2 + t <= C 0)%nat;
  ri_joined t : (t < n)%nat -> (3 * n + 3 + t <= C 0)%nat -> C (S t) = worker_steps;
  ri_calls : waits_inv n (in_calls C);
}.

Lemma put_worker_run f d g g' m t x :
  (t < n)%nat -> g' t = x -> (forall j, (j < n)%nat -> j <> t -> g' j = g j) ->
  put_worker (Z.of_nat t) x (RunState f d (tab n g) m) = (Ret tt, RunState f d (tab n g') m).
Proof using Type.
  clear. intros Ht <- Hg. unfold put_worker. cbn [rs_workers]. rewrite arr_set_nat by (by rewrite length_tab).
  rewrite tab_insert. cbn [rs_flags rs_td rs_main]. do 2 f_equal. apply tab_ext. intros j Hj. case_decide as D; [by subst|symmetry; by apply Hg].
Qed.
Lemma put_td_run f g g' w m t x :
  (t < n)%nat -> g' t = x -> (forall j, (j < n)%nat -> j <> t -> g' j = g j) ->
  put_td (Z.of_nat t) x (RunState f (tab n g) w m) = (Ret tt, RunState f (tab n g') w m).
Proof using Type.
  clear. intros Ht <- Hg. unfold put_td. cbn [rs_td]. rewrite arr_set_nat by (by rewrite length_tab).
  rewrite tab_insert. cbn [rs_flags rs_workers rs_main]. do 2 f_equal. apply tab_ext. intros j Hj. case_decide as D; [by subst|symmetry; by apply Hg].
Qed.

(** *** The main thread *)
Lemma main_create t : (t < n)%nat -> main_at (2 * t) = MCreate (Z.of_nat t).
Proof using Type.
  clear. intros Ht. unfold main_at. rewrite decide_True by lia. replace (Nat.even (2 * t)) with true by (by rewrite Nat.even_mul).
  rewrite Nat.mul_comm, Nat.div_mul by lia. done.
Qed.
Lemma main_created : main_at (2 * n) = MCreate (Z.of_nat n).
Proof using Type.
  clear. unfold main_at. rewrite decide_True by lia. replace (Nat.even (2 * n)) with true by (by rewrite Nat.even_mul).
  rewrite Nat.mul_comm, Nat.div_mul by lia. done.
Qed.
Lemma main_ack t : (t < n)%nat -> main_at (2 * t + 1) = MAck (Z.of_nat t).
Proof using Type.
  clear. intros Ht. unfold main_at. rewrite decide_True by lia.
  replace (Nat.even (2 * t + 1)) with false by (symmetry; by rewrite Nat.even_add, Nat.even_mul).
  rewrite Nat.mul_comm, Nat.div_add_l by lia. simpl. by rewrite Nat.add_0_r.
Qed.
Lemma main_release t : (t <= n)%nat -> main_at (2 * n + 1 + t) = MRelease (Z.of_nat t).
Proof using Type. clear. intros Ht. unfold main_at. rewrite decide_False, decide_True by lia. do 2 f_equal. lia. Qed.
Lemma main_join t : (t <= n)%nat -> main_at (3 * n + 2 + t) = MJoin (Z.of_nat t).
Proof using Type. clear. intros Ht. unfold main_at. rewrite !decide_False, decide_True by lia. do 2 f_equal. lia. Qed.
Lemma main_end : main_at main_steps = MEnd.
Proof using Type. clear. unfold main_at, main_steps. by rewrite !decide_False by lia. Qed.

(** One step of a thread that is not halted. *)
Definition moves C (a : nat) C' : Prop := (C' = C /\ halted C a) \/ (C' = bump a C /\ ~ halted C a).

Lemma bump_main C t : bump 0 C (S t) = C (S t).
Proof using Type. clear. unfold bump. by rewrite decide_False by lia. Qed.
Lemma bump_main_self C : bump 0 C 0%nat = S (C 0%nat).
Proof using Type. clear. done. Qed.
Lemma worker_bump_main C j : ~ (C (S j) = 0 /\ C 0 = 2 * j)%nat -> worker_at (bump 0 C) j = worker_at C j.
Proof using Type.
  clear. intros H. unfold worker_at. rewrite bump_main, bump_main_self. destruct (C (S j)) as [|[|w]]; [|done|done].
  destruct (decide (2 * j < C 0)%nat); [by rewrite decide_True by lia|]. by rewrite decide_False by lia.
Qed.
Lemma td_bump_main C j : ~ (1 <= C (S j) /\ C 0 = 2 * n + 1 + j)%nat -> td_at (bump 0 C) j = td_at C j.
Proof using Type.
  clear. intros H. unfold td_at, in_calls, entries, ack_at. rewrite bump_main, bump_main_self.
  f_equal. repeat case_decide; lia.
Qed.
Lemma flags_bump_main C : flags_at n (in_calls (bump 0 C)) = flags_at n (in_calls C).
Proof using Type.
  clear. apply flags_at_ext. intros j k _ _. unfold writes, Rounds.calls, Rounds.stage, in_calls. by rewrite bump_main.
Qed.

Section main.
Context (C : nat -> nat) (HC : run_inv C).
Abbreviation main_result C' := (run_diss (Z.of_nat n) (state_at C) = (Ret tt, state_at C')).

Lemma main_moves_on :
  (forall j, (j < n)%nat -> worker_at (bump 0 C) j = worker_at C j) ->
  (forall j, (j < n)%nat -> td_at (bump 0 C) j = td_at C j) ->
  state_at (bump 0 C) = RunState (flags_at n (in_calls C)) (tab n (td_at C)) (tab n (worker_at C)) (main_at (S (C 0%nat))).
Proof using Type.
  clear. intros Hw Ht. unfold state_at. rewrite flags_bump_main, bump_main_self.
  by rewrite (tab_ext n _ _ Hw), (tab_ext n _ _ Ht).
Qed.

Lemma main_creates t : (t < n)%nat -> C 0%nat = (2 * t)%nat -> main_result (bump 0 C).
Proof using HC.
  clear Hn Hint. intros Ht Hq. assert (Hw : C (S t) = 0%nat).
  { destruct (decide (C (S t) = 0)%nat) as [|H]; [done|]. pose proof (ri_created _ HC t Ht). lia. }
  unfold run_diss. rewrite (bind_ret get _ _ _ _ eq_refl). cbn [rs_main state_at].
  rewrite Hq, main_create by done. rewrite (proj2 (Z.ltb_lt _ _)) by lia.
  unfold state_at at 1. erewrite bind_ret.
  2: { apply (put_worker_run _ _ _ (worker_at (bump 0 C))); [done| |].
    - unfold worker_at. rewrite bump_main, bump_main_self, Hw. by rewrite decide_True by lia.
    - intros j Hj Hne. apply worker_bump_main. lia. }
  unfold put_main, modify. cbn [rs_flags rs_td rs_workers]. unfold state_at. rewrite flags_bump_main, bump_main_self, Hq.
  replace (S (2 * t)) with (2 * t + 1)%nat by lia. rewrite main_ack by done. do 2 f_equal. apply tab_ext.
  intros j Hj. symmetry. apply td_bump_main. lia.
Qed.

Lemma main_releases t : (t < n)%nat -> C 0%nat = (2 * n + 1 + t)%nat -> main_result (bump 0 C).
Proof using HC.
  clear Hn Hint. intros Ht Hq. pose proof (ri_acked _ HC t Ht ltac:(lia)) as Hw.
  unfold run_diss. rewrite (bind_ret get _ _ _ _ eq_refl). cbn [rs_main rs_td state_at].
  rewrite Hq, main_release by lia. rewrite (proj2 (Z.ltb_lt _ _)) by lia. rewrite arr_get_tab by done. unfold defined.
  rewrite (bind_ret (mret _) _ _ _ _ eq_refl).
  unfold state_at at 1. erewrite bind_ret.
  2: { apply (put_td_run _ _ (td_at (bump 0 C))); [done| |].
    - unfold td_at, td_set_ack, in_calls, ack_at. cbn [td_thread_id td_tag td_core_id td_m td_rounds td_num_threads td_fill td_smlt_dissem].
      rewrite bump_main_self, decide_False by lia. done.
    - intros j Hj Hne. apply td_bump_main. lia. }
  unfold put_main, modify. cbn [rs_flags rs_td rs_workers]. unfold state_at. rewrite flags_bump_main, bump_main_self, Hq.
  replace (S (2 * n + 1 + t)) with (2 * n + 1 + S t)%nat by lia. rewrite main_release by lia.
  replace (Z.of_nat (S t)) with (Z.of_nat t + 1) by lia. do 2 f_equal. apply tab_ext.
  intros j Hj. symmetry. apply worker_bump_main. lia.
Qed.

(** A step that only moves the main thread. *)
Lemma main_only p :
  (forall j, (j < n)%nat -> worker_at (bump 0 C) j = worker_at C j) ->
  (forall j, (j < n)%nat -> td_at (bump 0 C) j = td_at C j) -> main_at (S (C 0%nat)) = p ->
  put_main p (state_at C) = (Ret tt, state_at (bump 0 C)).
Proof using Type. clear. intros Hw Ht <-. by rewrite main_moves_on. Qed.

Lemma td_get t : (t < n)%nat -> arr_get (tab n (td_at C)) (Z.of_nat t) = Some (td_at C t).
Proof using Type. clear. apply arr_get_tab. Qed.

Lemma main_acks t : (t < n)%nat -> C 0%nat = (2 * t + 1)%nat ->
  main_result (if decide (C (S t) = 0)%nat then C else bump 0 C).
Proof using HC.
  clear Hn Hint. intros Ht Hq. unfold run_diss. rewrite (bind_ret get _ _ _ _ eq_refl). cbn [rs_main rs_td state_at].
  rewrite Hq, main_ack by done. rewrite arr_get_tab by done. unfold defined. rewrite (bind_ret (mret _) _ _ _ _ eq_refl).
  unfold td_at at 1. cbn [td_ack]. unfold ack_at. destruct (decide (C (S t) = 0)%nat) as [Hw|Hw].
  - rewrite decide_False by lia. done.
  - rewrite decide_True by lia. change (1 =? 0) with false. cbv iota. apply main_only.
    + intros j Hj. apply worker_bump_main. lia.
    + intros j Hj. apply td_bump_main. lia.
    + rewrite Hq. replace (S (2 * t + 1)) with (2 * S t)%nat by lia.
      replace (Z.of_nat t + 1) with (Z.of_nat (S t)) by lia.
      destruct (decide (S t < n)%nat); [by apply main_create|]. replace (S t) with n by lia. apply main_created.
Qed.

Lemma main_joins t : (t < n)%nat -> C 0%nat = (3 * n + 2 + t)%nat ->
  main_result (if decide (C (S t) < worker_steps)%nat then C else bump 0 C).
Proof using HC.
  clear Hn Hint. intros Ht Hq. pose proof (ri_worker _ HC t Ht) as Hle.
  assert (Hw1 : (2 <= worker_steps)%nat) by (unfold worker_steps; lia).
  unfold run_diss. rewrite (bind_ret get _ _ _ _ eq_refl). cbn [rs_main rs_workers state_at].
  rewrite Hq, main_join by lia. rewrite (proj2 (Z.ltb_lt _ _)) by lia.
  rewrite arr_get_tab by done. unfold defined. rewrite (bind_ret (mret _) _ _ _ _ eq_refl).
  destruct (decide (C (S t) < worker_steps)%nat) as [Hw|Hw].
  - unfold worker_at at 1. destruct (C (S t)) as [|[|w]]; [by case_decide|done|]. by rewrite decide_True by done.
  - assert (E : worker_at C t = WEnd).
    { unfold worker_at. destruct (C (S t)) as [|[|w]]; [lia..|]. by rewrite decide_False by done. }
    rewrite E. apply main_only.
    + intros j Hj. apply worker_bump_main. lia.
    + intros j Hj. apply td_bump_main. lia.
    + rewrite Hq. replace (S (3 * n + 2 + t)) with (3 * n + 2 + S t)%nat by lia. rewrite main_join by lia. f_equal. lia.
Qed.

Lemma main_turns q p p' : C 0%nat = q -> main_at q = p -> main_at (S q) = p' ->
  (q = 2 * n \/ q = 3 * n + 1 \/ q = 4 * n + 2)%nat ->
  put_main p' (state_at C) = (Ret tt, state_at (bump 0 C)).
Proof using HC.
  clear Hn Hint. intros <- _ E Hq. apply main_only; [| |done].
  - intros j Hj. apply worker_bump_main. lia.
  - intros j Hj. apply td_bump_main. lia.
Qed.

Lemma main_step : exists C', moves C 0 C' /\ main_result C'.
Proof using HC.
  clear Hn Hint. pose proof (ri_main _ HC) as Hq. unfold main_steps in Hq. unfold moves, halted.
  assert (Hgo : main_result (bump 0 C) -> (C 0 <> 4 * n + 3)%nat ->
    (forall t, (t < n)%nat -> C 0%nat <> (2 * t + 1)%nat) -> (forall t, (t < n)%nat -> C 0%nat <> (3 * n + 2 + t)%nat) ->
    exists C', moves C 0 C' /\ main_result C').
  { intros H Hne H1 H2. exists (bump 0 C). split; [|done]. right. split; [done|].
    intros [(t & Ht & E & _)|[(t & Ht & E & _)|E]]; [by apply (H1 t)|by apply (H2 t)|done]. }
  assert (Hturn : forall p p', main_at (C 0%nat) = p -> main_at (S (C 0%nat)) = p' ->
    (C 0 = 2 * n \/ C 0 = 3 * n + 1 \/ C 0 = 4 * n + 2)%nat -> 
    run_diss (Z.of_nat n) (state_at C) = put_main p' (state_at C) -> main_result (bump 0 C)).
  { intros p p' Ep Ep' Hc ->. by apply (main_turns (C 0%nat) p). }
  assert (Hnot : forall t, (n <= t)%nat -> (Z.of_nat t <? Z.of_nat n) = false) by (intros; apply Z.ltb_ge; lia).
  destruct (decide (C 0 < 2 * n)%nat) as [D1|D1].
  { destruct (Nat.Even_or_Odd (C 0%nat)) as [[t E]|[t E]].
    - apply Hgo; [|intros; lia..]. apply (main_creates t); lia.
    - pose proof (main_acks t ltac:(lia) E) as H. destruct (decide (C (S t) = 0)%nat) as [Hw|Hw].
      + exists C. split; [|done]. left. split; [done|]. left. exists t. split; [lia|done].
      + exists (bump 0 C). split; [|done]. right. split; [done|].
        intros [(t' & Ht & E' & H0)|[(t' & Ht & E' & _)|E']]; [|unfold main_steps in *; lia..]. by replace t' with t in H0 by lia. }
  destruct (decide (C 0 = 2 * n)%nat) as [D2|D2].
  { apply Hgo; [|intros; lia..]. eapply Hturn; [reflexivity| |by left|].
    - rewrite D2. replace (S (2 * n)) with (2 * n + 1 + 0)%nat by lia. by apply main_release; lia.
    - unfold run_diss. rewrite (bind_ret get _ _ _ _ eq_refl). cbn [rs_main state_at]. rewrite D2, main_created.
      by rewrite Hnot by lia. }
  destruct (decide (C 0 <= 3 * n)%nat) as [D3|D3].
  { apply Hgo; [|intros; lia..]. apply (main_releases (C 0 - (2 * n + 1))); lia. }
  destruct (decide (C 0 = 3 * n + 1)%nat) as [D4|D4].
  { apply Hgo; [|intros; lia..]. eapply Hturn; [reflexivity| |by right; left|].
    - rewrite D4. replace (S (3 * n + 1)) with (3 * n + 2 + 0)%nat by lia. by apply main_join; lia.
    - unfold run_diss. rewrite (bind_ret get _ _ _ _ eq_refl). cbn [rs_main state_at]. rewrite D4.
      replace (3 * n + 1)%nat with (2 * n + 1 + n)%nat by lia. rewrite main_release by done. by rewrite Hnot by lia. }
  destruct (decide (C 0 < 4 * n + 2)%nat) as [D5|D5].
  { pose proof (main_joins (C 0 - (3 * n + 2)) ltac:(lia) ltac:(lia)) as H. case_decide as Hw.
    - exists C. split; [|done]. left. split; [done|]. right. left. exists (C 0 - (3 * n + 2))%nat. split; [lia|]. split; [lia|done].
    - exists (bump 0 C). split; [|done]. right. split; [done|].
      intros [(t' & Ht & E' & _)|[(t' & Ht & E' & H0)|E']]; [lia| |unfold main_steps in *; lia].
      by replace (C 0 - (3 * n + 2))%nat with t' in Hw by lia. }
  destruct (decide (C 0 = 4 * n + 2)%nat) as [D6|D6].
  { apply Hgo; [|intros; lia..]. eapply Hturn; [reflexivity| |by right; right|].
    - rewrite D6. replace (S (4 * n + 2)) with main_steps by (unfold main_steps; lia). apply main_end.
    - unfold run_diss. rewrite (bind_ret get _ _ _ _ eq_refl). cbn [rs_main state_at]. rewrite D6.
      replace (4 * n + 2)%nat with (3 * n + 2 + n)%nat by lia. rewrite main_join by done. by rewrite Hnot by lia. }
  exists C. assert (E : C 0%nat = main_steps) by (unfold main_steps; lia). split; [left; split; [done|by right; right]|].
  unfold run_diss. rewrite (bind_ret get _ _ _ _ eq_refl). cbn [rs_main state_at]. by rewrite E, main_end.
Qed.
End main.

(** *** The workers *)
Lemma next_call_S c : next_call (Z.of_nat (c / 3)) (Z.of_nat (c mod 3)) = (Z.of_nat (S c / 3), Z.of_nat (S c mod 3)).
Proof using Type.
  clear. destruct (ring_next 3 ltac:(lia) c) as [-> ->]. unfold next_call.
  pose proof (Nat.mod_upper_bound c 3 ltac:(lia)). destruct (decide (c mod 3 = 2)%nat) as [E|E].
  - rewrite E. simpl. f_equal. lia.
  - rewrite (proj2 (Z.eqb_neq _ _)), !decide_False by lia. f_equal. lia.
Qed.

(** A worker returns when it has made all calls. *)
Lemma last_call c : (c <= total_calls)%nat ->
  (Z.of_nat (c mod 3) =? 0) && negb (Z.of_nat (c / 3) <? NITERS) = bool_decide (c = total_calls).
Proof using Type.
  clear. unfold total_calls, NITERS. intros Hc. pose proof (Nat.div_mod_eq c 3) as E. pose proof (Nat.mod_upper_bound c 3 ltac:(lia)).
  destruct (decide (c = Z.to_nat 3000)) as [D|D]; [rewrite bool_decide_true by done|rewrite bool_decide_false by done].
  - apply andb_true_intro. split; [apply Z.eqb_eq; lia|]. apply negb_true_iff, Z.ltb_ge. lia.
  - apply andb_false_iff. destruct (decide (c mod 3 = 0)%nat); [right|left; apply Z.eqb_neq; lia].
    apply negb_false_iff, Z.ltb_lt. lia.
Qed.

Lemma fb_at_out c st : (st < steps n)%nat -> match fb_at n c st with FbOut => true | _ => false end = bool_decide (st = 0)%nat.
Proof using Type.
  clear. intros _. unfold fb_at. case_decide as D; [by rewrite bool_decide_true|]. rewrite bool_decide_false by done. by destruct (Nat.odd st).
Qed.

Lemma tags_small c : (c <= total_calls)%nat -> tag_of n c < INT_MAX.
Proof using Hn Hint. intros Hc. pose proof (rounds_lt n Hn Hint). unfold total_calls, NITERS, tag_of, INT_MAX in *. nia. Qed.

(** What a worker does to its own state. *)
Section worker.
Context (C : nat -> nat) (HC : run_inv C) (t : nat) (Ht : (t < n)%nat).
Abbreviation worker_result C' := (function_thread (Z.of_nat t) (state_at C) = (Ret tt, state_at C')).
Abbreviation C1 := (bump (S t) C).

Lemma bump_worker_main : C1 0%nat = C 0%nat.
Proof using Type. clear. done. Qed.
Lemma bump_worker_self : C1 (S t) = S (C (S t)).
Proof using Type. clear. unfold bump. by rewrite decide_True. Qed.
Lemma bump_worker_other j : j <> t -> C1 (S j) = C (S j).
Proof using Type. clear. intros H. unfold bump. by rewrite decide_False by lia. Qed.

Lemma worker_other j : j <> t -> worker_at C1 j = worker_at C j.
Proof using Type.
  clear. intros H. unfold worker_at, loop_at, Rounds.calls, Rounds.stage, in_calls. by rewrite !bump_worker_other, bump_worker_main.
Qed.
Lemma td_other j : j <> t -> td_at C1 j = td_at C j.
Proof using Type.
  clear. intros H. unfold td_at, ack_at, Rounds.entries, Rounds.calls, Rounds.stage, in_calls.
  by rewrite !bump_worker_other, bump_worker_main.
Qed.

(** A step outside the calls. *)
Lemma flags_outside : in_calls C1 t = in_calls C t -> flags_at n (in_calls C1) = flags_at n (in_calls C).
Proof using Type.
  clear. intros H. apply flags_at_ext. intros j k _ _. unfold writes, Rounds.calls, Rounds.stage.
  destruct (decide (j = t)) as [->|Hne]; [by rewrite H|]. unfold in_calls. by rewrite bump_worker_other.
Qed.

Lemma worker_read {A} (k : run_state -> threaddata -> worker -> M run_state A) :
  (s ← get; d ← defined (arr_get (rs_td s) (Z.of_nat t)); w ← defined (arr_get (rs_workers s) (Z.of_nat t)); k s d w) (state_at C) =
  k (state_at C) (td_at C t) (worker_at C t) (state_at C).
Proof using Ht.
  clear Hn Hint HC. rewrite (bind_ret get _ _ _ _ eq_refl). cbn [rs_td rs_workers state_at]. rewrite !arr_get_tab by done. done.
Qed.

Lemma worker_announces : C (S t) = 0%nat -> (2 * t < C 0)%nat -> worker_result C1.
Proof using HC Ht.
  clear Hn Hint. intros Hw Hq. unfold function_thread. rewrite worker_read. unfold worker_at at 1. rewrite Hw, decide_True by done.
  assert (Hnq : (C 0 < 2 * n + 2 + t)%nat).
  { destruct (decide (2 * t + 2 <= C 0)%nat) as [D|D]; [|lia]. pose proof (ri_acked _ HC t Ht D). lia. }
  assert (Hin : in_calls C1 t = in_calls C t) by (unfold in_calls; rewrite bump_worker_self, Hw; done).
  unfold state_at at 1. erewrite bind_ret.
  2: { apply (put_td_run _ _ (td_at C1)); [done| |].
    - unfold td_at, td_set_ack, ack_at. cbn [td_thread_id td_tag td_core_id td_m td_rounds td_num_threads td_fill td_smlt_dissem].
      rewrite bump_worker_self, bump_worker_main, decide_True by lia. unfold Rounds.entries, Rounds.calls, Rounds.stage. by rewrite Hin.
    - intros j Hj Hne. by apply td_other. }
  rewrite (put_worker_run _ _ _ (worker_at C1)); [|done| |].
  - unfold state_at. by rewrite flags_outside.
  - unfold worker_at. by rewrite bump_worker_self, Hw.
  - intros j Hj Hne. by apply worker_other.
Qed.

Lemma loop_start : loop_at (fun _ => 0%nat) t = WLoop 0 0 FbOut.
Proof using Type. clear. unfold loop_at, Rounds.calls, Rounds.stage. by rewrite !Nat.Div0.div_0_l, !Nat.Div0.mod_0_l. Qed.
Lemma loop_at_ext P P' : P t = P' t -> loop_at P t = loop_at P' t.
Proof using Type. clear. intros H. unfold loop_at, Rounds.calls, Rounds.stage. by rewrite H. Qed.

Lemma worker_released : C (S t) = 1%nat -> worker_result (if decide (C 0 < 2 * n + 2 + t)%nat then C else C1).
Proof using HC Ht.
  clear Hn Hint. intros Hw. unfold function_thread. rewrite worker_read. unfold worker_at at 1. rewrite Hw.
  unfold td_at at 1. cbn [td_ack]. unfold ack_at. destruct (decide (C 0 < 2 * n + 2 + t)%nat) as [Hq|Hq].
  - by rewrite decide_True by lia.
  - rewrite decide_False by lia. change (0 =? 0) with true. cbn [negb].
    assert (Hin : in_calls C1 t = in_calls C t) by (unfold in_calls; rewrite bump_worker_self, Hw; done).
    unfold state_at at 1. rewrite (put_worker_run _ _ _ (worker_at C1)); [|done| |].
    + unfold state_at. rewrite flags_outside by done. do 2 f_equal. apply tab_ext. intros j Hj.
      destruct (decide (j = t)) as [->|Hne]; [|symmetry; by apply td_other].
      unfold td_at, ack_at, Rounds.entries, Rounds.calls, Rounds.stage. rewrite bump_worker_self, bump_worker_main, Hin.
      f_equal. repeat case_decide; lia.
    + unfold worker_at. rewrite bump_worker_self, Hw, decide_True by (unfold worker_steps; lia).
      rewrite <- loop_start. apply loop_at_ext. unfold in_calls. by rewrite bump_worker_self, Hw.
    + intros j Hj Hne. by apply worker_other.
Qed.

(** *** A step inside the calls *)
Abbreviation P := (in_calls C).
Abbreviation P' := (advance n P t).

(** The position in the loop after the step. *)
Lemma loop_position : (stage P t < steps n)%nat ->
  match fb_at n (calls P t) (stage P t), fb_at n (calls P' t) (stage P' t) with
  | FbOut, _ => (Z.of_nat (calls P t / 3), Z.of_nat (calls P t mod 3))
  | _, FbOut => next_call (Z.of_nat (calls P t / 3)) (Z.of_nat (calls P t mod 3))
  | _, _ => (Z.of_nat (calls P t / 3), Z.of_nat (calls P t mod 3))
  end = (Z.of_nat (calls P' t / 3), Z.of_nat (calls P' t mod 3)).
Proof using Hn.
  clear Hint HC Ht. intros Hlt. unfold advance. destruct (decide (blocked n P t)) as [B|B].
  - destruct B as (k & _ & -> & _). by rewrite fb_peer.
  - destruct (bump_self n Hn t P) as [-> ->]. case_decide as D.
    + rewrite D, fb_round. change (fb_at n (S (calls P t)) 0) with FbOut. apply next_call_S.
    + assert (Hne : fb_at n (calls P t) (S (stage P t)) <> FbOut).
      { unfold fb_at. rewrite decide_False by lia. by destruct (Nat.odd _). }
      by destruct (fb_at n (calls P t) (stage P t)), (fb_at n (calls P t) (S (stage P t))).
Qed.

Lemma zoom_flags {A} (m : M flags A) a f' d w mn f :
  m f = (Ret a, f') -> on_flags m (RunState f d w mn) = (Ret a, RunState f' d w mn).
Proof using Type. clear. intros E. unfold on_flags, zoom. cbn [rs_flags]. by rewrite E. Qed.

Lemma in_calls_lt p : C (S t) = (p + 2)%nat -> (p < call_steps)%nat ->
  P t = p /\ (calls P t < total_calls)%nat /\ (stage P t < steps n)%nat.
Proof using Hn.
  clear Hint HC Ht. intros Hw Hp. assert (E : P t = p) by (unfold in_calls; lia). split; [done|]. split; [|apply (stage_lt n Hn)].
  unfold Rounds.calls. rewrite E. apply Nat.Div0.div_lt_upper_bound. unfold call_steps in Hp. lia.
Qed.

Lemma worker_calls p : C (S t) = (p + 2)%nat -> (p < call_steps)%nat ->
  worker_result (if decide (blocked n P t) then C else C1).
Proof using Hn Hint HC Ht.
  intros Hw Hp. destruct (in_calls_lt p Hw Hp) as (EP & Hc & Hst). clear HC.
  set (C' := if decide (blocked n P t) then C else C1).
  assert (HCo : forall j, j <> t -> C' (S j) = C (S j)).
  { intros j Hj. unfold C'. case_decide; [done|by apply bump_worker_other]. }
  assert (HC0 : C' 0%nat = C 0%nat) by (unfold C'; by case_decide).
  assert (HCt : (C' (S t) < worker_steps)%nat /\ exists x, C' (S t) = S (S x)).
  { unfold C', worker_steps. case_decide; [split; [lia|exists p; lia]|]. rewrite bump_worker_self. split; [lia|exists (S p); lia]. }
  assert (HP : forall j, in_calls C' j = P' j).
  { intros j. unfold C', advance. destruct (decide (blocked n P t)); [done|]. unfold bump at 2.
    destruct (decide (j = t)) as [->|Hne]; unfold in_calls; [rewrite bump_worker_self|by rewrite bump_worker_other].
    unfold in_calls in EP. lia. }
  assert (Hcs : calls (in_calls C') t = calls P' t /\ stage (in_calls C') t = stage P' t).
  { unfold Rounds.calls, Rounds.stage. by rewrite HP. }
  unfold function_thread. rewrite worker_read. unfold worker_at at 1.
  rewrite Hw, Nat.add_comm. cbn [Nat.add]. rewrite decide_True by (unfold worker_steps; lia). unfold loop_at at 1.
  assert (Hcond : match fb_at n (calls P t) (stage P t) with
    | FbOut => (Z.of_nat (calls P t mod 3) =? 0) && negb (Z.of_nat (calls P t / 3) <? NITERS) | _ => false end = false).
  { rewrite last_call, bool_decide_false by lia. by destruct (fb_at n (calls P t) (stage P t)). }
  rewrite Hcond. unfold td_at at 1 2 3 4 5. cbn [td_thread_id td_tag td_m td_rounds td_num_threads].
  unfold state_at at 1. erewrite bind_ret.
  2: { apply zoom_flags. apply (barrier_step n Hn Hint P t Ht). apply tags_small. lia. }
  erewrite bind_ret.
  2: { apply (put_td_run _ _ (td_at C')); [done| |].
    - unfold td_at, td_set_tag, ack_at. cbn [fst td_thread_id td_ack td_core_id td_m td_rounds td_num_threads td_fill td_smlt_dissem].
      rewrite HC0. f_equal.
      + apply decide_ext. destruct HCt as [_ [x Hx]]. lia.
      + unfold Rounds.entries. by rewrite (proj1 Hcs), (proj2 Hcs).
    - intros j Hj Hne. unfold td_at, ack_at, Rounds.entries, Rounds.calls, Rounds.stage, in_calls. by rewrite HC0, HCo. }
  cbn [snd]. rewrite loop_position by done.
  rewrite (put_worker_run _ _ _ (worker_at C')); [|done| |].
  - unfold state_at. rewrite HC0. do 2 f_equal. apply flags_at_ext. intros j k _ _.
    unfold writes, Rounds.calls, Rounds.stage. by rewrite HP.
  - unfold worker_at. destruct HCt as [Hlt [x Hx]]. rewrite Hx in Hlt |- *. rewrite decide_True by done.
    unfold loop_at. by rewrite (proj1 Hcs), (proj2 Hcs).
  - intros j Hj Hne. unfold worker_at, loop_at, Rounds.calls, Rounds.stage, in_calls. by rewrite HC0, HCo.
Qed.

Lemma calls_done : P t = call_steps -> calls P t = total_calls /\ stage P t = 0%nat.
Proof using Hn.
  clear Hint HC Ht. intros E. unfold Rounds.calls, Rounds.stage, call_steps in *. rewrite E.
  pose proof (steps_pos n Hn). split; [apply Nat.div_mul; lia|apply Nat.Div0.mod_mul].
Qed.

Lemma worker_returns : C (S t) = (call_steps + 2)%nat -> worker_result C1.
Proof using Hn HC Ht.
  clear Hint. intros Hw. assert (EP : P t = call_steps) by (unfold in_calls; lia). clear HC.
  destruct (calls_done EP) as [Ec Es].
  assert (Hin : in_calls C1 t = P t) by (unfold in_calls; rewrite bump_worker_self; lia).
  unfold function_thread. rewrite worker_read. unfold worker_at at 1.
  rewrite Hw, Nat.add_comm. cbn [Nat.add]. rewrite decide_True by (unfold worker_steps; lia).
  unfold loop_at. rewrite Es. change (fb_at n (calls P t) 0) with FbOut. cbv iota.
  rewrite last_call, bool_decide_true by lia.
  unfold state_at at 1. rewrite (put_worker_run _ _ _ (worker_at C1)); [|done| |].
  - unfold state_at. rewrite flags_outside by done. do 2 f_equal. apply tab_ext. intros j Hj.
    destruct (decide (j = t)) as [->|Hne]; [|symmetry; by apply td_other].
    unfold td_at, ack_at, Rounds.entries, Rounds.calls, Rounds.stage. rewrite bump_worker_self, bump_worker_main, Hin.
    f_equal. repeat case_decide; lia.
  - unfold worker_at. rewrite bump_worker_self, Hw, Nat.add_comm. cbn [Nat.add]. by rewrite decide_False by (unfold worker_steps; lia).
  - intros j Hj Hne. by apply worker_other.
Qed.

Lemma worker_step : exists C', moves C (S t) C' /\ worker_result C'.
Proof using Hn Hint HC Ht.
  pose proof (ri_worker _ HC t Ht) as Hle. unfold worker_steps in Hle.
  assert (Hstay : worker_result C -> halted C (S t) -> exists C', moves C (S t) C' /\ worker_result C').
  { intros H1 H2. exists C. split; [by left|done]. }
  assert (Hgo : worker_result C1 -> ~ halted C (S t) -> exists C', moves C (S t) C' /\ worker_result C').
  { intros H1 H2. exists C1. split; [by right|done]. }
  assert (Hnow : function_thread (Z.of_nat t) (state_at C) = _) by (unfold function_thread; apply worker_read).
  destruct (C (S t)) as [|[|p]] eqn:Hw.
  - destruct (decide (2 * t < C 0)%nat) as [D|D].
    + apply Hgo; [by apply worker_announces|]. unfold halted, worker_steps. lia.
    + apply Hstay; [|left; lia]. rewrite Hnow. unfold worker_at. by rewrite Hw, decide_False by lia.
  - pose proof (worker_released Hw) as H. destruct (decide (C 0 < 2 * n + 2 + t)%nat) as [D|D].
    + apply Hstay; [done|]. right; left. lia.
    + apply Hgo; [done|]. unfold halted, worker_steps. lia.
  - destruct (decide (p < call_steps)%nat) as [D|D].
    + pose proof (worker_calls p ltac:(lia) D) as H. destruct (decide (blocked n P t)) as [B|B].
      * apply Hstay; [done|]. right; right; left. split; [lia|done].
      * apply Hgo; [done|]. unfold halted, worker_steps. intros [?|[?|[[_ ?]|?]]]; [lia|lia|done|lia].
    + destruct (decide (p = call_steps)) as [->|D'].
      * apply Hgo; [apply worker_returns; lia|]. unfold halted, worker_steps. intros [?|[?|[[_ (k & _ & E & _)]|?]]]; [lia|lia| |lia].
        assert (EP : P t = call_steps) by (unfold in_calls; lia). destruct (calls_done EP). lia.
      * apply Hstay; [|right; right; right; unfold worker_steps; lia]. rewrite Hnow. unfold worker_at.
        rewrite Hw, decide_False by (unfold worker_steps; lia). done.
Qed.
End worker.

(** *** The invariant *)
Lemma waits_inv_ext Q Q' : (forall j, Q j = Q' j) -> waits_inv n Q -> waits_inv n Q'.
Proof using Type.
  clear. intros E I j k Hj Hk. specialize (I j k Hj Hk). unfold waits, writes, Rounds.calls, Rounds.stage in *. by rewrite <- !E.
Qed.
Lemma in_calls_bump C t j : in_calls (bump (S t) C) j =
  if decide (j = t /\ 2 <= C (S t) < call_steps + 2)%nat then bump t (in_calls C) j else in_calls C j.
Proof using Type.
  clear. unfold in_calls, bump. destruct (decide (j = t)) as [->|Hne].
  - rewrite decide_True by done. destruct (decide (t = t /\ _)); lia.
  - rewrite decide_False by lia. by rewrite decide_False by (intros [? _]; done).
Qed.
Lemma in_calls_step C t : (forall j, in_calls (bump (S t) C) j = in_calls C j) \/
  (forall j, in_calls (bump (S t) C) j = bump t (in_calls C) j) /\ (2 <= C (S t))%nat.
Proof using Type.
  clear. destruct (decide (2 <= C (S t) < call_steps + 2)%nat) as [D|D]; [right|left].
  - split; [|lia]. intros j. rewrite in_calls_bump. unfold bump. repeat case_decide; try done; naive_solver.
  - intros j. rewrite in_calls_bump. by rewrite decide_False by naive_solver.
Qed.

Lemma run_inv_moves C a C' : (a <= n)%nat -> run_inv C -> moves C a C' -> run_inv C'.
Proof using Hn.
  clear Hint. intros Ha HC [[-> _]|[-> Hh]]; [done|]. destruct HC as [H1 H2 H3 H4 H5 H6 H7]. destruct a as [|t].
  - cbn [halted] in Hh. split; rewrite ?bump_main_self; try (intros j Hj; rewrite bump_main).
    + assert (C 0 <> main_steps)%nat by (intros E; apply Hh; by right; right). lia.
    + by apply H2.
    + intros Hq. destruct (decide (2 * j + 2 <= C 0)%nat); [by apply H3|].
      assert (C (S j) <> 0)%nat by (intros E; apply Hh; left; exists j; split; [done|split; lia]). lia.
    + intros Hw. specialize (H4 j Hj Hw). lia.
    + intros Hw. specialize (H5 j Hj Hw). lia.
    + intros Hq. destruct (decide (3 * n + 3 + j <= C 0)%nat); [by apply H6|].
      pose proof (H2 j Hj). assert (~ (C (S j) < worker_steps)%nat); [|lia].
      intros E; apply Hh; right; left; exists j; split; [done|split; [lia|done]].
    + exact H7.
  - cbn [halted] in Hh.
    assert (Hcase : forall j (R : nat -> Prop), (j <> t -> R (C (S j))) -> (j = t -> R (S (C (S t)))) -> R (bump (S t) C (S j))).
    { intros j R Ho Hs. destruct (decide (j = t)) as [->|Hne]; [rewrite bump_worker_self|rewrite bump_worker_other by done]; auto. }
    split; rewrite ?bump_worker_main; try (intros j Hj; apply Hcase; [intros Hne|intros ->]).
    + done.
    + by apply H2.
    + specialize (H2 t Hj). assert (C (S t) <> worker_steps) by naive_solver. lia.
    + by apply H3.
    + intros Hq. specialize (H3 t Hj Hq). lia.
    + by apply H4.
    + intros _. destruct (decide (C (S t) = 0)%nat); [|apply H4; [done|lia]].
      destruct (decide (C 0 <= 2 * t)%nat); [exfalso; apply Hh; by left|lia].
    + by apply H5.
    + intros Hw. destruct (decide (C (S t) = 1)%nat); [|apply H5; [done|lia]].
      destruct (decide (C 0 < 2 * n + 2 + t)%nat); [exfalso; apply Hh; right; by left|lia].
    + by apply H6.
    + intros Hq. specialize (H6 t Hj Hq). exfalso. apply Hh. by right; right; right.
    + destruct (in_calls_step C t) as [E|[E Hw]]; (eapply waits_inv_ext; [intros j; symmetry; apply E|]); [done|].
      apply (waits_inv_bump n Hn); [lia|done|]. intros B. apply Hh. by right; right; left.
Qed.

(** *** Runs *)
Fixpoint path (l : list nat) C C' : Prop :=
  match l with [] => C' = C | a :: l' => exists C1, moves C a C1 /\ path l' C1 C' end.
Abbreviation agents l := (Forall (fun a => (a <= n)%nat) l).

Lemma path_app l l' C C' : path (l ++ l') C C' <-> exists C1, path l C C1 /\ path l' C1 C'.
Proof using Type.
  clear. revert C. induction l as [|a l IH]; intros C; simpl; [naive_solver|]. setoid_rewrite IH. naive_solver.
Qed.
Lemma moves_le C a C' : moves C a C' -> forall b, (C b <= C' b)%nat.
Proof using Type. clear. intros [[-> _]|[-> _]] b; [done|]. unfold bump. case_decide; subst; lia. Qed.
Lemma path_le l : forall C C', path l C C' -> forall b, (C b <= C' b)%nat.
Proof using Type.
  clear. induction l as [|a l IH]; intros C C'; simpl; [by intros ->|]. intros (C1 & Hm & Hp) b.
  pose proof (moves_le _ _ _ Hm b). specialize (IH _ _ Hp b). lia.
Qed.
Lemma path_inv l : forall C C', agents l -> run_inv C -> path l C C' -> run_inv C'.
Proof using Hn.
  clear Hint. induction l as [|a l IH]; intros C C' Hl HC; simpl; [by intros ->|]. intros (C1 & Hm & Hp).
  apply Forall_cons in Hl as [Ha Hl]. eapply IH; [done| |exact Hp]. by eapply run_inv_moves.
Qed.

(** The program runs along a path. *)
Lemma run_path l : forall C, agents l -> run_inv C ->
  exists C', path l C C' /\ diss_run n (state_at C) l = Some (state_at C').
Proof using Hn Hint.
  induction l as [|a l IH]; intros C Hl HC; [by exists C|]. apply Forall_cons in Hl as [Ha Hl].
  assert (Hst : exists C1, moves C a C1 /\ diss_step n (state_at C) a = Some (state_at C1)).
  { destruct a as [|t]; [destruct (main_step C HC) as (C1 & Hm & E)|destruct (worker_step C HC t ltac:(lia)) as (C1 & Hm & E)];
      exists C1; (split; [done|]); unfold diss_step; by rewrite E. }
  destruct Hst as (C1 & Hm & E). destruct (IH C1 Hl) as (C' & Hp & E'); [by eapply run_inv_moves|].
  exists C'. split; [by exists C1|]. cbn [diss_run]. rewrite E. exact E'.
Qed.

(** *** Progress *)
Lemma writes_mono Q Q' j k : Q' j = Q j \/ Q' = bump j Q -> (k < L)%nat -> (writes n Q j k <= writes n Q' j k)%nat.
Proof using Hn.
  clear Hint. intros [E| ->] Hk.
  - unfold writes, Rounds.calls, Rounds.stage. by rewrite E.
  - rewrite (writes_bump n Hn) by done. case_decide; lia.
Qed.

(** Whoever can move keeps that ability until it moves. *)
Lemma runnable_keeps C a b C' : a <> b -> ~ halted C a -> moves C b C' -> ~ halted C' a.
Proof using Hn.
  clear Hint. intros Hab Hh [[-> _]|[-> _]]; [done|]. pose proof (moves_le C b (bump b C)) as Hle.
  assert (Ho : forall x, x <> b -> bump b C x = C x) by (intros x Hx; unfold bump; by rewrite decide_False).
  assert (Hm : forall x, (C x <= bump b C x)%nat) by (intros x; unfold bump; case_decide; subst; lia).
  destruct a as [|t]; cbn [halted] in *; rewrite (Ho _ Hab).
  - intros [(t & Ht & E & Hw)|[(t & Ht & E & Hw)|E]]; apply Hh.
    + left. exists t. pose proof (Hm (S t)). split; [done|split; lia].
    + right; left. exists t. pose proof (Hm (S t)). split; [done|split; lia].
    + by right; right.
  - pose proof (Hm 0%nat) as H0. intros [[Hw Hq]|[[Hw Hq]|[[Hw B]|Hw]]]; apply Hh.
    + left. lia.
    + right; left. lia.
    + right; right; left. split; [done|]. destruct B as (k & Hk & Hs & Hwr). exists k. split; [done|].
      assert (E : in_calls (bump b C) t = in_calls C t) by (unfold in_calls; by rewrite Ho).
      unfold Rounds.stage, Rounds.calls in *. rewrite E in Hs, Hwr. split; [done|].
      assert (Hmono : (writes n (in_calls C) (bwd n t k) k <= writes n (in_calls (bump b C)) (bwd n t k) k)%nat); [|lia].
      destruct b as [|b]; [by apply writes_mono; [left|]|].
      destruct (in_calls_step C b) as [E'|[E' _]]; [by apply writes_mono; [left; apply E'|]|].
      assert (Hext : writes n (in_calls (bump (S b) C)) (bwd n t k) k = writes n (bump b (in_calls C)) (bwd n t k) k).
      { unfold writes, Rounds.calls, Rounds.stage. by rewrite E'. }
      rewrite Hext, (writes_bump n Hn) by done. case_decide; lia.
    + by right; right; right.
Qed.
Lemma path_moves l a : forall C C', a ∈ l -> ~ halted C a -> path l C C' -> (C a < C' a)%nat.
Proof using Hn.
  clear Hint. induction l as [|b l IH]; intros C C' Ha Hh; [by apply elem_of_nil in Ha|]. intros (C1 & Hm & Hp).
  destruct (decide (a = b)) as [<-|Hne].
  - destruct Hm as [[_ H]|[-> _]]; [done|]. pose proof (path_le _ _ _ Hp a) as H. unfold bump in H. rewrite decide_True in H by done. lia.
  - apply elem_of_cons in Ha as [|Ha]; [done|]. specialize (IH C1 C' Ha (runnable_keeps _ _ _ _ Hne Hh Hm) Hp).
    pose proof (moves_le _ _ _ Hm a). lia.
Qed.

(** The least of finitely many numbers. *)
Lemma least_upto (f : nat -> nat) m : (0 < m)%nat -> exists j, (j < m)%nat /\ forall i, (i < m)%nat -> (f j <= f i)%nat.
Proof using Type.
  clear. induction m as [|m IH]; intros Hm; [lia|]. destruct (decide (m = 0)%nat) as [->|Hne].
  - exists 0%nat. split; [lia|]. intros i Hi. by replace i with 0%nat by lia.
  - destruct IH as (j & Hj & Hmin); [lia|]. destruct (decide (f j <= f m)%nat) as [D|D].
    + exists j. split; [lia|]. intros i Hi. destruct (decide (i = m)) as [->|]; [done|apply Hmin; lia].
    + exists m. split; [lia|]. intros i Hi. destruct (decide (i = m)) as [->|]; [done|]. specialize (Hmin i ltac:(lia)). lia.
Qed.

Definition finished C : Prop := C 0%nat = main_steps /\ forall t, (t < n)%nat -> C (S t) = worker_steps.

(** Somebody can move until all have ended. *)
Lemma someone_moves C : run_inv C -> ~ finished C -> exists a, (a <= n)%nat /\ ~ halted C a.
Proof using Hn.
  clear Hint. intros HC Hnf. pose proof HC as [H1 H2 H3 H4 H5 H6 H7].
  destruct (decide (C 0 = main_steps)%nat) as [E|E].
  { exfalso. apply Hnf. split; [done|]. intros t Ht. apply H6; [done|]. unfold main_steps in E. lia. }
  assert (Hworkers : (2 * n + 2 + n <= C 0)%nat -> forall t, (t < n)%nat -> (C (S t) < worker_steps)%nat -> exists a, (a <= n)%nat /\ ~ halted C a).
  { intros Hq t Ht Hlt. destruct (least_upto (fun j => C (S j)) n ltac:(lia)) as (j & Hj & Hmin).
    exists (S j). split; [lia|]. pose proof (Hmin t Ht). pose proof (H3 j Hj ltac:(lia)) as Hw1.
    cbn [halted]. intros [?|[?|[[Hw2 B]|?]]]; [lia|lia| |lia].
    apply (least_not_blocked n Hn (in_calls C) j (in_calls C j)) in B; [done| |done].
    intros i Hi. pose proof (Hmin i Hi). unfold in_calls. lia. }
  destruct (decide (exists t, (t < n)%nat /\ C 0%nat = (2 * t + 1)%nat /\ C (S t) = 0%nat)) as [(t & Ht & Eq & Ew)|D1].
  { exists (S t). split; [lia|]. cbn [halted]. unfold worker_steps. lia. }
  destruct (decide (exists t, (t < n)%nat /\ C 0%nat = (3 * n + 2 + t)%nat /\ (C (S t) < worker_steps)%nat)) as [(t & Ht & Eq & Ew)|D2].
  { apply (Hworkers ltac:(lia) t Ht Ew). }
  exists 0%nat. split; [lia|]. cbn [halted]. intros [H|[H|H]]; done.
Qed.

(** Each round in which everybody runs brings the threads a step further. *)
Definition total C : nat := sum_upto (S n) C.
Lemma total_le C C' : (forall a, (C a <= C' a)%nat) -> (total C <= total C')%nat.
Proof using Type. clear. intros H. apply sum_upto_le. intros a _. apply H. Qed.
Lemma total_lt C C' a : (a <= n)%nat -> (forall a, (C a <= C' a)%nat) -> (C a < C' a)%nat -> (total C < total C')%nat.
Proof using Type.
  clear. unfold total. intros Ha Hle Hlt. induction n as [|m IH].
  - assert (a = 0%nat) as -> by lia. simpl. lia.
  - cbn [sum_upto] in *. destruct (decide (a = S m)) as [->|Hne].
    + pose proof (sum_upto_le m C C' ltac:(auto)). pose proof (Hle m). lia.
    + specialize (IH ltac:(lia)). pose proof (Hle (S m)). lia.
Qed.
Definition all_steps : nat := main_steps + n * worker_steps.
Lemma total_bound C : run_inv C -> (total C <= all_steps)%nat.
Proof using Type.
  clear. intros [H1 H2 _ _ _ _ _]. unfold total, all_steps.
  assert (H : forall m, (m <= n)%nat -> (sum_upto (S m) C <= main_steps + m * worker_steps)%nat).
  { induction m as [|m IH]; intros Hm; [simpl; lia|]. specialize (IH ltac:(lia)). specialize (H2 m ltac:(lia)).
    cbn [sum_upto] in *. lia. }
  by apply H.
Qed.

Lemma finished_le C C' : run_inv C' -> (forall a, (C a <= C' a)%nat) -> finished C -> finished C'.
Proof using Type.
  clear. intros [H1 H2 _ _ _ _ _] Hle [E1 E2]. split.
  - pose proof (Hle 0%nat). lia.
  - intros t Ht. pose proof (Hle (S t)). specialize (H2 t Ht). specialize (E2 t Ht). lia.
Qed.
Lemma finished_dec C : finished C \/ ~ finished C.
Proof using Type.
  clear. destruct (decide (C 0%nat = main_steps)) as [E|E]; [|right; by intros [? _]].
  destruct (decide (Forall (fun t => C (S t) = worker_steps) (seq 0 n))) as [F|F]; [left|right].
  - split; [done|]. intros t Ht. rewrite Forall_forall in F. apply F, elem_of_seq. lia.
  - intros [_ H]. apply F, Forall_forall. intros t Ht. apply elem_of_seq in Ht. apply H. lia.
Qed.

Lemma rounds_progress rounds : forall C C',
  run_inv C -> agents (concat rounds) -> Forall (fun l => forall a, (a <= n)%nat -> a ∈ l) rounds ->
  path (concat rounds) C C' -> finished C' \/ (total C + length rounds <= total C')%nat.
Proof using Hn.
  clear Hint. induction rounds as [|l ls IH]; intros C C' HC Hl Hall Hp; cbn [concat length] in *.
  { simpl in Hp. subst. right. lia. }
  apply Forall_app in Hl as [Hl Hls]. apply Forall_cons in Hall as [Ha Has]. apply path_app in Hp as (C1 & Hp1 & Hp2).
  pose proof (path_inv _ _ _ Hl HC Hp1) as HC1. pose proof (path_inv _ _ _ Hls HC1 Hp2) as HC2.
  destruct (IH C1 C' HC1 Hls Has Hp2) as [|Ht]; [by left|].
  destruct (finished_dec C) as [F|F].
  - left. eapply finished_le; [done| |exact F]. intros a. pose proof (path_le _ _ _ Hp1 a). pose proof (path_le _ _ _ Hp2 a). lia.
  - right. destruct (someone_moves C HC F) as (a & Hle & Hh).
    pose proof (path_moves l a C C1 (Ha a Hle) Hh Hp1) as Hlt. pose proof (total_lt C C1 a Hle (path_le _ _ _ Hp1) Hlt). lia.
Qed.

(** *** The start *)
Abbreviation C0 := (fun _ : nat => 0%nat).
Lemma run_inv_start : run_inv C0.
Proof using Type. clear. split; try (intros; lia). apply waits_inv_start. Qed.

Lemma initThreads_run garbage : (n <= length cores)%nat ->
  initThreads (Z.of_nat n) 1 (Z.of_nat L) cores fill false (replicate n garbage) = (Ret tt, tab n (td_at C0)).
Proof using Type.
  clear. intros Hc. unfold initThreads. rewrite Nat2Z.id.
  apply (mfor_run _ (fun i => tab n (fun t => if decide (t < i)%nat then td_at C0 t else garbage))).
  - rewrite <- tab_const. apply tab_ext. intros t _. by rewrite decide_False by lia.
  - apply tab_ext. intros t Ht. by rewrite decide_True.
  - intros i Hi. rewrite arr_get_nat. destruct (lookup_lt_is_Some_2 cores i) as [c Ec]; [lia|]. rewrite Ec.
    unfold defined. rewrite (bind_ret (mret _) _ _ _ _ eq_refl). unfold set_threaddata.
    rewrite arr_set_nat by (by rewrite length_tab). rewrite tab_insert. f_equal. apply tab_ext. intros t Ht.
    destruct (decide (t = i)) as [->|Hne].
    + rewrite decide_True by lia. unfold td_at, ack_at. rewrite decide_False by lia. rewrite Ec. f_equal.
      unfold tag_of, Rounds.entries, Rounds.calls, Rounds.stage, in_calls. cbn [Nat.sub Nat.min].
      by rewrite Nat.Div0.div_0_l, Nat.Div0.mod_0_l.
    + repeat case_decide; (done || lia).
Qed.

Lemma run_diss_start_run memalign_ok array_ok lines_ok junk garbage :
  (forall i, memalign_ok i = true) -> (forall i, array_ok i = true) -> (forall i j, lines_ok i j = true) -> (n <= length cores)%nat ->
  run_diss_start memalign_ok array_ok lines_ok junk garbage (Z.of_nat n) cores fill = Ret (state_at C0).
Proof using Type.
  clear. intros Hm Ha Hl Hc. unfold run_diss_start. rewrite !Hm. cbn [negb orb].
  rewrite (initSharedMemory_run n) by done. cbn [sm_m sm_rounds sm_notification]. rewrite Nat2Z.id, initThreads_run by done.
  unfold state_at. f_equal. f_equal. rewrite <- tab_const. by apply tab_ext.
Qed.

(** *** What is seen of a worker *)
(** The calls it has returned from, and those it has entered. *)
Definition calls_returned (w : worker) : Z :=
  match w with WLoop i b _ => 3 * i + b | WEnd => 3 * NITERS | _ => 0 end.
Definition calls_entered (w : worker) : Z :=
  match w with WLoop i b FbOut => 3 * i + b | WLoop i b _ => 3 * i + b + 1 | WEnd => 3 * NITERS | _ => 0 end.
Definition announced (w : worker) : bool := match w with WNone | WBegin => false | _ => true end.
Definition started (w : worker) : bool := match w with WLoop _ _ _ | WEnd => true | _ => false end.

Lemma worker_calls_seen C t : run_inv C -> (t < n)%nat ->
  calls_returned (worker_at C t) = Z.of_nat (calls (in_calls C) t) /\
  calls_entered (worker_at C t) = Z.of_nat (entries (in_calls C) t).
Proof using Hn.
  clear Hint. intros HC Ht. pose proof (ri_worker _ HC t Ht) as Hle.
  assert (H0 : (C (S t) <= 2)%nat -> calls (in_calls C) t = 0%nat /\ stage (in_calls C) t = 0%nat).
  { intros Hw. unfold Rounds.calls, Rounds.stage, in_calls. replace (C (S t) - 2)%nat with 0%nat by lia. cbn [Nat.min].
    by rewrite Nat.Div0.div_0_l, Nat.Div0.mod_0_l. }
  unfold worker_at. destruct (C (S t)) as [|[|w]] eqn:Ew.
  - destruct H0 as [E1 E2]; [lia|]. unfold Rounds.entries. rewrite E1, E2. by case_decide.
  - destruct H0 as [E1 E2]; [lia|]. unfold Rounds.entries. by rewrite E1, E2.
  - case_decide as D.
    + unfold loop_at. set (c := calls (in_calls C) t). pose proof (Nat.div_mod_eq c 3) as Ec.
      assert (E : 3 * Z.of_nat (c / 3) + Z.of_nat (c mod 3) = Z.of_nat c) by lia. cbn [calls_returned calls_entered]. split; [done|].
      unfold Rounds.entries. fold c. set (st := stage (in_calls C) t). rewrite E. unfold fb_at. destruct (decide (st = 0)%nat) as [->|Hs].
      * rewrite decide_False by lia. by rewrite Nat.add_0_r.
      * rewrite decide_True by lia. destruct (Nat.odd st); lia.
    + assert (EP : in_calls C t = call_steps) by (unfold in_calls, worker_steps in *; lia).
      destruct (calls_done C t EP) as [E1 E2]. unfold Rounds.entries. rewrite E1, E2, decide_False by lia.
      cbn [calls_returned calls_entered]. unfold total_calls, NITERS. lia.
Qed.
End run.

(** [C16] The measurement of the flag barrier runs to its end: for 2 to 2^30 threads, when the
    allocations succeed, under every schedule no access is undefined; no worker begins with
    the barrier before all have been created and have announced themselves; no worker has
    returned from more calls of the barrier than every other has entered, although the
    flags are never reset and only ten sets of them are used; and when everybody is
    scheduled in each of enough rounds, the main thread has seen the end of all workers,
    each of which has made all its calls. *)
Theorem flag_barrier_run n cores fill memalign_ok array_ok lines_ok junk garbage :
  (1 < n)%nat -> Z.of_nat n <= 2 ^ 30 -> (n <= length cores)%nat ->
  (forall i, memalign_ok i = true) -> (forall i, array_ok i = true) -> (forall i j, lines_ok i j = true) ->
  exists s0, run_diss_start memalign_ok array_ok lines_ok junk garbage (Z.of_nat n) cores fill = Ret s0 /\
  forall sched, Forall (fun a => (a <= n)%nat) sched ->
  exists s, diss_run n s0 sched = Some s /\ length (rs_workers s) = n /\
    (forall i j wi wj, rs_workers s !! i = Some wi -> rs_workers s !! j = Some wj ->
       (started wi = true -> announced wj = true) /\ calls_returned wi <= calls_entered wj) /\
    (forall rounds, sched = concat rounds -> Forall (fun l => forall a, (a <= n)%nat -> a ∈ l) rounds ->
       (all_steps n < length rounds)%nat -> rs_main s = MEnd /\ rs_workers s = replicate n WEnd).
Proof.
  intros Hn Hint Hc Hm Ha Hl. exists (state_at n cores fill (fun _ => 0%nat)).
  split; [by apply run_diss_start_run|]. intros sched Hs.
  destruct (run_path n Hn Hint cores fill sched _ Hs (run_inv_start n)) as (C & Hp & E).
  pose proof (path_inv n Hn sched _ _ Hs (run_inv_start n) Hp) as HC.
  exists (state_at n cores fill C). split; [done|]. split; [apply length_tab|]. split.
  - cbn [rs_workers state_at]. intros i j wi wj [Hi ->]%lookup_tab_Some [Hj ->]%lookup_tab_Some. split.
    + intros Hst. assert (Hw : (2 <= C (S i))%nat).
      { unfold worker_at in Hst. destruct (C (S i)) as [|[|w]]; [by case_decide|done|lia]. }
      pose proof (ri_released n C HC i Hi Hw) as Hq. pose proof (ri_acked n C HC j Hj ltac:(lia)) as Hwj.
      unfold worker_at. destruct (C (S j)) as [|[|w]]; [lia|done|by case_decide].
    + destruct (worker_calls_seen n Hn C i HC Hi) as [-> _]. destruct (worker_calls_seen n Hn C j HC Hj) as [_ ->].
      pose proof (separation n Hn _ i j (ri_calls n C HC) Hi Hj). lia.
  - cbn [rs_main rs_workers state_at]. intros rounds -> Hall Hlen.
    destruct (rounds_progress n Hn rounds _ C (run_inv_start n) Hs Hall Hp) as [[E1 E2]|Ht].
    + rewrite E1, main_end. split; [done|]. rewrite <- tab_const. apply tab_ext. intros t Ht. unfold worker_at.
      rewrite (E2 t Ht). unfold worker_steps. destruct (call_steps n + 3)%nat as [|[|w]] eqn:Ew; [lia..|].
      by rewrite decide_False by lia.
    + pose proof (total_bound n C HC). lia.
Qed.

Lemma flag_barrier_run_witness :
  exists s0 s, three_threads = Ret s0 /\
    diss_run 3 s0 (concat (replicate (S (all_steps 3)) [3; 0; 2; 1]%nat)) = Some s /\
    rs_main s = MEnd /\ rs_workers s = [WEnd; WEnd; WEnd].
Proof.
  destruct (flag_barrier_run 3 [4; 0; 2] true (fun _ => true) (fun _ => true) (fun _ _ => true) (fun _ _ _ => 9)
    (Threaddata 0 0 0 0 0 0 0 true true)) as (s0 & E & Hrun); [lia|lia|simpl; lia|done..|].
  destruct (Hrun (concat (replicate (S (all_steps 3)) [3; 0; 2; 1]%nat))) as (s & Es & _ & _ & Hend).
  { apply Forall_concat, Forall_replicate. repeat constructor; lia. }
  exists s0, s. split; [exact E|]. split; [exact Es|].
  apply (Hend (replicate (S (all_steps 3)) [3; 0; 2; 1]%nat) eq_refl); [|rewrite length_replicate; lia].
  apply Forall_replicate. intros a Ha. apply list_elem_of_In. simpl. lia.
Defined.
