(* ===== verification/Placement.v ===== *)
(** Which cores the benchmarks run on ([bench/diss_bar/barrier.c], [bench/ab-bench-scale.c]):
    node by node, evenly over the nodes, or in batches of a given size from one node after
    the other.  What libnuma knows of the machine is a parameter.  The counters of the first
    placement do not exceed the number of cores and are not reduced to their width. *)
From S2P Require Import Prelude.

(** ** The placement of the barrier benchmark *)
Section placement.
(** [numa_max_node], [numa_num_configured_cpus], [numa_available], and whether a core is in
    the set [numa_node_to_cpus] gives for a node. *)
Context (max_node configured_cpus available : Z) (isbitset : Z -> Z -> bool).

(** The array, the cores in it, those of the current node, and the cores beyond an equal share. *)
Record picks := Picks { pk_result : list Z; pk_taken : Z; pk_per_node : Z; pk_rest : Z }.

(** [result[num_taken] = j; num_taken++;] *)
Definition take_core (j : Z) : M picks unit := fun s =>
  match arr_set (pk_result s) (pk_taken s) j with
  | Some l => (Ret tt, Picks l (pk_taken s + 1) (pk_per_node s) (pk_rest s))
  | None => (Undef, s)
  end.
(** [if (num_taken == n) return result;] *)
Definition return_if_full (n : Z) : M picks (option (list Z)) :=
  s ← get; mret (if pk_taken s =? n then Some (pk_result s) else None).
Definition set_per_node (x : Z) : M picks unit := modify (fun s => Picks (pk_result s) (pk_taken s) x (pk_rest s)).
Definition set_rest (x : Z) : M picks unit := modify (fun s => Picks (pk_result s) (pk_taken s) (pk_per_node s) x).

Definition fill_core (n i j : Z) : M picks (option (list Z)) :=
  _ ← (if isbitset i j then take_core j else mret tt);
  return_if_full n.

(** [Some None]: the loop over the cores of the node is left. *)
Definition rr_core (n cores_per_node i j : Z) : M picks (option (option (list Z))) :=
  if isbitset i j then
    s ← get;
    if pk_per_node s =? cores_per_node then
      if 0 <? pk_rest s then
        _ ← take_core j; _ ← set_rest (pk_rest s - 1);
        r ← return_if_full n;
        mret (match r with Some l => Some (Some l) | None => Some None end)
      else mret (Some None)
    else
      _ ← take_core j; _ ← set_per_node (pk_per_node s + 1);
      r ← return_if_full n;
      mret (match r with Some l => Some (Some l) | None => None end)
  else mret None.
Definition rr_node (num_cores n cores_per_node i : Z) : M picks (option (list Z)) :=
  r ← mfor_ret (Z.to_nat num_cores) 0 (rr_core n cores_per_node i);
  match r with
  | Some (Some l) => mret (Some l)
  | _ => _ ← set_per_node 0; mret None
  end.

(** [mem]: the array [malloc] returns; the result is NULL or the array. *)
Definition placement (n : Z) (do_fill hyperthreads : bool) (mem : list Z) : outcome (option (list Z)) :=
  let numa_nodes := max_node + 1 in
  let num_cores := if hyperthreads then configured_cpus / 2 else configured_cpus in
  if negb (available =? 0) then Ret None else
  if do_fill then
    (mfor_ret (Z.to_nat numa_nodes) 0 (fun i => mfor_ret (Z.to_nat num_cores) 0 (fill_core n i)) (Picks mem 0 0 0)).1
  else
    let cores_per_node := n / numa_nodes in
    let rest := n - cores_per_node * numa_nodes in
    (mfor_ret (Z.to_nat numa_nodes) 0 (rr_node num_cores n cores_per_node) (Picks mem 0 0 rest)).1.
End placement.

(** ** What is chosen *)

(** The cores of a node, in the order of their numbers. *)
Definition node_cores (isbitset : Z -> Z -> bool) (num_cores i : Z) : list Z :=
  filter (fun j => isbitset i j = true) (seqZ 0 num_cores).
Definition all_nodes (isbitset : Z -> Z -> bool) (num_cores numa_nodes : Z) : list (list Z) :=
  map (node_cores isbitset num_cores) (seqZ 0 numa_nodes).

(** [c] cores of every node, and one more of each of the first [r] nodes that have one. *)
Definition extra (c r : nat) (cs : list Z) : nat := if decide (0 < r /\ c < length cs)%nat then 1 else 0.
Fixpoint spread (c r : nat) (nodes : list (list Z)) : list Z :=
  match nodes with
  | [] => []
  | cs :: rest => take (c + extra c r cs) cs ++ spread c (r - extra c r cs) rest
  end.

Lemma seqZ_S j k : seqZ j (Z.of_nat (S k)) = j :: seqZ (j + 1) (Z.of_nat k).
Proof. rewrite seqZ_cons by lia. f_equal. f_equal; lia. Qed.

(** Writing the next entry of an array that holds [l] and, behind it, what it held before. *)
Lemma arr_fill (mem l : list Z) j : (length l < length mem)%nat ->
  arr_set (l ++ drop (length l) mem) (Z.of_nat (length l)) j =
  Some ((l ++ [j]) ++ drop (length (l ++ [j])) mem).
Proof.
  intros Hl. rewrite arr_set_nat by (rewrite length_app, length_drop; lia).
  rewrite length_app, insert_app_r_alt, Nat.sub_diag by lia. cbn [length].
  destruct (drop (length l) mem) as [|x rest] eqn:Ed.
  { apply (f_equal length) in Ed. rewrite length_drop in Ed. cbn [length] in Ed. lia. }
  assert (rest = drop (length l + 1) mem) as -> by
    (rewrite <- drop_drop, Ed; reflexivity).
  by rewrite <- app_assoc.
Qed.

Section run.
Context (isbitset : Z -> Z -> bool) (mem : list Z) (n : nat) (Hmem : length mem = n).

(** The cores [l] were written to the array. *)
Definition filled (l : list Z) (p r : Z) : picks := Picks (l ++ drop (length l) mem) (Z.of_nat (length l)) p r.

Lemma take_core_run l p r j : (length l < n)%nat ->
  take_core j (filled l p r) = (Ret tt, filled (l ++ [j]) p r).
Proof using Hmem.
  intros Hl. unfold take_core, filled. cbn [pk_result pk_taken pk_per_node pk_rest].
  rewrite arr_fill by lia. rewrite length_app. cbn [length]. do 2 f_equal. lia.
Qed.

Lemma return_if_full_run l p r : (length l <= n)%nat ->
  return_if_full (Z.of_nat n) (filled l p r) =
  (Ret (if decide (length l = n) then Some l else None), filled l p r).
Proof using Hmem.
  intros Hl. unfold return_if_full, filled, mbind, M_bind, get. cbn [pk_result pk_taken].
  unfold mret, M_ret. case_decide as E.
  - rewrite E, Z.eqb_refl, drop_ge, app_nil_r by lia. done.
  - rewrite (proj2 (Z.eqb_neq _ _)) by lia. done.
Qed.

(** *** The full nodes first *)

(** The array returned, or the state in which the loop goes on, when [l] was to be written. *)
Definition fed (l : list Z) (p r : Z) : outcome (option (list Z)) * picks :=
  if decide (n <= length l)%nat then (Ret (Some (take n l)), filled (take n l) p r)
  else (Ret None, filled l p r).

Lemma fed_app l l' p r : (n <= length l)%nat -> fed (l ++ l') p r = fed l p r.
Proof.
  intros. unfold fed. rewrite !decide_True by (rewrite ?length_app; lia).
  by rewrite take_app_le.
Qed.

Lemma feeds (body : Z -> M picks (option (list Z))) (f : Z -> list Z) p r k : forall j l,
  (forall i l, (length l < n)%nat -> body i (filled l p r) = fed (l ++ f i) p r) ->
  (length l < n)%nat ->
  mfor_ret k j body (filled l p r) = fed (l ++ concat (map f (seqZ j (Z.of_nat k)))) p r.
Proof.
  induction k as [|k IH]; intros j l Hb Hl.
  - cbn. rewrite app_nil_r. unfold fed. by rewrite decide_False by lia.
  - rewrite seqZ_S. cbn [map concat mfor_ret]. unfold mbind, M_bind.
    rewrite Hb, app_assoc by done. destruct (decide (n <= length (l ++ f j))%nat) as [E|E].
    + rewrite (fed_app (l ++ f j)) by done. unfold fed. by rewrite decide_True by done.
    + unfold fed at 1. rewrite decide_False by done. apply IH; [done|lia].
Qed.

Lemma fill_core_run i j l p r : (length l < n)%nat ->
  fill_core isbitset (Z.of_nat n) i j (filled l p r) = fed (l ++ (if isbitset i j then [j] else [])) p r.
Proof using Hmem.
  intros Hl. unfold fill_core, mbind, M_bind, fed. destruct (isbitset i j).
  - rewrite take_core_run, return_if_full_run by (rewrite ?length_app; cbn [length]; lia).
    rewrite length_app. cbn [length]. repeat case_decide; try lia; [|done].
    rewrite take_ge by (rewrite length_app; cbn [length]; lia). done.
  - unfold mret at 1, M_ret at 1. rewrite return_if_full_run by lia. rewrite app_nil_r.
    repeat case_decide; try lia. done.
Qed.

Lemma node_cores_concat num_cores i :
  concat (map (fun j => if isbitset i j then [j] else []) (seqZ 0 num_cores)) = node_cores isbitset num_cores i.
Proof.
  unfold node_cores. induction (seqZ 0 num_cores) as [|j l IH]; [done|].
  cbn [map concat]. rewrite IH, filter_cons. by destruct (isbitset i j).
Qed.

Lemma fill_run num_cores numa_nodes : (0 < n)%nat -> 0 <= num_cores -> 0 <= numa_nodes ->
  (mfor_ret (Z.to_nat numa_nodes) 0
    (fun i => mfor_ret (Z.to_nat num_cores) 0 (fill_core isbitset (Z.of_nat n) i)) (filled [] 0 0)).1 =
  Ret (if decide (n <= length (concat (all_nodes isbitset num_cores numa_nodes)))%nat
       then Some (take n (concat (all_nodes isbitset num_cores numa_nodes))) else None).
Proof using Hmem.
  intros Hn Hc Hi. rewrite (feeds _ (node_cores isbitset num_cores)); [| |done].
  - rewrite app_nil_l, Z2Nat.id by lia. unfold fed, all_nodes. by case_decide.
  - intros i l Hl. rewrite (feeds _ (fun j => if isbitset i j then [j] else [])); [| |done].
    + by rewrite Z2Nat.id, node_cores_concat by lia.
    + intros. by apply fill_core_run.
Qed.
(** *** Evenly over the nodes *)
Lemma extra_le c r cs : (extra c r cs <= r)%nat.
Proof. unfold extra. case_decide; lia. Qed.
Lemma spread_length_le c nodes : forall r, (length (spread c r nodes) <= length nodes * c + r)%nat.
Proof.
  induction nodes as [|cs nodes IH]; intros r; cbn [spread length]; [lia|].
  rewrite length_app, length_take. specialize (IH (r - extra c r cs)%nat). pose proof (extra_le c r cs). lia.
Qed.

(** The loop over the cores [cs] of a node of which [p] are taken already. *)
Definition node_taken (c p r : nat) (l cs : list Z) (res : outcome (option (option (list Z))) * picks) : Prop :=
  let e := extra (c - p) r cs in
  exists o p', res = (Ret o, filled (l ++ take (c - p + e) cs) p' (Z.of_nat (r - e))) /\
    match o with
    | Some (Some x) => x = l ++ take (c - p + e) cs /\ length x = n
    | _ => (length (l ++ take (c - p + e) cs) < n)%nat
    end.

Lemma rr_core_run i c k : forall j p r l,
  (p <= c)%nat -> (length l < n)%nat -> (length l + (c - p) + r <= n)%nat ->
  node_taken c p r l (filter (fun j => isbitset i j = true) (seqZ j (Z.of_nat k)))
    (mfor_ret k j (rr_core isbitset (Z.of_nat n) (Z.of_nat c) i) (filled l (Z.of_nat p) (Z.of_nat r))).
Proof using Hmem.
  unfold node_taken. induction k as [|k IH]; intros j p r l Hp Hl Hc.
  { change (seqZ j (Z.of_nat 0)) with (@nil Z). rewrite filter_nil.
    exists None, (Z.of_nat p). rewrite take_nil, app_nil_r.
    unfold extra. rewrite decide_False by (cbn; lia). by rewrite Nat.sub_0_r. }
  rewrite seqZ_S, filter_cons. cbn [mfor_ret]. unfold mbind, M_bind, rr_core at 1.
  destruct (isbitset i j) eqn:Eb.
  2:{ rewrite decide_False by done. cbn. by apply IH. }
  rewrite decide_True by done. unfold mbind, M_bind, get at 1. cbn [pk_per_node pk_rest filled].
  destruct (decide (p = c)) as [->|Hpc].
  - rewrite Z.eqb_refl, Nat.sub_diag. unfold extra. cbn [length]. destruct r as [|r].
    + rewrite decide_False by lia. exists (Some None), (Z.of_nat c). cbn [take plus].
      rewrite app_nil_r. done.
    + rewrite decide_True by lia. rewrite (proj2 (Z.ltb_lt _ _)) by lia.
      fold (filled l (Z.of_nat c) (Z.of_nat (S r))). rewrite take_core_run by done.
      cbn [take plus]. unfold set_rest, modify. cbn [pk_result pk_taken pk_per_node filled].
      exists (if decide (length (l ++ [j]) = n) then Some (Some (l ++ [j])) else Some None), (Z.of_nat c).
      fold (filled (l ++ [j]) (Z.of_nat c) (Z.of_nat (S r) - 1)).
      rewrite return_if_full_run by (rewrite length_app; cbn [length]; lia).
      replace (Z.of_nat (S r) - 1) with (Z.of_nat (S r - 1)) by lia.
      case_decide as E; [done|]. split; [done|]. rewrite length_app in E |- *. rewrite take_0. cbn [length] in E |- *. lia.
  - rewrite (proj2 (Z.eqb_neq _ _)) by lia.
    fold (filled l (Z.of_nat p) (Z.of_nat r)). rewrite take_core_run by done.
    unfold set_per_node, modify. cbn [pk_result pk_taken pk_rest filled].
    fold (filled (l ++ [j]) (Z.of_nat p + 1) (Z.of_nat r)).
    rewrite return_if_full_run by (rewrite length_app; cbn [length]; lia).
    replace (Z.of_nat p + 1) with (Z.of_nat (S p)) by lia.
    set (cs := filter _ (seqZ (j + 1) (Z.of_nat k))).
    assert (Ee : extra (c - p) r (j :: cs) = extra (c - S p) r cs).
    { unfold extra. cbn [length]. repeat case_decide; lia. }
    assert (El : l ++ take (c - p + extra (c - S p) r cs) (j :: cs) =
      (l ++ [j]) ++ take (c - S p + extra (c - S p) r cs) cs).
    { replace (c - p + extra (c - S p) r cs)%nat with (S (c - S p + extra (c - S p) r cs)) by lia.
      by rewrite <- app_assoc. }
    rewrite Ee, El. case_decide as E.
    + rewrite length_app in E. cbn [length] in E. unfold mret, M_ret.
      assert (r = O) as -> by lia. assert (c - S p = O)%nat as -> by lia.
      unfold extra. rewrite decide_False by lia. cbn [take plus]. rewrite app_nil_r.
      eexists (Some (Some (l ++ [j]))), _. split; [done|]. split; [done|]. rewrite length_app. done.
    + unfold mret at 1, M_ret at 1. apply IH; rewrite ?length_app in *; cbn [length] in *; lia.
Qed.
Lemma rr_node_run num_cores i c r l : 0 <= num_cores ->
  (length l < n)%nat -> (length l + c + r <= n)%nat ->
  let cs := node_cores isbitset num_cores i in let e := extra c r cs in
  let l' := l ++ take (c + e) cs in
  let res := rr_node isbitset num_cores (Z.of_nat n) (Z.of_nat c) i (filled l 0 (Z.of_nat r)) in
  res.1 = Ret (if decide (length l' = n) then Some l' else None) /\
  (length l' <> n -> res.2 = filled l' 0 (Z.of_nat (r - e)) /\ (length l' < n)%nat).
Proof using Hmem.
  intros Hz Hl Hc cs e l' res. subst res. unfold rr_node, mbind, M_bind.
  destruct (rr_core_run i c (Z.to_nat num_cores) 0 0 r l) as (o & p' & E & Ho); [lia..|].
  rewrite Z2Nat.id, Nat.sub_0_r in E, Ho by lia.
  fold (node_cores isbitset num_cores i) in E, Ho. fold cs in E, Ho. fold e in E, Ho. fold l' in E, Ho.
  change (Z.of_nat 0) with 0 in E. rewrite E. destruct o as [[x|]|].
  - destruct Ho as [-> Ho]. cbn [fst snd mret M_ret]. rewrite decide_True by done. split; [done|]. done.
  - unfold set_per_node, modify. cbn. rewrite decide_False by lia. done.
  - unfold set_per_node, modify. cbn. rewrite decide_False by lia. done.
Qed.

Lemma spread_run num_cores c k : 0 <= num_cores -> forall i l r,
  (length l < n)%nat -> (length l + k * c + r <= n)%nat ->
  let l' := l ++ spread c r (map (node_cores isbitset num_cores) (seqZ i (Z.of_nat k))) in
  (mfor_ret k i (rr_node isbitset num_cores (Z.of_nat n) (Z.of_nat c)) (filled l 0 (Z.of_nat r))).1 =
  Ret (if decide (length l' = n) then Some l' else None).
Proof using Hmem.
  intros Hz. induction k as [|k IH]; intros i l r Hl Hc l'; subst l'.
  { change (seqZ i (Z.of_nat 0)) with (@nil Z). cbn [map spread mfor_ret]. rewrite app_nil_r.
    rewrite decide_False by lia. done. }
  rewrite seqZ_S. cbn [map spread mfor_ret]. unfold mbind at 1, M_bind at 1.
  set (cs := node_cores isbitset num_cores i). pose proof (extra_le c r cs) as He.
  destruct (rr_node_run num_cores i c r l) as [E1 E2]; [lia..|].
  fold cs in E1, E2. rewrite (surjective_pairing (rr_node _ _ _ _ _ _)), E1.
  assert (Hrest : (length (spread c (r - extra c r cs) (map (node_cores isbitset num_cores)
      (seqZ (i + 1) (Z.of_nat k)))) <= k * c + (r - extra c r cs))%nat).
  { etrans; [apply spread_length_le|]. rewrite length_map, length_seqZ, Nat2Z.id. lia. }
  assert (Hlen : (length (l ++ take (c + extra c r cs) cs) <= length l + c + extra c r cs)%nat).
  { rewrite length_app, length_take. lia. }
  rewrite app_assoc. destruct (decide (length (l ++ take (c + extra c r cs) cs) = n)) as [E|E].
  - rewrite (nil_length_inv (spread _ _ _)) by lia. rewrite app_nil_r, decide_True by done. done.
  - destruct (E2 E) as [-> ?]. apply IH; [done|]. lia.
Qed.
End run.

Lemma spread_full c nodes : forall r, (r <= length nodes)%nat ->
  Forall (fun cs => (c + (if decide (r = 0) then 0 else 1) <= length cs)%nat) nodes ->
  length (spread c r nodes) = (length nodes * c + r)%nat.
Proof.
  induction nodes as [|cs nodes IH]; intros r Hr Hf; cbn [spread length] in *; [lia|].
  apply Forall_cons in Hf as [Hcs Hf]. rewrite length_app, length_take.
  destruct (decide (r = 0%nat)) as [->|Hr0].
  - rewrite IH; [|lia|done]. unfold extra. rewrite decide_False by lia. lia.
  - assert (extra c r cs = 1%nat) as -> by (unfold extra; rewrite decide_True by lia; done).
    rewrite IH; [lia|lia|]. eapply Forall_impl; [exact Hf|]. cbn. intros x Hx. case_decide; lia.
Qed.

Lemma spread_sublist c nodes : forall r, spread c r nodes `sublist_of` concat nodes.
Proof.
  induction nodes as [|cs nodes IH]; intros r; cbn [spread concat]; [done|].
  apply sublist_app; [apply sublist_take|apply IH].
Qed.

Lemma all_nodes_NoDup isbitset num_cores numa_nodes :
  (forall i i' j, isbitset i j = true -> isbitset i' j = true -> i = i') ->
  NoDup (concat (all_nodes isbitset num_cores numa_nodes)).
Proof.
  intros Huniq. unfold all_nodes. pose proof (NoDup_seqZ 0 numa_nodes) as Hs.
  induction Hs as [|i ns Hi _ IH]; cbn [map concat]; [constructor|].
  apply NoDup_app. split; [apply NoDup_filter, NoDup_seqZ|]. split; [|done].
  intros j [Hb _]%list_elem_of_filter Hj. apply list_elem_of_In, in_concat in Hj as (cs & Hcs & Hj).
  apply in_map_iff in Hcs as (i' & <- & Hi'). apply list_elem_of_In, list_elem_of_filter in Hj as [Hb' _].
  apply Hi. rewrite (Huniq _ _ _ Hb Hb'). by apply list_elem_of_In.
Qed.

(** [C33] The cores a barrier benchmark runs on.  Filled node by node, the result holds the
    first [n] cores of the nodes; spread, it holds [n / nodes] cores of every node and one
    more of each of the first [n mod nodes] nodes that have another.  Every core is chosen
    once.  With too few cores the result is NULL; spread, it is NULL as well when a node is
    too small for its share, even if the machine has enough cores, and never when every node
    has its share and one core more. *)
Theorem placement_cores max_node configured_cpus isbitset (n : nat) (hyperthreads : bool) mem :
  0 <= max_node -> 0 <= configured_cpus -> (0 < n)%nat -> length mem = n ->
  (forall i i' j, isbitset i j = true -> isbitset i' j = true -> i = i') ->
  let nodes := all_nodes isbitset (if hyperthreads then configured_cpus / 2 else configured_cpus) (max_node + 1) in
  let c := (n / Z.to_nat (max_node + 1))%nat in
  let r := (n mod Z.to_nat (max_node + 1))%nat in
  let choice (do_fill : bool) := if do_fill then take n (concat nodes) else spread c r nodes in
  (forall available do_fill,
    placement max_node configured_cpus available isbitset (Z.of_nat n) do_fill hyperthreads mem =
    Ret (if decide (available = 0 /\ length (choice do_fill) = n) then Some (choice do_fill) else None)) /\
  (forall do_fill, NoDup (choice do_fill) /\ choice do_fill `sublist_of` concat nodes) /\
  (length (choice true) = n <-> (n <= length (concat nodes))%nat) /\
  (Forall (fun cs => (c + (if decide (r = 0%nat) then 0 else 1) <= length cs)%nat) nodes ->
    length (choice false) = n).
Proof.
  intros Hm Hcpus Hn Hmem Huniq nodes c r choice.
  assert (Hcores : 0 <= if hyperthreads then configured_cpus / 2 else configured_cpus).
  { destruct hyperthreads; [apply Z.div_pos|]; lia. }
  set (cores := if hyperthreads then _ else _) in *.
  assert (HN : length nodes = Z.to_nat (max_node + 1)).
  { subst nodes. unfold all_nodes. by rewrite length_map, length_seqZ. }
  assert (Hsub : forall do_fill, choice do_fill `sublist_of` concat nodes).
  { intros [|]; cbn; [apply sublist_take|apply spread_sublist]. }
  pose proof (Nat.div_mod_eq n (Z.to_nat (max_node + 1))) as Hdiv. fold c in Hdiv. fold r in Hdiv.
  pose proof (Nat.mod_upper_bound n (Z.to_nat (max_node + 1)) ltac:(lia)) as Hr. fold r in Hr.
  split_and!.
  - intros available do_fill. unfold placement. fold cores. destruct (decide (available = 0)) as [->|Ha].
    2:{ rewrite (proj2 (Z.eqb_neq _ _)) by done. rewrite decide_False by tauto. done. }
    cbn [Z.eqb negb]. destruct do_fill.
    + change (Picks mem 0 0 0) with (filled mem [] 0 0). rewrite (fill_run isbitset mem n) by (done || lia).
      fold nodes. unfold choice. rewrite length_take. repeat case_decide; try done; exfalso; lia.
    + assert (Z.of_nat n / (max_node + 1) = Z.of_nat c) as ->
        by (unfold c; rewrite Nat2Z.inj_div, Z2Nat.id by lia; done).
      assert (Z.of_nat n - Z.of_nat c * (max_node + 1) = Z.of_nat r) as -> by nia.
      change (Picks mem 0 0 (Z.of_nat r)) with (filled mem [] 0 (Z.of_nat r)).
      rewrite (spread_run isbitset mem n Hmem cores) by (cbn [length]; lia).
      rewrite Z2Nat.id by lia. cbn [app]. fold (all_nodes isbitset cores (max_node + 1)). fold nodes.
      unfold choice. repeat case_decide; tauto.
  - intros do_fill. split; [|apply Hsub].
    eapply sublist_NoDup; [|apply Hsub]. by apply all_nodes_NoDup.
  - unfold choice. rewrite length_take. lia.
  - intros Hf. unfold choice. rewrite spread_full; [lia|lia|]. eapply Forall_impl; [exact Hf|]. done.
Qed.

(** Two nodes of two cores each: three cores, filled and spread; one node with one core and
    one with three: four cores cannot be spread. *)
Definition even_machine (i j : Z) : bool := j mod 2 =? i.
Definition odd_machine (i j : Z) : bool := if j =? 0 then i =? 0 else i =? 1.
Example place_even : placement 1 4 0 even_machine 3 true false [9; 9; 9] = Ret (Some [0; 2; 1]) /\
  placement 1 4 0 even_machine 3 false false [9; 9; 9] = Ret (Some [0; 2; 1]) /\
  placement 1 4 0 even_machine 2 false false [9; 9] = Ret (Some [0; 1]).
Proof. by vm_compute. Qed.
Example place_odd : placement 1 4 0 odd_machine 4 true false [9; 9; 9; 9] = Ret (Some [0; 1; 2; 3]) /\
  placement 1 4 0 odd_machine 4 false false [9; 9; 9; 9] = Ret None.
Proof. by vm_compute. Qed.
Lemma placement_cores_witness :
  placement 1 4 0 odd_machine 4 false false [9; 9; 9; 9] = Ret None /\
  placement 1 4 0 even_machine 3 false false [9; 9; 9] = Ret (Some [0; 2; 1]).
Proof.
  destruct (placement_cores 1 4 odd_machine 4 false [9; 9; 9; 9]) as [E1 _]; [lia..|done| |].
  { intros i i' j. unfold odd_machine. destruct (j =? 0); intros ?%Z.eqb_eq ?%Z.eqb_eq; lia. }
  destruct (placement_cores 1 4 even_machine 3 false [9; 9; 9]) as [E2 _]; [lia..|done| |].
  { intros i i' j ?%Z.eqb_eq ?%Z.eqb_eq. lia. }
  split; [exact (E1 0 false)|exact (E2 0 false)].
Defined.

(** ** The placement of the scaling benchmark *)
Section batch.
(** [numa_max_node], [numa_num_configured_cpus], and the set of the cores of every node. *)
Context (max_node num_cores : Z) (isbitset : Z -> Z -> bool).

(** [choose_per_node], [num_selected], [curr_numa_idx]. *)
Record choosing := Choosing { ch_per_node : list Z; ch_selected : Z; ch_idx : Z }.

Definition cores_per_node : Z := num_cores / (max_node + 1).

(** One turn of the first loop. *)
Definition choose_turn (req_cores req_step : Z) : M choosing unit :=
  s ← get;
  x ← defined (arr_get (ch_per_node s) (ch_idx s));
  let num_choose := Z.min (Z.min req_step (u64 (req_cores - ch_selected s))) (u64 (cores_per_node - x)) in
  l ← defined (arr_set (ch_per_node s) (ch_idx s) (u64 (x + num_choose)));
  modify (fun _ => Choosing l (u64 (ch_selected s + num_choose)) ((ch_idx s + 1) mod (max_node + 1))).
Fixpoint choose_loop (fuel : nat) (req_cores req_step : Z) : M choosing unit :=
  s ← get;
  if ch_selected s <? req_cores then
    match fuel with
    | O => spin
    | S fuel' => _ ← choose_turn req_cores req_step; choose_loop fuel' req_cores req_step
    end
  else mret tt.

(** The state of the second loop: the array of the caller and [idx]. *)
Definition take_core_of (i p : Z) (choosen : Z) : M (list Z * Z) Z :=
  s ← get;
  if isbitset i p then
    l ← defined (arr_set s.1 s.2 p);
    _ ← modify (fun _ => (l, s.2 + 1));
    mret (choosen + 1)
  else mret choosen.
(** [k]: the processors that are left. *)
Fixpoint take_cores_of (k : nat) (i p choosen want : Z) : M (list Z * Z) unit :=
  match k with
  | O => mret tt
  | S k' =>
      if choosen <? want then
        c ← take_core_of i p choosen; take_cores_of k' i (p + 1) c want
      else mret tt
  end.
Definition take_node (choose_per_node : list Z) (i : Z) : M (list Z * Z) unit :=
  want ← defined (arr_get choose_per_node i);
  take_cores_of (Z.to_nat num_cores) i 0 0 want.

(** [fuel]: the turns the first loop may make; the result is what the array holds then. *)
Definition batch_placement (fuel : nat) (req_cores req_step : Z) (cores : list Z) : outcome (list Z) :=
  let req_step := if req_step =? 0 then 1 else req_step in
  match choose_loop fuel req_cores req_step (Choosing (replicate (Z.to_nat (max_node + 1)) 0) 0 0) with
  | (Ret _, s) =>
      match (_ ← mfor (Z.to_nat (max_node + 1)) 0 (take_node (ch_per_node s));
             r ← get; assert_ (r.2 =? req_cores)) (cores, 0) with
      | (Ret _, r) => Ret r.1
      | (Spin, _) => Spin | (Panic, _) => Panic | (Undef, _) => Undef
      end
  | (Spin, _) => Spin | (Panic, _) => Panic | (Undef, _) => Undef
  end.
End batch.

(** ** The choice of the first loop *)
Definition zsum (l : list Z) : Z := foldr Z.add 0 l.

Lemma zsum_insert l : forall i x y, l !! i = Some x -> zsum (<[i := y]> l) = zsum l - x + y.
Proof.
  induction l as [|z l IH]; intros [|i] x y E; try done.
  - injection E as ->. cbn. lia.
  - change (z + zsum (<[i := y]> l) = z + zsum l - x + y). rewrite (IH i x y E). lia.
Qed.
Lemma zsum_le c l : Forall (fun x => x <= c) l -> zsum l <= Z.of_nat (length l) * c.
Proof. induction 1; cbn [zsum foldr length] in *; [lia|]. unfold zsum in *. lia. Qed.
Lemma zsum_const c l : Forall (fun x => x = c) l -> zsum l = Z.of_nat (length l) * c.
Proof. induction 1; cbn [zsum foldr length] in *; [lia|]. unfold zsum in *. lia. Qed.
Lemma zsum_pos l : Forall (fun x => 0 <= x) l -> 0 <= zsum l.
Proof. induction 1; cbn in *; [lia|]. unfold zsum in *. lia. Qed.

Section choose.
Context (N : nat) (num_cores step req : Z).
Let C := num_cores / Z.of_nat N.
Context (HN : (0 < N)%nat) (HC : 0 <= C < 2 ^ 64) (Hstep : 0 < step < 2 ^ 64) (Hreq : 0 <= req < 2 ^ 64).

(** What a node gives after [q] turns. *)
Definition level (q : nat) : Z := Z.min C (step * Z.of_nat q).

(** The loop has visited every node [q] times, and the first [i] once more; every visit
    chose as many cores as it might. *)
Record turns (q i : nat) (s : choosing) : Prop := {
  t_length : length (ch_per_node s) = N;
  t_sum : ch_selected s = zsum (ch_per_node s);
  t_idx : ch_idx s = Z.of_nat i /\ (i < N)%nat;
  t_level j x : ch_per_node s !! j = Some x -> x = level (if decide (j < i)%nat then S q else q) }.
(** The choice when the loop has ended. *)
Record chosen (l : list Z) : Prop := {
  c_length : length l = N;
  c_sum : zsum l = req;
  c_level : exists q, Forall (fun x => level q <= x <= level (S q)) l }.

Lemma level_bounds q : 0 <= level q <= level (S q) /\ level (S q) <= C /\
  level (S q) = level q + Z.min step (C - level q).
Proof using HC Hstep. clear HN. unfold level. rewrite Nat2Z.inj_succ. nia. Qed.

Lemma turns_bound q i s : turns q i s -> Forall (fun x => 0 <= x <= C) (ch_per_node s).
Proof using HN HC Hstep.
  intros H. apply Forall_lookup. intros j x ->%(t_level _ _ _ H). destruct (level_bounds q).
  case_decide; lia.
Qed.

Lemma turns_start : turns 0 0 (Choosing (replicate N 0) 0 0).
Proof using HN HC.
  split; cbn [ch_per_node ch_selected ch_idx].
  - apply length_replicate.
  - symmetry. rewrite (zsum_const 0), Z.mul_0_r; [done|]. apply Forall_replicate. done.
  - lia.
  - intros j x [-> _]%lookup_replicate. rewrite decide_False by lia. unfold level. lia.
Qed.

(** One turn: the next node is visited, or the choice is complete. *)
Lemma choose_turn_run q i s : turns q i s -> ch_selected s < req ->
  exists s', choose_turn (Z.of_nat N - 1) num_cores req step s = (Ret tt, s') /\
    ((ch_selected s' <= req /\ turns (if decide (S i = N) then S q else q) (if decide (S i = N) then 0 else S i) s') \/
     (ch_selected s' = req /\ chosen (ch_per_node s'))).
Proof using HN HC Hstep Hreq.
  intros H Hlt. pose proof (turns_bound q i s H) as Hb. destruct H as [Hl Hs [Hi HiN] Hlev].
  destruct (lookup_lt_is_Some_2 (ch_per_node s) i) as [x Ex]; [lia|].
  pose proof (Hlev _ _ Ex) as Hx. rewrite decide_False in Hx by lia.
  destruct (level_bounds q) as (H1 & H2 & H3).
  assert (0 <= ch_selected s). { rewrite Hs. apply zsum_pos. eapply Forall_impl; [exact Hb|]. cbn. lia. }
  unfold choose_turn, mbind, M_bind, get, defined. rewrite Hi, arr_get_nat, Ex. cbn [mret M_ret].
  replace (Z.of_nat N - 1 + 1) with (Z.of_nat N) by lia.
  unfold cores_per_node. replace (Z.of_nat N - 1 + 1) with (Z.of_nat N) by lia. fold C.
  rewrite (wrap_small 64 (req - _)), (wrap_small 64 (C - _)) by lia. rewrite !(wrap_small 64) by lia.
  rewrite arr_set_nat by lia.
  set (k := Z.min (Z.min step (req - ch_selected s)) (C - x)).
  unfold modify. eexists. split; [reflexivity|]. cbn [ch_per_node ch_selected ch_idx].
  assert (Hsum : zsum (<[i := x + k]> (ch_per_node s)) = ch_selected s + k).
  { rewrite (zsum_insert _ i x) by done. lia. }
  assert (Hk : ch_selected s + k < req -> x + k = level (S q)) by lia.
  destruct (decide (ch_selected s + k < req)) as [Hmore|Hmore]; [left|right].
  - split; [lia|]. split; cbn [ch_per_node ch_selected ch_idx].
    + by rewrite length_insert.
    + done.
    + case_decide as Ed.
      * replace (Z.of_nat i + 1) with (1 * Z.of_nat N) by lia. rewrite Z_mod_mult. lia.
      * rewrite Z.mod_small by lia. lia.
    + intros j y Ej. destruct (decide (i = j)) as [<-|Hij].
      * rewrite list_lookup_insert_eq in Ej by lia. injection Ej as <-. rewrite Hk by done.
        repeat case_decide; try lia; done.
      * rewrite list_lookup_insert_ne in Ej by done. pose proof (lookup_lt_Some _ _ _ Ej).
        rewrite (Hlev _ _ Ej). repeat case_decide; try lia; done.
  - split; [lia|]. split.
    + by rewrite length_insert.
    + lia.
    + exists q. apply Forall_insert; [|lia]. apply Forall_lookup. intros j y ->%Hlev. case_decide; lia.
Qed.
Lemma choose_loop_full fuel s : req <= ch_selected s ->
  choose_loop (Z.of_nat N - 1) num_cores fuel req step s = (Ret tt, s).
Proof using. clear. intros. destruct fuel; cbn [choose_loop]; unfold mbind, M_bind, get; by rewrite (proj2 (Z.ltb_ge _ _)). Qed.

Lemma choose_loop_turn fuel s s' : ch_selected s < req ->
  choose_turn (Z.of_nat N - 1) num_cores req step s = (Ret tt, s') ->
  choose_loop (Z.of_nat N - 1) num_cores (S fuel) req step s =
  choose_loop (Z.of_nat N - 1) num_cores fuel req step s'.
Proof using.
  clear. intros Hlt E. cbn [choose_loop]. unfold mbind, M_bind, get at 1.
  rewrite (proj2 (Z.ltb_lt _ _)) by done. by rewrite E.
Qed.

Lemma turns_chosen q i s : turns q i s -> ch_selected s = req -> chosen (ch_per_node s).
Proof using HN HC Hstep.
  intros [Hl Hs _ Hlev] Hfull. split; [done|lia|]. exists q. apply Forall_lookup. intros j x ->%Hlev.
  destruct (level_bounds q). case_decide; lia.
Qed.

(** Enough turns choose as many cores as are asked for, when the nodes have them. *)
Lemma choose_loop_ends fuel : forall q i s, turns q i s -> ch_selected s <= req ->
  req <= Z.of_nat N * C -> Z.of_nat N * C <= Z.of_nat (q * N + i + fuel) ->
  exists s', choose_loop (Z.of_nat N - 1) num_cores fuel req step s = (Ret tt, s') /\ chosen (ch_per_node s').
Proof using HN HC Hstep Hreq.
  induction fuel as [|fuel IH]; intros q i s H Hle Hcap Hfuel;
    destruct (decide (ch_selected s < req)) as [Hlt|Hge].
  - exfalso. destruct H as [Hl Hs [_ Hi] Hlev].
    rewrite (zsum_const C) in Hs; [nia|]. apply Forall_lookup. intros j x ->%Hlev.
    assert (C <= Z.of_nat q) by nia. unfold level. case_decide; nia.
  - exists s. rewrite choose_loop_full by lia. split; [done|]. apply (turns_chosen q i); [done|lia].
  - destruct (choose_turn_run q i s H Hlt) as (s1 & E & Hs1).
    rewrite (choose_loop_turn _ _ _ Hlt E). pose proof (proj2 (t_idx _ _ _ H)).
    destruct Hs1 as [[Hle1 Ht]|[Hf Hc]].
    + eapply IH; [exact Ht|done|done|]. case_decide; nia.
    + exists s1. by rewrite choose_loop_full by lia.
  - exists s. rewrite choose_loop_full by lia. split; [done|]. apply (turns_chosen q i); [done|lia].
Qed.

(** Otherwise the loop never ends. *)
Lemma choose_loop_diverges fuel : forall q i s, turns q i s -> Z.of_nat N * C < req ->
  (choose_loop (Z.of_nat N - 1) num_cores fuel req step s).1 = Spin.
Proof using HN HC Hstep Hreq.
  induction fuel as [|fuel IH]; intros q i s H Hcap;
    pose proof (turns_bound q i s H) as Hb;
    (assert (Hlt : ch_selected s < req);
      [rewrite (t_sum _ _ _ H); eapply Z.le_lt_trans;
         [apply (zsum_le C); eapply Forall_impl; [exact Hb|]; cbn; lia|];
       by rewrite (t_length _ _ _ H)|]).
  - cbn [choose_loop]. unfold mbind, M_bind, get. by rewrite (proj2 (Z.ltb_lt _ _)).
  - destruct (choose_turn_run q i s H Hlt) as (s1 & E & [[_ Ht]|[_ Hc]]);
      rewrite (choose_loop_turn _ _ _ Hlt E); [by eapply IH|].
    exfalso. destruct Hc as [Hl Hs [q' Hq]]. assert (zsum (ch_per_node s1) <= Z.of_nat N * C); [|lia].
    rewrite <- Hl. apply zsum_le. eapply Forall_impl; [exact Hq|]. cbn. intros x ?.
    destruct (level_bounds q'). lia.
Qed.
End choose.

(** ** The cores of the second loop *)
Section taking.
Context (num_cores : Z) (isbitset : Z -> Z -> bool) (mem : list Z).

Definition placed (l : list Z) : list Z * Z := (l ++ drop (length l) mem, Z.of_nat (length l)).
Definition parts (choose : list Z) (nodes : list (list Z)) : list Z :=
  concat (zip_with (fun w cs => take (Z.to_nat w) cs) choose nodes).

Lemma take_cores_run i k : forall p c want l, 0 <= c <= want ->
  Z.of_nat (length l) + (want - c) <= Z.of_nat (length mem) ->
  take_cores_of isbitset k i p c want (placed l) =
  (Ret tt, placed (l ++ take (Z.to_nat (want - c)) (filter (fun j => isbitset i j = true) (seqZ p (Z.of_nat k))))).
Proof using Type.
  induction k as [|k IH]; intros p c want l Hc Hl; cbn [take_cores_of].
  { change (seqZ p (Z.of_nat 0)) with (@nil Z). rewrite filter_nil, take_nil, app_nil_r. done. }
  destruct (Z.ltb_spec c want) as [Hlt|Hge].
  2:{ assert (Z.to_nat (want - c) = O) as -> by lia. by rewrite take_0, app_nil_r. }
  unfold take_core_of, mbind, M_bind, get. rewrite seqZ_S, filter_cons. destruct (isbitset i p) eqn:Eb.
  - rewrite decide_True by done. cbn [fst snd placed]. rewrite arr_fill by lia. cbn [defined mret M_ret modify].
    replace (Z.of_nat (length l) + 1) with (Z.of_nat (length (l ++ [p]))) by (rewrite length_app; cbn [length]; lia).
    fold (placed (l ++ [p])). rewrite IH by (rewrite ?length_app; cbn [length]; lia).
    replace (Z.to_nat (want - c)) with (S (Z.to_nat (want - (c + 1)))) by lia.
    cbn [firstn]. by rewrite <- app_assoc.
  - rewrite decide_False by done. cbn [mret M_ret]. by apply IH.
Qed.

Lemma take_nodes_run choose k : forall j l, 0 <= num_cores ->
  Forall (fun x => 0 <= x) choose -> (j + k = length choose)%nat ->
  Z.of_nat (length l) + zsum (drop j choose) <= Z.of_nat (length mem) ->
  mfor k (Z.of_nat j) (take_node num_cores isbitset choose) (placed l) =
  (Ret tt, placed (l ++ parts (drop j choose)
    (map (node_cores isbitset num_cores) (seqZ (Z.of_nat j) (Z.of_nat k))))).
Proof using Type.
  induction k as [|k IH]; intros j l Hn Hpos Hj Hl; cbn [mfor].
  { change (seqZ (Z.of_nat j) (Z.of_nat 0)) with (@nil Z). unfold parts. cbn [map].
    rewrite zip_with_nil_r. cbn [concat]. by rewrite app_nil_r. }
  destruct (lookup_lt_is_Some_2 choose j) as [w Ew]; [lia|].
  pose proof (Forall_lookup_1 _ _ _ _ Hpos Ew) as Hw. cbn in Hw.
  rewrite (drop_S _ _ _ Ew) in Hl |- *. change (zsum (w :: drop (S j) choose)) with (w + zsum (drop (S j) choose)) in Hl.
  assert (0 <= zsum (drop (S j) choose)) by (apply zsum_pos, Forall_drop; done).
  unfold mbind, M_bind, take_node. rewrite arr_get_nat, Ew. cbn [defined mret M_ret].
  unfold mbind, M_bind. cbn [mret M_ret].
  rewrite take_cores_run, Z.sub_0_r, Z2Nat.id by lia. fold (node_cores isbitset num_cores (Z.of_nat j)).
  replace (Z.of_nat j + 1) with (Z.of_nat (S j)) by lia.
  rewrite IH; [|done|done|lia|rewrite length_app, length_take; lia].
  rewrite seqZ_S. replace (Z.of_nat j + 1) with (Z.of_nat (S j)) by lia.
  unfold parts. cbn [map zip_with concat]. by rewrite app_assoc.
Qed.
End taking.

Lemma parts_length choose : forall nodes, Forall2 (fun w cs => 0 <= w <= Z.of_nat (length cs)) choose nodes ->
  Z.of_nat (length (parts choose nodes)) = zsum choose.
Proof.
  intros nodes H. induction H as [|w cs choose nodes [? ?] H IH]; [done|].
  unfold parts, zsum in *. cbn [zip_with concat foldr]. rewrite length_app, length_take, Nat2Z.inj_add, IH. lia.
Qed.

Lemma parts_sublist choose : forall nodes, parts choose nodes `sublist_of` concat nodes.
Proof.
  induction choose as [|w choose IH]; intros [|cs nodes]; unfold parts; cbn [zip_with concat];
    [done|apply sublist_nil_l|done|].
  apply sublist_app; [apply sublist_take|apply IH].
Qed.

Lemma batch_parts max_node num_cores isbitset choose req step cores :
  0 <= max_node -> 0 <= num_cores -> req <= Z.of_nat (length cores) ->
  Forall (fun cs => cores_per_node max_node num_cores <= Z.of_nat (length cs)) (all_nodes isbitset num_cores (max_node + 1)) ->
  0 < step -> chosen (Z.to_nat (max_node + 1)) num_cores step req choose ->
  let l := parts choose (all_nodes isbitset num_cores (max_node + 1)) in
  Z.of_nat (length l) = req /\
  mfor (Z.to_nat (max_node + 1)) 0 (take_node num_cores isbitset choose) (cores, 0) = (Ret tt, placed cores l).
Proof.
  intros Hm Hn Hreq Hnodes Hstep [Hl Hs [q Hq]] l.
  assert (Hpos : Forall (fun x => 0 <= x <= cores_per_node max_node num_cores) choose).
  { eapply Forall_impl; [exact Hq|]. cbn. intros x. unfold level, cores_per_node.
    rewrite Z2Nat.id by lia. pose proof (Z.div_pos num_cores (max_node + 1)). lia. }
  split.
  - subst l. rewrite parts_length; [done|]. apply Forall2_same_length_lookup_2.
    { unfold all_nodes. rewrite length_map, length_seqZ. lia. }
    intros j w cs Ew Ecs. pose proof (Forall_lookup_1 _ _ _ _ Hpos Ew) as H1.
    pose proof (Forall_lookup_1 _ _ _ _ Hnodes Ecs) as H2. cbn in H1, H2. lia.
  - subst l. unfold all_nodes. change (cores, 0) with (placed cores []).
    pose proof (take_nodes_run num_cores isbitset cores choose (Z.to_nat (max_node + 1)) 0 []) as E.
    change (Z.of_nat 0) with 0 in E. rewrite E.
    + rewrite drop_0, Z2Nat.id by lia. done.
    + lia.
    + eapply Forall_impl; [exact Hpos|]. cbn. lia.
    + lia.
    + rewrite drop_0. cbn [length]. lia.
Qed.

(** [C31] The placement of the scaling benchmark.  When every one of the [N] nodes has the
    [cores / N] cores the loop counts on and at most [N * (cores / N)] cores are asked for,
    it ends within as many turns, the assertion holds, and the caller's array holds exactly
    as many cores as asked for, each of them once; all nodes give equally much, up to one
    batch.  When more cores are asked for - as they may be if [N] does not divide the number
    of cores - the loop never ends. *)
Theorem batch_placement_ends max_node num_cores isbitset req step cores fuel :
  0 <= max_node -> 0 <= num_cores < 2 ^ 64 -> 0 <= req < 2 ^ 64 -> 0 <= step < 2 ^ 64 ->
  let C := cores_per_node max_node num_cores in
  let nodes := all_nodes isbitset num_cores (max_node + 1) in
  ((max_node + 1) * C < req -> batch_placement max_node num_cores isbitset fuel req step cores = Spin) /\
  (req <= (max_node + 1) * C -> (max_node + 1) * C <= Z.of_nat fuel ->
    req <= Z.of_nat (length cores) -> Forall (fun cs => C <= Z.of_nat (length cs)) nodes ->
    exists choose, chosen (Z.to_nat (max_node + 1)) num_cores (if step =? 0 then 1 else step) req choose /\
      Z.of_nat (length (parts choose nodes)) = req /\ parts choose nodes `sublist_of` concat nodes /\
      batch_placement max_node num_cores isbitset fuel req step cores =
      Ret (parts choose nodes ++ drop (Z.to_nat req) cores)).
Proof.
  intros Hm Hn Hreq Hs C nodes. set (N := Z.to_nat (max_node + 1)).
  assert (HN : Z.of_nat N = max_node + 1) by (subst N; lia). rewrite <- HN.
  assert (HC : 0 <= num_cores / Z.of_nat N < 2 ^ 64).
  { split; [apply Z.div_pos; lia|]. apply Z.div_lt_upper_bound; nia. }
  assert (EC : C = num_cores / Z.of_nat N) by (subst C; unfold cores_per_node; by rewrite HN).
  set (s := if step =? 0 then 1 else step).
  assert (Hs' : 0 < s < 2 ^ 64) by (subst s; destruct (Z.eqb_spec step 0); lia).
  assert (HN0 : (0 < N)%nat) by lia. assert (Em : max_node = Z.of_nat N - 1) by lia.
  pose proof (turns_start N num_cores s HN0 HC) as Ht.
  unfold batch_placement. fold s N. rewrite EC, Em. split.
  - intros Hcap. pose proof (choose_loop_diverges N num_cores s req HN0 HC Hs' Hreq fuel 0 0 _ Ht Hcap) as E.
    destruct (choose_loop _ _ _ _ _ _) as [o s']. cbn in E. by subst o.
  - intros Hcap Hfuel Hlen Hnodes.
    destruct (choose_loop_ends N num_cores s req HN0 HC Hs' Hreq fuel 0 0 _ Ht) as (s1 & -> & Hc);
      [cbn; lia|done|lia|].
    destruct (batch_parts max_node num_cores isbitset (ch_per_node s1) req s cores) as [El E];
      [lia..|by rewrite <- EC in Hnodes|lia|done|].
    fold nodes in El, E. fold N in E. exists (ch_per_node s1). split_and!; [done|done|apply parts_sublist|].
    unfold mbind, M_bind. rewrite E. unfold get. cbn [placed fst snd]. rewrite El, Z.eqb_refl. cbn.
    by rewrite <- El, Nat2Z.id.
Qed.

Example batch_even : batch_placement 1 4 even_machine 9 3 1 [9; 9; 9] = Ret [0; 2; 1] /\
  batch_placement 1 4 even_machine 9 3 2 [9; 9; 9] = Ret [0; 2; 1] /\
  batch_placement 1 5 even_machine 99 5 2 [9; 9; 9; 9; 9] = Spin /\
  batch_placement 1 4 odd_machine 9 3 2 [9; 9; 9] = Panic.
Proof. vm_compute. auto. Qed.
Lemma batch_placement_ends_witness :
  batch_placement 1 5 even_machine 99 5 2 [9; 9; 9; 9; 9] = Spin /\
  exists choose, chosen 2 4 2 3 choose /\
    batch_placement 1 4 even_machine 4 3 2 [9; 9; 9] = Ret (parts choose [[0; 2]; [1; 3]]).
Proof.
  destruct (batch_placement_ends 1 5 even_machine 5 2 [9; 9; 9; 9; 9] 99) as [E1 _]; [lia..|].
  destruct (batch_placement_ends 1 4 even_machine 3 2 [9; 9; 9] 4) as [_ E2]; [lia..|].
  split; [apply E1; by vm_compute|].
  destruct E2 as (choose & Hc & _ & _ & E); [by vm_compute..| |].
  { change (all_nodes even_machine 4 (1 + 1)) with [[0; 2]; [1; 3]]. repeat constructor; by vm_compute. }
  exists choose. split; [exact Hc|]. rewrite E. change (drop (Z.to_nat 3) [9; 9; 9]) with (@nil Z).
  change (all_nodes even_machine 4 (1 + 1)) with [[0; 2]; [1; 3]]. by rewrite app_nil_r.
Defined.
