(* ===== verification/Machines.v ===== *)
(** The machines of the benchmark of optimal trees ([bench/ab-bench-opt.c]): for each, the
    matrix of a tree over eight of its cores, with the leaves, the root and the cores of the
    tree written down beside it. *)
From stdpp Require Import strings sorting.
From S2P Require Import Prelude Errors Topology.

(** ** Data *)

(** A matrix by its entries other than 0: rows, and in them columns and values. *)
Definition assoc {A} (i : Z) (l : list (Z * A)) : option A := snd <$> list_find (fun e => e.1 = i) l ≫= fun e => Some e.2.
Definition matrix (n : nat) (rows : list (Z * list (Z * Z))) : list Z :=
  concat (tab n (fun x => tab n (fun y => default 0 (r ← assoc (Z.of_nat x) rows; assoc (Z.of_nat y) r)))).
(** An array of [n] entries of which the first are given. *)
Definition padded (n : nat) (l : list Z) : list Z := l ++ replicate (n - length l) 0.

(** What [main] copies for the machine: [leafs], [root], [matrix], [num_leafs], [num_cores], [cores]. *)
Record machine := Machine {
  mc_leafs : list Z;
  mc_root : Z;
  mc_matrix : list Z;
  mc_num_leafs : Z;
  mc_num_cores : Z;
  mc_cores : list Z;
}.

Definition r815 : list Z := matrix 32
  [(0, [(4, 1); (8, 7); (12, 2); (16, 3); (20, 4); (24, 5); (28, 6)]);
   (4, [(0, 99)]);
   (8, [(0, 99)]);
   (12, [(0, 99)]);
   (16, [(0, 99)]);
   (20, [(0, 99)]);
   (24, [(0, 99)]);
   (28, [(0, 99)])].
Definition machine_r815 : machine :=
  Machine (padded 32 [4; 8; 16; 12; 20; 24; 28]) 0 r815 7 32
    [0; 4; 8; 12; 16; 20; 24; 28].
Definition r820 : list Z := matrix 64
  [(0, [(8, 2); (12, 3); (20, 1); (24, 4); (28, 5)]);
   (4, [(20, 99)]);
   (8, [(0, 99)]);
   (12, [(0, 99)]);
   (16, [(20, 99)]);
   (20, [(0, 99); (4, 2); (16, 1)]);
   (24, [(0, 99)]);
   (28, [(0, 99)])].
Definition machine_r820 : machine :=
  Machine (padded 64 [8; 12; 24; 28; 16; 4]) 0 r820 6 64
    [0; 4; 8; 12; 16; 20; 24; 28].
Definition r8202 : list Z := matrix 64
  [(0, [(16, 3); (32, 5); (40, 1); (48, 4); (56, 2)]);
   (8, [(40, 99)]);
   (16, [(0, 99)]);
   (24, [(56, 99)]);
   (32, [(0, 99)]);
   (40, [(0, 99); (8, 1)]);
   (48, [(0, 99)]);
   (56, [(0, 99); (24, 1)])].
Definition machine_r8202 : machine :=
  Machine (padded 64 [8; 16; 24; 32; 48]) 0 r8202 5 64
    [0; 8; 16; 24; 32; 40; 48; 56].
Definition gottardo : list Z := matrix 32
  [(0, [(4, 99)]);
   (4, [(0, 1); (8, 99)]);
   (8, [(4, 1); (12, 6); (16, 2); (20, 5); (24, 3); (28, 4)]);
   (12, [(8, 99)]);
   (16, [(8, 99)]);
   (20, [(8, 99)]);
   (24, [(8, 99)]);
   (28, [(8, 99)])].
Definition machine_gottardo : machine :=
  Machine (padded 32 [0; 16; 12; 20; 24; 28]) 8 gottardo 6 32
    [0; 4; 8; 12; 16; 20; 24; 28].
Definition gottardo2 : list Z := matrix 32
  [(0, [(2, 99)]);
   (2, [(0, 5); (4, 6); (6, 7); (8, 1); (10, 2); (12, 4); (14, 3)]);
   (4, [(2, 99)]);
   (6, [(2, 99)]);
   (8, [(2, 99)]);
   (10, [(2, 99)]);
   (12, [(2, 99)]);
   (14, [(2, 99)])].
Definition machine_gottardo2 : machine :=
  Machine (padded 32 [0; 4; 6; 8; 10; 12; 14]) 2 gottardo2 7 32
    [0; 2; 4; 6; 8; 10; 12; 14].
Definition gottardo3 : list Z := matrix 32
  [(0, [(2, 1); (7, 99)]);
   (1, [(7, 99)]);
   (3, [(7, 99)]);
   (4, [(7, 99)]);
   (5, [(7, 99)]);
   (6, [(7, 99)]);
   (7, [(7, 99)]);
   (8, [(0, 1); (1, 2); (3, 6); (4, 3); (5, 4); (6, 5)])].
Definition machine_gottardo3 : machine :=
  Machine (padded 32 [1; 2; 3; 4; 5; 6]) 7 gottardo3 6 32
    [0; 1; 2; 3; 4; 5; 6; 7].
Definition gruyere : list Z := matrix 32
  [(0, [(14, 99)]);
   (2, [(8, 99)]);
   (4, [(10, 99)]);
   (6, [(14, 99)]);
   (8, [(2, 1); (14, 99)]);
   (10, [(4, 1); (12, 2); (14, 99)]);
   (12, [(10, 99)]);
   (14, [(0, 3); (6, 4); (8, 2); (10, 1)])].
Definition machine_gruyere : machine :=
  Machine (padded 32 [0; 2; 4; 6; 12]) 14 gruyere 5 32
    [0; 2; 4; 6; 8; 10; 12; 14].
Definition sbrinz : list Z := matrix 16
  [(0, [(6, 99)]);
   (2, [(4, 99)]);
   (4, [(2, 4); (6, 1); (10, 3); (12, 2)]);
   (6, [(0, 2); (4, 99); (8, 1)]);
   (8, [(6, 99)]);
   (10, [(4, 99)]);
   (12, [(4, 99); (14, 1)]);
   (14, [(12, 99)])].
Definition machine_sbrinz : machine :=
  Machine (padded 16 [0; 2; 8; 12; 14]) 4 sbrinz 5 16
    [0; 2; 4; 6; 8; 10; 12; 14].
Definition babybel : list Z := matrix 20
  [(0, [(3, 1); (6, 99); (7, 2)]);
   (1, [(6, 99)]);
   (2, [(6, 99)]);
   (3, [(0, 99)]);
   (4, [(6, 99)]);
   (5, [(6, 99)]);
   (6, [(0, 1); (1, 2); (2, 3); (4, 4); (5, 5)]);
   (7, [(0, 99)])].
Definition machine_babybel : machine :=
  Machine (padded 20 [1; 2; 3; 4; 5; 7]) 6 babybel 6 20
    [0; 1; 2; 3; 4; 5; 6; 7].
Definition babybel2 : list Z := matrix 20
  [(0, [(1, 5); (2, 6); (3, 7); (10, 1); (11, 2); (12, 4); (13, 3)]);
   (1, [(0, 99)]);
   (2, [(0, 99)]);
   (3, [(0, 99)]);
   (10, [(0, 99)]);
   (11, [(0, 99)]);
   (12, [(0, 99)]);
   (13, [(0, 99)])].
Definition machine_babybel2 : machine :=
  Machine (padded 16 [1; 2; 3; 10; 11; 12; 13]) 0 babybel2 6 20
    [0; 1; 2; 3; 10; 11; 12; 13].
Definition appenzeller : list Z := matrix 48
  [(0, [(4, 1); (8, 2); (16, 4); (28, 3)]);
   (4, [(0, 99); (20, 1); (24, 2)]);
   (8, [(0, 99); (12, 1)]);
   (11, [(8, 99)]);
   (16, [(0, 99)]);
   (20, [(4, 99)]);
   (24, [(4, 99)]);
   (28, [(0, 99)])].
Definition machine_appenzeller : machine :=
  Machine (padded 48 [12; 16; 20; 24; 28]) 0 appenzeller 5 48
    [0; 4; 8; 12; 16; 20; 24; 28].
Definition appenzeller2 : list Z := matrix 48
  [(0, [(2, 99)]);
   (2, [(0, 1); (6, 2); (10, 99)]);
   (4, [(10, 99)]);
   (6, [(2, 99)]);
   (8, [(10, 99)]);
   (10, [(2, 1); (4, 3); (8, 4); (14, 2)]);
   (12, [(14, 99)]);
   (14, [(6, 1); (10, 99)])].
Definition machine_appenzeller2 : machine :=
  Machine (padded 48 [0; 4; 6; 8; 12]) 10 appenzeller2 5 48
    [0; 2; 4; 6; 8; 10; 12; 14].

Open Scope string_scope.
Definition select_machine (name : string) : option machine :=
  if String.eqb name "gottardo" then Some machine_gottardo
  else if String.eqb name "gottardo2" then Some machine_gottardo2
  else if String.eqb name "gottardo3" then Some machine_gottardo3
  else if String.eqb name "sgs-r820-01" then Some machine_r820
  else if String.eqb name "sgs-r820-01_2" then Some machine_r8202
  else if String.eqb name "sgs-r815-03" then Some machine_r815
  else if String.eqb name "sbrinz" then Some machine_sbrinz
  else if String.eqb name "gruyere" then Some machine_gruyere
  else if String.eqb name "babybel" then Some machine_babybel
  else if String.eqb name "babybel2" then Some machine_babybel2
  else if String.eqb name "appenzeller" then Some machine_appenzeller
  else if String.eqb name "appenzeller2" then Some machine_appenzeller2
  else None.
Close Scope string_scope.

(** The model of the topology ["optimal"]; [num_leafs] is whatever the block holds: the
    program does not set it. *)
Definition optimal_model (mc : machine) (num_leafs : Z) : smlt_generated_model :=
  Model (mc_num_cores mc) (mc_num_cores mc) (mc_root mc) (mc_matrix mc) num_leafs (mc_leafs mc).

(** ** Trees given by their lists of children *)
Section forest.
Context (root : nat) (kids : list (list nat)).

Fixpoint par_from (x : nat) (l : list (list nat)) (y : nat) : option (nat * nat) :=
  match l with
  | [] => None
  | ys :: l' => match list_find (fun z => z = y) ys with Some (k, _) => Some (x, k) | None => par_from (S x) l' y end
  end.
Definition forest : tree := Tree (length kids) root (fun x => default [] (kids !! x)) (par_from 0 kids).

Fixpoint depth (fuel y : nat) : nat :=
  match fuel with
  | O => O
  | S f => match par_from 0 kids y with Some (x, _) => S (depth f x) | None => O end
  end.

Definition forest_ok : bool :=
  bool_decide (root < length kids)%nat && bool_decide (NoDup (concat kids)) &&
  forallb (fun y => (y <? length kids)%nat && negb (y =? root)%nat) (concat kids) &&
  forallb (fun y => match par_from 0 kids y with
                    | Some (x, _) => (depth (length kids) x <? depth (length kids) y)%nat
                    | None => true end) (concat kids).

Lemma par_from_Some l : forall x0 y x k, par_from x0 l y = Some (x, k) ->
  (x0 <= x)%nat /\ exists ys, l !! (x - x0)%nat = Some ys /\ ys !! k = Some y.
Proof.
  induction l as [|ys l IH]; intros x0 y x k; cbn [par_from]; [done|].
  destruct (list_find _ ys) as [[k' z]|] eqn:E.
  - intros [= -> ->]. apply list_find_Some in E as (E & -> & _). split; [lia|].
    rewrite Nat.sub_diag. by exists ys.
  - intros [? (ys' & E1 & E2)]%IH. split; [lia|]. exists ys'.
    replace (x - x0)%nat with (S (x - S x0)) by lia. done.
Qed.

Lemma par_from_find l : forall x0 y x k ys, NoDup (concat l) ->
  l !! x = Some ys -> ys !! k = Some y -> par_from x0 l y = Some ((x0 + x)%nat, k).
Proof.
  induction l as [|zs l IH]; intros x0 y x k ys Hnd Hx Hk; [done|].
  cbn [concat] in Hnd. apply NoDup_app in Hnd as (Hz & Hd & Hl). cbn [par_from].
  destruct x as [|x].
  - injection Hx as ->. destruct (list_find _ ys) as [[k' z]|] eqn:E.
    + apply list_find_Some in E as (E & -> & _). rewrite (NoDup_lookup _ _ _ _ Hz E Hk). by rewrite Nat.add_0_r.
    + apply list_find_None in E. rewrite Forall_forall in E. exfalso. eapply E; [|done]. by eapply list_elem_of_lookup_2.
  - cbn in Hx. destruct (list_find _ zs) as [[k' z]|] eqn:E.
    + apply list_find_Some in E as (E & -> & _). exfalso. eapply Hd; [by eapply list_elem_of_lookup_2|].
      apply list_elem_of_In, in_concat. exists ys. split; apply list_elem_of_In; by eapply list_elem_of_lookup_2.
    + rewrite (IH (S x0) y x k ys) by done. f_equal. f_equal. lia.
Qed.

Lemma forest_ok_wf : forest_ok = true -> forest_wf forest.
Proof.
  unfold forest_ok. intros H. apply andb_true_iff in H as [H Hrank]. apply andb_true_iff in H as [H Hin].
  apply andb_true_iff in H as [Hr%bool_decide_eq_true Hnd%bool_decide_eq_true].
  rewrite forallb_forall in Hin, Hrank.
  assert (Hmem : forall x k y, par_from 0 kids y = Some (x, k) -> (x < length kids)%nat /\ In y (concat kids)).
  { intros x k y (_ & ys & E1 & E2)%par_from_Some. rewrite Nat.sub_0_r in E1. split; [by eapply lookup_lt_Some|].
    apply in_concat. exists ys. split; apply list_elem_of_In; by eapply list_elem_of_lookup_2. }
  split; cbn [forest t_len t_root t_kids t_par]; [done| | | |].
  - intros x k y Hx. destruct (lookup_lt_is_Some_2 kids x Hx) as [ys E]. rewrite E. cbn. split.
    + intros Hk. split; [|by apply (par_from_find kids 0 y x k ys)].
      assert (Hy : In y (concat kids)).
      { apply in_concat. exists ys. split; apply list_elem_of_In; by eapply list_elem_of_lookup_2. }
      specialize (Hin _ Hy). apply andb_true_iff in Hin as [Hlt%Nat.ltb_lt _]. done.
    + intros [_ (_ & ys' & E1 & E2)%par_from_Some]. rewrite Nat.sub_0_r in E1. congruence.
  - destruct (par_from 0 kids root) as [[x k]|] eqn:E; [|done]. apply Hmem in E as [_ E].
    specialize (Hin _ E). rewrite Nat.eqb_refl, andb_false_r in Hin. done.
  - intros y x k _ E. by apply Hmem in E as [? _].
  - exists (depth (length kids)). intros x k y E. destruct (Hmem _ _ _ E) as [_ Hy].
    specialize (Hrank _ Hy). rewrite E in Hrank. by apply Nat.ltb_lt.
Qed.
End forest.

(** ** The tree of a machine *)
Definition row_kids (row : list Z) : list nat :=
  omap (fun k => fst <$> list_find (fun v => v = Z.of_nat k + 1) row) (seq 0 98).
Definition machine_kids (mc : machine) : list (list nat) :=
  let n := Z.to_nat (mc_num_cores mc) in tab n (fun x => row_kids (take n (drop (x * n) (mc_matrix mc)))).
Definition machine_tree (mc : machine) : tree := forest (Z.to_nat (mc_root mc)) (machine_kids mc).

(** The tree hangs together and its nodes are the given cores. *)
Record spans (tr : tree) (cores : list Z) : Prop := {
  sp_cores y : (y < t_len tr)%nat -> Z.of_nat y ∈ cores <-> y = t_root tr \/ is_Some (t_par tr y);
  sp_par y x k : (y < t_len tr)%nat -> t_par tr y = Some (x, k) -> Z.of_nat x ∈ cores;
  sp_len : Forall (fun c => 0 <= c < Z.of_nat (t_len tr)) cores }.
Definition childless (tr : tree) (cores : list Z) : list Z := filter (fun c => t_kids tr (Z.to_nat c) = []) cores.

Definition spans_ok (root : nat) (kids : list (list nat)) (cores : list Z) : bool :=
  forallb (fun y =>
    eqb (bool_decide (Z.of_nat y ∈ cores)) ((y =? root)%nat || bool_decide (is_Some (par_from 0 kids y))) &&
    match par_from 0 kids y with Some (x, _) => bool_decide (Z.of_nat x ∈ cores) | None => true end)
    (seq 0 (length kids)) &&
  forallb (fun c => (0 <=? c) && (c <? Z.of_nat (length kids))) cores.
Definition kids_ok (n root : nat) (m cores : list Z) (kids : list (list nat)) : bool :=
  (length kids =? n)%nat && forest_ok root kids && forallb (fun ys => (length ys <=? 97)%nat) kids &&
  spans_ok root kids cores && (root <? n)%nat &&
  bool_decide (m = concat (tab n (fun x => tab n (fun y => encode_entry (forest root kids) x y)))).
Definition machine_ok (mc : machine) : bool :=
  kids_ok (Z.to_nat (mc_num_cores mc)) (Z.to_nat (mc_root mc)) (mc_matrix mc) (mc_cores mc) (machine_kids mc).


Lemma kids_ok_sound n root m cores kids : kids_ok n root m cores kids = true ->
  let tr := forest root kids in
  t_len tr = n /\ forest_wf tr /\ (forall x, (length (t_kids tr x) <= 97)%nat) /\ spans tr cores /\ m = encode tr.
Proof.
  unfold kids_ok. intros H. rewrite !andb_true_iff in H. destruct H as [[[[[Hl Hwf] Hf] Hs] Hn] Hm].
  apply Nat.eqb_eq in Hl. apply Nat.ltb_lt in Hn. apply bool_decide_eq_true in Hm. cbv zeta.
  split; [done|]. split; [by apply forest_ok_wf|]. split; [|split].
  - intros x. cbn [forest t_kids]. destruct (kids !! x) as [ys|] eqn:E; cbn; [|lia].
    rewrite forallb_forall in Hf. apply Nat.leb_le, Hf, list_elem_of_In. by eapply list_elem_of_lookup_2.
  - unfold spans_ok in Hs. apply andb_true_iff in Hs as [Hs Hc]. rewrite forallb_forall in Hs, Hc.
    assert (Hy : forall y, (y < length kids)%nat -> _) by (intros y Hy; exact (Hs y (proj2 (in_seq _ _ _) (conj (Nat.le_0_l y) Hy)))).
    split; cbn [forest t_len t_root t_par].
    + intros y Hlt. specialize (Hy y Hlt). apply andb_true_iff in Hy as [Hy%eqb_prop _].
      rewrite <- (bool_decide_eq_true (Z.of_nat y ∈ cores)), Hy, orb_true_iff, Nat.eqb_eq, bool_decide_eq_true. done.
    + intros y x k Hlt E. specialize (Hy y Hlt). rewrite E in Hy. apply andb_true_iff in Hy as [_ Hy].
      by apply bool_decide_eq_true in Hy.
    + apply Forall_forall. intros c Hin. apply list_elem_of_In, Hc in Hin. apply andb_true_iff in Hin.
      rewrite Z.leb_le, Z.ltb_lt in Hin. lia.
  - rewrite Hm. unfold encode. cbn [forest t_len]. rewrite Hl. apply concat_tab. lia.
Qed.

(** Only the leaves the model counts are looked at. *)
Lemma create_counted_leafs alloc_ok np nc len root m nl leafs name : 0 <= nl <= Z.of_nat (length leafs) ->
  smlt_topology_create alloc_ok np (Some (Model nc len root m nl leafs)) name =
  smlt_topology_create alloc_ok np (Some (Model nc len root m nl (take (Z.to_nat nl) leafs))) name.
Proof.
  intros Hnl. unfold smlt_topology_create. destruct (negb (alloc_ok 0%nat)); [done|]. cbv zeta. cbn [gm_len].
  set (s0 := TS 1 0 _).
  assert (E : smlt_topology_parse_model alloc_ok (Model nc len root m nl leafs) s0 =
    smlt_topology_parse_model alloc_ok (Model nc len root m nl (take (Z.to_nat nl) leafs)) s0); [|by rewrite E].
  unfold smlt_topology_parse_model, mbind, M_bind. cbn [gm_len gm_root gm_num_leafs].
  destruct (modify _ s0) as [[?| | |] s1]; try done. destruct (ts_upd root _ s1) as [[?| | |] s2]; try done.
  change (parse_row alloc_ok (Model nc len root m nl (take (Z.to_nat nl) leafs))) with
    (parse_row alloc_ok (Model nc len root m nl leafs)).
  destruct (mfor _ 0 (parse_row _ _) s2) as [[?| | |] s3]; try done.
  apply mfor_ext. intros i s _. apply mfor_ext. intros j s' Hj. unfold mark_leaf. cbn [gm_leafs].
  assert (arr_get (take (Z.to_nat nl) leafs) j = arr_get leafs j) as ->; [|done].
  replace j with (Z.of_nat (Z.to_nat j)) by lia. rewrite !arr_get_nat, lookup_take_lt by lia. done.
Qed.

Lemma machine_accepted mc nl alloc_ok np name :
  machine_ok mc = true -> 0 <= mc_root mc -> 0 <= mc_num_cores mc < 65536 -> Forall (fun l => 0 <= l) (mc_leafs mc) ->
  0 <= nl <= Z.of_nat (length (mc_leafs mc)) -> (forall k, alloc_ok k = true) ->
  exists t, smlt_topology_create alloc_ok np (Some (optimal_model mc nl)) name = Ret (err_value SMLT_SUCCESS, t) /\
    forest_repr (machine_tree mc) t /\
    forall i n, tp_all_nodes t !! i = Some n ->
      smlt_topo_is_model_leaf n = bool_decide (i <> 0%nat /\ Z.of_nat i ∈ take (Z.to_nat nl) (mc_leafs mc)).
Proof.
  intros Hok Hr Hn Hl Hnl Ha. destruct (kids_ok_sound _ _ _ _ _ Hok) as (El & Hwf & Hf & _ & Em).
  fold (machine_tree mc) in El, Hwf, Hf, Em.
  set (ls := Z.to_nat <$> take (Z.to_nat nl) (mc_leafs mc)).
  assert (Els : Z.of_nat <$> ls = take (Z.to_nat nl) (mc_leafs mc)).
  { unfold ls. rewrite <- list_fmap_compose. rewrite <- (list_fmap_id (take _ _)) at 2. apply list_fmap_ext.
    intros i x Hx. cbn. pose proof (Forall_take _ (Z.to_nat nl) _ Hl) as Hl'. pose proof (Forall_lookup_1 _ _ _ _ Hl' Hx) as Hx0.
    cbn in Hx0. lia. }
  destruct (create_forest_model (machine_tree mc) ls alloc_ok np name Hwf) as (t & E & Ht & Hleaf); [|done|done|].
  { rewrite El. change (2 ^ 32) with 4294967296. nia. }
  exists t. split; [|split; [done|]].
  - unfold optimal_model. rewrite create_counted_leafs by done. rewrite <- E. unfold tree_model.
    rewrite El, <- Em, Els, Z2Nat.id by lia. unfold ls at 1. rewrite length_fmap, length_take.
    assert (t_root (machine_tree mc) = Z.to_nat (mc_root mc)) as -> by done. rewrite Z2Nat.id by lia.
    do 3 f_equal. lia.
  - intros i n Hi. rewrite (Hleaf i n Hi). apply bool_decide_ext. rewrite <- Els.
    rewrite list_elem_of_fmap. split; intros [? H]; (split; [done|]).
    + by exists i.
    + destruct H as (x & Ex & H). by apply Nat2Z.inj in Ex as ->.
Qed.

(** ** The trees the program lists *)
Open Scope string_scope.
(** Matrices that are no tree, and lists of leaves that are not those of the tree. *)
Definition no_tree : list string := ["gottardo3"; "appenzeller"; "appenzeller2"].
Definition other_leafs : list string := ["sbrinz"; "babybel2"].
Definition machine_names : list string :=
  ["gottardo"; "gottardo2"; "gottardo3"; "sgs-r820-01"; "sgs-r820-01_2"; "sgs-r815-03"; "sbrinz"; "gruyere";
   "babybel"; "babybel2"; "appenzeller"; "appenzeller2"].
Close Scope string_scope.

Lemma select_machine_names name mc : select_machine name = Some mc -> name ∈ machine_names.
Proof.
  unfold select_machine, machine_names.
  repeat (match goal with |- context [String.eqb name ?s] => destruct (String.eqb_spec name s) as [->|] end;
          [intros _; set_solver|]). done.
Qed.

(** The mark of a parent that has no counterpart. *)
Definition bad_entry (name : string) : Z * Z :=
  if String.eqb name "gottardo3" then (0, 7) else if String.eqb name "appenzeller" then (11, 8) else (12, 14).

Definition machine_check (name : string) : bool :=
  match select_machine name with
  | Some mc =>
      (0 <=? mc_root mc) && (0 <=? mc_num_cores mc) && (mc_num_cores mc <? 65536) && forallb (fun l => 0 <=? l) (mc_leafs mc) &&
      if bool_decide (name ∈ no_tree) then let '(x, y) := bad_entry name in
        bool_decide (entry_at (optimal_model mc 0) x y = Some 99 /\ entry_at (optimal_model mc 0) y x = Some 0) &&
        (0 <=? x) && (x <? mc_num_cores mc) && (0 <=? y) && (y <? mc_num_cores mc)
      else machine_ok mc &&
        eqb (bool_decide (merge_sort Z.le (take (Z.to_nat (mc_num_leafs mc)) (mc_leafs mc)) =
                          merge_sort Z.le (childless (machine_tree mc) (mc_cores mc))))
          (bool_decide (name ∉ other_leafs))
  | None => false
  end.
Lemma machines_checked : forallb machine_check machine_names = true.
Proof. vm_compute. reflexivity. Qed.

Lemma machine_checked name mc : select_machine name = Some mc -> machine_check name = true.
Proof.
  intros H%select_machine_names. pose proof machines_checked as Hc. rewrite forallb_forall in Hc.
  by apply Hc, list_elem_of_In.
Qed.

Lemma sorted_permutation (l k : list Z) : merge_sort Z.le l = merge_sort Z.le k <-> l ≡ₚ k.
Proof.
  pose proof (merge_sort_Permutation Z.le l) as Pl. pose proof (merge_sort_Permutation Z.le k) as Pk. split.
  - intros E. rewrite E in Pl. by etrans; [symmetry; exact Pl|].
  - intros E. apply (StronglySorted_unique Z.le).
    + apply StronglySorted_merge_sort; apply _.
    + apply StronglySorted_merge_sort; apply _.
    + etrans; [exact Pl|]. by etrans; [exact E|].
Qed.

(** [C27] The matrices of the benchmark of optimal trees.  Those of nine machines are trees
    over the eight cores listed beside them, with the root listed, and
    [smlt_topology_create] builds exactly these trees; seven of the nine list the leaves of
    the tree, the other two list others.  Those of three machines are no trees: in each the
    mark of a parent has no counterpart, and they are never accepted.  All this whatever
    the number of leaves the model happens to hold, as long as the array has as many. *)
Theorem machine_topologies name mc : select_machine name = Some mc ->
  (name ∈ no_tree -> forall alloc_ok np nl tname e t,
     smlt_topology_create alloc_ok np (Some (optimal_model mc nl)) tname <> Ret (e, t)) /\
  (name ∉ no_tree -> exists tr, forest_wf tr /\ spans tr (mc_cores mc) /\
     mc_num_cores mc = Z.of_nat (t_len tr) /\ mc_root mc = Z.of_nat (t_root tr) /\
     (take (Z.to_nat (mc_num_leafs mc)) (mc_leafs mc) ≡ₚ childless tr (mc_cores mc) <-> name ∉ other_leafs) /\
     forall alloc_ok np nl tname, (forall k, alloc_ok k = true) -> 0 <= nl <= Z.of_nat (length (mc_leafs mc)) ->
     exists t, smlt_topology_create alloc_ok np (Some (optimal_model mc nl)) tname = Ret (err_value SMLT_SUCCESS, t) /\
       forest_repr tr t /\
       forall i n, tp_all_nodes t !! i = Some n ->
         smlt_topo_is_model_leaf n = bool_decide (i <> 0%nat /\ Z.of_nat i ∈ take (Z.to_nat nl) (mc_leafs mc))).
Proof.
  intros E. pose proof (machine_checked _ _ E) as H. unfold machine_check in H. rewrite E in H.
  rewrite !andb_true_iff, Z.leb_le, Z.leb_le, Z.ltb_lt, forallb_forall in H. destruct H as [[[[Hr Hn1] Hn2] Hl] H].
  case_bool_decide as D; (split; [|by intros]) || (split; [by intros|]).
  - intros _ alloc_ok np nl tname e t Hc. destruct (bad_entry name) as [x y].
    rewrite !andb_true_iff, !Z.ltb_lt, !Z.leb_le, bool_decide_eq_true in H.
    destruct H as [[[[[Hxy Hyx] Hx0] Hx] Hy0] Hy].
    destruct (parse_accepts _ _ _ _ _ _ x y Hc) as (v & Hv & Hcases); [simpl; lia..|].
    change (entry_at (optimal_model mc nl)) with (entry_at (optimal_model mc 0)) in Hv, Hcases.
    rewrite Hxy in Hv. injection Hv as <-. rewrite Hyx in Hcases.
    destruct Hcases as [|[|(_ & v' & Hv' & ?)]]; [lia..|]. injection Hv' as <-. lia.
  - intros _. rewrite andb_true_iff in H. destruct H as [Hok Hleafs%eqb_prop].
    pose proof (kids_ok_sound _ _ _ _ _ Hok) as (El & Hwf & _ & Hsp & _). fold (machine_tree mc) in El, Hwf, Hsp.
    exists (machine_tree mc). split; [done|]. split; [done|]. split; [lia|]. split.
    { change (t_root (machine_tree mc)) with (Z.to_nat (mc_root mc)). lia. }
    split.
    + rewrite <- sorted_permutation. rewrite <- (bool_decide_eq_true (merge_sort _ _ = _)), Hleafs.
      by rewrite bool_decide_eq_true.
    + intros alloc_ok np nl tname Ha Hnl. apply machine_accepted; try done.
      apply Forall_forall. intros l Hin. apply list_elem_of_In, Hl, Z.leb_le in Hin. done.
Qed.

Lemma machine_topologies_witness :
  (forall e t, smlt_topology_create (fun _ => true) 0 (Some (optimal_model machine_appenzeller 5)) "optimal" <> Ret (e, t)) /\
  exists t, smlt_topology_create (fun _ => true) 0 (Some (optimal_model machine_gottardo 6)) "optimal" =
    Ret (err_value SMLT_SUCCESS, t).
Proof.
  destruct (machine_topologies "appenzeller" machine_appenzeller eq_refl) as [H1 _].
  destruct (machine_topologies "gottardo" machine_gottardo eq_refl) as [_ H2].
  split.
  - intros e t. apply H1, (bool_decide_unpack _). by vm_compute.
  - destruct H2 as (tr & _ & _ & _ & _ & _ & H); [apply (bool_decide_unpack _); by vm_compute|].
    destruct (H (fun _ => true) 0 6 "optimal"%string) as (t & E & _); [done|by vm_compute|]. by exists t.
Defined.
