(* ===== verification/Sort.v ===== *)
(** The in-place sorts of the measurement code: the quicksort of [src/bench.c] and the
    exchange sort of [inc/platforms/measurement_framework.h].  Arrays of [cycles_t] are
    lists of integers; a pointer into an array is its position. *)
From stdpp Require Import sorting.
From S2P Require Import Prelude.

Definition ld (p : Z) : M (list Z) Z := fun l => defined (arr_get l p) l.
Definition st (p x : Z) : M (list Z) unit := fun l =>
  match arr_set l p x with
  | Some l' => (Ret tt, l')
  | None => (Undef, l)
  end.
(** [tmp = data[i]; data[i] = data[j]; data[j] = tmp]. *)
Definition swap (p q : Z) : M (list Z) unit :=
  tmp ← ld p; x ← ld q; _ ← st p x; st q tmp.

(** ** [smlt_bench_sort] *)

(** [while (data[i] < pivot) i++;] and [while (pivot < data[j]) j--;]: a loop that uses up
    its fuel is [Spin]. *)
Fixpoint scan_up (fuel : nat) (data pivot i : Z) : M (list Z) Z :=
  match fuel with
  | O => spin
  | S fuel' =>
      x ← ld (data + i);
      if x <? pivot then scan_up fuel' data pivot (u32 (i + 1)) else mret i
  end.
Fixpoint scan_down (fuel : nat) (data pivot j : Z) : M (list Z) Z :=
  match fuel with
  | O => spin
  | S fuel' =>
      x ← ld (data + j);
      if pivot <? x then scan_down fuel' data pivot (u32 (j - 1)) else mret j
  end.
(** The [for] loop; the scans have the fuel [k]. *)
Fixpoint partition (fuel k : nat) (data pivot i j : Z) : M (list Z) Z :=
  match fuel with
  | O => spin
  | S fuel' =>
      i ← scan_up k data pivot i;
      j ← scan_down k data pivot j;
      if j <=? i then mret i else
      _ ← swap (data + i) (data + j);
      partition fuel' k data pivot (u32 (i + 1)) (u32 (j - 1))
  end.
Fixpoint smlt_bench_sort (fuel : nat) (data len : Z) : M (list Z) unit :=
  if len <? 2 then mret tt else
  match fuel with
  | O => spin
  | S fuel' =>
      pivot ← ld (data + len / 2);
      i ← partition (Z.to_nat len) (Z.to_nat len) data pivot 0 (u32 (len - 1));
      _ ← smlt_bench_sort fuel' data i;
      smlt_bench_sort fuel' (data + i) (u32 (len - i))
  end.

(** ** [sk_m_sort] *)
Definition sk_m_sort (len : Z) : M (list Z) unit :=
  mfor (Z.to_nat len) 0 (fun i => mfor (Z.to_nat (len - i)) i (fun j =>
    x ← ld i; y ← ld j;
    if y <? x then swap i j else mret tt)).

Example sort_example :
  smlt_bench_sort 5 0 5 [3; 1; 2; 3; 0] = (Ret tt, [0; 1; 2; 3; 3]) /\
  sk_m_sort 5 [3; 1; 2; 3; 0] = (Ret tt, [0; 1; 2; 3; 3]).
Proof. by vm_compute. Qed.

(** ** Rearrangements of a segment *)

(** [l'] is [l] with the [n] elements from [b] on permuted. *)
Record rearr (b n : nat) (l l' : list Z) : Prop := {
  re_perm : l' ≡ₚ l;
  re_out k : ~ (b <= k < b + n)%nat -> l' !! k = l !! k;
  re_all (P : Z -> Prop) : (forall k, (b <= k < b + n)%nat -> P (l !!! k)) ->
    forall k, (b <= k < b + n)%nat -> P (l' !!! k);
}.

Lemma rearr_refl b n l : rearr b n l l.
Proof. by split. Qed.
Lemma rearr_len b n l l' : rearr b n l l' -> length l' = length l.
Proof. intros [H _ _]. by apply Permutation_length. Qed.
Lemma rearr_trans b n l1 l2 l3 : rearr b n l1 l2 -> rearr b n l2 l3 -> rearr b n l1 l3.
Proof.
  intros [P1 O1 A1] [P2 O2 A2]. split; [by rewrite P2| |].
  - intros k Hk. by rewrite O2, O1.
  - intros P HP. apply A2, A1, HP.
Qed.
Lemma rearr_out_total b n l l' k : rearr b n l l' -> ~ (b <= k < b + n)%nat -> l' !!! k = l !!! k.
Proof. intros [_ O _] Hk. rewrite !list_lookup_total_alt. by rewrite O. Qed.
Lemma rearr_widen b n b' n' l l' :
  (b' <= b)%nat -> (b + n <= b' + n')%nat -> rearr b n l l' -> rearr b' n' l l'.
Proof.
  intros Hb Hn R. pose proof R as [P1 O1 A1]. split; [done|intros k Hk; apply O1; lia|].
  intros P HP k Hk. destruct (decide (b <= k < b + n)%nat) as [D|D].
  - apply A1; [|done]. intros j Hj. apply HP. lia.
  - rewrite (rearr_out_total _ _ _ _ _ R D). by apply HP.
Qed.

Lemma lookup_total_at (l : list Z) k : (k < length l)%nat -> l !! k = Some (l !!! k).
Proof. apply list_lookup_lookup_total_lt. Qed.
Lemma ld_run l k : (k < length l)%nat -> ld (Z.of_nat k) l = (Ret (l !!! k), l).
Proof. intros H. unfold ld. by rewrite arr_get_nat, lookup_total_at. Qed.

Definition swapped (l : list Z) (p q : nat) : list Z := <[q := l !!! p]> (<[p := l !!! q]> l).
Lemma swap_run l p q :
  (p < length l)%nat -> (q < length l)%nat ->
  swap (Z.of_nat p) (Z.of_nat q) l = (Ret tt, swapped l p q).
Proof.
  intros Hp Hq. unfold swap, mbind, M_bind. rewrite !ld_run by done. unfold st, swapped.
  rewrite arr_set_nat by done. by rewrite arr_set_nat by (by rewrite length_insert).
Qed.
Lemma swapped_lookup l p q k :
  (p < length l)%nat -> (q < length l)%nat ->
  swapped l p q !!! k = if decide (k = q) then l !!! p else if decide (k = p) then l !!! q else l !!! k.
Proof.
  intros Hp Hq. unfold swapped. case_decide as D.
  - subst. by rewrite list_lookup_total_insert_eq by (by rewrite length_insert).
  - rewrite list_lookup_total_insert_ne by congruence. case_decide as D'.
    + subst. by rewrite list_lookup_total_insert_eq.
    + by rewrite list_lookup_total_insert_ne by congruence.
Qed.
Lemma swapped_rearr b n l p q :
  (b + n <= length l)%nat -> (b <= p < b + n)%nat -> (b <= q < b + n)%nat -> rearr b n l (swapped l p q).
Proof.
  intros Hl Hp Hq. split.
  - apply Permutation_insert_swap; apply lookup_total_at; lia.
  - intros k Hk. unfold swapped. by rewrite !list_lookup_insert_ne by lia.
  - intros P HP k Hk. rewrite swapped_lookup by lia. repeat case_decide; auto.
Qed.

(** ** The quicksort *)
Section scans.
Context (l : list Z) (b : nat) (pivot : Z).
Abbreviation at_ k := (l !!! (b + k)%nat).

(** A scan stops at or before an element that stops it. *)
Lemma scan_up_run fuel : forall i k,
  (i <= k)%nat -> (k - i < fuel)%nat -> (b + k < length l)%nat -> Z.of_nat k < 2 ^ 32 -> pivot <= at_ k ->
  exists i', scan_up fuel (Z.of_nat b) pivot (Z.of_nat i) l = (Ret (Z.of_nat i'), l) /\
    (i <= i' <= k)%nat /\ pivot <= at_ i' /\ forall t, (i <= t < i')%nat -> at_ t < pivot.
Proof.
  induction fuel as [|fuel IH]; intros i k Hik Hf Hl H32 Hk; [lia|]. simpl.
  rewrite <- Nat2Z.inj_add, (bind_ret _ _ _ _ _ (ld_run l (b + i) ltac:(lia))).
  destruct (Z.ltb_spec (at_ i) pivot) as [Hlt|Hge].
  - assert (i <> k) by (intros ->; lia). rewrite wrap_small by lia.
    replace (Z.of_nat i + 1) with (Z.of_nat (S i)) by lia.
    destruct (IH (S i) k ltac:(lia) ltac:(lia) Hl H32 Hk) as (i' & E & Hi & Hp & Hs).
    exists i'. split; [done|]. split; [lia|]. split; [done|]. intros t Ht.
    destruct (decide (t = i)) as [->|]; [done|]. apply Hs. lia.
  - exists i. split; [done|]. split; [lia|]. split; [done|]. lia.
Qed.

Lemma scan_down_run fuel : forall j k,
  (k <= j)%nat -> (j - k < fuel)%nat -> (b + j < length l)%nat -> Z.of_nat j < 2 ^ 32 -> at_ k <= pivot ->
  exists j', scan_down fuel (Z.of_nat b) pivot (Z.of_nat j) l = (Ret (Z.of_nat j'), l) /\
    (k <= j' <= j)%nat /\ at_ j' <= pivot /\ forall t, (j' < t <= j)%nat -> pivot < at_ t.
Proof.
  induction fuel as [|fuel IH]; intros j k Hkj Hf Hl H32 Hk; [lia|]. simpl.
  rewrite <- Nat2Z.inj_add, (bind_ret _ _ _ _ _ (ld_run l (b + j) ltac:(lia))).
  destruct (Z.ltb_spec pivot (at_ j)) as [Hlt|Hge].
  - assert (j <> k) by (intros ->; lia). rewrite wrap_small by lia.
    replace (Z.of_nat j - 1) with (Z.of_nat (j - 1)) by lia.
    destruct (IH (j - 1)%nat k ltac:(lia) ltac:(lia) ltac:(lia) ltac:(lia) Hk) as (j' & E & Hj & Hp & Hs).
    exists j'. split; [done|]. split; [lia|]. split; [done|]. intros t Ht.
    destruct (decide (t = j)) as [->|]; [done|]. apply Hs. lia.
  - exists j. split; [done|]. split; [lia|]. split; [done|]. lia.
Qed.
End scans.

Section partition.
Context (b n : nat) (Hn32 : Z.of_nat n < 2 ^ 32) (pivot : Z).

(** Between the scans: everything before [i] is at most, everything after [j] at least
    the pivot, and each scan meets an element that stops it; the one that stops the scan
    down keeps the result above 0. *)
Record part_inv (l : list Z) (i j : nat) : Prop := {
  pt_low t : (t < i)%nat -> l !!! (b + t)%nat <= pivot;
  pt_high t : (j < t < n)%nat -> pivot <= l !!! (b + t)%nat;
  pt_up : exists k, (i <= k < n)%nat /\ pivot <= l !!! (b + k)%nat;
  pt_down : exists k, (k <= j < n)%nat /\ l !!! (b + k)%nat <= pivot /\ (1 <= i \/ 1 <= k)%nat;
}.

Lemma partition_run fuel : forall l i j,
  (b + n <= length l)%nat -> part_inv l i j -> (j - i < fuel)%nat ->
  exists i' l', partition fuel n (Z.of_nat b) pivot (Z.of_nat i) (Z.of_nat j) l = (Ret (Z.of_nat i'), l') /\
    rearr b n l l' /\ (1 <= i' < n)%nat /\
    (forall t, (t < i')%nat -> l' !!! (b + t)%nat <= pivot) /\
    (forall t, (i' <= t < n)%nat -> pivot <= l' !!! (b + t)%nat).
Proof using Hn32.
  induction fuel as [|fuel IH]; intros l i j Hl [I1 I2 (ku & Hku & Hpu) (kd & Hkd & Hpd & H1)] Hf; [lia|].
  simpl.
  destruct (scan_up_run l b pivot n i ku ltac:(lia) ltac:(lia) ltac:(lia) ltac:(lia) Hpu) as (i1 & E1 & Hi1 & Pi & Si).
  rewrite (bind_ret _ _ _ _ _ E1).
  destruct (scan_down_run l b pivot n j kd ltac:(lia) ltac:(lia) ltac:(lia) ltac:(lia) Hpd) as (j1 & E2 & Hj1 & Pj & Sj).
  rewrite (bind_ret _ _ _ _ _ E2).
  assert (Lo : forall t, (t < i1)%nat -> l !!! (b + t)%nat <= pivot).
  { intros t Ht. destruct (decide (t < i)%nat); [by apply I1|]. apply Z.lt_le_incl, Si. lia. }
  assert (Hi : forall t, (j1 < t < n)%nat -> pivot <= l !!! (b + t)%nat).
  { intros t Ht. destruct (decide (j < t)%nat); [apply I2; lia|]. apply Z.lt_le_incl, Sj. lia. }
  destruct (Z.leb_spec (Z.of_nat j1) (Z.of_nat i1)) as [Hji|Hij].
  - exists i1, l. split; [done|]. split; [apply rearr_refl|]. split; [lia|]. split; [done|].
    intros t Ht. destruct (decide (t = i1)) as [->|]; [done|]. apply Hi. lia.
  - rewrite <- !Nat2Z.inj_add, (bind_ret _ _ _ _ _ (swap_run l (b + i1) (b + j1) ltac:(lia) ltac:(lia))).
    rewrite !wrap_small by lia.
    replace (Z.of_nat i1 + 1) with (Z.of_nat (S i1)) by lia.
    replace (Z.of_nat j1 - 1) with (Z.of_nat (j1 - 1)) by lia.
    set (l1 := swapped l (b + i1) (b + j1)).
    assert (R : rearr b n l l1) by (apply swapped_rearr; lia).
    assert (Hs : forall t, l1 !!! (b + t)%nat =
      if decide (t = j1) then l !!! (b + i1)%nat else if decide (t = i1) then l !!! (b + j1)%nat else l !!! (b + t)%nat).
    { intros t. unfold l1. rewrite swapped_lookup by lia. repeat case_decide; done || lia. }
    destruct (IH l1 (S i1) (j1 - 1)%nat) as (i2 & l2 & E & R2 & Hr).
    + by rewrite (rearr_len _ _ _ _ R).
    + split.
      * intros t Ht. rewrite Hs. repeat case_decide; try lia. apply Lo. lia.
      * intros t Ht. rewrite Hs. repeat case_decide; try lia. apply Hi. lia.
      * exists j1. split; [lia|]. rewrite Hs. by rewrite decide_True.
      * exists i1. split; [lia|]. rewrite Hs. rewrite decide_False, decide_True by lia. split; [done|lia].
    + lia.
    + exists i2, l2. split; [done|]. split; [by eapply rearr_trans|done].
Qed.
End partition.

Definition seg_sorted (l : list Z) (b n : nat) : Prop :=
  forall t u, (t <= u < n)%nat -> l !!! (b + t)%nat <= l !!! (b + u)%nat.

(** A segment bounded by a value stays so when it is rearranged. *)
Lemma rearr_seg (P : Z -> Prop) b n l l' :
  rearr b n l l' -> (forall t, (t < n)%nat -> P (l !!! (b + t)%nat)) ->
  forall t, (t < n)%nat -> P (l' !!! (b + t)%nat).
Proof.
  intros R HP t Ht. apply (re_all _ _ _ _ R P); [|lia]. intros k Hk.
  replace k with (b + (k - b))%nat by lia. apply HP. lia.
Qed.

Lemma bench_sort_run fuel : forall b n l,
  (n <= fuel)%nat -> (b + n <= length l)%nat -> Z.of_nat n < 2 ^ 32 ->
  exists l', smlt_bench_sort fuel (Z.of_nat b) (Z.of_nat n) l = (Ret tt, l') /\
    rearr b n l l' /\ seg_sorted l' b n.
Proof.
  induction fuel as [|fuel IH]; intros b n l Hf Hl H32; simpl; destruct (Z.ltb_spec (Z.of_nat n) 2) as [H2|H2].
  1, 3: exists l; split; [done|]; split; [apply rearr_refl|]; intros t u Htu;
    by replace u with t by lia.
  { lia. }
  assert (Hhalf : (1 <= n / 2 < n)%nat).
  { pose proof (Nat.div_lt n 2 ltac:(lia) ltac:(lia)).
    pose proof (Nat.div_le_lower_bound n 2 1 ltac:(lia) ltac:(lia)). lia. }
  replace (Z.of_nat n / 2) with (Z.of_nat (n / 2)) by (by rewrite Nat2Z.inj_div).
  rewrite <- Nat2Z.inj_add, (bind_ret _ _ _ _ _ (ld_run l (b + n / 2) ltac:(lia))).
  rewrite Nat2Z.id, wrap_small by lia. replace (Z.of_nat n - 1) with (Z.of_nat (n - 1)) by lia.
  set (pivot := l !!! (b + n / 2)%nat).
  destruct (partition_run b n H32 pivot n l 0 (n - 1) Hl) as (i & l1 & E1 & R1 & Hi & Lo & Hi').
  { split; try lia.
    - exists (n / 2)%nat. split; [lia|]. unfold pivot. lia.
    - exists (n / 2)%nat. split; [lia|]. unfold pivot. lia. }
  { lia. }
  change (Z.of_nat 0) with 0 in E1. rewrite (bind_ret _ _ _ _ _ E1).
  pose proof (rearr_len _ _ _ _ R1) as L1.
  destruct (IH b i l1 ltac:(lia) ltac:(lia) ltac:(lia)) as (l2 & E2 & R2 & S2).
  rewrite (bind_ret _ _ _ _ _ E2). pose proof (rearr_len _ _ _ _ R2) as L2.
  rewrite <- Nat2Z.inj_add, wrap_small by lia.
  replace (Z.of_nat n - Z.of_nat i) with (Z.of_nat (n - i)) by lia.
  destruct (IH (b + i)%nat (n - i)%nat l2 ltac:(lia) ltac:(lia) ltac:(lia)) as (l3 & E3 & R3 & S3).
  exists l3. split; [done|]. split.
  { apply (rearr_trans _ _ _ l1); [done|]. apply (rearr_trans _ _ _ l2);
      [apply (rearr_widen b i)|apply (rearr_widen (b + i) (n - i))]; try done; lia. }
  assert (Low : forall t, (t < i)%nat -> l3 !!! (b + t)%nat <= pivot).
  { intros t Ht. rewrite (rearr_out_total _ _ _ _ _ R3) by lia.
    by apply (rearr_seg (fun x => x <= pivot) _ _ _ _ R2). }
  assert (High : forall t, (t < n - i)%nat -> pivot <= l3 !!! (b + i + t)%nat).
  { apply (rearr_seg (fun x => pivot <= x) _ _ _ _ R3). intros t Ht.
    rewrite (rearr_out_total _ _ _ _ _ R2) by lia. rewrite <- Nat.add_assoc. apply Hi'. lia. }
  intros t u Htu. destruct (decide (u < i)%nat); [|destruct (decide (t < i)%nat)].
  - rewrite !(rearr_out_total _ _ _ _ _ R3) by lia. apply S2. lia.
  - specialize (Low t ltac:(lia)). specialize (High (u - i)%nat ltac:(lia)).
    replace (b + i + (u - i))%nat with (b + u)%nat in High by lia. lia.
  - specialize (S3 (t - i)%nat (u - i)%nat ltac:(lia)).
    by replace (b + i + (t - i))%nat with (b + t)%nat in S3 by lia;
      replace (b + i + (u - i))%nat with (b + u)%nat in S3 by lia.
Qed.

(** ** The exchange sort *)
Section exchange.
Context (n : nat).

(** After [i] rows the first [i] elements are in place; in row [i] the element [i] is at
    most those before [j]. *)
Definition rows_done (l0 : list Z) (i : nat) (l : list Z) : Prop :=
  length l0 = n /\ rearr 0 n l0 l /\ forall t u, (t < i)%nat -> (t <= u < n)%nat -> l !!! t <= l !!! u.
Definition row_inv (l0 : list Z) (i j : nat) (l : list Z) : Prop :=
  rows_done l0 i l /\ forall u, (i <= u < j)%nat -> l !!! i <= l !!! u.

Lemma exchange_step l0 i j l :
  (i <= j < n)%nat -> row_inv l0 i j l ->
  exists l', (x ← ld (Z.of_nat i); y ← ld (Z.of_nat j); if y <? x then swap (Z.of_nat i) (Z.of_nat j) else mret tt) l =
    (Ret tt, l') /\ row_inv l0 i (S j) l'.
Proof using Type.
  intros Hij [(Hn & R & Hd) Hi]. pose proof (rearr_len _ _ _ _ R) as Hl.
  rewrite (bind_ret _ _ _ _ _ (ld_run l i ltac:(lia))), (bind_ret _ _ _ _ _ (ld_run l j ltac:(lia))).
  destruct (Z.ltb_spec (l !!! j) (l !!! i)) as [Hlt|Hge].
  - rewrite swap_run by lia. eexists. split; [reflexivity|]. split; [split; [done|split]|].
    + eapply rearr_trans; [exact R|]. apply swapped_rearr; lia.
    + intros t u Ht Hu. rewrite !swapped_lookup by lia.
      pose proof (Hd t i). pose proof (Hd t j). pose proof (Hd t u). repeat case_decide; lia.
    + intros u Hu. rewrite !swapped_lookup by lia.
      destruct (decide (u = j)) as [->|].
      * repeat case_decide; lia.
      * specialize (Hi u). repeat case_decide; subst; lia.
  - exists l. split; [done|]. split; [done|]. intros u Hu.
    destruct (decide (u = j)) as [->|]; [done|]. apply Hi. lia.
Qed.

Lemma sk_m_sort_run l :
  length l = n -> exists l', sk_m_sort (Z.of_nat n) l = (Ret tt, l') /\ rearr 0 n l l' /\ seg_sorted l' 0 n.
Proof using Type.
  intros Hl. unfold sk_m_sort. rewrite Nat2Z.id.
  destruct (mfor_inv (fun i => mfor (Z.to_nat (Z.of_nat n - i)) i (fun j =>
    x ← ld i; y ← ld j; if y <? x then swap i j else mret tt)) (rows_done l) n l) as (l' & E & (_ & R & Hd)).
  { split; [done|]. split; [apply rearr_refl|]. lia. }
  - intros i l1 Hi HI. replace (Z.to_nat (Z.of_nat n - Z.of_nat i)) with (n - i)%nat by lia.
    destruct (mfor_inv_from (fun j => x ← ld (Z.of_nat i); y ← ld j;
      if y <? x then swap (Z.of_nat i) j else mret tt) (row_inv l i) (n - i) i l1)
      as (l2 & E & (Hn & R & Hd) & Hr).
    + split; [done|]. lia.
    + intros j s Hj. apply exchange_step. lia.
    + exists l2. split; [done|]. split; [done|]. split; [done|]. intros t u Ht Hu.
      destruct (decide (t = i)) as [->|]; [apply Hr|apply Hd]; lia.
  - exists l'. split; [done|]. split; [done|]. intros t u Htu. apply Hd; lia.
Qed.
End exchange.

(** ** The reference *)
Lemma seg_sorted_strong l : seg_sorted l 0 (length l) -> StronglySorted Z.le l.
Proof.
  induction l as [|x l IH]; intros H; [constructor|]. apply SSorted_cons.
  - apply IH. intros t u Htu. apply (H (S t) (S u)). simpl. lia.
  - apply Forall_lookup. intros i y Hy. pose proof (lookup_lt_Some _ _ _ Hy).
    apply list_lookup_total_correct in Hy. rewrite <- Hy. apply (H 0%nat (S i)). simpl. lia.
Qed.

Lemma strong_seg_sorted l : StronglySorted Z.le l -> forall t u, (t <= u < length l)%nat -> l !!! t <= l !!! u.
Proof.
  induction 1 as [|x l Hs IH Hx]; intros t u Htu; [simpl in Htu; lia|].
  destruct t as [|t], u as [|u]; simpl in *; try lia.
  - rewrite Forall_lookup in Hx. apply (Hx u), lookup_total_at. lia.
  - apply IH. lia.
Qed.

Lemma rearr_take n l l' : (n <= length l)%nat -> rearr 0 n l l' -> take n l' ≡ₚ take n l.
Proof.
  intros Hn R. assert (E : drop n l' = drop n l).
  { apply list_eq. intros i. rewrite !lookup_drop. apply (re_out _ _ _ _ R). lia. }
  apply (Permutation_app_inv_r (drop n l)). rewrite <- E at 1. rewrite !take_drop. apply (re_perm _ _ _ _ R).
Qed.

(** A sorted rearrangement of a prefix is its merge sort, as that of any list with the same
    elements. *)
Lemma sorted_is_merge_sort n l l' s :
  (n <= length l)%nat -> rearr 0 n l l' -> seg_sorted l' 0 n -> take n l ≡ₚ s ->
  take n l' = merge_sort Z.le s.
Proof.
  intros Hn R S Hs. apply (StronglySorted_unique Z.le).
  - apply seg_sorted_strong. pose proof (rearr_len _ _ _ _ R) as Hl. rewrite length_take_le by lia.
    intros t u Htu. specialize (S t u Htu). simpl in *. rewrite !lookup_total_take_lt by lia; exact S.
  - apply StronglySorted_merge_sort; apply _.
  - rewrite (rearr_take _ _ _ Hn R), merge_sort_Permutation. done.
Qed.

(** [C38] Both sorts equal the reference: on every array they return, without leaving the
    array, and leave the merge sort of what was there.  The recursion of the quicksort needs
    no more fuel than the array has elements, and neither do its inner loops: each run of
    the partition splits off a non-empty part on both sides. *)
Theorem sorts_agree fuel l :
  (length l <= fuel)%nat -> Z.of_nat (length l) < 2 ^ 32 ->
  smlt_bench_sort fuel 0 (Z.of_nat (length l)) l = (Ret tt, merge_sort Z.le l) /\
  sk_m_sort (Z.of_nat (length l)) l = (Ret tt, merge_sort Z.le l).
Proof.
  intros Hf H32.
  assert (Hm : forall l', rearr 0 (length l) l l' -> seg_sorted l' 0 (length l) -> l' = merge_sort Z.le l).
  { intros l' R S. rewrite <- (sorted_is_merge_sort (length l) l l' l); [|lia|done|done|by rewrite take_ge].
    by rewrite take_ge by (by rewrite (rearr_len _ _ _ _ R)). }
  split.
  - destruct (bench_sort_run fuel 0 (length l) l Hf ltac:(lia) H32) as (l' & E & R & S).
    change (Z.of_nat 0) with 0 in E. by rewrite E, (Hm l').
  - destruct (sk_m_sort_run (length l) l eq_refl) as (l' & E & R & S). by rewrite E, (Hm l').
Qed.

Lemma sorts_agree_witness :
  smlt_bench_sort 5 0 5 [3; 1; 2; 3; 0] = (Ret tt, merge_sort Z.le [3; 1; 2; 3; 0]) /\
  sk_m_sort 5 [3; 1; 2; 3; 0] = (Ret tt, merge_sort Z.le [3; 1; 2; 3; 0]).
Proof. apply (sorts_agree 5 [3; 1; 2; 3; 0]); simpl; lia. Defined.
