(* ===== verification/Bench.v ===== *)
(** Measurements ([inc/smlt_bench.h], [src/bench.c],
    [inc/platforms/measurement_framework.h]): rings of samples in which the newest overwrite
    the oldest, and the statistics over the sorted samples.  Labels and printing are left
    out; a function that prints returns what it prints. *)
From stdpp Require Import sorting.
From S2P Require Import Prelude Errors Sort.

(** ** Data *)
Record smlt_bench_analyzed := Analyzed {
  a_min : Z; a_max : Z; a_median : Z; a_avg : Z; a_stderr : Z;
  a_count : Z; a_ignored : Z; a_valid : bool;
}.
Definition zero_analyzed : smlt_bench_analyzed := Analyzed 0 0 0 0 0 0 0 false.

Record smlt_bench_ctl := Ctl {
  b_data : list Z;
  b_last_tsc : Z;
  b_count : Z;
  b_idx : Z;
  b_max_data : Z;
  b_a : smlt_bench_analyzed;
}.
Definition b_set_data v c := Ctl v (b_last_tsc c) (b_count c) (b_idx c) (b_max_data c) (b_a c).
Definition b_set_last_tsc v c := Ctl (b_data c) v (b_count c) (b_idx c) (b_max_data c) (b_a c).
Definition b_set_a v c := Ctl (b_data c) (b_last_tsc c) (b_count c) (b_idx c) (b_max_data c) v.

(** ** [smlt_bench.h], [bench.c] *)
Section ctl.
(** The time-stamp counter at the call and [smlt_bench_tsc_overhead]. *)
Context (tsc overhead : Z).

(** Does nothing. *)
Definition smlt_bench_ctl_init (num_measurements : Z) (c : smlt_bench_ctl) : Z * smlt_bench_ctl :=
  (err_value SMLT_SUCCESS, c).
Definition smlt_bench_ctl_reset (c : smlt_bench_ctl) : smlt_bench_ctl :=
  Ctl (b_data c) tsc 0 0 (b_max_data c) zero_analyzed.
Definition smlt_bench_ctl_start (c : smlt_bench_ctl) : smlt_bench_ctl := b_set_last_tsc tsc c.

Definition smlt_bench_clt_add_value (value : Z) : M smlt_bench_ctl unit := fun c =>
  match arr_set (b_data c) (b_idx c) value with
  | Some d =>
      let i := u32 (b_idx c + 1) in
      (Ret tt, Ctl d (b_last_tsc c) (u32 (b_count c + 1)) (if i =? b_max_data c then 0 else i) (b_max_data c) (b_a c))
  | None => (Undef, c)
  end.
Definition smlt_bench_ctl_add_measurement : M smlt_bench_ctl unit :=
  c ← get;
  _ ← smlt_bench_clt_add_value (u64 (tsc - b_last_tsc c - overhead));
  modify (b_set_last_tsc tsc).
End ctl.

(** [for (i = 0; i < n; i++) s += f(data[i]);] in 64 bits. *)
Fixpoint accum (n : nat) (i : Z) (f : Z -> Z) (data : list Z) (s : Z) : option Z :=
  match n with
  | O => Some s
  | S n' => x ← arr_get data i; accum n' (i + 1) f data (u64 (s + f x))
  end.
(** Division of unsigned integers, undefined for a divisor of 0. *)
Definition udiv (x y : Z) : option Z := if y =? 0 then None else Some (x / y).

Section analysis.
(** [(uint32_t)(count * ignore)] in floating point, and [(cycles_t)sqrt(s)] of libm. *)
Context (scale sqrt : Z -> Z).

Definition smlt_bench_avg : M smlt_bench_ctl unit :=
  c ← get;
  let a := b_a c in
  s ← defined (accum (Z.to_nat (a_count a)) 0 id (b_data c) 0);
  avg ← defined (udiv s (a_count a));
  modify (b_set_a (Analyzed (a_min a) (a_max a) (a_median a) avg (a_stderr a) (a_count a) (a_ignored a) (a_valid a))).

(** [tmp = data[i] - avg; s += tmp * tmp] *)
Definition square_of (avg x : Z) : Z := let tmp := u64 (x - avg) in u64 (tmp * tmp).
Definition smlt_bench_stderr : M smlt_bench_ctl unit :=
  _ ← smlt_bench_avg;
  c ← get;
  let a := b_a c in
  s ← defined (accum (Z.to_nat (a_count a)) 0 (square_of (a_avg a)) (b_data c) 0);
  s ← defined (udiv s (a_count a));
  modify (b_set_a (Analyzed (a_min a) (a_max a) (a_median a) (a_avg a) (sqrt s) (a_count a) (a_ignored a) (a_valid a))).

Definition smlt_bench_ctl_prepare_analysis : M smlt_bench_ctl unit :=
  c ← get;
  let count := if b_max_data c <? b_count c then b_max_data c else b_count c in
  _ ← zoom b_data b_set_data (smlt_bench_sort (Z.to_nat count) 0 count);
  let ignored := scale count in
  let count := u32 (count - ignored) in
  c ← get;
  median ← defined (arr_get (b_data c) (count / 2));
  min ← defined (arr_get (b_data c) 0);
  max ← defined (arr_get (b_data c) (u32 (count - 1)));
  let a := b_a c in
  _ ← modify (b_set_a (Analyzed min max median (a_avg a) (a_stderr a) count ignored (a_valid a)));
  _ ← smlt_bench_stderr;
  modify (fun c => let a := b_a c in
    b_set_a (Analyzed (a_min a) (a_max a) (a_median a) (a_avg a) (a_stderr a) (a_count a) (a_ignored a) true) c).

(** What is printed: count, avg, median, stderr, min, max. *)
Definition smlt_bench_ctl_print_analysis : M smlt_bench_ctl (list Z) :=
  c ← get;
  _ ← (if a_valid (b_a c) then mret tt else smlt_bench_ctl_prepare_analysis);
  c ← get;
  let a := b_a c in
  mret [a_count a; a_avg a; a_median a; a_stderr a; a_min a; a_max a].
Definition smlt_bench_clt_print_data : M smlt_bench_ctl (list Z) :=
  c ← get;
  let count := if b_max_data c <? b_count c then b_max_data c else b_count c in
  _ ← modify (fun c => Ctl (b_data c) (b_last_tsc c) count (b_idx c) (b_max_data c) (b_a c));
  if Z.of_nat (length (b_data c)) <? count then undef else mret (take (Z.to_nat count) (b_data c)).
End analysis.

(** ** [measurement_framework.h] *)
Record sk_measurement := SkM {
  m_buffer : list Z;
  m_last_tsc : Z;
  m_idx : Z;
  m_total : Z;
  m_max : Z;
}.
Definition m_set_last_tsc v m := SkM (m_buffer m) v (m_idx m) (m_total m) (m_max m).

Definition sk_m_get_max (m : sk_measurement) : Z := if m_max m <=? m_total m then m_max m else m_total m.
Definition sk_m_init (tsc max : Z) (buf : list Z) : sk_measurement := SkM buf tsc 0 0 max.
Definition sk_m_reset (tsc : Z) (m : sk_measurement) : sk_measurement := SkM (m_buffer m) tsc 0 0 (m_max m).
Definition sk_m_restart_tsc (tsc : Z) (m : sk_measurement) : sk_measurement := m_set_last_tsc tsc m.
Definition sk_m_add_value (v : Z) : M sk_measurement unit :=
  m ← get;
  _ ← assert_ (m_idx m <? m_max m);
  buf ← defined (arr_set (m_buffer m) (m_idx m) v);
  modify (fun m => SkM buf (m_last_tsc m) (u32 (m_idx m + 1) mod m_max m) (u32 (m_total m + 1)) (m_max m)).
Definition sk_m_add (tsc overhead : Z) : M sk_measurement unit :=
  m ← get;
  _ ← assert_ (m_last_tsc m <? tsc);
  _ ← assert_ (m_idx m <? m_max m);
  buf ← defined (arr_set (m_buffer m) (m_idx m) (u64 (tsc - m_last_tsc m - overhead)));
  modify (fun m => SkM buf tsc (u32 (m_idx m + 1) mod m_max m) (u32 (m_total m + 1)) (m_max m)).
Definition sk_m_sum : M sk_measurement Z :=
  m ← get;
  let max := sk_m_get_max m in
  _ ← assert_ (max <=? m_max m);
  defined (accum (Z.to_nat max) 0 id (m_buffer m) 0).
Definition sk_m_print_const (c : Z) : M sk_measurement (list Z) :=
  m ← get;
  let max := sk_m_get_max m in
  _ ← assert_ (max <=? m_max m);
  if Z.of_nat (length (m_buffer m)) <? max then undef
  else mret ((fun x => u64 (x + c)) <$> take (Z.to_nat max) (m_buffer m)).
Definition sk_m_print : M sk_measurement (list Z) := sk_m_print_const 0.

(** [for] the kept samples: the squared distance to the average. *)
Definition distance_square (avg x : Z) : Z :=
  if avg <? x then u64 ((x - avg) * (x - avg)) else u64 ((avg - x) * (avg - x)).
Section sk_analysis.
(** [sk_m_get_max(m) * SK_M_CUTOFF] in floating point, truncated. *)
Context (cutoff : Z -> Z).
(** What is printed: n, average, variance, minimum, median, maximum. *)
Definition sk_m_print_analysis : M sk_measurement (list Z) :=
  m ← get;
  _ ← zoom m_buffer (fun b m => SkM b (m_last_tsc m) (m_idx m) (m_total m) (m_max m)) (sk_m_sort (sk_m_get_max m));
  m ← get;
  let count := cutoff (sk_m_get_max m) in
  sum ← defined (accum (Z.to_nat count) 0 id (m_buffer m) 0);
  avg ← defined (udiv sum count);
  sum ← defined (accum (Z.to_nat count) 0 (distance_square avg) (m_buffer m) 0);
  var ← defined (udiv sum count);
  lo ← defined (arr_get (m_buffer m) 0);
  med ← defined (arr_get (m_buffer m) (count / 2));
  hi ← defined (arr_get (m_buffer m) (u64 (count - 1)));
  mret [count; avg; var; lo; med; hi].
End sk_analysis.

(** ** The ring *)
Section ring.
Context (N : nat) (HN : (0 < N)%nat) (HN32 : Z.of_nat N < 2 ^ 32).

(** A buffer of [N] slots after the samples [vs]: the newest [N] of them, by slot. *)
Definition ring_holds (buf : list Z) (vs : list Z) : Prop :=
  length buf = N /\
  forall j x, vs !! j = Some x -> (length vs <= j + N)%nat -> buf !! (j mod N)%nat = Some x.

Lemma ring_holds_add buf vs v :
  ring_holds buf vs -> ring_holds (<[(length vs mod N)%nat := v]> buf) (vs ++ [v]).
Proof using HN.
  intros [Hl Hb]. pose proof (ring_lt N HN (length vs)) as Hlt. split; [by rewrite length_insert|].
  intros j x Hj Hn. rewrite length_app in Hn. simpl in Hn.
  destruct (decide (j = length vs)) as [->|Hne].
  - rewrite lookup_snoc_eq in Hj. injection Hj as <-. apply list_lookup_insert_eq. lia.
  - pose proof (lookup_lt_Some _ _ _ Hj) as Hjl. rewrite length_app in Hjl. simpl in Hjl.
    rewrite lookup_snoc_lt in Hj by lia. rewrite list_lookup_insert_ne; [apply Hb; [done|lia]|].
    intros E. apply Hne. symmetry. apply (ring_inj N HN (length vs) j (S (length vs))); lia.
Qed.

(** The samples kept. *)
Definition newest (vs : list Z) : list Z := drop (length vs - N) vs.

(** Before the ring is full its first slots are the samples, then it is a rotation of
    the newest. *)
Lemma ring_holds_newest buf vs :
  ring_holds buf vs -> take (length (newest vs)) buf ≡ₚ newest vs.
Proof using HN.
  clear HN32.
  intros [Hl Hb]. unfold newest. rewrite length_drop.
  destruct (decide (length vs <= N)%nat) as [Hs|Hs].
  - replace (length vs - N)%nat with 0%nat by lia. rewrite Nat.sub_0_r, drop_0.
    assert (E : take (length vs) buf = vs); [|by rewrite E].
    apply list_eq_same_length with (length vs); [done|rewrite length_take; lia|].
    intros i x y Hi Hx Hy. rewrite lookup_take_lt in Hx by lia.
    destruct (decide (length vs = N)).
    + specialize (Hb i y Hy ltac:(lia)). rewrite Nat.mod_small in Hb by lia. congruence.
    + specialize (Hb i y Hy ltac:(lia)). rewrite Nat.mod_small in Hb by lia. congruence.
  - replace (length vs - (length vs - N))%nat with N by lia. rewrite take_ge by lia.
    set (r := (length vs mod N)%nat). pose proof (ring_lt N HN (length vs)) as Hr. fold r in Hr.
    pose proof (Nat.div_mod_eq (length vs) N) as Hdm. fold r in Hdm.
    set (last := drop (length vs - N) vs).
    assert (Hlast : length last = N) by (unfold last; rewrite length_drop; lia).
    assert (E : buf = drop (N - r) last ++ take (N - r) last).
    { apply list_eq_same_length with N; [rewrite length_app, length_drop, length_take; lia|done|].
      intros i x y Hi Hx Hy.
      assert (Hj : exists j, vs !! j = Some y /\ (length vs <= j + N)%nat /\ (j mod N = i)%nat).
      { destruct (decide (i < r)%nat) as [D|D].
        - rewrite lookup_app_l in Hy by (rewrite length_drop; lia).
          unfold last in Hy. rewrite !lookup_drop in Hy.
          eexists. split; [exact Hy|]. split; [lia|].
          replace (length vs - N + (N - r + i))%nat with (i + (length vs / N) * N)%nat by lia.
          rewrite Nat.Div0.mod_add. apply Nat.mod_small. lia.
        - rewrite lookup_app_r in Hy by (rewrite length_drop; lia).
          rewrite length_drop, Hlast, lookup_take_lt in Hy by lia. unfold last in Hy. rewrite lookup_drop in Hy.
          eexists. split; [exact Hy|]. split; [lia|].
          assert (Hq : (1 <= length vs / N)%nat) by (apply Nat.div_le_lower_bound; lia).
          replace (length vs - N + (i - (N - (N - r))))%nat
            with (i + (length vs / N - 1) * N)%nat by nia.
          rewrite Nat.Div0.mod_add. apply Nat.mod_small. lia. }
      destruct Hj as (j & Hj & Hn & Hm). specialize (Hb j y Hj Hn). rewrite Hm in Hb. congruence. }
    rewrite E. by rewrite (Permutation_app_comm _ (take _ _)), take_drop.
Qed.

(** Adding samples to a control structure. *)
Record ctl_holds (c : smlt_bench_ctl) (vs : list Z) : Prop := {
  ch_ring : ring_holds (b_data c) vs;
  ch_count : b_count c = u32 (Z.of_nat (length vs));
  ch_idx : b_idx c = Z.of_nat (length vs mod N);
  ch_max : b_max_data c = Z.of_nat N;
}.

Lemma add_value_run c vs v :
  ctl_holds c vs -> exists c', smlt_bench_clt_add_value v c = (Ret tt, c') /\ ctl_holds c' (vs ++ [v]).
Proof using HN HN32.
  intros [Hr Hc Hi Hm]. pose proof (ring_lt N HN (length vs)) as Hlt.
  unfold smlt_bench_clt_add_value. rewrite Hi. destruct Hr as [Hl Hb].
  rewrite arr_set_nat by lia. eexists. split; [reflexivity|].
  split; simpl; rewrite ?length_app; simpl; rewrite ?Nat.add_1_r.
  - by apply ring_holds_add.
  - rewrite Hc, wrap_add_l by lia. f_equal. lia.
  - destruct (ring_next N HN (length vs)) as [E _]. rewrite E, Hm, wrap_small by lia.
    destruct (Z.eqb_spec (Z.of_nat (length vs mod N) + 1) (Z.of_nat N)); case_decide; lia.
  - done.
Qed.

Definition add_values (vs : list Z) : M smlt_bench_ctl unit :=
  fold_right (fun v m => _ ← smlt_bench_clt_add_value v; m) (mret tt) vs.
Lemma add_values_run vs : forall c ws,
  ctl_holds c ws -> exists c', add_values vs c = (Ret tt, c') /\ ctl_holds c' (ws ++ vs).
Proof using HN HN32.
  induction vs as [|v vs IH]; intros c ws Hc; simpl.
  - exists c. by rewrite app_nil_r.
  - destruct (add_value_run c ws v Hc) as (c1 & E1 & H1). rewrite (bind_ret _ _ _ _ _ E1).
    destruct (IH c1 _ H1) as (c2 & E2 & H2). exists c2. by rewrite <- app_assoc in H2.
Qed.

Lemma reset_holds tsc c :
  length (b_data c) = N -> b_max_data c = Z.of_nat N -> ctl_holds (smlt_bench_ctl_reset tsc c) [].
Proof using HN HN32.
  intros Hl Hm. split; simpl; [by split|done| |done]. by rewrite Nat.Div0.mod_0_l.
Qed.

(** The ring of the older framework holds the same samples. *)
Record skm_holds (m : sk_measurement) (vs : list Z) : Prop := {
  sh_ring : ring_holds (m_buffer m) vs;
  sh_idx : m_idx m = Z.of_nat (length vs mod N);
  sh_max : m_max m = Z.of_nat N;
}.
Lemma sk_add_value_run m vs v :
  skm_holds m vs -> exists m', sk_m_add_value v m = (Ret tt, m') /\ skm_holds m' (vs ++ [v]).
Proof using HN HN32.
  intros [Hr Hi Hm]. pose proof (ring_lt N HN (length vs)) as Hlt. pose proof (proj1 Hr) as Hl.
  unfold sk_m_add_value, get, assert_, modify, mbind, M_bind. rewrite Hi, Hm.
  destruct (Z.ltb_spec (Z.of_nat (length vs mod N)) (Z.of_nat N)); [|lia]. simpl.
  rewrite arr_set_nat by lia. simpl. eexists. split; [reflexivity|].
  split; simpl; rewrite ?length_app; simpl; rewrite ?Nat.add_1_r.
  - by apply ring_holds_add.
  - rewrite Hi, Hm, wrap_small by lia. destruct (ring_next N HN (length vs)) as [E _]. rewrite E.
    case_decide as D.
    + replace (Z.of_nat (length vs mod N) + 1) with (Z.of_nat N) by lia. by rewrite Z.mod_same by lia.
    + rewrite Z.mod_small by lia. lia.
  - done.
Qed.
End ring.

(** ** The statistics *)
Definition zsum (l : list Z) : Z := foldr Z.add 0 l.

Lemma zsum_cons x l : zsum (x :: l) = x + zsum l.
Proof. done. Qed.
Lemma zsum_app l1 l2 : zsum (l1 ++ l2) = zsum l1 + zsum l2.
Proof. unfold zsum. induction l1 as [|x l1 IH]; simpl; [done|]. rewrite IH. lia. Qed.
Lemma zsum_bounds lo hi l :
  Forall (fun x => lo <= x <= hi) l ->
  lo * Z.of_nat (length l) <= zsum l <= hi * Z.of_nat (length l).
Proof.
  unfold zsum. induction 1 as [|x l Hx _ IH]; [simpl; lia|].
  rewrite length_cons, Nat2Z.inj_succ. simpl. nia.
Qed.

Lemma accum_run f data n : forall i s,
  (i + n <= length data)%nat ->
  accum n (Z.of_nat i) f data (u64 s) = Some (u64 (s + zsum (f <$> take n (drop i data)))).
Proof.
  induction n as [|n IH]; intros i s Hl; simpl; [by rewrite Z.add_0_r|].
  destruct (lookup_lt_is_Some_2 data i ltac:(lia)) as [x Hx]. rewrite arr_get_nat, Hx. simpl.
  rewrite wrap_add_l by lia. replace (Z.of_nat i + 1) with (Z.of_nat (S i)) by lia.
  rewrite IH by lia. rewrite (drop_lookup_cons _ _ _ Hx). unfold zsum. simpl. by rewrite Z.add_assoc.
Qed.

(** In 64 bits it does not matter that the differences wrap below 0. *)
Lemma zsum_squares avg l :
  u64 (zsum (square_of avg <$> l)) = u64 (zsum ((fun x => (x - avg) ^ 2) <$> l)).
Proof.
  induction l as [|x l IH]; [done|]. rewrite !fmap_cons, !zsum_cons.
  rewrite <- wrap_add_r, IH, wrap_add_r by lia. unfold square_of.
  rewrite wrap_add_l by lia. rewrite <- wrap_add_l by lia.
  assert (E : u64 (u64 (x - avg) * u64 (x - avg)) = u64 ((x - avg) * (x - avg))).
  { unfold wrap. by rewrite <- Zmult_mod. }
  rewrite E, wrap_add_l by lia. by rewrite Z.pow_2_r.
Qed.

Section analysis_ok.
Context (scale sqrt : Z -> Z).

(** The statistics of the [k] smallest of the samples [s], in order. *)
Definition analyzed (s : list Z) (k : nat) : smlt_bench_analyzed :=
  let kept := take k s in
  let avg := u64 (zsum kept) / Z.of_nat k in
  Analyzed (s !!! 0%nat) (s !!! (k - 1)%nat) (s !!! (k / 2)%nat) avg
    (sqrt (u64 (zsum ((fun x => (x - avg) ^ 2) <$> kept)) / Z.of_nat k))
    (Z.of_nat k) (Z.of_nat (length s - k)) true.

Lemma stderr_run c k :
  (0 < k)%nat -> (k <= length (b_data c))%nat -> a_count (b_a c) = Z.of_nat k ->
  let kept := take k (b_data c) in
  let avg := u64 (zsum kept) / Z.of_nat k in
  let a := b_a c in
  smlt_bench_stderr sqrt c = (Ret tt, b_set_a (Analyzed (a_min a) (a_max a) (a_median a) avg
    (sqrt (u64 (zsum ((fun x => (x - avg) ^ 2) <$> kept)) / Z.of_nat k)) (a_count a) (a_ignored a) (a_valid a)) c).
Proof using Type.
  intros Hk Hl Hc kept avg a. unfold smlt_bench_stderr, smlt_bench_avg, get, modify, udiv, mbind, M_bind.
  rewrite Hc, Nat2Z.id. simpl.
  change 0 with (Z.of_nat 0) at 1. change 0 with (u64 0) at 1. rewrite accum_run by done.
  rewrite drop_0, list_fmap_id, Z.add_0_l. simpl.
  destruct (Z.eqb_spec (Z.of_nat k) 0); [lia|]. simpl. rewrite ?Hc, Nat2Z.id. fold kept. fold avg.
  change 0 with (Z.of_nat 0) at 1. change 0 with (u64 0) at 1. rewrite accum_run by done.
  rewrite drop_0, Z.add_0_l, zsum_squares. fold kept. simpl.
  destruct (Z.eqb_spec (Z.of_nat k) 0); [lia|]. unfold a. by rewrite ?Hc.
Qed.

Lemma prepare_run c k m s :
  b_max_data c = Z.of_nat (length (b_data c)) ->
  (if b_max_data c <? b_count c then b_max_data c else b_count c) = Z.of_nat m ->
  (m <= length (b_data c))%nat -> Z.of_nat m < 2 ^ 32 -> take m (b_data c) ≡ₚ s ->
  (0 < k <= m)%nat -> scale (Z.of_nat m) = Z.of_nat (m - k) ->
  exists c', smlt_bench_ctl_prepare_analysis scale sqrt c = (Ret tt, c') /\
    b_a c' = analyzed (merge_sort Z.le s) k.
Proof using Type.
  intros Hmax Hm Hlen H32 Hs Hk Hsc. unfold smlt_bench_ctl_prepare_analysis.
  rewrite (bind_ret get _ c c c eq_refl). cbv beta zeta. rewrite Hm, Nat2Z.id, Hsc.
  destruct (bench_sort_run m 0 m (b_data c) ltac:(lia) Hlen H32) as (l & E & R & S).
  change (Z.of_nat 0) with 0 in E. pose proof (rearr_len _ _ _ _ R) as Hl.
  pose proof (sorted_is_merge_sort m _ l s Hlen R S Hs) as Hsort.
  assert (Hms : length (merge_sort Z.le s) = m) by (rewrite <- Hsort; apply length_take_le; lia).
  assert (Hat : forall i, (i < m)%nat -> l !! i = Some (merge_sort Z.le s !!! i)).
  { intros i Hi. rewrite <- Hsort, lookup_total_take_lt by done. apply lookup_total_at. lia. }
  unfold zoom at 1, mbind at 1, M_bind at 1. rewrite E.
  set (c1 := b_set_data l c). unfold get, modify, mbind, M_bind. simpl.
  replace (Z.of_nat m - Z.of_nat (m - k)) with (Z.of_nat k) by lia. rewrite (wrap_small 32 (Z.of_nat k)) by lia.
  replace (Z.of_nat k / 2) with (Z.of_nat (k / 2)) by (by rewrite Nat2Z.inj_div).
  pose proof (Nat.div_lt k 2 ltac:(lia) ltac:(lia)) as Hhalf.
  replace (Z.of_nat k - 1) with (Z.of_nat (k - 1)) by lia. rewrite (wrap_small 32 (Z.of_nat (k - 1))) by lia.
  rewrite !arr_get_nat, !Hat by lia. change 0 with (Z.of_nat 0). rewrite arr_get_nat, Hat by lia. simpl.
  erewrite stderr_run; [|exact (proj1 Hk)|simpl; lia|reflexivity].
  eexists. split; [reflexivity|]. unfold analyzed. simpl. rewrite Hms.
  assert (Hkept : take k l = take k (merge_sort Z.le s)) by (rewrite <- Hsort, take_take; f_equal; lia).
  by rewrite Hkept.
Qed.

(** The statistics are in order, and without overflow the average lies between them. *)
Lemma analyzed_order s k :
  (0 < k <= length s)%nat -> let a := analyzed (merge_sort Z.le s) k in
  a_min a <= a_median a <= a_max a /\
  (zsum (take k (merge_sort Z.le s)) < 2 ^ 64 -> 0 <= a_min a -> a_min a <= a_avg a <= a_max a).
Proof using Type.
  intros Hk a. set (l := merge_sort Z.le s).
  assert (Hl : length l = length s) by apply Permutation_length, merge_sort_Permutation.
  assert (Hs : forall t u, (t <= u < length s)%nat -> l !!! t <= l !!! u).
  { intros t u Htu. rewrite <- Hl in Htu. apply (strong_seg_sorted l); [|done].
    apply StronglySorted_merge_sort; apply _. }
  pose proof (Nat.div_lt k 2 ltac:(lia) ltac:(lia)) as Hhalf.
  unfold a, analyzed. cbn [a_min a_max a_median a_avg]. fold l. split; [split; apply Hs; lia|]. intros H64 H0.
  assert (Hb : Forall (fun x => l !!! 0%nat <= x <= l !!! (k - 1)%nat) (take k l)).
  { apply Forall_lookup. intros i x Hx. pose proof (lookup_lt_Some _ _ _ Hx) as Hi.
    rewrite length_take in Hi. rewrite lookup_take_lt in Hx by lia.
    apply list_lookup_total_correct in Hx. rewrite <- Hx. split; apply Hs; lia. }
  apply zsum_bounds in Hb. rewrite length_take_le in Hb by lia.
  rewrite wrap_small by nia. split.
  - apply Z.div_le_lower_bound; lia.
  - apply Z.div_le_upper_bound; lia.
Qed.
End analysis_ok.

(** [C39] What a series of measurements reports: after a reset, [vs] samples in a ring of
    [N] slots are analysed without leaving the buffer; the statistics are those of the
    newest samples the ring holds, all of them or the last [N], in sorted order and
    without the largest [ig] of them, the deviation being right although differences below the
    average wrap around.  They are in order, and if the sum fits in 64 bits the average
    lies between minimum and maximum. *)
Theorem bench_analysis N c tsc vs scale sqrt ig :
  (0 < N)%nat -> Z.of_nat N < 2 ^ 32 -> Z.of_nat (length vs) < 2 ^ 32 ->
  length (b_data c) = N -> b_max_data c = Z.of_nat N ->
  let last := newest N vs in
  (ig < length last)%nat -> scale (Z.of_nat (length last)) = Z.of_nat ig ->
  let k := (length last - ig)%nat in
  exists c1 c2, add_values vs (smlt_bench_ctl_reset tsc c) = (Ret tt, c1) /\
    smlt_bench_ctl_prepare_analysis scale sqrt c1 = (Ret tt, c2) /\
    let a := b_a c2 in
    a = analyzed sqrt (merge_sort Z.le last) k /\
    a_min a <= a_median a <= a_max a /\
    (zsum (take k (merge_sort Z.le last)) < 2 ^ 64 -> 0 <= a_min a -> a_min a <= a_avg a <= a_max a).
Proof.
  intros HN HN32 Hvs Hl Hmax last Hig Hsc k.
  destruct (add_values_run N HN HN32 vs _ [] (reset_holds N HN HN32 tsc c Hl Hmax)) as (c1 & E1 & H).
  simpl in H. destruct H as [Hr Hc Hi Hm].
  assert (Hll : length last = (length vs `min` N)%nat) by (unfold last, newest; rewrite length_drop; lia).
  destruct (prepare_run scale sqrt c1 k (length last) last) as (c2 & E2 & Ea).
  - by rewrite (proj1 Hr).
  - rewrite Hm, Hc, wrap_small by lia. destruct (Z.ltb_spec (Z.of_nat N) (Z.of_nat (length vs))); lia.
  - rewrite (proj1 Hr). lia.
  - lia.
  - by apply ring_holds_newest.
  - lia.
  - rewrite Hsc. lia.
  - exists c1, c2. split; [done|]. split; [done|]. split; [done|]. rewrite Ea. apply analyzed_order. lia.
Qed.

Lemma bench_analysis_witness :
  exists c1 c2, add_values [9; 4; 7; 5; 6] (smlt_bench_ctl_reset 100 (Ctl [0; 0; 0] 0 7 1 3 zero_analyzed)) = (Ret tt, c1) /\
    smlt_bench_ctl_prepare_analysis (fun _ => 1) id c1 = (Ret tt, c2) /\
    a_min (b_a c2) = 5 /\ a_max (b_a c2) = 6 /\ a_avg (b_a c2) = 5.
Proof.
  destruct (bench_analysis 3 (Ctl [0; 0; 0] 0 7 1 3 zero_analyzed) 100 [9; 4; 7; 5; 6] (fun _ => 1) id 1)
    as (c1 & c2 & E1 & E2 & Ea & _); [lia|lia|simpl; lia|done|done|simpl; lia|done|].
  exists c1, c2. split; [exact E1|]. split; [exact E2|]. rewrite Ea. by vm_compute.
Defined.
